(** * stocktinker: the [Stock] class of [stocktinker/stock.py]

    A shallow embedding of the caching, loading, ratio-derivation and
    growth-estimation code of [Stock], and the properties of it that the
    specification states.

    Conventions of the embedding.
    - A Python/numpy [float] is an extended real: [NaN], the two infinities
      and the finite reals; the binary64 numbers are the finite ones that
      rounding to 53 bits leaves as they are.  Arithmetic follows
      IEEE-754 on these four classes (what numpy computes with warnings
      switched to values); the sign of zero is left out.
    - The operations [fadd], [fsub], [fmul] and [fdiv] give the real
      result, before it is rounded.  They are the element-wise arithmetic
      of the derivation steps (the per-share values, the debt sums and
      ratios, the P/E of the last row) and of the projections of
      earnings and dividends.
    - The operations [fadd64], [fsub64], [fmul64] and [fdiv64] round
      their operands and their result to binary64 (to nearest, a tie to
      the even one, an overflow to an infinity), so that a column made by
      one unrounded operation is read as numpy holds it.  They are the
      arithmetic wherever a property depends on the digits of a result:
      the fractional change, the logarithmic weights ([np.log] rounds
      the real logarithm), the sums in numpy's order of summation, the
      weighted average, the median, the rounding to two decimals and the
      growth multiple of the target P/E.
    - A pandas [Series] is a list of (label, value) pairs, a [DataFrame] an
      index with an ordered list of named columns.  Labels are dates,
      counted in days.
    - A method of [Stock] is a function in the monad [M]: it takes the
      program state (the object's attributes, the files, the clock, the
      remote server) and returns a value or a raised exception, with the
      state it leaves.
    - The functions of numpy and pandas that the methods call
      ([np.log], [np.sum], [np.average], [np.median], [pct_change],
      [dropna], [get_loc], the alignment of series on their index) are
      embedded by what they compute on the data above. *)

From Stdlib Require Import Reals Lra Lia ZArith List String Ascii Bool.
From Stdlib Require Import Permutation Sorted.
Import ListNotations.

(* ================================================================= *)
(** ** Exceptions *)

Inductive exn : Type :=
| KeyError (key : string)
| NameError (name : string)
| ZeroDivisionError
| MorningStarPriceError
| URLError
| IndexError
| InvalidIndexError
| AttributeError
| TypeError
| ValueError.

Inductive result (A : Type) : Type :=
| Ok (a : A)
| Raise (e : exn).

Arguments Ok {A} a.
Arguments Raise {A} e.

Definition rbind {A B} (r : result A) (f : A -> result B) : result B :=
  match r with
  | Ok a => f a
  | Raise e => Raise e
  end.

(* ================================================================= *)
(** ** Floating-point values *)

Inductive float : Type :=
| NaN
| PInf
| NInf
| Fin (r : R).

(** The sign of a real, as a [comparison] with zero. *)
Definition Rsign (x : R) : comparison :=
  match total_order_T x 0 with
  | inleft (left _) => Lt
  | inleft (right _) => Eq
  | inright _ => Gt
  end.

Definition fsign (x : float) : option comparison :=
  match x with
  | NaN => None
  | PInf => Some Gt
  | NInf => Some Lt
  | Fin r => Some (Rsign r)
  end.

(** The infinity of a given sign; a product or quotient whose sign is
    undetermined (zero times infinity, zero over zero) is [NaN]. *)
Definition inf_of (c : comparison) : float :=
  match c with
  | Gt => PInf
  | Lt => NInf
  | Eq => NaN
  end.

Definition sign_mul (a b : comparison) : comparison :=
  match a, b with
  | Eq, _ | _, Eq => Eq
  | Gt, Gt | Lt, Lt => Gt
  | Gt, Lt | Lt, Gt => Lt
  end.

Definition fopp (x : float) : float :=
  match x with
  | NaN => NaN
  | PInf => NInf
  | NInf => PInf
  | Fin r => Fin (- r)
  end.

Definition fadd (x y : float) : float :=
  match x, y with
  | NaN, _ | _, NaN => NaN
  | Fin a, Fin b => Fin (a + b)
  | PInf, NInf | NInf, PInf => NaN
  | PInf, _ | _, PInf => PInf
  | NInf, _ | _, NInf => NInf
  end.

Definition fsub (x y : float) : float := fadd x (fopp y).

Definition fmul (x y : float) : float :=
  match x, y with
  | Fin a, Fin b => Fin (a * b)
  | _, _ =>
      match fsign x, fsign y with
      | Some a, Some b => inf_of (sign_mul a b)
      | _, _ => NaN
      end
  end.

Definition fdiv (x y : float) : float :=
  match x, y with
  | NaN, _ | _, NaN => NaN
  | Fin a, Fin b =>
      match Rsign b with
      | Eq => inf_of (Rsign a)
      | _ => Fin (a / b)
      end
  | Fin _, _ => Fin 0
  | PInf, Fin b => match Rsign b with Lt => NInf | _ => PInf end
  | NInf, Fin b => match Rsign b with Lt => PInf | _ => NInf end
  | _, _ => NaN
  end.

(** [x < y]; every comparison with [NaN] is false. *)
Definition flt (x y : float) : bool :=
  match x, y with
  | NaN, _ | _, NaN => false
  | Fin a, Fin b => if Rlt_dec a b then true else false
  | NInf, NInf => false
  | NInf, _ => true
  | _, NInf => false
  | PInf, _ => false
  | _, PInf => true
  end.

(** [x == y] *)
Definition feqb (x y : float) : bool :=
  match x, y with
  | Fin a, Fin b => if Req_dec_T a b then true else false
  | PInf, PInf | NInf, NInf => true
  | _, _ => false
  end.

(** [pandas.isna] on a float: only [NaN] is missing. *)
Definition isna (x : float) : bool :=
  match x with
  | NaN => true
  | _ => false
  end.

(** Rounding of a real to the nearest integer, a tie going to the even
    one ([numpy.rint]). *)
Definition rint (r : R) : Z :=
  let f := Int_part r in
  let d := (r - IZR f)%R in
  if Rlt_dec d (1 / 2) then f
  else if Rlt_dec (1 / 2) d then (f + 1)%Z
  else if Z.even f then f else (f + 1)%Z.

(** *** Rounding to binary64

    A binary64 number is an integer of at most 53 bits times a power of
    two, from [2^-1074] on.  A real is rounded to the nearest of them, a
    tie going to the even one; from [2^1024] on the result is an
    infinity. *)

Definition bpow (e : Z) : R := powerRZ 2 e.

(** The binade of a real: the [e] with [2^e <= |x| < 2^(e+1)]. *)
Definition mag (x : R) : Z := Int_part (ln (Rabs x) / ln 2).

(** The exponent of the unit in the last place of the numbers of the
    binade of [x]; below [2^-1022] the numbers are [2^-1074] apart. *)
Definition ulp_exp (x : R) : Z := (Z.max (mag x) (-1022) - 52)%Z.

Definition b64r (x : R) : R :=
  (IZR (rint (x / bpow (ulp_exp x))) * bpow (ulp_exp x))%R.

Definition b64 (x : R) : float :=
  if Rle_dec (bpow 1024) (b64r x) then PInf
  else if Rle_dec (b64r x) (- bpow 1024) then NInf
  else Fin (b64r x).

Arguments bpow : simpl never.
Arguments b64r : simpl never.
Arguments b64 : simpl never.

(** The finite binary64 numbers. *)
Definition binary64 (r : R) : Prop := b64 r = Fin r.

(** The binary64 value of a float of the embedding. *)
Definition f64 (x : float) : float :=
  match x with
  | Fin r => b64 r
  | _ => x
  end.

(** The four operations of binary64: the exact result of the operation
    on the binary64 values of the operands, rounded. *)
Definition fadd64 (x y : float) : float := f64 (fadd (f64 x) (f64 y)).
Definition fsub64 (x y : float) : float := f64 (fsub (f64 x) (f64 y)).
Definition fmul64 (x y : float) : float := f64 (fmul (f64 x) (f64 y)).
Definition fdiv64 (x y : float) : float := f64 (fdiv (f64 x) (f64 y)).

(** [numpy.log], with the real logarithm rounded to the nearest binary64
    number.  (The logarithm of the C library can differ from it in the
    last bit; the properties below use of a weight that it is zero for a
    sum of 1, and otherwise its sign and its range.) *)
Definition np_log (x : float) : float :=
  match f64 x with
  | NaN | NInf => NaN
  | PInf => PInf
  | Fin r =>
      match Rsign r with
      | Gt => b64 (ln r)
      | Eq => NInf
      | Lt => NaN
      end
  end.

(** [numpy.rint] *)
Definition np_rint (x : float) : float :=
  match x with
  | Fin r => Fin (IZR (rint r))
  | _ => x
  end.

(** [round(x, 2)] on a [numpy.float64]: scale by 100, round to an
    integer, scale back, each of the two scalings a binary64
    operation. *)
Definition round2 (x : float) : float :=
  fdiv64 (np_rint (fmul64 x (Fin 100))) (Fin 100).

(* ================================================================= *)
(** ** Series and data frames *)

(** A date, in days. *)
Definition label := Z.

Definition series := list (label * float).

Record table : Type := mkTable {
  index : list label;
  columns : list (string * list float)
}.

(** [pd.DataFrame()] *)
Definition empty_frame : table := mkTable [] [].

(** [df.empty]: an axis of length zero. *)
Definition empty (df : table) : bool :=
  (Nat.eqb (List.length (index df)) 0
   || Nat.eqb (List.length (columns df)) 0)%bool.

Fixpoint assoc {A} (k : string) (l : list (string * A)) : option A :=
  match l with
  | [] => None
  | (k', v) :: l' => if String.eqb k k' then Some v else assoc k l'
  end.

(** [key in df] *)
Definition contains (df : table) (key : string) : bool :=
  match assoc key (columns df) with
  | Some _ => true
  | None => false
  end.

(** [df[key]] *)
Definition getitem (df : table) (key : string) : result series :=
  match assoc key (columns df) with
  | Some vs => Ok (combine (index df) vs)
  | None => Raise (KeyError key)
  end.

Fixpoint lookup_label (l : label) (s : series) : option float :=
  match s with
  | [] => None
  | (l', v) :: s' => if Z.eqb l l' then Some v else lookup_label l s'
  end.

(** [idx1.equals(idx2)] *)
Fixpoint same_index (i1 i2 : list label) : bool :=
  match i1, i2 with
  | [], [] => true
  | l1 :: i1', l2 :: i2' => (Z.eqb l1 l2 && same_index i1' i2')%bool
  | _, _ => false
  end.

(** The values of [s] on the labels [idx]: a label [s] lacks gets [NaN].
    (Labels are taken to be unique within a series.) *)
Definition reindex (idx : list label) (s : series) : list float :=
  if same_index (map fst s) idx then map snd s
  else map (fun l => match lookup_label l s with
                     | Some v => v
                     | None => NaN
                     end) idx.

Fixpoint set_assoc {A} (k : string) (v : A) (l : list (string * A))
  : list (string * A) :=
  match l with
  | [] => [(k, v)]
  | (k', v') :: l' =>
      if String.eqb k k' then (k, v) :: l' else (k', v') :: set_assoc k v l'
  end.

(** [df[key] = s]: the column is replaced where it stands, or added last;
    the values are aligned on the frame's index. *)
Definition setitem (df : table) (key : string) (s : series) : table :=
  mkTable (index df) (set_assoc key (reindex (index df) s) (columns df)).

(** [s.dropna()] *)
Definition dropna (s : series) : series :=
  filter (fun p => negb (isna (snd p))) s.

(** [s.fillna(method='pad')]: a missing value takes the last value seen
    before it; [last] is that value. *)
Fixpoint ffill_from (last : float) (vs : list float) : list float :=
  match vs with
  | [] => []
  | v :: vs' =>
      let v' := if isna v then last else v in
      v' :: ffill_from v' vs'
  end.

Definition ffill (vs : list float) : list float := ffill_from NaN vs.

(** [s.shift(1)] on the values: the first value is missing, the last one
    falls off. *)
Definition shift (vs : list float) : list float :=
  match vs with
  | [] => []
  | _ => NaN :: removelast vs
  end.

Fixpoint zip_with {A B C} (f : A -> B -> C) (l1 : list A) (l2 : list B)
  : list C :=
  match l1, l2 with
  | a :: l1', b :: l2' => f a b :: zip_with f l1' l2'
  | _, _ => []
  end.

(** *** Summation

    [numpy.sum] of a one-dimensional array of floats adds to 0.0 the
    pairwise sum of the elements, numpy's [pairwise_sum]:
    - fewer than eight elements are added one after the other;
    - up to 128 elements are added in eight interleaved partial sums (the
      first eight elements, to which the following groups of eight are
      added), the eight are added in pairs, and the elements after the
      last full group of eight are added one after the other;
    - a longer array is cut near its middle, at a multiple of eight, and
      the pairwise sums of the two parts are added. *)

(** The groups of eight that follow the first one, added to the eight
    partial sums [r]; with the elements that are left. *)
Fixpoint add_lanes (groups : nat) (r l : list float)
  : list float * list float :=
  match groups with
  | O => (r, l)
  | S g => add_lanes g (zip_with fadd64 r (firstn 8 l)) (skipn 8 l)
  end.

Definition block_sum (l : list float) : float :=
  match add_lanes (Nat.div (List.length l) 8 - 1) (firstn 8 l) (skipn 8 l) with
  | ([r0; r1; r2; r3; r4; r5; r6; r7], rest) =>
      fold_left fadd64 rest
        (fadd64 (fadd64 (fadd64 r0 r1) (fadd64 r2 r3))
                (fadd64 (fadd64 r4 r5) (fadd64 r6 r7)))
  | _ => NaN
  end.

(** The recursion halves the array; [fuel], the number of halvings
    allowed, is the length of the array in [pairwise_sum]. *)
Fixpoint pairwise_sum_rec (fuel : nat) (l : list float) : float :=
  let n := List.length l in
  if Nat.ltb n 8 then fold_left fadd64 l (Fin 0)
  else if Nat.leb n 128 then block_sum l
  else
    match fuel with
    | O => NaN
    | S f =>
        let n2 := (Nat.div n 2 - Nat.modulo (Nat.div n 2) 8)%nat in
        fadd64 (pairwise_sum_rec f (firstn n2 l))
               (pairwise_sum_rec f (skipn n2 l))
    end.

Definition pairwise_sum (l : list float) : float :=
  pairwise_sum_rec (List.length l) l.

(** [numpy.sum]; the sum of no element is 0.0. *)
Definition np_sum (l : list float) : float :=
  fadd64 (Fin 0) (pairwise_sum l).

(** [s.pct_change()], with the defaults of its signature in the pandas
    that has [get_loc(..., method='nearest')] (before 2.0), [periods=1]
    and [fill_method='pad']: [data / data.shift(1) - 1] on the padded
    values. *)
Definition pct_change_values (vs : list float) : list float :=
  let data := ffill vs in
  map (fun q => fsub64 q (Fin 1)) (zip_with fdiv64 data (shift data)).

Definition pct_change (s : series) : series :=
  combine (map fst s) (pct_change_values (map snd s)).

(** Insertion of a label in a sorted list of distinct labels. *)
Fixpoint insert_label (l : label) (ls : list label) : list label :=
  match ls with
  | [] => [l]
  | l' :: ls' =>
      if (l <? l')%Z then l :: ls
      else if (l =? l')%Z then ls
      else l' :: insert_label l ls'
  end.

(** The sorted union of two indexes. *)
Definition union_index (i1 i2 : list label) : list label :=
  fold_right insert_label [] (i1 ++ i2).

(** A binary operation on two series.  Two series on the same index are
    combined value by value; otherwise both are aligned on the sorted union
    of their labels first. *)
Definition series_op (f : float -> float -> float) (s1 s2 : series)
  : series :=
  let i1 := map fst s1 in
  let i2 := map fst s2 in
  if same_index i1 i2 then
    combine i1 (zip_with f (map snd s1) (map snd s2))
  else
    let u := union_index i1 i2 in
    combine u (zip_with f (reindex u s1) (reindex u s2)).

(** A series and a scalar. *)
Definition series_scalar (f : float -> float -> float) (s : series)
  (c : float) : series :=
  map (fun p => (fst p, f (snd p) c)) s.

(** [df.loc[i, key]] for a label [i] that occurs once. *)
Definition loc_get (df : table) (i : label) (key : string) : result float :=
  rbind (getitem df key) (fun s =>
    match lookup_label i s with
    | Some v => Ok v
    | None => Raise (KeyError key)
    end).

(** [df.loc[i, key] = v] for an existing column: every row labelled [i]
    is set. *)
Definition loc_set (df : table) (i : label) (key : string) (v : float)
  : result table :=
  rbind (getitem df key) (fun s =>
    Ok (setitem df key
          (map (fun p => if Z.eqb (fst p) i then (fst p, v) else p) s))).

(** [df.iloc[pos][key]] *)
Definition iloc_get (df : table) (pos : nat) (key : string) : result float :=
  if Nat.ltb pos (List.length (index df)) then
    rbind (getitem df key) (fun s =>
      match nth_error s pos with
      | Some p => Ok (snd p)
      | None => Raise IndexError
      end)
  else Raise IndexError.

(* ================================================================= *)
(** ** The program state *)

(** What a cached csv file holds, seen through the loader that reads it:
    nothing ([pd.errors.EmptyDataError]), something the loader cannot
    process (any other exception in its [try] block), or the data frame
    that the [try] block builds from it.  The statement loader labels the
    trailing-twelve-months column of a file with the month of the day it
    reads it; the embedding leaves the day of the read out of the frame,
    and no property below compares the frames of two reads of a file. *)
Inductive export : Type :=
| EmptyExport
| Malformed
| Parsed (df : table).

Record file : Type := mkFile {
  mtime : Z;
  content : export
}.

(** The attributes of a [Stock] that the embedded methods use. *)
Record Stock : Type := mkStock {
  symbol : string;
  force_update : bool;
  revenue_growth_log_shift : float;
  _income : option table;
  _cashflow : option table;
  _balancesheet : option table;
  _ratios : option table;
  _historic_prices : option table;
  _target_pe : option float;
  _estimated_growth : option float;
  error_log : list string
}.

(** What lies outside the object: the data directory, the clock (in
    seconds), the files with their modification times, what the remote
    server answers to a url ([None]: it gives no answer, the retrieval
    fails), and the urls retrieved so far, the latest first. *)
Record World : Type := mkWorld {
  morningstar_data_path : string;
  clock : Z;
  files : list (string * file);
  remote : string -> option export;
  requests : list string
}.

Record State : Type := mkState {
  self : Stock;
  world : World
}.

(** [Stock.__init__] *)
Definition Stock_init (symbol : string) (force_update : bool)
  (revenue_growth_log_shift : float) : Stock :=
  mkStock symbol force_update revenue_growth_log_shift
    None None None None None None None [].

Definition set_force_update (b : bool) (o : Stock) : Stock :=
  mkStock (symbol o) b (revenue_growth_log_shift o) (_income o)
    (_cashflow o) (_balancesheet o) (_ratios o) (_historic_prices o)
    (_target_pe o) (_estimated_growth o) (error_log o).

Definition set_income (v : option table) (o : Stock) : Stock :=
  mkStock (symbol o) (force_update o) (revenue_growth_log_shift o) v
    (_cashflow o) (_balancesheet o) (_ratios o) (_historic_prices o)
    (_target_pe o) (_estimated_growth o) (error_log o).

Definition set_cashflow (v : option table) (o : Stock) : Stock :=
  mkStock (symbol o) (force_update o) (revenue_growth_log_shift o)
    (_income o) v (_balancesheet o) (_ratios o) (_historic_prices o)
    (_target_pe o) (_estimated_growth o) (error_log o).

Definition set_balancesheet (v : option table) (o : Stock) : Stock :=
  mkStock (symbol o) (force_update o) (revenue_growth_log_shift o)
    (_income o) (_cashflow o) v (_ratios o) (_historic_prices o)
    (_target_pe o) (_estimated_growth o) (error_log o).

Definition set_ratios (v : option table) (o : Stock) : Stock :=
  mkStock (symbol o) (force_update o) (revenue_growth_log_shift o)
    (_income o) (_cashflow o) (_balancesheet o) v (_historic_prices o)
    (_target_pe o) (_estimated_growth o) (error_log o).

Definition set_historic_prices (v : option table) (o : Stock) : Stock :=
  mkStock (symbol o) (force_update o) (revenue_growth_log_shift o)
    (_income o) (_cashflow o) (_balancesheet o) (_ratios o) v
    (_target_pe o) (_estimated_growth o) (error_log o).

Definition set_target_pe (v : option float) (o : Stock) : Stock :=
  mkStock (symbol o) (force_update o) (revenue_growth_log_shift o)
    (_income o) (_cashflow o) (_balancesheet o) (_ratios o)
    (_historic_prices o) v (_estimated_growth o) (error_log o).

Definition set_estimated_growth (v : option float) (o : Stock) : Stock :=
  mkStock (symbol o) (force_update o) (revenue_growth_log_shift o)
    (_income o) (_cashflow o) (_balancesheet o) (_ratios o)
    (_historic_prices o) (_target_pe o) v (error_log o).

(** [self.error_log.append(msg)] *)
Definition append_error (msg : string) (o : Stock) : Stock :=
  mkStock (symbol o) (force_update o) (revenue_growth_log_shift o)
    (_income o) (_cashflow o) (_balancesheet o) (_ratios o)
    (_historic_prices o) (_target_pe o) (_estimated_growth o)
    (error_log o ++ [msg]).

Definition set_files (fs : list (string * file)) (w : World) : World :=
  mkWorld (morningstar_data_path w) (clock w) fs (remote w) (requests w).

Definition add_request (url : string) (w : World) : World :=
  mkWorld (morningstar_data_path w) (clock w) (files w) (remote w)
    (url :: requests w).

Definition set_clock (t : Z) (w : World) : World :=
  mkWorld (morningstar_data_path w) t (files w) (remote w) (requests w).

Definition on_self (f : Stock -> Stock) (s : State) : State :=
  mkState (f (self s)) (world s).

Definition on_world (f : World -> World) (s : State) : State :=
  mkState (self s) (f (world s)).

(* ================================================================= *)
(** ** The monad of methods: state and exceptions *)

Definition M (A : Type) : Type := State -> result A * State.

Definition ret {A} (a : A) : M A := fun s => (Ok a, s).

Definition raise {A} (e : exn) : M A := fun s => (Raise e, s).

Definition bind {A B} (m : M A) (f : A -> M B) : M B :=
  fun s =>
    match m s with
    | (Ok a, s') => f a s'
    | (Raise e, s') => (Raise e, s')
    end.

Definition gets {A} (f : State -> A) : M A := fun s => (Ok (f s), s).

Definition modify (f : State -> State) : M unit := fun s => (Ok tt, f s).

Definition lift {A} (r : result A) : M A := fun s => (r, s).

(** [try: m  except: h e] *)
Definition try_except {A} (m : M A) (h : exn -> M A) : M A :=
  fun s =>
    match m s with
    | (Ok a, s') => (Ok a, s')
    | (Raise e, s') => h e s'
    end.

Declare Scope py_scope.
Delimit Scope py_scope with py.
Notation "x <- m ;; k" := (bind m (fun x => k))
  (at level 61, m at next level, right associativity) : py_scope.
Notation "m ;;; k" := (bind m (fun _ => k))
  (at level 61, right associativity) : py_scope.
Local Open Scope py_scope.
Local Open Scope string_scope.

(* ================================================================= *)
(** ** Files, paths and the cache *)

Definition starts_with (p s : string) : bool := String.prefix p s.

Definition ends_with (p s : string) : bool :=
  let n := String.length s in
  let k := String.length p in
  (Nat.leb k n && String.eqb (String.substring (n - k) k s) p)%bool.

(** [os.path.join(a, b)] on a posix system. *)
Definition os_path_join (a b : string) : string :=
  if starts_with "/" b then b
  else if (String.eqb a "" || ends_with "/" a)%bool then a ++ b
  else a ++ "/" ++ b.

Fixpoint remove_assoc {A} (k : string) (l : list (string * A))
  : list (string * A) :=
  match l with
  | [] => []
  | (k', v) :: l' =>
      if String.eqb k k' then remove_assoc k l' else (k', v) :: remove_assoc k l'
  end.

(** [os.path.exists(path)] *)
Definition os_path_exists (path : string) : M bool :=
  fs <- gets (fun s => files (world s)) ;;
  ret (match assoc path fs with Some _ => true | None => false end).

(** [os.remove(path)] *)
Definition os_remove (path : string) : M unit :=
  modify (on_world (fun w => set_files (remove_assoc path (files w)) w)).

(** [urlretrieve(url, path)]: the answer of the server is written to
    [path], which takes the current time as its modification time.  A
    retrieval that fails is one that gets no answer (the server is not
    reached, or refuses the request): [urlretrieve] raises before it
    opens [path].  A transfer that breaks off after the answer has begun,
    which leaves a truncated file, is not modelled. *)
Definition urlretrieve (url path : string) : M unit :=
  modify (on_world (add_request url)) ;;;
  w <- gets world ;;
  match remote w url with
  | None => raise URLError
  | Some c =>
      modify (on_world
                (set_files (set_assoc path (mkFile (clock w) c) (files w))))
  end.

(** [Stock.report_path] *)
Definition report_path (report_type : string) : M string :=
  dir <- gets (fun s => morningstar_data_path (world s)) ;;
  sym <- gets (fun s => symbol (self s)) ;;
  ret (os_path_join dir (report_type ++ "_" ++ sym ++ ".csv")).

(** [Stock.report_key_map.get(report_type, None)], as [str.format]
    prints it. *)
Definition report_key (report_type : string) : string :=
  if String.eqb report_type "income" then "is"
  else if String.eqb report_type "cashflow" then "cf"
  else if String.eqb report_type "balancesheet" then "bs"
  else "None".

(** [Stock._csv_cache_valid].  The comparison of the file's age with
    [cache_lifetime] binds a local name, [upate], that nothing reads. *)
Definition _csv_cache_valid (csv_path : string) (cache_lifetime : Z)
  : M bool :=
  present <- os_path_exists csv_path ;;
  if negb present then ret false
  else
    w <- gets world ;;
    let getmtime := match assoc csv_path (files w) with
                    | Some f => mtime f
                    | None => 0%Z
                    end in
    let upate := if (clock w - getmtime <? cache_lifetime)%Z
                 then Some false else None in
    ret true.

(** [Stock._download_morningstar_data] *)
Definition _download_morningstar_data (report_type : string) : M unit :=
  sym <- gets (fun s => symbol (self s)) ;;
  let url :=
    if String.eqb report_type "ratios" then
      "http://financials.morningstar.com/ajax/exportKR2CSV.html?t=" ++ sym
    else
      "http://financials.morningstar.com/ajax/ReportProcess4CSV.html?t="
      ++ sym ++ "&reportType=" ++ report_key report_type
      ++ "&period=12&dataType=A&order=asc&columnYear=5&number=1" in
  path <- report_path report_type ;;
  urlretrieve url path.

(** The outcome of the [try] block of a loader on the file at [path]. *)
Inductive read_outcome : Type :=
| ReadOk (df : table)
| ReadEmpty
| ReadFailed.

Definition read_csv (path : string) : M read_outcome :=
  fs <- gets (fun s => files (world s)) ;;
  ret (match assoc path fs with
       | None => ReadFailed
       | Some f =>
           match content f with
           | Parsed df => ReadOk df
           | EmptyExport => ReadEmpty
           | Malformed => ReadFailed
           end
       end).

(** The value of a name in a function body, given the names the body
    binds to strings.  A name that is bound neither there nor at module
    level raises [NameError]; no module-level name of [stock.py] is
    [report_type]. *)
Definition load_name (locals : list (string * string)) (name : string)
  : M string :=
  match assoc name locals with
  | Some v => ret v
  | None => raise (NameError name)
  end.

(** [self.error_log.append(msg)] *)
Definition log_error (msg : string) : M unit :=
  modify (on_self (append_error msg)).

(** [Stock._load_report_csv_to_df] *)
Definition _load_report_csv_to_df (report_type : string) : M table :=
  let locals := [("report_type", report_type)] in
  path <- report_path report_type ;;
  valid <- _csv_cache_valid path 86800 ;;
  (if negb valid then _download_morningstar_data report_type else ret tt) ;;;
  path <- report_path report_type ;;
  r <- read_csv path ;;
  match r with
  | ReadOk df => ret df
  | ReadEmpty =>
      rt <- load_name locals "report_type" ;;
      log_error ("No " ++ rt ++ " report found") ;;;
      ret empty_frame
  | ReadFailed =>
      rt <- load_name locals "report_type" ;;
      log_error ("Unable to process report: " ++ rt) ;;;
      ret empty_frame
  end.

(** [str.upper] on ASCII letters. *)
Definition upper_ascii (c : ascii) : ascii :=
  let n := nat_of_ascii c in
  if (Nat.leb 97 n && Nat.leb n 122)%bool then ascii_of_nat (n - 32) else c.

Fixpoint upper (s : string) : string :=
  match s with
  | EmptyString => EmptyString
  | String c s' => String (upper_ascii c) (upper s')
  end.

Section PriceLoader.

(** The property [Stock.currency], which the price download reads.  It is
    a parameter here because the property loads the ratios, whose
    derivation in turn loads the prices: the methods are instantiated
    below, once for the derivation and once for the caller of the
    object. *)
Variable currency : M (option string).

(** [Stock._download_morningstar_pricedata] *)
Definition _download_morningstar_pricedata_with : M unit :=
  try_except
    (cur <- currency ;;
     match cur with
     | None => raise AttributeError
     | Some c =>
         sym <- gets (fun s => symbol (self s)) ;;
         let url :=
           "http://performance.morningstar.com/perform/Performance/stock/exportStockPrice.action?t="
           ++ sym ++ "&pd=max&freq=d&sd=&ed=&pg=0&culture=en-US&cur="
           ++ upper c in
         path <- report_path "price" ;;
         urlretrieve url path
     end)
    (fun _ => raise MorningStarPriceError).

(** [Stock._load_price_csv_to_df] *)
Definition _load_price_csv_to_df_with : M table :=
  csv_path <- report_path "price" ;;
  let locals := [("csv_path", csv_path)] in
  valid <- _csv_cache_valid csv_path 40000 ;;
  downloaded <-
    (if negb valid then
       try_except (_download_morningstar_pricedata_with ;;; ret true)
         (fun e =>
            match e with
            | MorningStarPriceError =>
                log_error "Unable to load price data" ;;; ret false
            | _ => raise e
            end)
     else ret true) ;;
  if negb downloaded then ret empty_frame
  else
    r <- read_csv csv_path ;;
    match r with
    | ReadOk df => ret df
    | ReadEmpty =>
        rt <- load_name locals "report_type" ;;
        log_error ("No " ++ rt ++ " report found") ;;;
        ret empty_frame
    | ReadFailed =>
        rt <- load_name locals "report_type" ;;
        log_error ("Unable to process report: " ++ rt) ;;;
        ret empty_frame
    end.

(** The property [Stock.historic_prices] *)
Definition historic_prices_with : M table :=
  slot <- gets (fun s => _historic_prices (self s)) ;;
  match slot with
  | Some df => ret df
  | None =>
      df <- _load_price_csv_to_df_with ;;
      modify (on_self (set_historic_prices (Some df))) ;;;
      ret df
  end.

End PriceLoader.

(* ================================================================= *)
(** ** The statement tables and the derivation of the ratios *)

(** The property [Stock.income] *)
Definition income : M table :=
  slot <- gets (fun s => _income (self s)) ;;
  match slot with
  | Some df => ret df
  | None =>
      df <- _load_report_csv_to_df "income" ;;
      modify (on_self (set_income (Some df))) ;;;
      ret df
  end.

(** The property [Stock.cashflow] *)
Definition cashflow : M table :=
  slot <- gets (fun s => _cashflow (self s)) ;;
  match slot with
  | Some df => ret df
  | None =>
      df <- _load_report_csv_to_df "cashflow" ;;
      modify (on_self (set_cashflow (Some df))) ;;;
      ret df
  end.

(** The property [Stock.balancesheet] *)
Definition balancesheet : M table :=
  slot <- gets (fun s => _balancesheet (self s)) ;;
  match slot with
  | Some df => ret df
  | None =>
      df <- _load_report_csv_to_df "balancesheet" ;;
      modify (on_self (set_balancesheet (Some df))) ;;;
      ret df
  end.

(** [key.split(sep)[1]] for a [key] that starts with [sep]: what lies
    between that first [sep] and the next one. *)
Definition split_second (sep key : string) : string :=
  let rest := String.substring (String.length sep)
                (String.length key - String.length sep) key in
  match String.index 0 sep rest with
  | Some n => String.substring 0 n rest
  | None => rest
  end.

(** The loop of [Stock.currency] over the column names; Python's implicit
    [return None] when no name matches. *)
Fixpoint currency_of_keys (keys : list string) : option string :=
  match keys with
  | [] => None
  | key :: keys' =>
      if starts_with "earnings-per-share-" key
      then Some (split_second "earnings-per-share-" key)
      else currency_of_keys keys'
  end.

Definition currency_of (df : table) : option string :=
  currency_of_keys (map fst (columns df)).

(** ['%s' % c] *)
Definition str_of (c : option string) : string :=
  match c with
  | Some s => s
  | None => "None"
  end.

(** The attribute [self._ratios] while the derivation runs.  The steps
    below are embedded as the property [ratios] runs them, after it has
    assigned the attribute; there [self.ratios] returns the attribute
    too (lemma [ratios_assigned]). *)
Definition the_ratios : M table :=
  slot <- gets (fun s => _ratios (self s)) ;;
  match slot with
  | Some df => ret df
  | None => raise TypeError
  end.

(** [self.currency] while the derivation runs. *)
Definition currency_assigned : M (option string) :=
  df <- the_ratios ;;
  ret (currency_of df).

(** [self._ratios[key]] *)
Definition ratios_col (key : string) : M series :=
  df <- the_ratios ;;
  lift (getitem df key).

(** [self._ratios[key] = s] *)
Definition ratios_assign (key : string) (s : series) : M unit :=
  df <- the_ratios ;;
  modify (on_self (set_ratios (Some (setitem df key s)))).

(** [self.balancesheet[key]] *)
Definition balancesheet_col (key : string) : M series :=
  df <- balancesheet ;;
  lift (getitem df key).

(** The property [Stock.has_dividends] *)
Definition has_dividends : M bool :=
  cur <- currency_assigned ;;
  df <- the_ratios ;;
  ret (contains df ("dividends-" ++ str_of cur)).

(** [Stock.add_dividends_ps_growth] *)
Definition add_dividends_ps_growth : M unit :=
  cur <- currency_assigned ;;
  df <- the_ratios ;;
  (if contains df ("dividends-" ++ str_of cur) then
     cur <- currency_assigned ;;
     d <- ratios_col ("dividends-" ++ str_of cur) ;;
     ratios_assign "dividends-ps-growth" (pct_change d)
   else ret tt) ;;;
  sh <- ratios_col "shares" ;;
  ratios_assign "dividends-ps-growth" (series_scalar fmul sh (Fin 0)).

(** [Stock.add_book_value_ps_growth] *)
Definition add_book_value_ps_growth : M unit :=
  cur <- currency_assigned ;;
  b <- ratios_col ("book-value-per-share-" ++ str_of cur) ;;
  ratios_assign "book-value-ps-growth" (pct_change b).

(** [Stock.add_earnings_ps_growth] *)
Definition add_earnings_ps_growth : M unit :=
  cur <- currency_assigned ;;
  e <- ratios_col ("earnings-per-share-" ++ str_of cur) ;;
  ratios_assign "earnings-ps-growth" (pct_change e).

(** [Stock.add_operating_cashflow_ps_growth] *)
Definition add_operating_cashflow_ps_growth : M unit :=
  cur <- currency_assigned ;;
  o <- ratios_col ("operating-cash-flow-" ++ str_of cur) ;;
  sh <- ratios_col "shares" ;;
  cur' <- currency_assigned ;;
  ratios_assign ("operating-cashflow-per-share-" ++ str_of cur')
    (series_op fdiv o sh) ;;;
  cur <- currency_assigned ;;
  o <- ratios_col ("operating-cash-flow-" ++ str_of cur) ;;
  sh <- ratios_col "shares" ;;
  ratios_assign "operating-cashflow-ps-growth"
    (pct_change (series_op fdiv o sh)).

(** [Stock.add_long_term_debt_ps_growth] *)
Definition add_long_term_debt_ps_growth : M unit :=
  bs <- balancesheet ;;
  if contains bs "long-term-debt" then
    l <- balancesheet_col "long-term-debt" ;;
    ratios_assign "long-term-debt" l ;;;
    l <- balancesheet_col "long-term-debt" ;;
    sh <- ratios_col "shares" ;;
    ratios_assign "long-term-debt-ps-growth"
      (pct_change (series_op fdiv l sh)) ;;;
    l <- balancesheet_col "long-term-debt" ;;
    sh <- ratios_col "shares" ;;
    ratios_assign "long-term-debt-ps" (series_op fdiv l sh)
  else ret tt.

(** [Stock.add_short_term_debt_ps_growth] *)
Definition add_short_term_debt_ps_growth : M unit :=
  l <- balancesheet_col "short-term-debt" ;;
  ratios_assign "short-term-debt" l ;;;
  l <- balancesheet_col "short-term-debt" ;;
  sh <- ratios_col "shares" ;;
  ratios_assign "short-term-debt-ps-growth"
    (pct_change (series_op fdiv l sh)) ;;;
  l <- balancesheet_col "short-term-debt" ;;
  sh <- ratios_col "shares" ;;
  ratios_assign "short-term-debt-ps" (series_op fdiv l sh).

(** [Stock.add_total_debt] *)
Definition add_total_debt : M unit :=
  st <- balancesheet_col "short-term-debt" ;;
  lt <- balancesheet_col "long-term-debt" ;;
  cur <- currency_assigned ;;
  ratios_assign ("total-debt-" ++ str_of cur) (series_op fadd st lt) ;;;
  cur <- currency_assigned ;;
  td <- ratios_col ("total-debt-" ++ str_of cur) ;;
  sh <- ratios_col "shares" ;;
  cur' <- currency_assigned ;;
  ratios_assign ("total-debt-per-share-" ++ str_of cur')
    (series_op fdiv td sh) ;;;
  cur <- currency_assigned ;;
  td <- ratios_col ("total-debt-" ++ str_of cur) ;;
  ratios_assign "total-debt-growth" (pct_change td).

(** [Stock.add_debt_ratios] *)
Definition add_debt_ratios : M unit :=
  cur <- currency_assigned ;;
  td <- ratios_col ("total-debt-per-share-" ++ str_of cur) ;;
  cur <- currency_assigned ;;
  e <- ratios_col ("earnings-per-share-" ++ str_of cur) ;;
  ratios_assign "debt-per-earnings" (series_op fdiv td e) ;;;
  cur <- currency_assigned ;;
  td <- ratios_col ("total-debt-per-share-" ++ str_of cur) ;;
  cur <- currency_assigned ;;
  b <- ratios_col ("book-value-per-share-" ++ str_of cur) ;;
  ratios_assign "debt-per-bookvalue" (series_op fdiv td b).

(** [Stock.add_revenue_ps_growth] *)
Definition add_revenue_ps_growth : M unit :=
  cur <- currency_assigned ;;
  r <- ratios_col ("revenue-" ++ str_of cur) ;;
  sh <- ratios_col "shares" ;;
  cur' <- currency_assigned ;;
  ratios_assign ("revenue-per-share-" ++ str_of cur') (series_op fdiv r sh) ;;;
  cur <- currency_assigned ;;
  r <- ratios_col ("revenue-" ++ str_of cur) ;;
  sh <- ratios_col "shares" ;;
  ratios_assign "revenue-ps-growth" (pct_change (series_op fdiv r sh)).

(** [for x in l: body(x)] *)
Fixpoint for_each {A} (l : list A) (body : A -> M unit) : M unit :=
  match l with
  | [] => ret tt
  | a :: l' => body a ;;; for_each l' body
  end.

(** [numpy.searchsorted] on a sorted index: the number of labels below
    [key] ([side='left']) or not above it ([side='right']). *)
Fixpoint searchsorted (right : bool) (idx : list label) (key : label)
  : nat :=
  match idx with
  | [] => 0
  | l :: idx' =>
      if (if right then l <=? key else l <? key)%Z
      then S (searchsorted right idx' key)
      else 0
  end.

(** [idx.values[i]], a negative [i] counting from the end. *)
Definition np_take (idx : list label) (i : Z) : result label :=
  let n := Z.of_nat (List.length idx) in
  let j := if (i <? 0)%Z then (n + i)%Z else i in
  if ((0 <=? j) && (j <? n))%Z%bool then
    match nth_error idx (Z.to_nat j) with
    | Some l => Ok l
    | None => Raise IndexError
    end
  else Raise IndexError.

Fixpoint strictly_increasing (idx : list label) : bool :=
  match idx with
  | [] => true
  | l :: idx' =>
      match idx' with
      | [] => true
      | l' :: _ => ((l <? l')%Z && strictly_increasing idx')%bool
      end
  end.

(** [idx.get_loc(key, method='nearest')] on an index of increasing,
    distinct labels; pandas refuses an index with a repeated label.  (The
    price loader sorts its index and no other method assigns the prices,
    so that an index in another order does not reach this function.)  The
    candidates are the last label not
    after [key] ([pad]) and the first label not before it ([backfill]),
    [-1] standing for none; the earlier one wins only when it is strictly
    nearer.  On an index without a label there is no candidate
    ([if not len(self)]: the [pad] indexer, [-1]), and [get_loc] raises
    [KeyError]. *)
Definition get_loc_nearest (idx : list label) (key : label) : result nat :=
  if negb (strictly_increasing idx) then Raise InvalidIndexError
  else if Nat.eqb (List.length idx) 0 then Raise (KeyError "nearest")
  else
    let left_indexer := (Z.of_nat (searchsorted true idx key) - 1)%Z in
    let right_indexer :=
      let p := searchsorted false idx key in
      if Nat.eqb p (List.length idx) then (-1)%Z else Z.of_nat p in
    rbind (np_take idx left_indexer) (fun lv =>
    rbind (np_take idx right_indexer) (fun rv =>
      let left_distances := Z.abs (lv - key) in
      let right_distances := Z.abs (rv - key) in
      let loc :=
        if ((left_distances <? right_distances)%Z
            || (right_indexer =? -1)%Z)%bool
        then left_indexer else right_indexer in
      if (loc =? -1)%Z then Raise (KeyError "nearest")
      else Ok (Z.to_nat loc))).

(** The methods that read the prices, as the derivation of the ratios
    runs them. *)
Definition historic_prices_assigned : M table :=
  historic_prices_with currency_assigned.

(** The body of the loop of [Stock.add_pe], for the period [i]: the
    close of the nearest price date over the earnings per share of the
    period. *)
Definition add_pe_row (i : label) : M unit :=
  hp <- historic_prices_assigned ;;
  hp' <- historic_prices_assigned ;;
  pos <- lift (get_loc_nearest (index hp') i) ;;
  close <- lift (iloc_get hp pos "Close") ;;
  df <- the_ratios ;;
  cur <- currency_assigned ;;
  e <- lift (loc_get df i ("earnings-per-share-" ++ str_of cur)) ;;
  df <- the_ratios ;;
  df' <- lift (loc_set df i "pe" (fdiv close e)) ;;
  modify (on_self (set_ratios (Some df'))).

(** [Stock.add_pe] *)
Definition add_pe : M unit :=
  cur <- currency_assigned ;;
  e <- ratios_col ("earnings-per-share-" ++ str_of cur) ;;
  ratios_assign "pe" e ;;;
  pe <- ratios_col "pe" ;;
  for_each (map fst pe) add_pe_row.

(** The property [Stock.ratios].  The result of [fillna(0)] on the
    dividends is dropped by the code. *)
Definition ratios : M table :=
  slot <- gets (fun s => _ratios (self s)) ;;
  match slot with
  | Some df => ret df
  | None =>
      df <- _load_report_csv_to_df "ratios" ;;
      modify (on_self (set_ratios (Some df))) ;;;
      (if negb (empty df) then
         add_book_value_ps_growth ;;;
         add_earnings_ps_growth ;;;
         add_revenue_ps_growth ;;;
         add_operating_cashflow_ps_growth ;;;
         add_long_term_debt_ps_growth ;;;
         add_short_term_debt_ps_growth ;;;
         add_total_debt ;;;
         add_debt_ratios ;;;
         add_pe ;;;
         hd <- has_dividends ;;
         (if hd then
            cur <- currency_assigned ;;
            d <- ratios_col ("dividends-" ++ str_of cur) ;;
            ret tt
          else ret tt) ;;;
         add_dividends_ps_growth
       else ret tt) ;;;
      the_ratios
  end.

(** The property [Stock.currency] *)
Definition currency : M (option string) :=
  df <- ratios ;;
  ret (currency_of df).

(** [Stock._download_morningstar_pricedata], [Stock._load_price_csv_to_df]
    and the property [Stock.historic_prices], as a caller of the object
    runs them. *)
Definition _download_morningstar_pricedata : M unit :=
  _download_morningstar_pricedata_with currency.

Definition _load_price_csv_to_df : M table :=
  _load_price_csv_to_df_with currency.

Definition historic_prices : M table :=
  historic_prices_with currency.

(** [Stock.clear_cached_files] *)
Definition clear_cached_files : M unit :=
  for_each ["income"; "cashflow"; "balancesheet"; "ratios"; "price"]
    (fun report_type =>
       path <- report_path report_type ;;
       present <- os_path_exists path ;;
       if present then
         path <- report_path report_type ;;
         os_remove path
       else ret tt).

(* ================================================================= *)
(** ** Growth estimates and the target P/E *)

(** [numpy.average(a, weights=w)] for two arrays of one length. *)
Definition np_average (a w : list float) : result float :=
  let scl := np_sum w in
  if feqb scl (Fin 0) then Raise ZeroDivisionError
  else Ok (fdiv64 (np_sum (zip_with fmul64 a w)) scl).

(** Insertion in a sorted list of floats none of which is [NaN]. *)
Fixpoint insert_float (x : float) (l : list float) : list float :=
  match l with
  | [] => [x]
  | y :: l' => if flt y x then y :: insert_float x l' else x :: l
  end.

Definition sort_floats (l : list float) : list float :=
  fold_right insert_float [] l.

(** [numpy.median] of a one-dimensional array: [NaN] as soon as one
    element is, otherwise the middle element of the sorted array, or the
    mean of the two middle ones. *)
Definition np_median (l : list float) : float :=
  if existsb isna l then NaN
  else
    let s := sort_floats l in
    let n := List.length s in
    if Nat.eqb n 0 then NaN
    else if Nat.even n then
      fdiv64 (fadd64 (nth (n / 2 - 1) s NaN) (nth (n / 2) s NaN)) (Fin 2)
    else nth (n / 2) s NaN.

(** Python's [min(a, b)] and [max(iterable)]: the first argument stays
    unless a later one compares strictly below (above) it. *)
Definition py_min (a b : float) : float := if flt b a then b else a.

Definition py_max (l : list float) : result float :=
  match l with
  | [] => Raise ValueError
  | x :: l' => Ok (fold_left (fun m v => if flt m v then v else m) l' x)
  end.

(** The weights of [_get_average_growth_rate]:
    [np.log(np.arange(0, n) + shift)], divided by their sum. *)
Definition log_weights (n : nat) (shift : float) : list float :=
  map (fun i => np_log (fadd64 (Fin (INR i)) shift)) (seq 0 n).

Definition normalized_weights (n : nat) (shift : float) : list float :=
  let weights := log_weights n shift in
  map (fun w => fdiv64 w (np_sum weights)) weights.

(** [Stock._get_average_growth_rate] *)
Definition _get_average_growth_rate (key : string) : M float :=
  df <- ratios ;;
  col <- lift (getitem df key) ;;
  let average_df := dropna col in
  let n := List.length average_df in
  shift <- gets (fun s => revenue_growth_log_shift (self s)) ;;
  let weights := normalized_weights n shift in
  lift (np_average (map snd average_df) weights).

(** The properties [Stock.estimated_eps_growth] and its three siblings *)
Definition estimated_eps_growth : M float :=
  _get_average_growth_rate "earnings-ps-growth".

Definition estimated_revenue_growth : M float :=
  _get_average_growth_rate "revenue-ps-growth".

Definition estimated_bookvalue_growth : M float :=
  _get_average_growth_rate "book-value-ps-growth".

Definition estimated_operational_cashflow_growth : M float :=
  _get_average_growth_rate "operating-cashflow-ps-growth".

(** The property [Stock.estimated_growth] *)
Definition estimated_growth : M float :=
  slot <- gets (fun s => _estimated_growth (self s)) ;;
  match slot with
  | Some g => ret g
  | None =>
      e <- estimated_eps_growth ;;
      r <- estimated_revenue_growth ;;
      b <- estimated_bookvalue_growth ;;
      o <- estimated_operational_cashflow_growth ;;
      let g := round2 (np_median [e; r; b; o]) in
      modify (on_self (set_estimated_growth (Some g))) ;;;
      ret g
  end.

(** The property [Stock.target_pe] *)
Definition target_pe : M float :=
  slot <- gets (fun s => _target_pe (self s)) ;;
  match slot with
  | Some v => ret v
  | None =>
      df <- ratios ;;
      if negb (contains df "pe") then ret (Fin (-1))
      else
        g <- estimated_growth ;;
        df <- ratios ;;
        pe <- lift (getitem df "pe") ;;
        m <- lift (py_max (map snd pe)) ;;
        let v := py_min (fmul64 (fmul64 (Fin 2) g) (Fin 100)) m in
        modify (on_self (set_target_pe (Some v))) ;;;
        ret v
  end.

(* ================================================================= *)
(** ** Callers of the object *)

(** The setters of the properties [income], [cashflow], [balancesheet],
    [ratios], [estimated_growth] and [target_pe]: the attribute takes the
    value given, which can be [None]. *)
Definition income_setter (df : option table) : M unit :=
  modify (on_self (set_income df)).

Definition cashflow_setter (df : option table) : M unit :=
  modify (on_self (set_cashflow df)).

Definition balancesheet_setter (df : option table) : M unit :=
  modify (on_self (set_balancesheet df)).

Definition ratios_setter (df : option table) : M unit :=
  modify (on_self (set_ratios df)).

Definition estimated_growth_setter (value : option float) : M unit :=
  modify (on_self (set_estimated_growth value)).

Definition target_pe_setter (value : option float) : M unit :=
  modify (on_self (set_target_pe value)).

(** The calls of a caller of a [Stock] that the properties about callers
    range over: read one of these properties, assign one, call
    [clear_cached_files], or let time pass.  (The steps of the derivation
    called on their own and the properties of the dividends are not
    among them.) *)
Inductive call : Type :=
| GetIncome
| GetCashflow
| GetBalancesheet
| GetRatios
| GetHistoricPrices
| GetCurrency
| GetEstimatedEpsGrowth
| GetEstimatedRevenueGrowth
| GetEstimatedBookvalueGrowth
| GetEstimatedOperationalCashflowGrowth
| GetEstimatedGrowth
| GetTargetPE
| SetIncome (df : option table)
| SetCashflow (df : option table)
| SetBalancesheet (df : option table)
| SetRatios (df : option table)
| SetEstimatedGrowth (value : option float)
| SetTargetPE (value : option float)
| ClearCachedFiles
| Wait (seconds : Z).

(** What the caller sees of the call. *)
Inductive value : Type :=
| VTable (df : table)
| VFloat (x : float)
| VStr (c : option string)
| VNone.

Definition run_call (c : call) : M value :=
  match c with
  | GetIncome => df <- income ;; ret (VTable df)
  | GetCashflow => df <- cashflow ;; ret (VTable df)
  | GetBalancesheet => df <- balancesheet ;; ret (VTable df)
  | GetRatios => df <- ratios ;; ret (VTable df)
  | GetHistoricPrices => df <- historic_prices ;; ret (VTable df)
  | GetCurrency => c <- currency ;; ret (VStr c)
  | GetEstimatedEpsGrowth => g <- estimated_eps_growth ;; ret (VFloat g)
  | GetEstimatedRevenueGrowth =>
      g <- estimated_revenue_growth ;; ret (VFloat g)
  | GetEstimatedBookvalueGrowth =>
      g <- estimated_bookvalue_growth ;; ret (VFloat g)
  | GetEstimatedOperationalCashflowGrowth =>
      g <- estimated_operational_cashflow_growth ;; ret (VFloat g)
  | GetEstimatedGrowth => g <- estimated_growth ;; ret (VFloat g)
  | GetTargetPE => v <- target_pe ;; ret (VFloat v)
  | SetIncome df => income_setter df ;;; ret VNone
  | SetCashflow df => cashflow_setter df ;;; ret VNone
  | SetBalancesheet df => balancesheet_setter df ;;; ret VNone
  | SetRatios df => ratios_setter df ;;; ret VNone
  | SetEstimatedGrowth v => estimated_growth_setter v ;;; ret VNone
  | SetTargetPE v => target_pe_setter v ;;; ret VNone
  | ClearCachedFiles => clear_cached_files ;;; ret VNone
  | Wait dt =>
      modify (on_world (fun w => set_clock (clock w + Z.max 0 dt) w)) ;;;
      ret VNone
  end.

(** A sequence of calls, the caller catching what a call raises and
    going on. *)
Fixpoint run_calls (cs : list call) (s : State)
  : list (result value) * State :=
  match cs with
  | [] => ([], s)
  | c :: cs' =>
      let (r, s') := run_call c s in
      let (rs, s'') := run_calls cs' s' in
      (r :: rs, s'')
  end.

(** The day number of a calendar date, 1970-01-01 being day 0: the
    label that [pd.to_datetime] gives the date. *)
Definition date (y m d : Z) : label :=
  let y' := if (m <=? 2)%Z then (y - 1)%Z else y in
  let era := (y' / 400)%Z in
  let yoe := (y' - era * 400)%Z in
  let mp := ((m + 9) mod 12)%Z in
  let doy := ((153 * mp + 2) / 5 + d - 1)%Z in
  let doe := (yoe * 365 + yoe / 4 - yoe / 100 + doy)%Z in
  (era * 146097 + doe - 719468)%Z.

(* ================================================================= *)
(** ** Notions used to state the properties *)

(** The sum of a list of reals. *)
Fixpoint Rsum (l : list R) : R :=
  match l with
  | [] => 0%R
  | x :: l' => (x + Rsum l')%R
  end.

(** The state [s] with the force-update flag of the object set to [b]. *)
Definition with_force_update (b : bool) (s : State) : State :=
  on_self (set_force_update b) s.

(** A method is blind to the force-update flag when running it with the
    flag set to any value gives the same result and the same state, up to
    the flag. *)
Definition blind {A} (m : M A) : Prop :=
  forall b s,
    m (with_force_update b s)
    = (fst (m s), with_force_update b (snd (m s))).

(** A small ratios export: two periods, earnings and shares. *)
Definition small_ratios : table :=
  mkTable [date 2019 12 1; date 2020 12 1]
    [("earnings-per-share-usd", [Fin 1; Fin 2]);
     ("shares", [Fin 100; Fin 100])].

(** A fresh [Stock("ACME")] whose ratios export was cached 100000 seconds
    ago; the server would answer any request. *)
Definition expired_cache_state : State :=
  mkState (Stock_init "ACME" false (Fin 2))
    (mkWorld "morningstar_data" 100000
       [("morningstar_data/ratios_ACME.csv", mkFile 0 (Parsed small_ratios))]
       (fun _ => Some (Parsed small_ratios)) []).

(** A [Stock("ACME")] that holds its ratios table, whose cached price
    export is an empty file. *)
Definition empty_price_export_state : State :=
  mkState (set_ratios (Some small_ratios) (Stock_init "ACME" false (Fin 2)))
    (mkWorld "morningstar_data" 1000
       [("morningstar_data/price_ACME.csv", mkFile 900 EmptyExport)]
       (fun _ => None) []).

(** Half the distance from 1 to the next binary64 number: the bound of
    the relative error of one rounding. *)
Definition eps64 : R := bpow (-53).

(** [near k t]: [t] is a factor that [k] roundings in a row can
    introduce, between [(1 - eps64)^k] and its inverse. *)
Definition near (k : nat) (t : R) : Prop :=
  ((1 - eps64) ^ k <= t <= / (1 - eps64) ^ k)%R.

(** A series as the column of a table on the index [idx] holds it:
    what [df[key] = x] stores and [df[key]] then returns. *)
Definition aligned (idx : list label) (x : series) : series :=
  combine idx (reindex idx x).

(** The column [key] of [df] is the fractional change of the series
    [src], period by period. *)
Definition growth_column (df : table) (key : string) (src : series)
  : Prop :=
  getitem df key = Ok (aligned (index df) (pct_change src)).

(** The object holds a ratios table on the index [idx] and in the
    currency [c0], of which [df[key]] is [x]. *)
Definition column_is (idx : list label) (c0 : option string)
  (key : string) (x : result series) (s : State) : Prop :=
  exists d, _ratios (self s) = Some d /\ index d = idx /\
            currency_of d = c0 /\ getitem d key = x.

(** [within a b x]: [x] lies between [2^a] and [2^b]. *)
Definition within (a b : Z) (x : R) : Prop := (bpow a <= x <= bpow b)%R.

(** [summed c al k x]: the float [x] is a sum of the numbers [c * a],
    for the [a] of [al], added in binary64 in some order, each of them
    having gone through at most [k] additions. *)
Inductive summed (c : R) : list R -> nat -> float -> Prop :=
| summed_nil (k : nat) : summed c [] k (Fin 0)
| summed_one (a : R) (k : nat) : summed c [a] k (Fin (c * a))
| summed_add (al1 al2 : list R) (k : nat) (x1 x2 : float) :
    summed c al1 k x1 -> summed c al2 k x2 ->
    summed c (al1 ++ al2) (S k) (fadd64 x1 x2)
| summed_perm (al al' : list R) (k : nat) (x : float) :
    Permutation al al' -> summed c al k x -> summed c al' k x.

(** A [Stock] to which a ratios table was assigned
    ([stock.ratios = df]): the earnings growth of the table has no
    observation, the three other growth columns have one. *)
Definition unobserved_growth_table : table :=
  mkTable [date 2019 12 1; date 2020 12 1]
    [("earnings-ps-growth", [NaN; NaN]);
     ("revenue-ps-growth", [NaN; Fin (1 / 10)]);
     ("book-value-ps-growth", [NaN; Fin (1 / 10)]);
     ("operating-cashflow-ps-growth", [NaN; Fin (1 / 10)])].

Definition unobserved_growth_state : State :=
  mkState (set_ratios (Some unobserved_growth_table)
             (Stock_init "ACME" false (Fin 2)))
    (mkWorld "morningstar_data" 0 [] (fun _ => None) []).

(** A [Stock] built with [revenue_growth_log_shift=1] over a ratios table
    with one observed revenue growth, of 10%. *)
Definition shift_one_state : State :=
  mkState (set_ratios (Some unobserved_growth_table)
             (Stock_init "ACME" false (Fin 1)))
    (mkWorld "morningstar_data" 0 [] (fun _ => None) []).

(** [padded vs i x]: [x] is the value of [vs] at position [i] once the
    missing values are padded, that is the latest non-missing value at or
    before [i], and [NaN] when there is none. *)
Definition padded (vs : list float) (i : nat) (x : float) : Prop :=
  (exists j, (j <= i)%nat /\ nth j vs NaN = x /\ isna x = false /\
             forall k, (j < k <= i)%nat -> isna (nth k vs NaN) = true)
  \/ (x = NaN /\ forall k, (k <= i)%nat -> isna (nth k vs NaN) = true).

(** The table that the property [ratios] returns in a state (the empty
    frame if it raises). *)
Definition ratios_of (s : State) : table :=
  match fst (ratios s) with
  | Ok df => df
  | Raise _ => empty_frame
  end.

(** A scenario from end to end: a fresh [Stock("ACME")], nothing cached;
    the server answers the three requests that the derivation of the
    ratios sends.  The company pays no dividends. *)
Definition acme_ratios_export : table :=
  mkTable [date 2018 12 1; date 2019 12 1; date 2020 12 1]
    [("revenue-usd", [Fin 1000; Fin 1100; Fin 1210]);
     ("earnings-per-share-usd", [Fin 1; Fin (11 / 10); Fin (121 / 100)]);
     ("book-value-per-share-usd", [Fin 5; Fin 6; Fin 7]);
     ("operating-cash-flow-usd", [Fin 200; Fin 220; Fin 242]);
     ("shares", [Fin 100; Fin 100; Fin 100])].

Definition acme_balancesheet_export : table :=
  mkTable [date 2018 12 1; date 2019 12 1; date 2020 12 1]
    [("short-term-debt", [Fin 10; Fin 20; Fin 30]);
     ("long-term-debt", [Fin 100; Fin 100; Fin 100])].

Definition acme_price_export : table :=
  mkTable [date 2018 11 30; date 2019 12 2; date 2020 11 30]
    [("Close", [Fin 10; Fin 11; Fin 12])].

Definition acme_remote (url : string) : option export :=
  if String.eqb url
       "http://financials.morningstar.com/ajax/exportKR2CSV.html?t=ACME"
  then Some (Parsed acme_ratios_export)
  else if String.eqb url
       ("http://financials.morningstar.com/ajax/ReportProcess4CSV.html?t=ACME"
        ++ "&reportType=bs&period=12&dataType=A&order=asc&columnYear=5&number=1")
  then Some (Parsed acme_balancesheet_export)
  else if String.eqb url
       ("http://performance.morningstar.com/perform/Performance/stock/"
        ++ "exportStockPrice.action?t=ACME&pd=max&freq=d&sd=&ed=&pg=0"
        ++ "&culture=en-US&cur=USD")
  then Some (Parsed acme_price_export)
  else None.

Definition acme_state : State :=
  mkState (Stock_init "ACME" false (Fin 2))
    (mkWorld "morningstar_data" 0 [] acme_remote []).

(** A [Stock] over a ratios table in which each of the four growth
    columns has one observation, of 10%, and the price/earnings ratio
    was 15 and then 30. *)
Definition steady_growth_table : table :=
  mkTable [date 2019 12 1; date 2020 12 1]
    [("earnings-ps-growth", [NaN; Fin (1 / 10)]);
     ("revenue-ps-growth", [NaN; Fin (1 / 10)]);
     ("book-value-ps-growth", [NaN; Fin (1 / 10)]);
     ("operating-cashflow-ps-growth", [NaN; Fin (1 / 10)]);
     ("pe", [Fin 15; Fin 30])].

Definition steady_growth_state : State :=
  mkState (set_ratios (Some steady_growth_table)
             (Stock_init "ACME" false (Fin 2)))
    (mkWorld "morningstar_data" 0 [] (fun _ => None) []).

(** The same, for a company that made losses: its price/earnings ratio
    was -2 and then -1. *)
Definition loss_making_table : table :=
  mkTable [date 2019 12 1; date 2020 12 1]
    [("earnings-ps-growth", [NaN; Fin (1 / 10)]);
     ("revenue-ps-growth", [NaN; Fin (1 / 10)]);
     ("book-value-ps-growth", [NaN; Fin (1 / 10)]);
     ("operating-cashflow-ps-growth", [NaN; Fin (1 / 10)]);
     ("pe", [Fin (-2); Fin (-1)])].

Definition loss_making_state : State :=
  mkState (set_ratios (Some loss_making_table)
             (Stock_init "ACME" false (Fin 2)))
    (mkWorld "morningstar_data" 0 [] (fun _ => None) []).

(** The same, for a company whose price/earnings ratio of the first
    period is missing (its earnings per share of that period are), and
    is 15 in the second. *)
Definition missing_pe_table : table :=
  mkTable [date 2019 12 1; date 2020 12 1]
    [("earnings-ps-growth", [NaN; Fin (1 / 10)]);
     ("revenue-ps-growth", [NaN; Fin (1 / 10)]);
     ("book-value-ps-growth", [NaN; Fin (1 / 10)]);
     ("operating-cashflow-ps-growth", [NaN; Fin (1 / 10)]);
     ("pe", [NaN; Fin 15])].

Definition missing_pe_state : State :=
  mkState (set_ratios (Some missing_pe_table)
             (Stock_init "ACME" false (Fin 2)))
    (mkWorld "morningstar_data" 0 [] (fun _ => None) []).

(** The path of the cached price export. *)
Definition price_path (s : State) : string :=
  os_path_join (morningstar_data_path (world s))
    ("price" ++ "_" ++ symbol (self s) ++ ".csv").

(** The url of the price export in the currency [c]. *)
Definition price_url (s : State) (c : string) : string :=
  "http://performance.morningstar.com/perform/Performance/stock/exportStockPrice.action?t="
  ++ symbol (self s) ++ "&pd=max&freq=d&sd=&ed=&pg=0&culture=en-US&cur="
  ++ upper c.

(** The price history [hp] is at hand: the object holds it already, or
    its export is cached and the loader reads [hp] from it, or no export
    is cached and the server answers the request for the export, in the
    currency of the ratios that the object holds, with [hp]. *)
Definition prices_available (s : State) (hp : table) : Prop :=
  match _historic_prices (self s) with
  | Some df => df = hp
  | None =>
      match assoc (price_path s) (files (world s)) with
      | Some f => content f = Parsed hp
      | None =>
          exists df c,
            _ratios (self s) = Some df /\
            currency_of df = Some c /\
            remote (world s) (price_url s c) = Some (Parsed hp)
      end
  end.

(** The labels that [searchsorted] counts: those not above the key, or
    those below it. *)
Definition counted (right : bool) (key l : label) : bool :=
  if right then (l <=? key)%Z else (l <? key)%Z.

(** [pe_filled hp eps done pe]: in the column [pe], every period of
    [done] holds the close of the price date that [get_loc] finds for it,
    divided by the earnings per share of the period. *)
Definition pe_filled (hp : table) (eps : series) (done : list label)
  (pe : series) : Prop :=
  forall i e,
    In i done -> lookup_label i eps = Some e ->
    exists pos close,
      get_loc_nearest (index hp) i = Ok pos /\
      iloc_get hp pos "Close" = Ok close /\
      lookup_label i pe = Some (fdiv close e).

(** A [Stock] over a ratios table of one period, 2020-01-01, with
    earnings of 2 per share; the price history it holds has two dates,
    2019-12-20 (close 10) and 2020-01-10 (close 12). *)
Definition one_period_table : table :=
  mkTable [date 2020 1 1]
    [("earnings-per-share-usd", [Fin 2]); ("shares", [Fin 100])].

Definition two_prices_table : table :=
  mkTable [date 2019 12 20; date 2020 1 10] [("Close", [Fin 10; Fin 12])].

Definition one_period_state : State :=
  mkState (set_historic_prices (Some two_prices_table)
             (set_ratios (Some one_period_table)
                (Stock_init "ACME" false (Fin 2))))
    (mkWorld "morningstar_data" 0 [] (fun _ => None) []).

(** A [Stock] over a ratios table with a dividends column: the dividend
    doubled from the first period to the second. *)
Definition dividend_paying_table : table :=
  mkTable [date 2019 12 1; date 2020 12 1]
    [("earnings-per-share-usd", [Fin 1; Fin 2]);
     ("dividends-usd", [Fin 1; Fin 2]);
     ("shares", [Fin 100; Fin 100])].

Definition dividend_paying_state : State :=
  mkState (set_ratios (Some dividend_paying_table)
             (Stock_init "ACME" false (Fin 2)))
    (mkWorld "morningstar_data" 0 [] (fun _ => None) []).

(* ================================================================= *)
(** ** Further methods and notions *)

(** The path of the cached export of [report_type]. *)
Definition cache_path (s : State) (report_type : string) : string :=
  os_path_join (morningstar_data_path (world s))
    (report_type ++ "_" ++ symbol (self s) ++ ".csv").

(** The url that [_download_morningstar_data] retrieves for
    [report_type]. *)
Definition report_url (s : State) (report_type : string) : string :=
  if String.eqb report_type "ratios" then
    "http://financials.morningstar.com/ajax/exportKR2CSV.html?t="
    ++ symbol (self s)
  else
    "http://financials.morningstar.com/ajax/ReportProcess4CSV.html?t="
    ++ symbol (self s) ++ "&reportType=" ++ report_key report_type
    ++ "&period=12&dataType=A&order=asc&columnYear=5&number=1".

(** The five report types of [clear_cached_files]. *)
Definition report_types : list string :=
  ["income"; "cashflow"; "balancesheet"; "ratios"; "price"].

(** A new object for ACME at a moment when the server answers nothing and
    the data directory is empty. *)
Definition offline_state : State :=
  mkState (Stock_init "ACME" false (Fin 2))
    (mkWorld "morningstar_data" 1000000 [] (fun _ => None) []).

(** An object for ACME that holds a ratios table of one period with the
    earnings per share in USD, at a moment when no price export is cached
    and the server answers nothing. *)
Definition no_prices_table : table :=
  mkTable [date 2018 12 1]
    [("earnings-per-share-usd", [Fin 2]); ("shares", [Fin 10])].

Definition no_prices_state : State :=
  mkState
    (set_ratios (Some no_prices_table) (Stock_init "ACME" false (Fin 2)))
    (mkWorld "morningstar_data" 1000000 [] (fun _ => None) []).

(** The steps that the property [ratios] runs on a table it has just
    loaded and found not to be empty. *)
Definition derivation : M unit :=
  add_book_value_ps_growth ;;;
  add_earnings_ps_growth ;;;
  add_revenue_ps_growth ;;;
  add_operating_cashflow_ps_growth ;;;
  add_long_term_debt_ps_growth ;;;
  add_short_term_debt_ps_growth ;;;
  add_total_debt ;;;
  add_debt_ratios ;;;
  add_pe ;;;
  hd <- has_dividends ;;
  (if hd then
     cur <- currency_assigned ;;
     d <- ratios_col ("dividends-" ++ str_of cur) ;;
     ret tt
   else ret tt) ;;;
  add_dividends_ps_growth.

(** The table [d'] has the periods and the currency of [d], and every
    column of [d]. *)
Definition extends (d d' : table) : Prop :=
  index d' = index d /\
  currency_of d' = currency_of d /\
  forall key, contains d key = true -> contains d' key = true.

(** The method leaves the attribute [_ratios] as it is. *)
Definition keeps_ratios {A} (m : M A) : Prop :=
  forall s, _ratios (self (snd (m s))) = _ratios (self s).

(** Run on an object that holds a ratios table, the method leaves it
    with a table that extends that one, whether it returns or raises. *)
Definition grows {A} (m : M A) : Prop :=
  forall s d,
    _ratios (self s) = Some d ->
    exists d', _ratios (self (snd (m s))) = Some d' /\ extends d d'.

(** Run on an object that holds a ratios table in the currency [c0], the
    method leaves a table with the column [key] when it returns. *)
Definition provides {A} (c0 : option string) (key : string) (m : M A)
  : Prop :=
  forall s s' a d,
    _ratios (self s) = Some d ->
    currency_of d = c0 ->
    m s = (Ok a, s') ->
    exists d', _ratios (self s') = Some d' /\ contains d' key = true.

(** The columns that the derivation reads from the export, and the ones
    it adds whatever the balance sheet holds, for the currency [c]. *)
Definition read_columns (c : string) : list string :=
  ["book-value-per-share-" ++ c; "earnings-per-share-" ++ c;
   "revenue-" ++ c; "operating-cash-flow-" ++ c; "shares"].

Definition derived_columns (c : string) : list string :=
  ["book-value-ps-growth"; "earnings-ps-growth";
   "revenue-per-share-" ++ c; "revenue-ps-growth";
   "operating-cashflow-per-share-" ++ c; "operating-cashflow-ps-growth";
   "short-term-debt"; "short-term-debt-ps-growth"; "short-term-debt-ps";
   "total-debt-" ++ c; "total-debt-per-share-" ++ c; "total-debt-growth";
   "debt-per-earnings"; "debt-per-bookvalue"; "pe"; "dividends-ps-growth"].

(** A new object for ACME with a cached ratios export that lacks the book
    value per share. *)
Definition partial_ratios_export : table :=
  mkTable [date 2019 12 1; date 2020 12 1]
    [("earnings-per-share-usd", [Fin 1; Fin 2]);
     ("shares", [Fin 10; Fin 10])].

Definition partial_export_state : State :=
  mkState (Stock_init "ACME" false (Fin 2))
    (mkWorld "morningstar_data" 1000000
       [("morningstar_data/ratios_ACME.csv",
         mkFile 999000 (Parsed partial_ratios_export))]
       (fun _ => None) []).

(** [df[[key1, ..., keyn]]]: the columns named, in the order given, on
    the index of the frame.  pandas raises a [KeyError] that names the
    columns it misses; the first of them stands for them here. *)
Fixpoint select_columns (df : table) (keys : list string)
  : result (list (string * list float)) :=
  match keys with
  | [] => Ok []
  | key :: keys' =>
      match assoc key (columns df) with
      | Some vs =>
          rbind (select_columns df keys') (fun cs => Ok ((key, vs) :: cs))
      | None => Raise (KeyError key)
      end
  end.

Definition getitems (df : table) (keys : list string) : result table :=
  rbind (select_columns df keys) (fun cs => Ok (mkTable (index df) cs)).

(** [Stock.get_summary_df]: the table first, then the names, in which
    the currency is read five times. *)
Definition get_summary_df : M table :=
  df <- ratios ;;
  c1 <- currency ;;
  c2 <- currency ;;
  c3 <- currency ;;
  c4 <- currency ;;
  lift (getitems df
          ["return-on-equity";
           "return-on-invested-capital";
           "book-value-per-share-" ++ str_of c1;
           "book-value-ps-growth";
           "earnings-per-share-" ++ str_of c2;
           "earnings-ps-growth";
           "revenue-per-share-" ++ str_of c3;
           "revenue-ps-growth";
           "operating-cashflow-per-share-" ++ str_of c4;
           "operating-cashflow-ps-growth";
           "pe";
           "shares";
           "total-debt-growth";
           "debt-per-earnings";
           "debt-per-bookvalue"]).

(** The names of the columns of the summary, for the currency [c]. *)
Definition summary_columns (c : string) : list string :=
  ["return-on-equity"; "return-on-invested-capital";
   "book-value-per-share-" ++ c; "book-value-ps-growth";
   "earnings-per-share-" ++ c; "earnings-ps-growth";
   "revenue-per-share-" ++ c; "revenue-ps-growth";
   "operating-cashflow-per-share-" ++ c; "operating-cashflow-ps-growth";
   "pe"; "shares"; "total-debt-growth"; "debt-per-earnings";
   "debt-per-bookvalue"].

(** A new object for ACME whose three exports are cached: the ratios
    with the returns on equity and on invested capital, the balance
    sheet and the prices. *)
Definition full_ratios_export : table :=
  mkTable [date 2018 12 1; date 2019 12 1; date 2020 12 1]
    [("revenue-usd", [Fin 1000; Fin 1100; Fin 1210]);
     ("earnings-per-share-usd", [Fin 1; Fin (11 / 10); Fin (121 / 100)]);
     ("book-value-per-share-usd", [Fin 5; Fin 6; Fin 7]);
     ("operating-cash-flow-usd", [Fin 200; Fin 220; Fin 242]);
     ("shares", [Fin 100; Fin 100; Fin 100]);
     ("return-on-equity", [Fin 20; Fin 18; Fin 17]);
     ("return-on-invested-capital", [Fin 12; Fin 11; Fin 10])].

Definition cached_state : State :=
  mkState (Stock_init "ACME" false (Fin 2))
    (mkWorld "morningstar_data" 1000000
       [("morningstar_data/ratios_ACME.csv",
         mkFile 999000 (Parsed full_ratios_export));
        ("morningstar_data/balancesheet_ACME.csv",
         mkFile 999000 (Parsed acme_balancesheet_export));
        ("morningstar_data/price_ACME.csv",
         mkFile 999000 (Parsed acme_price_export))]
       (fun _ => None) []).

(** Whatever the method does, it leaves an object of which [P] holds in
    a state of which [P] holds. *)
Definition preserves {A} (P : State -> Prop) (m : M A) : Prop :=
  forall s, P s -> P (snd (m s)).

(** The object holds the balance sheet [bs]. *)
Definition balancesheet_held (bs : table) (s : State) : Prop :=
  _balancesheet (self s) = Some bs.

(** An object for ACME that holds the ratios export and a balance sheet,
    the prices being cached. *)
Definition held_state (bs : table) : State :=
  mkState
    (set_balancesheet (Some bs)
       (set_ratios (Some full_ratios_export)
          (Stock_init "ACME" false (Fin 2))))
    (mkWorld "morningstar_data" 1000000
       [("morningstar_data/price_ACME.csv",
         mkFile 999000 (Parsed acme_price_export))]
       (fun _ => None) []).

(** A balance sheet of a company without long-term debt. *)
Definition short_term_only_balancesheet : table :=
  mkTable [date 2018 12 1; date 2019 12 1; date 2020 12 1]
    [("short-term-debt", [Fin 10; Fin 20; Fin 30])].

(** The entry of the error log for a ratios export that cannot be
    read. *)
Definition unreadable_message (c : export) : string :=
  match c with
  | EmptyExport => "No ratios report found"
  | _ => "Unable to process report: ratios"
  end.

(** A new object for ACME whose cached ratios export is an empty file. *)
Definition empty_ratios_export_state : State :=
  mkState (Stock_init "ACME" false (Fin 2))
    (mkWorld "morningstar_data" 1000000
       [("morningstar_data/ratios_ACME.csv", mkFile 999000 EmptyExport)]
       (fun _ => None) []).

(** The four tables that the object loads on first access and that a
    caller can assign: the attribute, the property and the assignment of
    each. *)
Inductive statement : Type :=
| Income
| Cashflow
| Balancesheet
| Ratios.

Definition slot_of (p : statement) (o : Stock) : option table :=
  match p with
  | Income => _income o
  | Cashflow => _cashflow o
  | Balancesheet => _balancesheet o
  | Ratios => _ratios o
  end.

Definition getter (p : statement) : M table :=
  match p with
  | Income => income
  | Cashflow => cashflow
  | Balancesheet => balancesheet
  | Ratios => ratios
  end.

Definition setter_call (p : statement) (v : option table) : call :=
  match p with
  | Income => SetIncome v
  | Cashflow => SetCashflow v
  | Balancesheet => SetBalancesheet v
  | Ratios => SetRatios v
  end.

(** The object holds the table [df] for [p]; it holds the growth
    estimate [g]. *)
Definition table_held (p : statement) (df : table) (s : State) : Prop :=
  slot_of p (self s) = Some df.

Definition growth_held (g : float) (s : State) : Prop :=
  _estimated_growth (self s) = Some g.

(** An object to which a ratios table without any column of earnings per
    share was assigned. *)
Definition no_currency_table : table :=
  mkTable [date 2019 12 1; date 2020 12 1]
    [("revenue-usd", [Fin 1000; Fin 1100]); ("shares", [Fin 10; Fin 10])].

Definition no_currency_state : State :=
  mkState
    (set_ratios (Some no_currency_table) (Stock_init "ACME" false (Fin 2)))
    (mkWorld "morningstar_data" 0 [] (fun _ => None) []).

(** A filter, as [passes_filters] uses it: a name, and a check that runs
    on the object and answers, or raises. *)
Record filter : Type := mkFilter {
  name : string;
  check : M bool
}.

(** The line that [passes_filters] prints before it runs the check of a
    filter. *)
Definition checking (f : filter) : string := "checking " ++ name f.

(** [Stock.passes_filters] on an object constructed with [filters];
    [out] is what has been printed so far, and the lines printed come
    back with the result, also when a check raises. *)
Fixpoint passes_filters (filters : list filter) (out : list string)
  (s : State) : result bool * list string * State :=
  match filters with
  | [] => (Ok true, out, s)
  | f :: filters' =>
      let out' := (out ++ [checking f])%list in
      match check f s with
      | (Ok true, s') => passes_filters filters' out' s'
      | (Ok false, s') => (Ok false, out', s')
      | (Raise e, s') => (Raise e, out', s')
      end
  end.

(** Three filters: one that accepts every object, one that rejects every
    object, and one whose check raises. *)
Definition accept_all : filter := mkFilter "accept" (ret true).

Definition reject_all : filter := mkFilter "reject" (ret false).

Definition broken_filter : filter := mkFilter "broken" (raise ValueError).

(** A new object for ACME, nothing cached, the server answering the
    request for the income statement with an empty file. *)
Definition empty_answer_state : State :=
  mkState (Stock_init "ACME" false (Fin 2))
    (mkWorld "morningstar_data" 1000000 []
       (fun url =>
          if String.eqb url (report_url offline_state "income")
          then Some EmptyExport else None)
       []).

(** The last value of a series ([s.iloc[-1]]). *)
Definition series_last (s : series) : result float :=
  match rev s with
  | [] => Raise IndexError
  | p :: _ => Ok (snd p)
  end.

(** The property [Stock.current_price]: the close of the last row of the
    price history. *)
Definition current_price : M float :=
  hp <- historic_prices ;;
  lift (if Nat.eqb (List.length (index hp)) 0 then Raise IndexError
        else iloc_get hp (List.length (index hp) - 1) "Close").

(** The quotient of two Python floats: a zero divisor raises. *)
Definition py_truediv (a b : float) : result float :=
  if feqb b (Fin 0) then Raise ZeroDivisionError else Ok (fdiv a b).

(** The property [Stock.current_pe] *)
Definition current_pe : M float :=
  p <- current_price ;;
  df <- ratios ;;
  c <- currency ;;
  col <- lift (getitem df ("earnings-per-share-" ++ str_of c)) ;;
  e <- lift (series_last col) ;;
  lift (py_truediv p e).

(** An object for ACME that holds the price history of the scenario and
    a ratios table whose latest earnings per share are [e]. *)
Definition latest_earnings_table (e : R) : table :=
  mkTable [date 2019 12 1; date 2020 12 1]
    [("earnings-per-share-usd", [Fin 1; Fin e])].

Definition latest_earnings_state (e : R) : State :=
  mkState
    (set_historic_prices (Some acme_price_export)
       (set_ratios (Some (latest_earnings_table e))
          (Stock_init "ACME" false (Fin 2))))
    (mkWorld "morningstar_data" 0 [] (fun _ => None) []).

(** [pow(x, n)] for a number of years [n] that is not negative; the
    power of exponent zero is one whatever [x] is. *)
Fixpoint fpow (x : float) (n : nat) : float :=
  match n with
  | O => Fin 1
  | S n' => fmul x (fpow x n')
  end.

(** [Stock.get_estimated_eps], for [nyears >= 0] *)
Definition get_estimated_eps (nyears : nat) : M float :=
  df <- ratios ;;
  c <- currency ;;
  col <- lift (getitem df ("earnings-per-share-" ++ str_of c)) ;;
  e <- lift (series_last col) ;;
  g <- estimated_growth ;;
  ret (fmul e (fpow (fadd (Fin 1) g) nyears)).

(** [Stock.get_price_projection], for [nyears >= 0] *)
Definition get_price_projection (nyears : nat) : M float :=
  x <- get_estimated_eps nyears ;;
  t <- target_pe ;;
  ret (fmul x t).

(** The object holds no target P/E. *)
Definition no_target_pe (s : State) : Prop := _target_pe (self s) = None.

(** An object to which a ratios table without the column [pe] was
    assigned: earnings per share of 1 and then 2, and one observation of
    10% in each of the four growth columns. *)
Definition no_pe_table : table :=
  mkTable [date 2019 12 1; date 2020 12 1]
    [("earnings-per-share-usd", [Fin 1; Fin 2]);
     ("earnings-ps-growth", [NaN; Fin (1 / 10)]);
     ("revenue-ps-growth", [NaN; Fin (1 / 10)]);
     ("book-value-ps-growth", [NaN; Fin (1 / 10)]);
     ("operating-cashflow-ps-growth", [NaN; Fin (1 / 10)])].

Definition no_pe_state : State :=
  mkState (set_ratios (Some no_pe_table) (Stock_init "ACME" false (Fin 2)))
    (mkWorld "morningstar_data" 0 [] (fun _ => None) []).

(* ================================================================= *)
(** * Properties *)

(* ================================================================= *)
(** ** Arithmetic of floats *)

Local Open Scope R_scope.

Lemma Rsign_zero : Rsign 0 = Eq.
Proof.
  unfold Rsign. destruct (total_order_T 0 0) as [[H | H] | H];
    try reflexivity; exfalso; lra.
Qed.

Lemma Rsign_pos (x : R) : 0 < x -> Rsign x = Gt.
Proof.
  intros Hx. unfold Rsign.
  destruct (total_order_T x 0) as [[H | H] | H];
    try reflexivity; exfalso; lra.
Qed.

Lemma Rsign_neg (x : R) : x < 0 -> Rsign x = Lt.
Proof.
  intros Hx. unfold Rsign.
  destruct (total_order_T x 0) as [[H | H] | H];
    try reflexivity; exfalso; lra.
Qed.

Lemma Rsign_Eq (x : R) : Rsign x = Eq -> x = 0.
Proof.
  unfold Rsign.
  destruct (total_order_T x 0) as [[H | H] | H]; congruence.
Qed.

Lemma fdiv_Fin (a b : R) : b <> 0 -> fdiv (Fin a) (Fin b) = Fin (a / b).
Proof.
  intros Hb. simpl. destruct (Rsign b) eqn:E; try reflexivity.
  apply Rsign_Eq in E. contradiction.
Qed.

Lemma fdiv_zero_zero : fdiv (Fin 0) (Fin 0) = NaN.
Proof. simpl. rewrite Rsign_zero. reflexivity. Qed.

Lemma fdiv_pos_zero (a : R) : 0 < a -> fdiv (Fin a) (Fin 0) = PInf.
Proof.
  intros Ha. simpl. rewrite Rsign_zero, (Rsign_pos a Ha). reflexivity.
Qed.

Lemma feqb_Fin_false (a b : R) : a <> b -> feqb (Fin a) (Fin b) = false.
Proof.
  intros H. simpl. destruct (Req_dec_T a b); [contradiction | reflexivity].
Qed.

Lemma feqb_Fin_refl (a : R) : feqb (Fin a) (Fin a) = true.
Proof.
  simpl. destruct (Req_dec_T a a); [reflexivity | congruence].
Qed.

Lemma flt_Fin_true (a b : R) : a < b -> flt (Fin a) (Fin b) = true.
Proof.
  intros H. simpl. destruct (Rlt_dec a b); [reflexivity | contradiction].
Qed.

Lemma flt_Fin_false (a b : R) : b <= a -> flt (Fin a) (Fin b) = false.
Proof.
  intros H. simpl. destruct (Rlt_dec a b); [exfalso; lra | reflexivity].
Qed.

Lemma Rsum_map_div (l : list R) (s : R) :
  Rsum (map (fun x => x / s) l) = Rsum l / s.
Proof.
  induction l as [| x l IH]; simpl.
  - unfold Rdiv. lra.
  - rewrite IH. unfold Rdiv. lra.
Qed.

(** *** Rounding to binary64 *)

Lemma Int_part_IZR (z : Z) : Int_part (IZR z) = z.
Proof.
  symmetry. apply Int_part_spec. lra.
Qed.

Lemma rint_IZR (z : Z) : rint (IZR z) = z.
Proof.
  unfold rint. rewrite Int_part_IZR.
  replace (IZR z - IZR z) with 0 by lra.
  destruct (Rlt_dec 0 (1 / 2)); [reflexivity | exfalso; lra].
Qed.

Lemma rint_close (x : R) : - (1 / 2) <= IZR (rint x) - x <= 1 / 2.
Proof.
  unfold rint. destruct (base_Int_part x) as [H1 H2].
  destruct (Rlt_dec (x - IZR (Int_part x)) (1 / 2)); [lra |].
  destruct (Rlt_dec (1 / 2) (x - IZR (Int_part x))).
  - rewrite plus_IZR. lra.
  - destruct (Z.even (Int_part x)); [lra | rewrite plus_IZR; lra].
Qed.

Lemma IZR_near (a b : Z) : Rabs (IZR a - IZR b) < 1 -> a = b.
Proof.
  intros H. rewrite <- minus_IZR in H.
  destruct (Z.eq_dec a b) as [E | E]; [exact E | exfalso].
  assert (Hc : (a - b <= -1 \/ 1 <= a - b)%Z) by lia.
  destruct Hc as [Hc | Hc]; apply IZR_le in Hc;
    unfold Rabs in H; destruct (Rcase_abs (IZR (a - b))); lra.
Qed.

Lemma rint_unique (x : R) (z : Z) : Rabs (x - IZR z) < 1 / 2 -> rint x = z.
Proof.
  intros H. apply IZR_near. pose proof (rint_close x) as Hc.
  unfold Rabs in *.
  destruct (Rcase_abs (x - IZR z)); destruct (Rcase_abs (IZR (rint x) - IZR z)); lra.
Qed.

Lemma bpow_pos (e : Z) : 0 < bpow e.
Proof. apply powerRZ_lt. lra. Qed.

Lemma bpow_add (a b : Z) : bpow (a + b) = bpow a * bpow b.
Proof. apply powerRZ_add. lra. Qed.

Lemma bpow_0 : bpow 0 = 1.
Proof. reflexivity. Qed.

Lemma bpow_1 : bpow 1 = 2.
Proof. unfold bpow. simpl. lra. Qed.

Lemma bpow_opp (a : Z) : bpow (- a) = / bpow a.
Proof. apply powerRZ_neg'. Qed.

Lemma bpow_nat (n : nat) : bpow (Z.of_nat n) = 2 ^ n.
Proof. unfold bpow. symmetry. apply pow_powerRZ. Qed.

Lemma bpow_le (a b : Z) : (a <= b)%Z -> bpow a <= bpow b.
Proof.
  intros H. replace b with (a + Z.of_nat (Z.to_nat (b - a)))%Z by lia.
  rewrite bpow_add, bpow_nat.
  pose proof (bpow_pos a).
  assert (1 <= 2 ^ Z.to_nat (b - a)) by (apply pow_R1_Rle; lra).
  nra.
Qed.

Lemma bpow_lt (a b : Z) : (a < b)%Z -> bpow a < bpow b.
Proof.
  intros H. apply Rlt_le_trans with (bpow (a + 1)).
  - rewrite bpow_add, bpow_1. pose proof (bpow_pos a). lra.
  - apply bpow_le. lia.
Qed.

Lemma ln_bpow (e : Z) : ln (bpow e) = IZR e * ln 2.
Proof.
  unfold bpow. rewrite powerRZ_Rpower by lra. apply ln_Rpower.
Qed.

Lemma ln2_pos : 0 < ln 2.
Proof. pose proof ln_lt_2. lra. Qed.

Lemma mag_unique (x : R) (e : Z) :
  bpow e <= Rabs x < bpow (e + 1) -> mag x = e.
Proof.
  intros [H1 H2]. unfold mag. symmetry. apply Int_part_spec.
  pose proof ln2_pos as L. pose proof (bpow_pos e) as P.
  assert (Hlo : IZR e * ln 2 <= ln (Rabs x)).
  { rewrite <- ln_bpow. destruct H1 as [H1 | H1].
    - left. apply ln_increasing; assumption.
    - rewrite H1. right. reflexivity. }
  assert (Hhi : ln (Rabs x) < (IZR e + 1) * ln 2).
  { rewrite <- plus_IZR, <- ln_bpow. apply ln_increasing; lra. }
  split.
  - apply Rmult_lt_reg_r with (ln 2); [exact L |].
    unfold Rdiv, Rminus. rewrite Rmult_plus_distr_r, Rmult_assoc, Rinv_l by lra. lra.
  - apply Rmult_le_reg_r with (ln 2); [exact L |].
    unfold Rdiv. rewrite Rmult_assoc, Rinv_l by lra. lra.
Qed.

Lemma mag_spec (x : R) : x <> 0 -> bpow (mag x) <= Rabs x < bpow (mag x + 1).
Proof.
  intros Hx. pose proof ln2_pos as L.
  assert (Ha : 0 < Rabs x) by (apply Rabs_pos_lt; exact Hx).
  destruct (base_Int_part (ln (Rabs x) / ln 2)) as [H1 H2].
  fold (mag x) in H1, H2.
  assert (Hlo : IZR (mag x) * ln 2 <= ln (Rabs x)).
  { apply Rmult_le_compat_r with (r := ln 2) in H1; [| lra].
    unfold Rdiv in H1. rewrite Rmult_assoc, Rinv_l, Rmult_1_r in H1 by lra. exact H1. }
  assert (Hhi : ln (Rabs x) < (IZR (mag x) + 1) * ln 2).
  { assert (H3 : ln (Rabs x) / ln 2 < IZR (mag x) + 1) by lra.
    apply Rmult_lt_compat_r with (r := ln 2) in H3; [| lra].
    unfold Rdiv in H3. rewrite Rmult_assoc, Rinv_l, Rmult_1_r in H3 by lra. exact H3. }
  rewrite <- ln_bpow in Hlo. rewrite <- plus_IZR, <- ln_bpow in Hhi.
  split.
  - destruct (Rle_or_lt (bpow (mag x)) (Rabs x)) as [H | H]; [exact H | exfalso].
    apply ln_increasing in H; [lra | exact Ha].
  - apply ln_lt_inv; [exact Ha | apply bpow_pos | exact Hhi].
Qed.

Lemma mag_0 : mag 0 = 0%Z.
Proof.
  unfold mag. rewrite Rabs_R0.
  replace (ln 0) with 0.
  - unfold Rdiv. rewrite Rmult_0_l. apply (Int_part_IZR 0).
  - unfold ln. destruct (Rlt_dec 0 0); [exfalso; lra | reflexivity].
Qed.

Lemma b64r_0 : b64r 0 = 0.
Proof.
  unfold b64r. unfold Rdiv. rewrite Rmult_0_l, (rint_IZR 0). lra.
Qed.

(** The error of rounding is at most half a unit in the last place. *)
Lemma b64r_half_ulp (x : R) : Rabs (b64r x - x) <= bpow (ulp_exp x) / 2.
Proof.
  unfold b64r. set (u := bpow (ulp_exp x)).
  assert (Hu : 0 < u) by apply bpow_pos.
  pose proof (rint_close (x / u)) as Hc.
  replace (IZR (rint (x / u)) * u - x) with ((IZR (rint (x / u)) - x / u) * u)
    by (field; lra).
  apply Rabs_le. split; nra.
Qed.

Lemma b64r_error (x : R) :
  Rabs (b64r x - x) <= bpow (-53) * Rabs x + bpow (-1075).
Proof.
  pose proof (bpow_pos (-53)). pose proof (bpow_pos (-1075)).
  pose proof (Rabs_pos x).
  destruct (Req_dec x 0) as [Hx | Hx].
  { subst x. rewrite b64r_0. replace (0 - 0) with 0 by lra. rewrite Rabs_R0. lra. }
  eapply Rle_trans; [apply b64r_half_ulp |].
  unfold ulp_exp. destruct (Z.max_spec (mag x) (-1022)) as [[Hm E] | [Hm E]]; rewrite E.
  - replace (-1022 - 52)%Z with (-1075 + 1)%Z by lia.
    rewrite bpow_add, bpow_1.
    assert (0 <= bpow (-53) * Rabs x) by (apply Rmult_le_pos; lra). lra.
  - destruct (mag_spec x Hx) as [Hlo _].
    replace (mag x - 52)%Z with (mag x + (-53 + 1))%Z by lia.
    rewrite !bpow_add, bpow_1.
    assert (bpow (-53) * bpow (mag x) <= bpow (-53) * Rabs x)
      by (apply Rmult_le_compat_l; lra).
    lra.
Qed.

(** A number in the normal range is rounded with a relative error of at
    most [2^-53]. *)
Lemma b64r_relative (x : R) :
  bpow (-1022) <= Rabs x -> Rabs (b64r x - x) <= bpow (-53) * Rabs x.
Proof.
  intros Hn. eapply Rle_trans; [apply b64r_half_ulp |].
  assert (Hx : x <> 0).
  { intros ->. rewrite Rabs_R0 in Hn. pose proof (bpow_pos (-1022)). lra. }
  destruct (mag_spec x Hx) as [Hlo Hhi].
  assert (Hm : (-1022 <= mag x)%Z).
  { destruct (Z_lt_le_dec (mag x) (-1022)) as [H | H]; [exfalso | exact H].
    assert (bpow (mag x + 1) <= bpow (-1022)) by (apply bpow_le; lia). lra. }
  unfold ulp_exp. rewrite Z.max_l by lia.
  replace (mag x - 52)%Z with (mag x + (-53 + 1))%Z by lia.
  rewrite !bpow_add, bpow_1. pose proof (bpow_pos (-53)).
  assert (bpow (-53) * bpow (mag x) <= bpow (-53) * Rabs x)
    by (apply Rmult_le_compat_l; lra).
  lra.
Qed.

(** The value of a rounding, from the binade of the number and the integer
    nearest to its scaled value. *)
Lemma b64r_eval (x : R) (e z : Z) :
  (-1022 <= e)%Z -> bpow e <= Rabs x < bpow (e + 1) ->
  Rabs (x * bpow (52 - e) - IZR z) < 1 / 2 ->
  b64r x = IZR z * bpow (e - 52).
Proof.
  intros He Hb Hz. unfold b64r, ulp_exp.
  rewrite (mag_unique x e Hb), Z.max_l by lia.
  replace (x / bpow (e - 52)) with (x * bpow (52 - e)).
  - rewrite (rint_unique _ z Hz). reflexivity.
  - replace (52 - e)%Z with (- (e - 52))%Z by lia. rewrite bpow_opp. reflexivity.
Qed.

Lemma b64r_exact (x : R) (e z : Z) :
  (-1022 <= e)%Z -> bpow e <= Rabs x < bpow (e + 1) ->
  x = IZR z * bpow (e - 52) -> b64r x = x.
Proof.
  intros He Hb Hz. rewrite (b64r_eval x e z He Hb).
  - symmetry. exact Hz.
  - rewrite Hz at 1. rewrite Rmult_assoc, <- bpow_add.
    replace (e - 52 + (52 - e))%Z with 0%Z by lia. rewrite bpow_0, Rmult_1_r.
    replace (IZR z - IZR z) with 0 by lra. rewrite Rabs_R0. lra.
Qed.

Lemma bpow_pos_lit (p : positive) : bpow (Z.pos p) = IZR (Z.pow_pos 2 p).
Proof. unfold bpow. symmetry. apply Zpower_pos_powerRZ. Qed.

Lemma bpow_neg_lit (p : positive) : bpow (Z.neg p) = / IZR (Z.pow_pos 2 p).
Proof.
  change (Z.neg p) with (- Z.pos p)%Z. rewrite bpow_opp, bpow_pos_lit. reflexivity.
Qed.

Ltac bpow_lit :=
  repeat match goal with
  | |- context [bpow ?e] =>
      let v := eval vm_compute in e in
      lazymatch v with
      | Z0 => replace (bpow e) with 1 by reflexivity
      | Zpos ?p =>
          let n := eval vm_compute in (Z.pow_pos 2 p) in
          replace (bpow e) with (IZR n) by (symmetry; exact (bpow_pos_lit p))
      | Zneg ?p =>
          let n := eval vm_compute in (Z.pow_pos 2 p) in
          replace (bpow e) with (/ IZR n) by (symmetry; exact (bpow_neg_lit p))
      end
  end.

Lemma b64r_eval_pos (x : R) (e z : Z) :
  (-1022 <= e)%Z -> bpow e <= x < bpow (e + 1) ->
  IZR z - 1 / 2 < x * bpow (52 - e) < IZR z + 1 / 2 ->
  b64r x = IZR z * bpow (e - 52).
Proof.
  intros He Hb Hz. pose proof (bpow_pos e).
  apply b64r_eval; [exact He | rewrite Rabs_pos_eq by lra; exact Hb |].
  apply Rabs_def1; lra.
Qed.

Lemma b64r_eval_neg (x : R) (e z : Z) :
  (-1022 <= e)%Z -> bpow e <= - x < bpow (e + 1) ->
  IZR z - 1 / 2 < x * bpow (52 - e) < IZR z + 1 / 2 ->
  b64r x = IZR z * bpow (e - 52).
Proof.
  intros He Hb Hz. pose proof (bpow_pos e).
  apply b64r_eval; [exact He | rewrite Rabs_left by lra; exact Hb |].
  apply Rabs_def1; lra.
Qed.

Lemma rint_le (x y : R) : x <= y -> (rint x <= rint y)%Z.
Proof.
  intros H. destruct (Z_le_gt_dec (rint x) (rint y)) as [Hle | Hgt];
    [exact Hle | exfalso].
  assert (Hz : (rint y + 1 <= rint x)%Z) by lia.
  apply IZR_le in Hz. rewrite plus_IZR in Hz.
  pose proof (rint_close x). pose proof (rint_close y).
  assert (E : x = y) by lra. subst y. lia.
Qed.

Lemma Rabs_le_both (x a : R) : Rabs x <= a -> - a <= x <= a.
Proof. intros H. unfold Rabs in H. destruct (Rcase_abs x); lra. Qed.

Lemma rint_abs_le (x : R) (m : Z) :
  Rabs x <= IZR m -> (Z.abs (rint x) <= m)%Z.
Proof.
  intros H.
  assert (H1 : - IZR m <= x) by (unfold Rabs in H; destruct (Rcase_abs x); lra).
  assert (H2 : x <= IZR m) by (unfold Rabs in H; destruct (Rcase_abs x); lra).
  rewrite <- opp_IZR in H1.
  apply rint_le in H1, H2. rewrite rint_IZR in H1, H2. lia.
Qed.

Lemma bpow_IZR (n : Z) : (0 <= n)%Z -> bpow n = IZR (2 ^ n).
Proof.
  intros H. rewrite <- (Z2Nat.id n H) at 1. rewrite bpow_nat.
  rewrite pow_IZR, Z2Nat.id by exact H. reflexivity.
Qed.

(** An integer of at most 53 bits times a power of two is a binary64
    number: rounding leaves it as it is. *)
Lemma b64r_grid (z k : Z) :
  (-1074 <= k)%Z -> (Z.abs z <= 2 ^ 53)%Z ->
  b64r (IZR z * bpow k) = IZR z * bpow k.
Proof.
  intros Hk Hz. destruct (Z.eq_dec z 0) as [E | E].
  { subst z. rewrite Rmult_0_l. apply b64r_0. }
  set (y := IZR z * bpow k).
  pose proof (bpow_pos k) as Pk.
  assert (Habs : Rabs y = IZR (Z.abs z) * bpow k).
  { unfold y. rewrite Rabs_mult, (Rabs_pos_eq (bpow k)) by lra.
    rewrite <- abs_IZR. reflexivity. }
  assert (Hz1 : 1 <= IZR (Z.abs z)) by (apply IZR_le; lia).
  assert (Hz2 : IZR (Z.abs z) <= bpow 53).
  { rewrite bpow_IZR by lia. apply IZR_le. exact Hz. }
  assert (Hy : y <> 0).
  { intros Hy. rewrite Hy, Rabs_R0 in Habs. nra. }
  destruct (mag_spec y Hy) as [Hlo Hhi]. set (e := mag y) in *.
  assert (He1 : (k <= e)%Z).
  { destruct (Z_le_gt_dec k e) as [H | H]; [exact H | exfalso].
    assert (bpow (e + 1) <= bpow k) by (apply bpow_le; lia). nra. }
  assert (He2 : (e <= k + 53)%Z).
  { destruct (Z_le_gt_dec e (k + 53)) as [H | H]; [exact H | exfalso].
    assert (bpow (k + 53 + 1) <= bpow e) by (apply bpow_le; lia).
    rewrite <- Z.add_assoc, bpow_add in H0.
    assert (bpow 53 < bpow (53 + 1)) by (apply bpow_lt; lia). nra. }
  unfold b64r. fold y. unfold ulp_exp. fold e.
  set (u := (Z.max e (-1022) - 52)%Z).
  assert (Pu : 0 < bpow u) by apply bpow_pos.
  destruct (Z_le_gt_dec u k) as [Hu | Hu].
  - assert (Hq : y / bpow u = IZR (z * 2 ^ (k - u))).
    { rewrite mult_IZR, <- bpow_IZR by lia. unfold y.
      replace k with (k - u + u)%Z at 1 by lia. rewrite bpow_add.
      field. lra. }
    rewrite Hq, rint_IZR, mult_IZR, <- bpow_IZR by lia.
    rewrite Rmult_assoc, <- bpow_add. unfold y. do 2 f_equal. lia.
  - assert (Ee : e = (k + 53)%Z) by lia.
    assert (Eu : u = (k + 1)%Z) by lia.
    assert (Hz3 : IZR (Z.abs z) = bpow 53).
    { apply Rle_antisym; [exact Hz2 |].
      rewrite Ee, bpow_add, Habs in Hlo. nra. }
    assert (Ez : IZR z = IZR (Z.sgn z) * bpow 53).
    { rewrite <- Hz3, <- mult_IZR, Z.mul_comm, Z.abs_sgn. reflexivity. }
    assert (Hq : y / bpow u = IZR (Z.sgn z * 2 ^ 52)).
    { rewrite mult_IZR, <- bpow_IZR by lia. unfold y. rewrite Eu, Ez.
      replace 53%Z with (52 + 1)%Z by lia.
      rewrite !bpow_add, bpow_1. field. lra. }
    rewrite Hq, rint_IZR, mult_IZR, <- bpow_IZR by lia. unfold y.
    rewrite Eu, Ez. replace 53%Z with (52 + 1)%Z by lia.
    rewrite !bpow_add, bpow_1. ring.
Qed.

Lemma ulp_exp_ge (x : R) : (-1074 <= ulp_exp x)%Z.
Proof. unfold ulp_exp. lia. Qed.

Lemma b64r_mantissa (x : R) :
  (Z.abs (rint (x / bpow (ulp_exp x))) <= 2 ^ 53)%Z.
Proof.
  apply rint_abs_le. rewrite <- bpow_IZR by lia.
  pose proof (bpow_pos (ulp_exp x)) as Pu.
  unfold Rdiv. rewrite Rabs_mult, (Rabs_inv (bpow (ulp_exp x))).
  rewrite (Rabs_pos_eq (bpow (ulp_exp x))) by lra.
  apply Rmult_le_reg_r with (bpow (ulp_exp x)); [exact Pu |].
  rewrite Rmult_assoc, Rinv_l, Rmult_1_r, <- bpow_add by lra.
  destruct (Req_dec x 0) as [Hx | Hx].
  - subst x. rewrite Rabs_R0. left. apply bpow_pos.
  - destruct (mag_spec x Hx) as [_ Hhi].
    assert (bpow (mag x + 1) <= bpow (53 + ulp_exp x))
      by (apply bpow_le; unfold ulp_exp; lia).
    lra.
Qed.

(** Rounding a binary64 number leaves it as it is. *)
Lemma b64r_idem (x : R) : b64r (b64r x) = b64r x.
Proof.
  unfold b64r at 2 3. apply b64r_grid; [apply ulp_exp_ge | apply b64r_mantissa].
Qed.

Lemma b64_idem (x : R) : f64 (b64 x) = b64 x.
Proof.
  unfold b64. destruct (Rle_dec (bpow 1024) (b64r x)) as [H1 | H1];
    [reflexivity |].
  destruct (Rle_dec (b64r x) (- bpow 1024)) as [H2 | H2]; [reflexivity |].
  simpl. unfold b64. rewrite b64r_idem.
  destruct (Rle_dec (bpow 1024) (b64r x)); [contradiction |].
  destruct (Rle_dec (b64r x) (- bpow 1024)); [contradiction | reflexivity].
Qed.

Lemma f64_idem (x : float) : f64 (f64 x) = f64 x.
Proof. destruct x; try reflexivity. apply b64_idem. Qed.

Lemma b64_Fin (x : R) :
  Rabs (b64r x) < bpow 1024 -> b64 x = Fin (b64r x).
Proof.
  intros H. apply Rabs_def2 in H. unfold b64.
  destruct (Rle_dec (bpow 1024) (b64r x)); [exfalso; lra |].
  destruct (Rle_dec (b64r x) (- bpow 1024)); [exfalso; lra | reflexivity].
Qed.

Lemma b64_in_range (x : R) : Rabs x <= bpow 1023 -> b64 x = Fin (b64r x).
Proof.
  intros H. apply b64_Fin.
  pose proof (b64r_error x) as He.
  assert (Ht : Rabs (b64r x) <= Rabs (b64r x - x) + Rabs x).
  { replace (b64r x) with ((b64r x - x) + x) at 1 by ring. apply Rabs_triang. }
  assert (H1 : bpow (-53) * Rabs x <= bpow (-53) * bpow 1023).
  { apply Rmult_le_compat_l; [left; apply bpow_pos | exact H]. }
  rewrite <- bpow_add in H1.
  assert (H2 : bpow (-1075) < bpow (-53 + 1023)) by (apply bpow_lt; lia).
  assert (H3 : bpow (-53 + 1023) < bpow 1022) by (apply bpow_lt; lia).
  assert (H4 : bpow 1024 = 2 * bpow 1023)
    by (replace 1024%Z with (1 + 1023)%Z by lia; rewrite bpow_add, bpow_1; ring).
  assert (H5 : bpow 1023 = 2 * bpow 1022)
    by (replace 1023%Z with (1 + 1022)%Z by lia; rewrite bpow_add, bpow_1; ring).
  lra.
Qed.

(** The binary64 numbers: the finite floats that rounding leaves as they
    are. *)
Lemma binary64_b64 (x y : R) : b64 x = Fin y -> binary64 y.
Proof.
  intros H. unfold binary64. pose proof (b64_idem x) as Hi.
  rewrite H in Hi. exact Hi.
Qed.

Lemma binary64_f64 (y : R) : binary64 y -> f64 (Fin y) = Fin y.
Proof. intros H. exact H. Qed.

Lemma binary64_b64r (y : R) : binary64 y -> b64r y = y.
Proof.
  unfold binary64, b64. intros H.
  destruct (Rle_dec (bpow 1024) (b64r y)); [discriminate |].
  destruct (Rle_dec (b64r y) (- bpow 1024)); [discriminate |].
  congruence.
Qed.

Lemma binary64_range (y : R) : binary64 y -> Rabs y < bpow 1024.
Proof.
  intros H. pose proof (binary64_b64r y H) as E.
  unfold binary64, b64 in H. rewrite E in H.
  destruct (Rle_dec (bpow 1024) y); [discriminate |].
  destruct (Rle_dec y (- bpow 1024)); [discriminate |].
  apply Rabs_def1; lra.
Qed.

(** The integers of at most 53 bits are binary64 numbers. *)
Lemma binary64_int (z : Z) :
  (Z.abs z <= 9007199254740992)%Z -> binary64 (IZR z).
Proof.
  intros H. unfold binary64.
  assert (E : b64r (IZR z) = IZR z).
  { rewrite <- (Rmult_1_r (IZR z)). rewrite <- bpow_0.
    apply b64r_grid; [lia | exact H]. }
  rewrite b64_Fin; rewrite E; [reflexivity |].
  rewrite <- abs_IZR. apply Rle_lt_trans with (IZR 9007199254740992).
  - apply IZR_le. exact H.
  - bpow_lit. lra.
Qed.

Lemma binary64_0 : binary64 0.
Proof. apply (binary64_int 0). lia. Qed.

Lemma binary64_1 : binary64 1.
Proof. apply (binary64_int 1). lia. Qed.

(** The operations on binary64 numbers. *)
Lemma fadd64_Fin (a b : R) :
  binary64 a -> binary64 b -> fadd64 (Fin a) (Fin b) = b64 (a + b).
Proof.
  intros Ha Hb. unfold fadd64, binary64 in *. cbn [f64]. rewrite Ha, Hb.
  reflexivity.
Qed.

Lemma fsub64_Fin (a b : R) :
  binary64 a -> binary64 b -> fsub64 (Fin a) (Fin b) = b64 (a - b).
Proof.
  intros Ha Hb. unfold fsub64, binary64 in *. cbn [f64]. rewrite Ha, Hb.
  reflexivity.
Qed.

Lemma fmul64_Fin (a b : R) :
  binary64 a -> binary64 b -> fmul64 (Fin a) (Fin b) = b64 (a * b).
Proof.
  intros Ha Hb. unfold fmul64, binary64 in *. cbn [f64]. rewrite Ha, Hb.
  reflexivity.
Qed.

Lemma fdiv64_Fin (a b : R) :
  binary64 a -> binary64 b -> b <> 0 ->
  fdiv64 (Fin a) (Fin b) = b64 (a / b).
Proof.
  intros Ha Hb Hn. unfold fdiv64, binary64 in *. cbn [f64].
  rewrite Ha, Hb, (fdiv_Fin a b Hn). reflexivity.
Qed.

Lemma fadd64_NaN_r (x : float) : fadd64 x NaN = NaN.
Proof. unfold fadd64. cbn [f64]. destruct (f64 x); reflexivity. Qed.

Lemma fmul64_NaN_r (x : float) : fmul64 x NaN = NaN.
Proof. unfold fmul64. cbn [f64]. destruct (f64 x); reflexivity. Qed.

Lemma fdiv64_NaN_l (y : float) : fdiv64 NaN y = NaN.
Proof. unfold fdiv64. cbn [f64]. reflexivity. Qed.

Lemma fdiv64_NaN_r (x : float) : fdiv64 x NaN = NaN.
Proof. unfold fdiv64. cbn [f64]. destruct (f64 x); reflexivity. Qed.

Lemma fsub64_NaN_l (y : float) : fsub64 NaN y = NaN.
Proof. unfold fsub64. cbn [f64]. reflexivity. Qed.

Lemma b64_grid (z k : Z) :
  (-1074 <= k <= 970)%Z -> (Z.abs z <= 2 ^ 53)%Z ->
  b64 (IZR z * bpow k) = Fin (IZR z * bpow k).
Proof.
  intros Hk Hz. rewrite b64_Fin; rewrite b64r_grid by lia; [reflexivity |].
  pose proof (bpow_pos k) as Pk.
  rewrite Rabs_mult, (Rabs_pos_eq (bpow k)), <- abs_IZR by lra.
  apply Rle_lt_trans with (bpow 53 * bpow 970).
  - apply Rmult_le_compat.
    + apply IZR_le. lia.
    + lra.
    + rewrite bpow_IZR by lia. apply IZR_le. exact Hz.
    + apply bpow_le. lia.
  - rewrite <- bpow_add. apply bpow_lt. lia.
Qed.

Lemma b64_eval_pos (x : R) (e z : Z) :
  (-1022 <= e <= 1022)%Z -> bpow e <= x < bpow (e + 1) ->
  IZR z - 1 / 2 < x * bpow (52 - e) < IZR z + 1 / 2 ->
  b64 x = Fin (IZR z * bpow (e - 52)).
Proof.
  intros He Hb Hz.
  rewrite <- (b64r_eval_pos x e z (proj1 He) Hb Hz).
  apply b64_in_range. pose proof (bpow_pos e).
  rewrite Rabs_pos_eq by lra.
  assert (bpow (e + 1) <= bpow 1023) by (apply bpow_le; lia). lra.
Qed.

Lemma mag_le (x y : R) : 0 < x -> x <= y -> (mag x <= mag y)%Z.
Proof.
  intros Hx Hxy.
  destruct (Z_le_gt_dec (mag x) (mag y)) as [H | H]; [exact H | exfalso].
  destruct (mag_spec x ltac:(lra)) as [X1 _].
  destruct (mag_spec y ltac:(lra)) as [_ Y2].
  rewrite Rabs_pos_eq in X1, Y2 by lra.
  assert (bpow (mag y + 1) <= bpow (mag x)) by (apply bpow_le; lia).
  lra.
Qed.

(** Rounding does not fall below a binary64 number that the rounded
    number is not below. *)
Lemma b64r_ge (g x : R) : 0 < g -> b64r g = g -> g <= x -> g <= b64r x.
Proof.
  intros Hg Eg Hgx.
  pose proof (mag_le g x Hg Hgx) as Hm.
  pose proof (bpow_pos (ulp_exp x)) as Px.
  destruct (Z.eq_dec (ulp_exp x) (ulp_exp g)) as [E | E].
  - rewrite <- Eg at 1. unfold b64r. rewrite E.
    pose proof (bpow_pos (ulp_exp g)) as Pg.
    apply Rmult_le_compat_r; [lra |]. apply IZR_le, rint_le.
    apply Rmult_le_compat_r; [left; apply Rinv_0_lt_compat; exact Pg |].
    exact Hgx.
  - assert (Hx : (mag g < mag x)%Z /\ (-1022 < mag x)%Z)
      by (unfold ulp_exp in E; lia).
    destruct (mag_spec x ltac:(lra)) as [X1 _].
    destruct (mag_spec g ltac:(lra)) as [_ G2].
    rewrite Rabs_pos_eq in X1, G2 by lra.
    assert (Ek : ulp_exp x = (mag x - 52)%Z) by (unfold ulp_exp; lia).
    assert (Hq : IZR (2 ^ 52) <= x / bpow (ulp_exp x)).
    { rewrite <- bpow_IZR by lia.
      apply Rmult_le_reg_r with (bpow (ulp_exp x)); [exact Px |].
      unfold Rdiv. rewrite Rmult_assoc, Rinv_l, Rmult_1_r by lra.
      rewrite <- bpow_add, Ek. replace (52 + (mag x - 52))%Z with (mag x) by lia.
      exact X1. }
    apply rint_le in Hq. rewrite rint_IZR in Hq. apply IZR_le in Hq.
    rewrite <- bpow_IZR in Hq by lia.
    assert (bpow 52 * bpow (ulp_exp x) <= b64r x).
    { unfold b64r. apply Rmult_le_compat_r; lra. }
    rewrite <- bpow_add, Ek in H.
    replace (52 + (mag x - 52))%Z with (mag x) in H by lia.
    assert (bpow (mag g + 1) <= bpow (mag x)) by (apply bpow_le; lia).
    lra.
Qed.

Lemma mag_1 : mag 1 = 0%Z.
Proof.
  apply mag_unique. rewrite Rabs_R1, bpow_0. simpl (0 + 1)%Z.
  rewrite bpow_1. lra.
Qed.

(** The binary64 number above 1 that is nearest to 1 is [1 + 2^-52]. *)
Lemma binary64_above_1 (a : R) :
  b64r a = a -> 1 < a -> 1 + bpow (-52) <= a.
Proof.
  intros Ea Ha.
  pose proof (mag_le 1 a ltac:(lra) ltac:(lra)) as Hm. rewrite mag_1 in Hm.
  destruct (mag_spec a ltac:(lra)) as [A1 _].
  rewrite Rabs_pos_eq in A1 by lra.
  assert (Ek : ulp_exp a = (mag a - 52)%Z) by (unfold ulp_exp; lia).
  pose proof (bpow_pos (ulp_exp a)) as Pk.
  destruct (Z_le_gt_dec (ulp_exp a) 0) as [Hk | Hk].
  - set (z := rint (a / bpow (ulp_exp a))) in *.
    assert (Ez : a = IZR z * bpow (ulp_exp a)).
    { rewrite <- Ea at 1. reflexivity. }
    assert (E1 : 1 = IZR (2 ^ (- ulp_exp a)) * bpow (ulp_exp a)).
    { rewrite <- bpow_IZR by lia. rewrite <- bpow_add.
      replace (- ulp_exp a + ulp_exp a)%Z with 0%Z by lia. reflexivity. }
    assert (Hz : (2 ^ (- ulp_exp a) + 1 <= z)%Z).
    { assert (IZR (2 ^ (- ulp_exp a)) < IZR z).
      { apply Rmult_lt_reg_r with (bpow (ulp_exp a)); [exact Pk |]. lra. }
      apply lt_IZR in H. lia. }
    apply IZR_le in Hz. rewrite plus_IZR in Hz.
    assert ((IZR (2 ^ (- ulp_exp a)) + 1) * bpow (ulp_exp a)
            <= IZR z * bpow (ulp_exp a))
      by (apply Rmult_le_compat_r; lra).
    assert (bpow (-52) <= bpow (ulp_exp a)) by (apply bpow_le; lia).
    lra.
  - assert (bpow 53 <= bpow (mag a)) by (apply bpow_le; lia).
    assert (bpow (-52) <= bpow 0) by (apply bpow_le; lia).
    assert (bpow 1 <= bpow 53) by (apply bpow_le; lia).
    rewrite bpow_0 in H0. rewrite bpow_1 in H1. lra.
Qed.

Lemma b64r_one_and_ulp : b64r (1 + bpow (-52)) = 1 + bpow (-52).
Proof.
  replace (1 + bpow (-52)) with (IZR (2 ^ 52 + 1) * bpow (-52)).
  - apply b64r_grid; lia.
  - rewrite plus_IZR, <- bpow_IZR by lia.
    rewrite Rmult_plus_distr_r, <- bpow_add. simpl (52 + -52)%Z.
    rewrite bpow_0. ring.
Qed.

(** The least positive binary64 number is [2^-1074]. *)
Lemma binary64_pos_min (a : R) :
  b64r a = a -> 0 < a -> bpow (-1074) <= a.
Proof.
  intros Ea Ha. pose proof (bpow_pos (ulp_exp a)) as Pk.
  set (z := rint (a / bpow (ulp_exp a))) in *.
  assert (Ez : a = IZR z * bpow (ulp_exp a)).
  { rewrite <- Ea at 1. reflexivity. }
  assert (Hz : (1 <= z)%Z).
  { destruct (Z_le_gt_dec z 0) as [H | H]; [exfalso | lia].
    apply IZR_le in H.
    assert (IZR z * bpow (ulp_exp a) <= 0 * bpow (ulp_exp a))
      by (apply Rmult_le_compat_r; lra).
    lra. }
  apply IZR_le in Hz.
  assert (1 * bpow (ulp_exp a) <= IZR z * bpow (ulp_exp a))
    by (apply Rmult_le_compat_r; lra).
  assert (bpow (-1074) <= bpow (ulp_exp a))
    by (apply bpow_le, ulp_exp_ge).
  lra.
Qed.

(** The binary64 number below 1 that is nearest to 1 is [1 - 2^-53]. *)
Lemma binary64_below_1 (a : R) :
  b64r a = a -> 0 < a < 1 -> a <= 1 - bpow (-53).
Proof.
  intros Ea [Ha Ha1].
  destruct (mag_spec a ltac:(lra)) as [A1 A2].
  rewrite Rabs_pos_eq in A1, A2 by lra.
  assert (B53 : bpow (-53) <= / 2).
  { apply Rle_trans with (bpow (-1)); [apply bpow_le; lia | bpow_lit; lra]. }
  assert (Hm : (mag a <= -1)%Z).
  { destruct (Z_le_gt_dec (mag a) (-1)) as [H | H]; [exact H | exfalso].
    assert (bpow 0 <= bpow (mag a)) by (apply bpow_le; lia).
    rewrite bpow_0 in H0. lra. }
  destruct (Z.eq_dec (mag a) (-1)) as [E | E].
  - assert (Ek : ulp_exp a = (-53)%Z) by (unfold ulp_exp; lia).
    set (z := rint (a / bpow (ulp_exp a))) in *.
    assert (Ez : a = IZR z * bpow (-53)).
    { rewrite <- Ea at 1. unfold b64r. fold z. rewrite Ek. reflexivity. }
    pose proof (bpow_pos (-53)) as Pk.
    assert (E1 : 1 = IZR (2 ^ 53) * bpow (-53)).
    { rewrite <- bpow_IZR by lia. rewrite <- bpow_add.
      simpl (53 + -53)%Z. rewrite bpow_0. reflexivity. }
    assert (Hz : (z <= 2 ^ 53 - 1)%Z).
    { assert (IZR z < IZR (2 ^ 53)).
      { apply Rmult_lt_reg_r with (bpow (-53)); [exact Pk |]. lra. }
      apply lt_IZR in H. lia. }
    apply IZR_le in Hz. rewrite minus_IZR in Hz.
    assert (IZR z * bpow (-53) <= (IZR (2 ^ 53) - 1) * bpow (-53))
      by (apply Rmult_le_compat_r; lra).
    lra.
  - assert (bpow (mag a + 1) <= bpow (-1)) by (apply bpow_le; lia).
    replace (bpow (-1)) with (/ 2) in H by (bpow_lit; lra). lra.
Qed.

Lemma b64_0 : b64 0 = Fin 0.
Proof. exact binary64_0. Qed.

Lemma b64_1 : b64 1 = Fin 1.
Proof. exact binary64_1. Qed.

Lemma fadd64_0_l (y : R) : binary64 y -> fadd64 (Fin 0) (Fin y) = Fin y.
Proof.
  intros H. rewrite (fadd64_Fin 0 y binary64_0 H), Rplus_0_l. exact H.
Qed.

Lemma fadd64_NaN_l (y : float) : fadd64 NaN y = NaN.
Proof. reflexivity. Qed.

(** *** Sums of a few numbers *)

Lemma pairwise_sum_rec_unfold (fuel : nat) (l : list float) :
  pairwise_sum_rec fuel l
  = if Nat.ltb (List.length l) 8 then fold_left fadd64 l (Fin 0)
    else if Nat.leb (List.length l) 128 then block_sum l
    else
      match fuel with
      | O => NaN
      | S f =>
          fadd64
            (pairwise_sum_rec f
               (firstn (Nat.div (List.length l) 2
                        - Nat.modulo (Nat.div (List.length l) 2) 8) l))
            (pairwise_sum_rec f
               (skipn (Nat.div (List.length l) 2
                       - Nat.modulo (Nat.div (List.length l) 2) 8) l))
      end.
Proof. destruct fuel; reflexivity. Qed.

(** Fewer than eight numbers are added one after the other. *)
Lemma np_sum_short (l : list float) :
  (List.length l < 8)%nat ->
  np_sum l = fadd64 (Fin 0) (fold_left fadd64 l (Fin 0)).
Proof.
  intros H. unfold np_sum, pairwise_sum. rewrite pairwise_sum_rec_unfold.
  apply Nat.ltb_lt in H. rewrite H. reflexivity.
Qed.

Lemma np_sum_nil : np_sum [] = Fin 0.
Proof.
  rewrite np_sum_short by (simpl; lia). cbn [fold_left].
  apply fadd64_0_l. exact binary64_0.
Qed.

Lemma np_sum_one (y : R) : binary64 y -> np_sum [Fin y] = Fin y.
Proof.
  intros H. rewrite np_sum_short by (simpl; lia). cbn [fold_left].
  rewrite !(fadd64_0_l y H). reflexivity.
Qed.

Lemma np_sum_one_NaN : np_sum [NaN] = NaN.
Proof.
  rewrite np_sum_short by (simpl; lia). cbn [fold_left].
  rewrite !fadd64_NaN_r. reflexivity.
Qed.

Lemma bpow_ge_1 (e : Z) : (0 <= e)%Z -> 1 <= bpow e.
Proof. intros H. rewrite <- bpow_0. apply bpow_le. exact H. Qed.

Lemma eps64_bounds : 0 < eps64 < / 1000000.
Proof.
  unfold eps64. split; [apply bpow_pos |]. bpow_lit.
  apply Rinv_lt_contravar; lra.
Qed.

(** *** Factors of relative error *)

Lemma near_pos (k : nat) (t : R) : near k t -> 0 < t.
Proof.
  intros [H _]. pose proof eps64_bounds.
  eapply Rlt_le_trans; [| exact H]. apply pow_lt. lra.
Qed.

Lemma near_1 (k : nat) : near k 1.
Proof.
  pose proof eps64_bounds as E. unfold near.
  assert (P : 0 < (1 - eps64) ^ k) by (apply pow_lt; lra).
  assert (L : (1 - eps64) ^ k <= 1).
  { apply Rle_trans with (1 ^ k); [apply pow_incr; lra |].
    rewrite pow1. lra. }
  split; [exact L |].
  rewrite <- Rinv_1 at 1. apply Rinv_le_contravar; assumption.
Qed.

Lemma near_mul (a b : nat) (t1 t2 : R) :
  near a t1 -> near b t2 -> near (a + b) (t1 * t2).
Proof.
  intros [L1 U1] [L2 U2]. pose proof eps64_bounds as E. unfold near.
  assert (Pa : 0 < (1 - eps64) ^ a) by (apply pow_lt; lra).
  assert (Pb : 0 < (1 - eps64) ^ b) by (apply pow_lt; lra).
  rewrite pow_add, Rinv_mult. split.
  - apply Rmult_le_compat; lra.
  - apply Rmult_le_compat; lra.
Qed.

Lemma near_inv (a : nat) (t : R) : near a t -> near a (/ t).
Proof.
  intros [L U]. pose proof eps64_bounds as E. unfold near.
  assert (Pa : 0 < (1 - eps64) ^ a) by (apply pow_lt; lra).
  assert (Pt : 0 < t) by lra.
  split.
  - rewrite <- (Rinv_inv ((1 - eps64) ^ a)).
    apply Rinv_le_contravar; [exact Pt | exact U].
  - apply Rinv_le_contravar; assumption.
Qed.

Lemma near_div (a b : nat) (t1 t2 : R) :
  near a t1 -> near b t2 -> near (a + b) (t1 / t2).
Proof. intros H1 H2. apply near_mul; [exact H1 | apply near_inv; exact H2]. Qed.

Lemma near_mono (a b : nat) (t : R) : (a <= b)%nat -> near a t -> near b t.
Proof.
  intros H Ht. replace b with (a + (b - a))%nat by lia.
  rewrite <- (Rmult_1_r t). apply near_mul; [exact Ht | apply near_1].
Qed.

(** A mean of two factors with weights that are not negative is a factor
    of the same kind. *)
Lemma near_convex (k : nat) (A a t1 t2 : R) :
  0 <= A -> 0 < a -> near k t1 -> near k t2 ->
  exists t, A * t1 + a * t2 = (A + a) * t /\ near k t.
Proof.
  intros HA Ha [L1 U1] [L2 U2].
  exists ((A * t1 + a * t2) / (A + a)). split; [field; lra |].
  split.
  - apply Rmult_le_reg_r with (A + a); [lra |].
    unfold Rdiv. rewrite Rmult_assoc, Rinv_l, Rmult_1_r by lra. nra.
  - apply Rmult_le_reg_r with (A + a); [lra |].
    unfold Rdiv. rewrite Rmult_assoc, Rinv_l, Rmult_1_r by lra. nra.
Qed.

Lemma pow_one_minus (k : nat) (u : R) :
  0 <= u <= 1 -> 1 - INR k * u <= (1 - u) ^ k.
Proof.
  intros Hu. induction k as [| k IH].
  - simpl. lra.
  - rewrite S_INR. simpl. pose proof (pos_INR k).
    assert (0 <= INR k * u * u) by (repeat apply Rmult_le_pos; lra).
    assert ((1 - u) * (1 - INR k * u) <= (1 - u) * (1 - u) ^ k)
      by (apply Rmult_le_compat_l; lra).
    lra.
Qed.

(** As long as [k * eps64] is at most one half, a factor of [k] roundings
    is within [2 * k * eps64] of 1. *)
Lemma near_bound (k : nat) (t : R) :
  INR k * eps64 <= 1 / 2 -> near k t ->
  Rabs (t - 1) <= 2 * INR k * eps64.
Proof.
  intros Hk [L U]. pose proof eps64_bounds as E.
  pose proof (pow_one_minus k eps64 ltac:(lra)) as B.
  pose proof (pos_INR k) as Pk.
  assert (Px : 0 <= INR k * eps64) by (apply Rmult_le_pos; lra).
  assert (U' : / (1 - eps64) ^ k <= 1 + 2 * INR k * eps64).
  { apply Rle_trans with (/ (1 - INR k * eps64)).
    - apply Rinv_le_contravar; lra.
    - apply Rmult_le_reg_r with (1 - INR k * eps64); [lra |].
      rewrite Rinv_l by lra. nra. }
  apply Rabs_le. lra.
Qed.

Lemma near_half_two (k : nat) (t : R) :
  INR k * eps64 <= 1 / 4 -> near k t -> 1 / 2 <= t <= 2.
Proof.
  intros Hk Ht. pose proof (near_bound k t ltac:(lra) Ht) as B.
  apply Rabs_le_both in B. lra.
Qed.

(** One rounding of a number in the normal range. *)
Lemma b64r_near (x : R) :
  bpow (-1022) <= Rabs x -> exists t, b64r x = x * t /\ near 1 t.
Proof.
  intros Hn. pose proof (b64r_relative x Hn) as He.
  pose proof eps64_bounds as E. fold eps64 in He.
  assert (Hx : x <> 0).
  { intros ->. rewrite Rabs_R0 in Hn. pose proof (bpow_pos (-1022)). lra. }
  exists (b64r x / x). split; [field; exact Hx |].
  assert (Hq : Rabs (b64r x / x - 1) <= eps64).
  { replace (b64r x / x - 1) with ((b64r x - x) / x) by (field; exact Hx).
    unfold Rdiv. rewrite Rabs_mult, Rabs_inv.
    assert (P : 0 < Rabs x) by (apply Rabs_pos_lt; exact Hx).
    apply Rmult_le_reg_r with (Rabs x); [exact P |].
    rewrite Rmult_assoc, Rinv_l, Rmult_1_r by lra. exact He. }
  apply Rabs_le_both in Hq. unfold near. simpl. rewrite !Rmult_1_r.
  split; [lra |].
  apply Rmult_le_reg_r with (1 - eps64); [lra |].
  rewrite Rinv_l by lra. nra.
Qed.

(** One rounding to a finite binary64 number. *)
Lemma b64_near (x : R) :
  bpow (-1022) <= Rabs x <= bpow 1023 ->
  exists y t, b64 x = Fin y /\ binary64 y /\ y = x * t /\ near 1 t.
Proof.
  intros [Hlo Hhi]. destruct (b64r_near x Hlo) as [t [Ht Hn]].
  exists (b64r x), t. pose proof (b64_in_range x Hhi) as Hb.
  split; [exact Hb |]. split; [exact (binary64_b64 x _ Hb) |].
  split; assumption.
Qed.

Lemma ln_le_minus_1 (x : R) : 0 < x -> ln x <= x - 1.
Proof.
  intros Hx. pose proof (exp_ineq1_le (ln x)) as H.
  rewrite (exp_ln x Hx) in H. lra.
Qed.

Lemma ln2_bounds : / 2 < ln 2 <= 1.
Proof.
  split; [exact ln_lt_2 |]. pose proof (ln_le_minus_1 2 ltac:(lra)). lra.
Qed.

(* ================================================================= *)
(** ** The cache and the loaders *)

Lemma assoc_set_assoc_same {A} (k : string) (v : A)
  (l : list (string * A)) :
  assoc k (set_assoc k v l) = Some v.
Proof.
  induction l as [| [k' v'] l IH]; simpl.
  - rewrite String.eqb_refl. reflexivity.
  - destruct (String.eqb k k') eqn:E; simpl.
    + rewrite String.eqb_refl. reflexivity.
    + rewrite E. exact IH.
Qed.

Lemma assoc_set_assoc_other {A} (k k' : string) (v : A)
  (l : list (string * A)) :
  String.eqb k' k = false ->
  assoc k' (set_assoc k v l) = assoc k' l.
Proof.
  intros Hne. induction l as [| [k0 v0] l IH]; simpl.
  - rewrite Hne. reflexivity.
  - destruct (String.eqb k k0) eqn:E; simpl.
    + apply String.eqb_eq in E. subst k0. rewrite Hne. reflexivity.
    + rewrite IH. reflexivity.
Qed.

Ltac munfold :=
  unfold bind, ret, gets, modify, lift, raise, try_except in *.

(** The validity check looks at nothing but the presence of the file:
    its answer does not depend on the lifetime it is given. *)
Lemma csv_cache_valid_present (path : string) (lifetime : Z) (s : State) :
  _csv_cache_valid path lifetime s
  = (Ok (match assoc path (files (world s)) with
         | Some _ => true
         | None => false
         end), s).
Proof.
  unfold _csv_cache_valid, os_path_exists. munfold.
  destruct (assoc path (files (world s))); reflexivity.
Qed.

(** A report whose file is present is loaded without any retrieval,
    whatever the age of the file. *)
Lemma load_report_present (report_type : string) (s : State) (f : file)
  (df : table) :
  assoc (os_path_join (morningstar_data_path (world s))
           (report_type ++ "_" ++ symbol (self s) ++ ".csv"))
    (files (world s)) = Some f ->
  content f = Parsed df ->
  _load_report_csv_to_df report_type s = (Ok df, s).
Proof.
  intros Hf Hc. unfold _load_report_csv_to_df, report_path, read_csv.
  munfold. rewrite csv_cache_valid_present. cbv beta iota.
  rewrite Hf. cbn [negb]. rewrite Hf, Hc. reflexivity.
Qed.

(** A report whose file is absent is retrieved: the answer of the server
    is written with the current time, and then read. *)
Lemma load_report_absent (s : State) (df : table) :
  assoc (os_path_join (morningstar_data_path (world s))
           ("ratios" ++ "_" ++ symbol (self s) ++ ".csv"))
    (files (world s)) = None ->
  remote (world s)
    ("http://financials.morningstar.com/ajax/exportKR2CSV.html?t="
     ++ symbol (self s)) = Some (Parsed df) ->
  fst (_load_report_csv_to_df "ratios" s) = Ok df /\
  requests (world (snd (_load_report_csv_to_df "ratios" s)))
  = ("http://financials.morningstar.com/ajax/exportKR2CSV.html?t="
     ++ symbol (self s)) :: requests (world s) /\
  assoc (os_path_join (morningstar_data_path (world s))
           ("ratios" ++ "_" ++ symbol (self s) ++ ".csv"))
    (files (world (snd (_load_report_csv_to_df "ratios" s))))
  = Some (mkFile (clock (world s)) (Parsed df)).
Proof.
  intros Hf Hr.
  unfold _load_report_csv_to_df, _download_morningstar_data, urlretrieve,
    report_path, read_csv.
  munfold. rewrite csv_cache_valid_present. cbv beta iota.
  rewrite Hf. cbn [negb String.eqb Ascii.eqb Bool.eqb].
  cbn [world on_world add_request remote]. rewrite Hr.
  cbn [world on_world self set_files files morningstar_data_path
       add_request requests fst snd].
  rewrite assoc_set_assoc_same. cbn [content fst snd requests world].
  split; [reflexivity |]. split; [reflexivity |].
  apply assoc_set_assoc_same.
Qed.

(** C1 (the code at the failing input): the ratios export of ACME was
    written 100000 seconds ago, which is more than the 86800 seconds of
    its kind; the validity check still answers [True], and loading the
    report retrieves nothing and leaves the old file in place. *)
Theorem expired_cache_file_is_reused :
  (86800 <= clock (world expired_cache_state) - 0)%Z /\
  _csv_cache_valid "morningstar_data/ratios_ACME.csv" 86800
    expired_cache_state
  = (Ok true, expired_cache_state) /\
  _load_report_csv_to_df "ratios" expired_cache_state
  = (Ok small_ratios, expired_cache_state) /\
  requests (world (snd (_load_report_csv_to_df "ratios" expired_cache_state)))
  = [] /\
  assoc "morningstar_data/ratios_ACME.csv"
    (files (world (snd (_load_report_csv_to_df "ratios"
                          expired_cache_state))))
  = Some (mkFile 0 (Parsed small_ratios)).
Proof.
  assert (H : _load_report_csv_to_df "ratios" expired_cache_state
              = (Ok small_ratios, expired_cache_state)).
  { eapply load_report_present; reflexivity. }
  split; [| split; [| split; [| split]]].
  - simpl. lia.
  - rewrite csv_cache_valid_present. reflexivity.
  - exact H.
  - rewrite H. reflexivity.
  - rewrite H. reflexivity.
Qed.

(** An empty export of a statement kind or of the ratios gives an empty
    table and an entry in the error log that names the kind. *)
Lemma load_report_empty_export (report_type : string) (s : State)
  (f : file) :
  assoc (os_path_join (morningstar_data_path (world s))
           (report_type ++ "_" ++ symbol (self s) ++ ".csv"))
    (files (world s)) = Some f ->
  content f = EmptyExport ->
  _load_report_csv_to_df report_type s
  = (Ok empty_frame,
     on_self (append_error ("No " ++ report_type ++ " report found")) s).
Proof.
  intros Hf Hc. unfold _load_report_csv_to_df, report_path, read_csv.
  munfold. rewrite csv_cache_valid_present. cbv beta iota.
  rewrite Hf. cbn [negb]. rewrite Hf, Hc. reflexivity.
Qed.

(** An export of a statement kind or of the ratios that cannot be
    processed gives an empty table and an entry in the error log that
    names the kind. *)
Lemma load_report_malformed_export (report_type : string) (s : State)
  (f : file) :
  assoc (os_path_join (morningstar_data_path (world s))
           (report_type ++ "_" ++ symbol (self s) ++ ".csv"))
    (files (world s)) = Some f ->
  content f = Malformed ->
  _load_report_csv_to_df report_type s
  = (Ok empty_frame,
     on_self (append_error ("Unable to process report: " ++ report_type)) s).
Proof.
  intros Hf Hc. unfold _load_report_csv_to_df, report_path, read_csv.
  munfold. rewrite csv_cache_valid_present. cbv beta iota.
  rewrite Hf. cbn [negb]. rewrite Hf, Hc. reflexivity.
Qed.

(** An export of the prices that is empty or cannot be processed makes
    the price loader raise: its two handlers read [report_type], a name
    that the loader does not bind. *)
Lemma load_price_unreadable_export (c : M (option string)) (s : State)
  (f : file) :
  assoc (price_path s) (files (world s)) = Some f ->
  content f = EmptyExport \/ content f = Malformed ->
  _load_price_csv_to_df_with c s = (Raise (NameError "report_type"), s).
Proof.
  intros Hf Hc. unfold _load_price_csv_to_df_with, report_path, read_csv.
  munfold. fold (price_path s). rewrite csv_cache_valid_present.
  cbv beta iota. rewrite Hf. cbn [negb]. rewrite Hf.
  destruct Hc as [Hc | Hc]; rewrite Hc; reflexivity.
Qed.

(** C2 (the code at the failing input): the cached price export of ACME
    is an empty file.  The handler of [pd.errors.EmptyDataError] in the
    price loader formats its message with [report_type], a name the
    loader does not bind: the load raises [NameError] to the caller, and
    nothing is appended to the error log. *)
Theorem load_price_empty_export_raises :
  _load_price_csv_to_df empty_price_export_state
  = (Raise (NameError "report_type"), empty_price_export_state) /\
  error_log (self (snd (_load_price_csv_to_df empty_price_export_state)))
  = [].
Proof.
  assert (H : _load_price_csv_to_df empty_price_export_state
              = (Raise (NameError "report_type"),
                 empty_price_export_state)).
  { apply (load_price_unreadable_export currency empty_price_export_state
             (mkFile 900 EmptyExport)).
    - reflexivity.
    - left. reflexivity. }
  split; [exact H |]. rewrite H. reflexivity.
Qed.

(* ================================================================= *)
(** ** The force-update flag *)

Lemma blind_ret {A} (a : A) : blind (ret a).
Proof. intros b s. reflexivity. Qed.

Lemma blind_raise {A} (e : exn) : blind (@raise A e).
Proof. intros b s. reflexivity. Qed.

Lemma blind_lift {A} (r : result A) : blind (lift r).
Proof. intros b s. reflexivity. Qed.

Lemma blind_bind {A B} (m : M A) (f : A -> M B) :
  blind m -> (forall a, blind (f a)) -> blind (bind m f).
Proof.
  intros Hm Hf b s. unfold bind. rewrite Hm.
  destruct (m s) as [[a | e] s']; simpl.
  - apply Hf.
  - reflexivity.
Qed.

Lemma blind_try_except {A} (m : M A) (h : exn -> M A) :
  blind m -> (forall e, blind (h e)) -> blind (try_except m h).
Proof.
  intros Hm Hh b s. unfold try_except. rewrite Hm.
  destruct (m s) as [[a | e] s']; simpl.
  - reflexivity.
  - apply Hh.
Qed.

Lemma blind_gets {A} (f : State -> A) :
  (forall b s, f (with_force_update b s) = f s) -> blind (gets f).
Proof. intros Hf b s. unfold gets. rewrite Hf. reflexivity. Qed.

Lemma blind_modify (g : State -> State) :
  (forall b s, g (with_force_update b s) = with_force_update b (g s)) ->
  blind (modify g).
Proof. intros Hg b s. unfold modify. rewrite Hg. reflexivity. Qed.

Lemma blind_for_each {A} (l : list A) (body : A -> M unit) :
  (forall a, blind (body a)) -> blind (for_each l body).
Proof.
  intros Hb. induction l as [| a l IH]; simpl.
  - apply blind_ret.
  - apply blind_bind; [apply Hb | intros _; exact IH].
Qed.

Create HintDb blind.

(** One step of a proof that a method is blind to the flag: the method
    is taken apart along its structure, down to the reads and writes of
    the state, none of which involves the flag. *)
Ltac blind_step :=
  match goal with
  | |- blind (bind _ _) => apply blind_bind; [| intros]
  | |- blind (try_except _ _) => apply blind_try_except; [| intros]
  | |- blind (for_each _ _) => apply blind_for_each; intros
  | |- blind (ret _) => apply blind_ret
  | |- blind (raise _) => apply blind_raise
  | |- blind (lift _) => apply blind_lift
  | |- blind (gets _) => apply blind_gets; intros; reflexivity
  | |- blind (modify _) => apply blind_modify; intros; reflexivity
  | |- blind (if ?c then _ else _) => destruct c
  | |- blind (match ?x with _ => _ end) => destruct x
  | |- blind _ => solve [auto with blind]
  end.

Ltac blind_tac := repeat blind_step.

Lemma blind_os_path_exists (path : string) : blind (os_path_exists path).
Proof. unfold os_path_exists. blind_tac. Qed.

Lemma blind_os_remove (path : string) : blind (os_remove path).
Proof. unfold os_remove. blind_tac. Qed.

Lemma blind_urlretrieve (url path : string) : blind (urlretrieve url path).
Proof. unfold urlretrieve. blind_tac. Qed.

Lemma blind_report_path (report_type : string) :
  blind (report_path report_type).
Proof. unfold report_path. blind_tac. Qed.

#[local] Hint Resolve blind_os_path_exists blind_os_remove
  blind_urlretrieve blind_report_path : blind.

Lemma blind_csv_cache_valid (path : string) (lifetime : Z) :
  blind (_csv_cache_valid path lifetime).
Proof. unfold _csv_cache_valid. blind_tac. Qed.

Lemma blind_download_morningstar_data (report_type : string) :
  blind (_download_morningstar_data report_type).
Proof. unfold _download_morningstar_data. blind_tac. Qed.

Lemma blind_read_csv (path : string) : blind (read_csv path).
Proof. unfold read_csv. blind_tac. Qed.

Lemma blind_load_name (locals : list (string * string)) (name : string) :
  blind (load_name locals name).
Proof. unfold load_name. blind_tac. Qed.

Lemma blind_log_error (msg : string) : blind (log_error msg).
Proof. unfold log_error. blind_tac. Qed.

#[local] Hint Resolve blind_csv_cache_valid blind_download_morningstar_data
  blind_read_csv blind_load_name blind_log_error : blind.

Lemma blind_load_report_csv_to_df (report_type : string) :
  blind (_load_report_csv_to_df report_type).
Proof. unfold _load_report_csv_to_df. blind_tac. Qed.

#[local] Hint Resolve blind_load_report_csv_to_df : blind.

Lemma blind_download_morningstar_pricedata_with (c : M (option string)) :
  blind c -> blind (_download_morningstar_pricedata_with c).
Proof. intros Hc. unfold _download_morningstar_pricedata_with. blind_tac. Qed.

#[local] Hint Resolve blind_download_morningstar_pricedata_with : blind.

Lemma blind_load_price_csv_to_df_with (c : M (option string)) :
  blind c -> blind (_load_price_csv_to_df_with c).
Proof. intros Hc. unfold _load_price_csv_to_df_with. blind_tac. Qed.

#[local] Hint Resolve blind_load_price_csv_to_df_with : blind.

Lemma blind_historic_prices_with (c : M (option string)) :
  blind c -> blind (historic_prices_with c).
Proof. intros Hc. unfold historic_prices_with. blind_tac. Qed.

Lemma blind_income : blind income.
Proof. unfold income. blind_tac. Qed.

Lemma blind_cashflow : blind cashflow.
Proof. unfold cashflow. blind_tac. Qed.

Lemma blind_balancesheet : blind balancesheet.
Proof. unfold balancesheet. blind_tac. Qed.

Lemma blind_the_ratios : blind the_ratios.
Proof. unfold the_ratios. blind_tac. Qed.

#[local] Hint Resolve blind_historic_prices_with blind_income blind_cashflow
  blind_balancesheet blind_the_ratios : blind.

Lemma blind_currency_assigned : blind currency_assigned.
Proof. unfold currency_assigned. blind_tac. Qed.

Lemma blind_ratios_col (key : string) : blind (ratios_col key).
Proof. unfold ratios_col. blind_tac. Qed.

Lemma blind_ratios_assign (key : string) (x : series) :
  blind (ratios_assign key x).
Proof. unfold ratios_assign. blind_tac. Qed.

Lemma blind_balancesheet_col (key : string) : blind (balancesheet_col key).
Proof. unfold balancesheet_col. blind_tac. Qed.

#[local] Hint Resolve blind_currency_assigned blind_ratios_col
  blind_ratios_assign blind_balancesheet_col : blind.

Lemma blind_has_dividends : blind has_dividends.
Proof. unfold has_dividends. blind_tac. Qed.

Lemma blind_add_dividends_ps_growth : blind add_dividends_ps_growth.
Proof. unfold add_dividends_ps_growth. blind_tac. Qed.

Lemma blind_add_book_value_ps_growth : blind add_book_value_ps_growth.
Proof. unfold add_book_value_ps_growth. blind_tac. Qed.

Lemma blind_add_earnings_ps_growth : blind add_earnings_ps_growth.
Proof. unfold add_earnings_ps_growth. blind_tac. Qed.

Lemma blind_add_operating_cashflow_ps_growth :
  blind add_operating_cashflow_ps_growth.
Proof. unfold add_operating_cashflow_ps_growth. blind_tac. Qed.

Lemma blind_add_long_term_debt_ps_growth :
  blind add_long_term_debt_ps_growth.
Proof. unfold add_long_term_debt_ps_growth. blind_tac. Qed.

Lemma blind_add_short_term_debt_ps_growth :
  blind add_short_term_debt_ps_growth.
Proof. unfold add_short_term_debt_ps_growth. blind_tac. Qed.

Lemma blind_add_total_debt : blind add_total_debt.
Proof. unfold add_total_debt. blind_tac. Qed.

Lemma blind_add_debt_ratios : blind add_debt_ratios.
Proof. unfold add_debt_ratios. blind_tac. Qed.

Lemma blind_add_revenue_ps_growth : blind add_revenue_ps_growth.
Proof. unfold add_revenue_ps_growth. blind_tac. Qed.

Lemma blind_add_pe : blind add_pe.
Proof. unfold add_pe, add_pe_row, historic_prices_assigned. blind_tac. Qed.

#[local] Hint Resolve blind_has_dividends blind_add_dividends_ps_growth
  blind_add_book_value_ps_growth blind_add_earnings_ps_growth
  blind_add_operating_cashflow_ps_growth blind_add_long_term_debt_ps_growth
  blind_add_short_term_debt_ps_growth blind_add_total_debt
  blind_add_debt_ratios blind_add_revenue_ps_growth blind_add_pe : blind.

Lemma blind_ratios : blind ratios.
Proof. unfold ratios. blind_tac. Qed.

#[local] Hint Resolve blind_ratios : blind.

Lemma blind_currency : blind currency.
Proof. unfold currency. blind_tac. Qed.

#[local] Hint Resolve blind_currency : blind.

Lemma blind_historic_prices : blind historic_prices.
Proof. unfold historic_prices. blind_tac. Qed.

Lemma blind_clear_cached_files : blind clear_cached_files.
Proof. unfold clear_cached_files. blind_tac. Qed.

Lemma blind_get_average_growth_rate (key : string) :
  blind (_get_average_growth_rate key).
Proof. unfold _get_average_growth_rate. blind_tac. Qed.

#[local] Hint Resolve blind_historic_prices blind_clear_cached_files
  blind_get_average_growth_rate : blind.

Lemma blind_estimated_growth : blind estimated_growth.
Proof.
  unfold estimated_growth, estimated_eps_growth, estimated_revenue_growth,
    estimated_bookvalue_growth, estimated_operational_cashflow_growth.
  blind_tac.
Qed.

#[local] Hint Resolve blind_estimated_growth : blind.

Lemma blind_target_pe : blind target_pe.
Proof. unfold target_pe. blind_tac. Qed.

#[local] Hint Resolve blind_target_pe : blind.

Lemma blind_run_call (c : call) : blind (run_call c).
Proof.
  destruct c;
    unfold run_call, income_setter, cashflow_setter, balancesheet_setter,
      ratios_setter, estimated_growth_setter, target_pe_setter,
      estimated_eps_growth, estimated_revenue_growth,
      estimated_bookvalue_growth, estimated_operational_cashflow_growth;
    blind_tac.
Qed.

(** C10: the force-update flag is stored when the object is built, and
    whatever the calls a caller makes on a [Stock], what each call
    returns or raises and the state the calls leave (the tables and values
    kept by the object, the error log, the files and the requests sent)
    are the same whether the flag is true or false: no operation reads
    it. *)
Theorem force_update_is_never_consulted (symbol : string)
  (shift : float) (cs : list call) (b : bool) (s : State) :
  force_update (Stock_init symbol b shift) = b /\
  run_calls cs (with_force_update b s)
  = (fst (run_calls cs s), with_force_update b (snd (run_calls cs s))).
Proof.
  split; [reflexivity |].
  revert s. induction cs as [| c cs IH]; intros s; simpl.
  - reflexivity.
  - rewrite (blind_run_call c b s).
    destruct (run_call c s) as [r s1]; simpl.
    rewrite IH. destruct (run_calls cs s1) as [rs s2]. reflexivity.
Qed.

(* ================================================================= *)
(** ** The weighted growth estimate *)

Lemma ratios_assigned (s : State) (df : table) :
  _ratios (self s) = Some df -> ratios s = (Ok df, s).
Proof. intros H. unfold ratios. munfold. rewrite H. reflexivity. Qed.

Lemma currency_is_currency_assigned (s : State) (df : table) :
  _ratios (self s) = Some df -> currency s = currency_assigned s.
Proof.
  intros H. unfold currency, currency_assigned, the_ratios, bind.
  rewrite (ratios_assigned s df H). munfold. rewrite H. reflexivity.
Qed.

Lemma get_average_growth_rate_unfold (key : string) (s s1 : State)
  (df : table) (col : series) :
  ratios s = (Ok df, s1) ->
  getitem df key = Ok col ->
  _get_average_growth_rate key s
  = (np_average (map snd (dropna col))
       (normalized_weights (List.length (dropna col))
          (revenue_growth_log_shift (self s1))), s1).
Proof.
  intros Hr Hc. unfold _get_average_growth_rate, bind at 1.
  rewrite Hr. munfold. rewrite Hc. reflexivity.
Qed.

Lemma dropna_all_missing (col : series) :
  Forall (fun p => isna (snd p) = true) col -> dropna col = [].
Proof.
  intros H. induction H as [| p col Hp _ IH]; simpl.
  - reflexivity.
  - rewrite Hp. simpl. exact IH.
Qed.

Lemma np_average_empty : np_average [] [] = Raise ZeroDivisionError.
Proof.
  unfold np_average. rewrite np_sum_nil, feqb_Fin_refl. reflexivity.
Qed.

(** On a column without a single observation the estimate raises. *)
Lemma average_growth_rate_of_nothing (key : string) (s s1 : State)
  (df : table) (col : series) :
  ratios s = (Ok df, s1) ->
  getitem df key = Ok col ->
  Forall (fun p => isna (snd p) = true) col ->
  _get_average_growth_rate key s = (Raise ZeroDivisionError, s1).
Proof.
  intros Hr Hc Hall.
  rewrite (get_average_growth_rate_unfold key s s1 df col Hr Hc).
  rewrite (dropna_all_missing col Hall). simpl List.length.
  unfold normalized_weights, log_weights. simpl map.
  rewrite np_average_empty. reflexivity.
Qed.

(** C6 (as amended): on a growth column with no non-missing observation
    the weighted growth estimate gives no value at all, zero or other: the
    computation raises [ZeroDivisionError], the weights of no observation
    adding up to zero. *)
Theorem weighted_growth_of_no_observation_raises (key : string)
  (s s1 : State) (df : table) (col : series) :
  ratios s = (Ok df, s1) ->
  getitem df key = Ok col ->
  Forall (fun p => isna (snd p) = true) col ->
  _get_average_growth_rate key s = (Raise ZeroDivisionError, s1) /\
  (forall x, fst (_get_average_growth_rate key s) <> Ok x).
Proof.
  intros Hr Hc Hall.
  pose proof (average_growth_rate_of_nothing key s s1 df col Hr Hc Hall)
    as H.
  split; [exact H |]. intros x. rewrite H. discriminate.
Qed.

Lemma unobserved_growth_ratios :
  ratios unobserved_growth_state
  = (Ok unobserved_growth_table, unobserved_growth_state).
Proof. apply ratios_assigned. reflexivity. Qed.

(** The theorem on a table whose book-value growth has one period, with
    no observation. *)
Lemma weighted_growth_of_no_observation_witness :
  _get_average_growth_rate "book-value-ps-growth"
    (mkState (set_ratios
                (Some (mkTable [0%Z] [("book-value-ps-growth", [NaN])]))
                (Stock_init "ACME" false (Fin 2)))
       (mkWorld "morningstar_data" 0 [] (fun _ => None) []))
  = (Raise ZeroDivisionError,
     mkState (set_ratios
                (Some (mkTable [0%Z] [("book-value-ps-growth", [NaN])]))
                (Stock_init "ACME" false (Fin 2)))
       (mkWorld "morningstar_data" 0 [] (fun _ => None) [])).
Proof.
  refine (proj1 (weighted_growth_of_no_observation_raises
                   "book-value-ps-growth" _ _
                   (mkTable [0%Z] [("book-value-ps-growth", [NaN])])
                   [(0%Z, NaN)] _ _ _)).
  - apply ratios_assigned. reflexivity.
  - reflexivity.
  - repeat constructor.
Defined.

(** C6 fails as stated: the earnings growth of this table has no
    observation, and its estimate is an exception raised to the caller,
    not an undefined value. *)
Lemma weighted_growth_of_no_observation_is_an_exception :
  getitem unobserved_growth_table "earnings-ps-growth"
  = Ok [(date 2019 12 1, NaN); (date 2020 12 1, NaN)] /\
  _get_average_growth_rate "earnings-ps-growth" unobserved_growth_state
  = (Raise ZeroDivisionError, unobserved_growth_state).
Proof.
  split; [reflexivity |].
  eapply average_growth_rate_of_nothing.
  - apply unobserved_growth_ratios.
  - reflexivity.
  - repeat constructor.
Qed.

(** *** One observation

    With one observation and a positive shift other than 1 the estimate
    is the observation: its one weight is not zero and, divided by
    itself, is 1. *)

Lemma np_log_Fin (x : R) :
  binary64 x -> 0 < x -> np_log (Fin x) = b64 (ln x).
Proof.
  intros Hb Hx. unfold np_log. cbn [f64]. rewrite Hb, (Rsign_pos x Hx).
  reflexivity.
Qed.

Lemma ln_ge_one_minus_inv (a : R) : 0 < a -> 1 - / a <= ln a.
Proof.
  intros Ha. pose proof (exp_ineq1_le (- ln a)) as H.
  rewrite exp_Ropp, (exp_ln a Ha) in H. lra.
Qed.

Lemma ln_above_one (a : R) : 1 + bpow (-52) <= a -> bpow (-53) <= ln a.
Proof.
  intros Ha. pose proof (bpow_pos (-52)) as P.
  assert (E : bpow (-52) <= 1)
    by (rewrite <- bpow_0; apply bpow_le; lia).
  assert (E2 : bpow (-53) = bpow (-52) / 2).
  { replace (-53)%Z with (-52 + -1)%Z by lia. rewrite bpow_add.
    replace (bpow (-1)) with (/ 2) by (bpow_lit; lra). reflexivity. }
  pose proof (ln_ge_one_minus_inv a ltac:(lra)) as L.
  assert (Ia : / a <= / (1 + bpow (-52))) by (apply Rinv_le_contravar; lra).
  assert (Ie : / (1 + bpow (-52)) <= 1 - bpow (-52) / 2).
  { apply Rmult_le_reg_l with (1 + bpow (-52)); [lra |].
    rewrite Rinv_r by lra.
    assert (bpow (-52) * bpow (-52) <= 1 * bpow (-52))
      by (apply Rmult_le_compat_r; lra).
    lra. }
  lra.
Qed.

(** The one weight of one observation, for a positive shift other than 1:
    a binary64 number that is not zero. *)
Lemma log_weight_single (sh : R) :
  binary64 sh -> 0 < sh -> sh <> 1 ->
  exists L, np_log (fadd64 (Fin (INR 0)) (Fin sh)) = Fin L /\
            binary64 L /\ L <> 0.
Proof.
  intros Bs Ps Ns. cbn [INR]. rewrite (fadd64_0_l sh Bs), (np_log_Fin sh Bs Ps).
  pose proof ln2_bounds as L2. pose proof (binary64_b64r sh Bs) as Es.
  assert (U : 1074 <= bpow 1023).
  { apply Rle_trans with (bpow 11); [bpow_lit; lra | apply bpow_le; lia]. }
  assert (L : bpow (-1022) <= bpow (-53)) by (apply bpow_le; lia).
  assert (Hl : bpow (-1022) <= Rabs (ln sh) <= bpow 1023).
  { destruct (Rlt_dec 1 sh) as [H | H].
    - pose proof (ln_above_one sh (binary64_above_1 sh Es H)) as Lo.
      pose proof (binary64_range sh Bs) as R. rewrite Rabs_pos_eq in R by lra.
      pose proof (ln_increasing sh (bpow 1024) Ps R) as Hi.
      rewrite ln_bpow in Hi.
      assert (1024 * ln 2 <= 1024 * 1) by (apply Rmult_le_compat_l; lra).
      pose proof (bpow_pos (-53)). rewrite Rabs_pos_eq by lra. lra.
    - assert (H1 : 0 < sh < 1) by lra.
      pose proof (binary64_below_1 sh Es H1) as Up.
      pose proof (ln_le_minus_1 sh Ps) as Hi.
      pose proof (binary64_pos_min sh Es Ps) as Lo.
      assert (Hlo : ln (bpow (-1074)) <= ln sh).
      { destruct Lo as [Lo | Lo]; [| rewrite Lo; lra].
        left. apply ln_increasing; [apply bpow_pos | exact Lo]. }
      rewrite ln_bpow in Hlo.
      assert (1074 * ln 2 <= 1074 * 1) by (apply Rmult_le_compat_l; lra).
      pose proof (bpow_pos (-53)).
      rewrite Rabs_left by lra. lra. }
  destruct (b64_near (ln sh) Hl) as [y [t [Hy [Hb [Ht Hn]]]]].
  exists y. split; [exact Hy |]. split; [exact Hb |].
  pose proof (near_pos 1 t Hn) as Pt. rewrite Ht.
  assert (ln sh <> 0).
  { intros E. rewrite E, Rabs_R0 in Hl. pose proof (bpow_pos (-1022)). lra. }
  apply Rmult_integral_contrapositive_currified; lra.
Qed.

Lemma normalized_weights_one (sh : R) :
  binary64 sh -> 0 < sh -> sh <> 1 -> normalized_weights 1 (Fin sh) = [Fin 1].
Proof.
  intros Bs Ps Ns. unfold normalized_weights, log_weights. cbn [seq map].
  destruct (log_weight_single sh Bs Ps Ns) as [L [HL [Hb Hp]]]. rewrite HL.
  rewrite (np_sum_one L Hb), (fdiv64_Fin L L Hb Hb) by exact Hp.
  replace (L / L) with 1 by (field; exact Hp). rewrite b64_1. reflexivity.
Qed.

Lemma np_average_one (v : R) :
  Rabs v <= bpow 1023 -> np_average [Fin v] [Fin 1] = Ok (b64 v).
Proof.
  intros Hv. pose proof (b64_in_range v Hv) as Hb.
  pose proof (binary64_b64 v _ Hb) as Hy.
  unfold np_average. rewrite (np_sum_one 1 binary64_1).
  rewrite feqb_Fin_false by lra. cbn [zip_with].
  assert (Hm : fmul64 (Fin v) (Fin 1) = Fin (b64r v)).
  { unfold fmul64. cbn [f64]. rewrite Hb, b64_1. cbn [fmul f64].
    rewrite Rmult_1_r. exact Hy. }
  rewrite Hm, (np_sum_one _ Hy), (fdiv64_Fin _ 1 Hy binary64_1) by lra.
  unfold Rdiv. rewrite Rinv_1, Rmult_1_r, Hb. f_equal. exact Hy.
Qed.

Lemma one_observation_estimate (key : string) (s : State) (df : table)
  (l1 l2 : label) (v : R) :
  _ratios (self s) = Some df ->
  revenue_growth_log_shift (self s) = Fin 2 ->
  getitem df key = Ok [(l1, NaN); (l2, Fin v)] ->
  Rabs v <= bpow 1023 ->
  _get_average_growth_rate key s = (Ok (b64 v), s).
Proof.
  intros Hslot Hshift Hcol Hv.
  rewrite (get_average_growth_rate_unfold key s s df _
             (ratios_assigned s df Hslot) Hcol).
  f_equal. cbn [dropna List.filter snd isna negb List.length map]. rewrite Hshift.
  rewrite (normalized_weights_one 2) by (try apply (binary64_int 2); try lia; lra).
  apply np_average_one. exact Hv.
Qed.

(** *** A constant series

    With a shift above 1 every weight is positive, and the weighted mean
    of a constant is the constant times a factor that the roundings of
    the sums, products and quotients introduce. *)

Lemma near_1_bounds (t : R) :
  near 1 t -> 1 - / 1000000 <= t <= 1 + / 500000.
Proof.
  intros H. pose proof eps64_bounds as E.
  assert (Hk : INR 1 * eps64 <= 1 / 2) by (rewrite INR_1; lra).
  pose proof (near_bound 1 t Hk H) as B. apply Rabs_le_both in B.
  rewrite INR_1 in B. destruct H as [L _]. rewrite pow_1 in L. lra.
Qed.

Lemma Rdiv_bounds (a b c d x y : R) :
  0 < a -> 0 < c -> a <= x <= b -> c <= y <= d ->
  a / d <= x / y <= b / c.
Proof.
  intros Ha Hc [Hx1 Hx2] [Hy1 Hy2].
  assert (Py : 0 < y) by lra. assert (Pd : 0 < d) by lra.
  assert (I1 : / d <= / y) by (apply Rinv_le_contravar; lra).
  assert (I2 : / y <= / c) by (apply Rinv_le_contravar; lra).
  assert (Pid : 0 < / d) by (apply Rinv_0_lt_compat; lra).
  assert (Piy : 0 < / y) by (apply Rinv_0_lt_compat; lra).
  unfold Rdiv. split.
  - apply Rmult_le_compat; lra.
  - apply Rmult_le_compat; lra.
Qed.

Lemma scale_bounds (x t lo hi : R) :
  0 < lo -> lo <= x <= hi -> 1 - / 1000000 <= t <= 1 + / 500000 ->
  lo * (1 - / 1000000) <= x * t <= hi * (1 + / 500000).
Proof.
  intros Hlo [H1 H2] [T1 T2]. split.
  - apply Rmult_le_compat; lra.
  - apply Rmult_le_compat; lra.
Qed.

(** The weight of the observation [i] with a shift above 1: a binary64
    number between [2^-54] and [2^23]. *)
Lemma log_weight_bounds (i : nat) (sh : R) :
  (Z.of_nat i <= 1000000)%Z -> binary64 sh -> 1 < sh <= bpow 1022 ->
  exists w, np_log (fadd64 (Fin (INR i)) (Fin sh)) = Fin w /\
            binary64 w /\ bpow (-54) <= w <= bpow 23.
Proof.
  intros Hi Bs Hsh. pose proof eps64_bounds as E.
  assert (Bi : binary64 (INR i)).
  { rewrite INR_IZR_INZ. apply binary64_int. lia. }
  assert (Pi : 0 <= INR i <= 1000000).
  { split; [apply pos_INR |]. rewrite INR_IZR_INZ. apply IZR_le. exact Hi. }
  assert (L1022 : bpow (-1022) <= bpow (-53)) by (apply bpow_le; lia).
  assert (L53 : bpow (-53) <= 1).
  { rewrite <- bpow_0. apply bpow_le. lia. }
  pose proof (bpow_pos (-53)) as P53. pose proof (bpow_pos (-52)) as P52.
  assert (U1022 : 16777216 <= bpow 1022).
  { apply Rle_trans with (bpow 24); [bpow_lit; lra | apply bpow_le; lia]. }
  assert (U1023 : bpow 1023 = 2 * bpow 1022).
  { replace 1023%Z with (1 + 1022)%Z by lia. rewrite bpow_add, bpow_1.
    reflexivity. }
  pose proof (binary64_above_1 sh (binary64_b64r sh Bs) (proj1 Hsh)) as Ps.
  rewrite (fadd64_Fin (INR i) sh Bi Bs).
  destruct (b64_near (INR i + sh)) as [a [t2 [Ha [Ba [Eq Na]]]]].
  { rewrite Rabs_pos_eq by lra. lra. }
  apply near_1_bounds in Na.
  assert (Pa : 1 + bpow (-52) <= a <= bpow 1023).
  { split.
    - pose proof (b64_in_range (INR i + sh)
                    ltac:(rewrite Rabs_pos_eq by lra; lra)) as Hr.
      rewrite Ha in Hr. injection Hr as ->.
      apply b64r_ge; [lra | exact b64r_one_and_ulp | lra].
    - pose proof (scale_bounds (INR i + sh) t2 1 (1000000 + bpow 1022)
                    ltac:(lra) ltac:(lra) Na).
      rewrite Eq. lra. }
  rewrite Ha, (np_log_Fin a Ba) by lra.
  assert (Lu : ln a <= 1023).
  { pose proof ln2_bounds as L2.
    assert (ln a <= ln (bpow 1023)).
    { destruct (proj2 Pa) as [H | H]; [| rewrite H; lra].
      left. apply ln_increasing; [lra | exact H]. }
    rewrite ln_bpow in H.
    assert (1023 * ln 2 <= 1023 * 1) by (apply Rmult_le_compat_l; lra).
    lra. }
  pose proof (ln_above_one a (proj1 Pa)) as Ll.
  destruct (b64_near (ln a)) as [w [t3 [Hw [Bw [Ew Nw]]]]].
  { rewrite Rabs_pos_eq by lra. lra. }
  apply near_1_bounds in Nw.
  exists w. split; [exact Hw |]. split; [exact Bw |].
  assert (E54 : bpow (-54) = bpow (-53) / 2).
  { replace (-54)%Z with (-53 + -1)%Z by lia. rewrite bpow_add.
    replace (bpow (-1)) with (/ 2) by (bpow_lit; lra). reflexivity. }
  replace (bpow 23) with 8388608 by (bpow_lit; reflexivity).
  pose proof (scale_bounds (ln a) t3 (bpow (-53)) 1023
                ltac:(lra) ltac:(lra) Nw).
  rewrite Ew, E54. lra.
Qed.

Lemma log_weights_bounds (sh : R) (l : list nat) :
  binary64 sh -> 1 < sh <= bpow 1022 ->
  Forall (fun i => (Z.of_nat i <= 1000000)%Z) l ->
  exists ws,
    map (fun i => np_log (fadd64 (Fin (INR i)) (Fin sh))) l = map Fin ws /\
    List.length ws = List.length l /\
    Forall (fun w => binary64 w /\ bpow (-54) <= w <= bpow 23) ws.
Proof.
  intros Bs Hsh Hl. induction Hl as [| i l Hi _ IH].
  - exists []. repeat split. constructor.
  - destruct IH as [ws [Hm [Hlen Hall]]].
    destruct (log_weight_bounds i sh Hi Bs Hsh) as [w [Hw Pw]].
    exists (w :: ws). cbn [map List.length]. rewrite Hw, Hm, Hlen.
    repeat split. constructor; assumption.
Qed.

Lemma Rsum_nonneg (l : list R) : Forall (fun x => 0 < x) l -> 0 <= Rsum l.
Proof.
  intros H. induction H as [| x l Hx _ IH]; simpl; lra.
Qed.

Lemma Rsum_bounds (lo hi : R) (l : list R) :
  Forall (fun x => lo <= x <= hi) l ->
  INR (List.length l) * lo <= Rsum l <= INR (List.length l) * hi.
Proof.
  intros H. induction H as [| x l Hx _ IH].
  - simpl. lra.
  - cbn [List.length Rsum]. rewrite S_INR. lra.
Qed.

(** *** Sums as numpy adds them *)

Lemma Rsum_app (l1 l2 : list R) : Rsum (l1 ++ l2) = Rsum l1 + Rsum l2.
Proof. induction l1 as [| x l1 IH]; simpl; [| rewrite IH]; ring. Qed.

Lemma Rsum_Permutation (l l' : list R) :
  Permutation l l' -> Rsum l = Rsum l'.
Proof. intros H. induction H; simpl; lra. Qed.

Lemma summed_mono (c : R) (al : list R) (k : nat) (x : float) :
  summed c al k x -> forall k', (k <= k')%nat -> summed c al k' x.
Proof.
  intros H. induction H as [k | a k | al1 al2 k x1 x2 _ IH1 _ IH2
                            | al al' k x HP _ IH]; intros k' Hk.
  - apply summed_nil.
  - apply summed_one.
  - destruct k' as [| k']; [lia |].
    apply summed_add; [apply IH1 | apply IH2]; lia.
  - apply (summed_perm c al al'); [exact HP | apply IH; exact Hk].
Qed.

(** Numbers added one after the other to what was summed before. *)
Lemma fold_summed (c : R) (al : list R) :
  forall (al0 : list R) (k : nat) (acc : float),
    summed c al0 k acc ->
    summed c (al0 ++ al) (k + List.length al)
      (fold_left fadd64 (map (fun a => Fin (c * a)) al) acc).
Proof.
  induction al as [| a al IH]; intros al0 k acc H.
  - cbn [map fold_left List.length]. rewrite app_nil_r, Nat.add_0_r. exact H.
  - cbn [map fold_left List.length].
    replace (al0 ++ a :: al)%list with ((al0 ++ [a]) ++ al)%list
      by (rewrite <- app_assoc; reflexivity).
    replace (k + S (List.length al))%nat with (S k + List.length al)%nat by lia.
    apply IH. apply summed_add; [exact H | apply summed_one].
Qed.

(** A group of eight added to the eight partial sums. *)
Lemma lanes_step (c : R) (k : nat) (Ls : list (list R)) (r : list float) :
  Forall2 (fun L x => summed c L k x) Ls r ->
  forall chunk, List.length chunk = List.length Ls ->
    Forall2 (fun L x => summed c L (S k) x)
      (zip_with (fun (L : list R) a => (L ++ [a])%list) Ls chunk)
      (zip_with fadd64 r (map (fun a => Fin (c * a)) chunk))
    /\ Permutation
         (List.concat (zip_with (fun (L : list R) a => (L ++ [a])%list) Ls chunk))
         (List.concat Ls ++ chunk)%list
    /\ List.length (zip_with (fun (L : list R) a => (L ++ [a])%list) Ls chunk)
       = List.length Ls.
Proof.
  induction 1 as [| L x Ls r HL _ IH]; intros chunk Hlen.
  - destruct chunk; [| discriminate]. cbn. repeat split; constructor.
  - destruct chunk as [| a chunk]; [discriminate |]. injection Hlen as Hlen.
    destruct (IH chunk Hlen) as [F [P E]].
    cbn [zip_with map List.concat List.length]. split; [| split].
    + constructor; [apply summed_add; [exact HL | apply summed_one] | exact F].
    + rewrite <- !app_assoc. apply Permutation_app_head. cbn [app].
      eapply Permutation_trans; [apply perm_skip; exact P |].
      apply Permutation_middle.
    + rewrite E. reflexivity.
Qed.

Lemma firstn_plus {A} (a b : nat) (l : list A) :
  firstn (a + b) l = (firstn a l ++ firstn b (skipn a l))%list.
Proof.
  revert l. induction a as [| a IH]; intros l; [reflexivity |].
  destruct l as [| x l]; cbn [Nat.add firstn skipn app].
  - rewrite firstn_nil. reflexivity.
  - rewrite IH. reflexivity.
Qed.

Lemma add_lanes_summed (c : R) (groups : nat) :
  forall (k : nat) (Ls : list (list R)) (r : list float) (l : list R),
    Forall2 (fun L x => summed c L k x) Ls r ->
    List.length Ls = 8%nat -> (8 * groups <= List.length l)%nat ->
    exists Ls',
      Forall2 (fun L x => summed c L (k + groups) x) Ls'
        (fst (add_lanes groups r (map (fun a => Fin (c * a)) l))) /\
      snd (add_lanes groups r (map (fun a => Fin (c * a)) l))
      = map (fun a => Fin (c * a)) (skipn (8 * groups) l) /\
      Permutation (List.concat Ls') (List.concat Ls ++ firstn (8 * groups) l)%list /\
      List.length Ls' = 8%nat.
Proof.
  induction groups as [| g IH]; intros k Ls r l HF HL Hl.
  - exists Ls. cbn [add_lanes fst snd Nat.mul skipn firstn].
    rewrite Nat.add_0_r, app_nil_r. repeat split; try assumption.
    apply Permutation_refl.
  - cbn [add_lanes]. rewrite firstn_map, skipn_map.
    assert (Hc : List.length (firstn 8 l) = List.length Ls).
    { rewrite length_firstn, HL. lia. }
    destruct (lanes_step c k Ls r HF (firstn 8 l) Hc) as [F1 [P1 E1]].
    destruct (IH (S k) _ _ (skipn 8 l) F1) as [Ls' [F [E [P HL']]]].
    + rewrite E1. exact HL.
    + rewrite length_skipn. lia.
    + exists Ls'. split.
      * replace (k + S g)%nat with (S k + g)%nat by lia. exact F.
      * split.
        -- rewrite E, skipn_skipn. f_equal. f_equal. lia.
        -- split; [| exact HL'].
           eapply Permutation_trans; [exact P |].
           replace (8 * S g)%nat with (8 + 8 * g)%nat by lia.
           rewrite firstn_plus, app_assoc.
           apply Permutation_app_tail. exact P1.
Qed.

Lemma singles_summed (c : R) (l : list R) :
  Forall2 (fun L x => summed c L 0 x)
    (map (fun a => [a]) l) (map (fun a => Fin (c * a)) l)
  /\ List.concat (map (fun a => [a]) l) = l.
Proof.
  induction l as [| a l [F E]]; cbn [map List.concat]; split.
  - constructor.
  - reflexivity.
  - constructor; [apply summed_one | exact F].
  - rewrite E. reflexivity.
Qed.

(** The sum of eight to 128 numbers. *)
Lemma block_summed (c : R) (al : list R) :
  (8 <= List.length al <= 128)%nat ->
  summed c al (List.length al) (block_sum (map (fun a => Fin (c * a)) al)).
Proof.
  intros Hn. unfold block_sum. rewrite length_map, firstn_map, skipn_map.
  set (n := List.length al) in *.
  set (g := (Nat.div n 8 - 1)%nat).
  pose proof (Nat.Div0.mul_div_le n 8) as Hd.
  assert (Hg1 : (1 <= Nat.div n 8)%nat)
    by (apply Nat.div_le_lower_bound; lia).
  destruct (singles_summed c (firstn 8 al)) as [F0 E0].
  destruct (add_lanes_summed c g 0 _ _ (skipn 8 al) F0)
    as [Ls' [F [E [P HL]]]].
  { rewrite length_map, length_firstn. fold n. lia. }
  { rewrite length_skipn. fold n. unfold g. lia. }
  destruct (add_lanes g (map (fun a => Fin (c * a)) (firstn 8 al))
              (map (fun a => Fin (c * a)) (skipn 8 al))) as [r rest].
  cbn [fst snd] in F, E. subst rest. rewrite E0 in P.
  destruct Ls' as [| L0 [| L1 [| L2 [| L3 [| L4 [| L5 [| L6 [| L7 [| ? ?]]]]]]]]];
    try discriminate HL.
  repeat match goal with
         | H : Forall2 _ (_ :: _) _ |- _ => inversion H; clear H; subst
         end.
  match goal with H : Forall2 _ [] _ |- _ => inversion H; clear H; subst end.
  cbn [Nat.add] in *.
  apply (summed_perm c
           ((((L0 ++ L1) ++ (L2 ++ L3)) ++ ((L4 ++ L5) ++ (L6 ++ L7)))
            ++ skipn (8 * g) (skipn 8 al))%list).
  - eapply Permutation_trans.
    + apply Permutation_app_tail.
      eapply Permutation_trans; [| exact P].
      cbn [List.concat]. rewrite app_nil_r, <- !app_assoc. apply Permutation_refl.
    + rewrite <- app_assoc, firstn_skipn, firstn_skipn. apply Permutation_refl.
  - apply (summed_mono c _ (S (S (S g)) + List.length (skipn (8 * g) (skipn 8 al)))).
    + apply fold_summed. repeat apply summed_add; assumption.
    + rewrite !length_skipn. fold n. unfold g. lia.
Qed.

(** The pairwise sum of the numbers [c * a]: a sum in which no number
    goes through more additions than there are numbers. *)
Lemma pairwise_sum_rec_summed (c : R) (fuel : nat) :
  forall al : list R,
    (List.length al <= fuel)%nat ->
    summed c al (List.length al)
      (pairwise_sum_rec fuel (map (fun a => Fin (c * a)) al)).
Proof.
  induction fuel as [| f IH]; intros al Hf;
    rewrite pairwise_sum_rec_unfold, length_map;
    destruct (Nat.ltb_spec (List.length al) 8) as [H8 | H8];
    try (apply (fold_summed c al [] 0 (Fin 0)); apply summed_nil);
    destruct (Nat.leb_spec (List.length al) 128) as [H128 | H128];
    try (apply block_summed; lia).
  - lia.
  - rewrite firstn_map, skipn_map.
    set (n := List.length al) in *.
    set (n2 := (Nat.div n 2 - Nat.modulo (Nat.div n 2) 8)%nat).
    pose proof (Nat.Div0.mul_div_le n 2) as Hd.
    assert (Hh : (64 <= Nat.div n 2)%nat)
      by (apply Nat.div_le_lower_bound; lia).
    pose proof (Nat.mod_upper_bound (Nat.div n 2) 8 ltac:(lia)) as Hm.
    assert (H1 : List.length (firstn n2 al) = n2)
      by (rewrite length_firstn; fold n; unfold n2; lia).
    assert (H2 : List.length (skipn n2 al) = (n - n2)%nat)
      by (rewrite length_skipn; reflexivity).
    rewrite <- (firstn_skipn n2 al) at 1.
    apply (summed_mono c _ (S (n - 1))); [| lia].
    apply summed_add.
    + apply (summed_mono c _ (List.length (firstn n2 al))).
      * apply IH. rewrite H1. unfold n2. lia.
      * rewrite H1. unfold n2. lia.
    + apply (summed_mono c _ (List.length (skipn n2 al))).
      * apply IH. rewrite H2. unfold n2. lia.
      * rewrite H2. unfold n2. lia.
Qed.

Lemma pairwise_sum_summed (c : R) (al : list R) :
  summed c al (List.length al)
    (pairwise_sum (map (fun a => Fin (c * a)) al)).
Proof.
  unfold pairwise_sum. rewrite length_map.
  apply pairwise_sum_rec_summed. lia.
Qed.

Lemma terms_lower_bound (c : R) (al : list R) :
  al <> [] ->
  Forall (fun a => 0 < a /\ binary64 (c * a)
                   /\ bpow (-1021) <= Rabs (c * a)) al ->
  bpow (-1021) <= Rabs c * Rsum al.
Proof.
  destruct al as [| a al]; [congruence |]. intros _ H.
  inversion H as [| ? ? [Pa [_ L]] Hall]; subst.
  pose proof (Rsum_nonneg al (Forall_impl _ (fun x H => proj1 H) Hall)) as Ps.
  pose proof (Rabs_pos c) as Pc.
  rewrite Rabs_mult, (Rabs_pos_eq a) in L by lra.
  cbn [Rsum]. assert (0 <= Rabs c * Rsum al) by (apply Rmult_le_pos; lra).
  lra.
Qed.

(** A sum, as it is computed, of multiples [c * a] of a number [c] by
    positive factors [a]: the exact sum times a factor of as many
    roundings as an element goes through additions. *)
Lemma summed_near (c : R) (al : list R) (k : nat) (x : float) :
  summed c al k x ->
  Forall (fun a => 0 < a /\ binary64 (c * a)
                   /\ bpow (-1021) <= Rabs (c * a)) al ->
  2 * (Rabs c * Rsum al) <= bpow 1023 ->
  INR k * eps64 <= 1 / 4 ->
  exists sm t,
    x = Fin sm /\ binary64 sm /\ sm = c * Rsum al * t /\ near k t.
Proof.
  intros H.
  induction H as [k | a k | al1 al2 k x1 x2 _ IH1 _ IH2
                  | al al' k x HP _ IH]; intros Hall Hov Hk.
  - exists 0, 1. cbn [Rsum]. split; [reflexivity |].
    split; [exact binary64_0 |]. split; [ring | apply near_1].
  - inversion Hall as [| ? ? [Pa [Ba _]] _]; subst.
    exists (c * a), 1. cbn [Rsum]. split; [reflexivity |].
    split; [exact Ba |]. split; [ring | apply near_1].
  - pose proof Hall as Hall'.
    apply Forall_app in Hall as [Hall1 Hall2]. rewrite Rsum_app in *.
    pose proof (Rsum_nonneg al1
                  (Forall_impl _ (fun x H => proj1 H) Hall1)) as P1.
    pose proof (Rsum_nonneg al2
                  (Forall_impl _ (fun x H => proj1 H) Hall2)) as P2.
    pose proof (Rabs_pos c) as Pc. pose proof eps64_bounds as E.
    assert (Q1 : 0 <= Rabs c * Rsum al1) by (apply Rmult_le_pos; lra).
    assert (Q2 : 0 <= Rabs c * Rsum al2) by (apply Rmult_le_pos; lra).
    assert (Hk' : INR k * eps64 <= 1 / 4) by (rewrite S_INR in Hk; lra).
    destruct (IH1 Hall1 ltac:(lra) Hk') as [sm1 [t1 [-> [B1 [E1 N1]]]]].
    destruct (IH2 Hall2 ltac:(lra) Hk') as [sm2 [t2 [-> [B2 [E2 N2]]]]].
    rewrite (fadd64_Fin sm1 sm2 B1 B2).
    destruct (Req_dec (Rsum al1 + Rsum al2) 0) as [Z | NZ].
    + assert (Z1 : Rsum al1 = 0) by lra. assert (Z2 : Rsum al2 = 0) by lra.
      replace (sm1 + sm2) with 0 by (rewrite E1, E2, Z1, Z2; ring).
      rewrite b64_0. exists 0, 1. split; [reflexivity |].
      split; [exact binary64_0 |]. split; [rewrite Z; ring | apply near_1].
    + assert (Hne : (al1 ++ al2)%list <> []).
      { intros E0. apply app_eq_nil in E0 as [-> ->]. simpl in NZ. lra. }
      pose proof (terms_lower_bound c _ Hne Hall') as Lo.
      rewrite Rsum_app in Lo.
      assert (Hc : exists t, sm1 + sm2 = c * (Rsum al1 + Rsum al2) * t
                             /\ near k t).
      { destruct (Rlt_dec 0 (Rsum al2)) as [G | G].
        - destruct (near_convex k _ _ t1 t2 P1 G N1 N2) as [t [Et Nt]].
          exists t. split; [| exact Nt]. rewrite E1, E2.
          replace (c * Rsum al1 * t1 + c * Rsum al2 * t2)
            with (c * (Rsum al1 * t1 + Rsum al2 * t2)) by ring.
          rewrite Et. ring.
        - assert (G1 : 0 < Rsum al1) by lra.
          destruct (near_convex k _ _ t2 t1 P2 G1 N2 N1) as [t [Et Nt]].
          exists t. split; [| exact Nt]. rewrite E1, E2.
          replace (c * Rsum al1 * t1 + c * Rsum al2 * t2)
            with (c * (Rsum al2 * t2 + Rsum al1 * t1)) by ring.
          rewrite Et. ring. }
      destruct Hc as [t [Es Nt]].
      pose proof (near_half_two k t Hk' Nt) as Bt.
      assert (Ea : Rabs (sm1 + sm2)
                   = Rabs c * (Rsum al1 + Rsum al2) * t).
      { rewrite Es, !Rabs_mult.
        rewrite (Rabs_pos_eq (Rsum al1 + Rsum al2)), (Rabs_pos_eq t) by lra.
        reflexivity. }
      assert (Hr : bpow (-1022) <= Rabs (sm1 + sm2) <= bpow 1023).
      { rewrite Ea.
        assert (B1022 : bpow (-1021) = 2 * bpow (-1022)).
        { replace (-1021)%Z with (1 + -1022)%Z by lia.
          rewrite bpow_add, bpow_1. reflexivity. }
        assert (Pq : 0 <= Rabs c * (Rsum al1 + Rsum al2)) by lra.
        split.
        - assert (Rabs c * (Rsum al1 + Rsum al2) * (1 / 2)
                  <= Rabs c * (Rsum al1 + Rsum al2) * t)
            by (apply Rmult_le_compat_l; lra).
          lra.
        - assert (Rabs c * (Rsum al1 + Rsum al2) * t
                  <= Rabs c * (Rsum al1 + Rsum al2) * 2)
            by (apply Rmult_le_compat_l; lra).
          lra. }
      destruct (b64_near (sm1 + sm2) Hr) as [y [t' [Hy [By [Ey Nt']]]]].
      exists y, (t * t'). split; [exact Hy |]. split; [exact By |]. split.
      * rewrite Ey, Es. ring.
      * replace (S k) with (k + 1)%nat by lia. apply near_mul; assumption.
  - apply (Permutation_Forall (Permutation_sym HP)) in Hall.
    rewrite <- (Rsum_Permutation _ _ HP) in *.
    exact (IH Hall Hov Hk).
Qed.

Lemma summed_zero (al : list R) (k : nat) (x : float) :
  summed 0 al k x -> x = Fin 0.
Proof.
  intros H. induction H as [k | a k | al1 al2 k x1 x2 _ IH1 _ IH2
                            | al al' k x _ _ IH].
  - reflexivity.
  - rewrite Rmult_0_l. reflexivity.
  - rewrite IH1, IH2. apply fadd64_0_l. exact binary64_0.
  - exact IH.
Qed.

(** [np.sum] of multiples [c * a] of a number [c] by positive factors. *)
Lemma np_sum_scaled_near (c : R) (al : list R) :
  Forall (fun a => 0 < a /\ binary64 (c * a)
                   /\ bpow (-1021) <= Rabs (c * a)) al ->
  2 * (Rabs c * Rsum al) <= bpow 1023 ->
  INR (List.length al) * eps64 <= 1 / 4 ->
  exists sm t,
    np_sum (map (fun a => Fin (c * a)) al) = Fin sm /\ binary64 sm /\
    sm = c * Rsum al * t /\ near (List.length al) t.
Proof.
  intros Hall Hov Hk.
  destruct (summed_near c al _ _ (pairwise_sum_summed c al) Hall Hov Hk)
    as [sm [t [Hs [Bs [Es Ns]]]]].
  exists sm, t. unfold np_sum. rewrite Hs, (fadd64_0_l sm Bs).
  split; [reflexivity |]. split; [exact Bs |]. split; assumption.
Qed.

(** The sum of positive binary64 numbers, as [np_sum] computes it. *)
Lemma np_sum_near (lo hi : R) (ws : list R) :
  bpow (-1021) <= lo ->
  Forall (fun w => binary64 w /\ lo <= w <= hi) ws ->
  2 * (INR (List.length ws) * hi) <= bpow 1023 ->
  INR (List.length ws) * eps64 <= 1 / 4 ->
  exists sm t,
    np_sum (map Fin ws) = Fin sm /\ binary64 sm /\
    sm = Rsum ws * t /\ near (List.length ws) t.
Proof.
  intros Hlo Hall Hov Hn.
  assert (Plo : 0 < lo) by (pose proof (bpow_pos (-1021)); lra).
  pose proof (Rsum_bounds lo hi ws
                (Forall_impl _ (fun x H => proj2 H) Hall)) as Bs.
  destruct (np_sum_scaled_near 1 ws) as [sm [t [HS [BS [ES NS]]]]].
  - eapply Forall_impl; [| exact Hall]. intros w [Bw [L U]].
    rewrite Rmult_1_l. split; [lra |]. split; [exact Bw |].
    rewrite Rabs_pos_eq by lra. lra.
  - rewrite Rabs_R1. lra.
  - exact Hn.
  - exists sm, t. split.
    + rewrite <- HS. f_equal. apply map_ext.
      intros a. rewrite Rmult_1_l. reflexivity.
    + split; [exact BS |]. split; [rewrite ES; ring | exact NS].
Qed.

Lemma within_mul (a b c d : Z) (x y : R) :
  within a b x -> within c d y -> within (a + c) (b + d) (x * y).
Proof.
  intros [X1 X2] [Y1 Y2]. unfold within. rewrite !bpow_add.
  pose proof (bpow_pos a). pose proof (bpow_pos c).
  split; apply Rmult_le_compat; lra.
Qed.

Lemma within_div (a b c d : Z) (x y : R) :
  within a b x -> within c d y -> within (a - d) (b - c) (x / y).
Proof.
  intros [X1 X2] [Y1 Y2]. unfold within.
  pose proof (bpow_pos a). pose proof (bpow_pos c).
  replace (a - d)%Z with (a + - d)%Z by lia.
  replace (b - c)%Z with (b + - c)%Z by lia.
  rewrite !bpow_add, !bpow_opp.
  apply (Rdiv_bounds (bpow a) (bpow b) (bpow c) (bpow d)); try assumption;
    split; assumption.
Qed.

Lemma within_weaken (a b a' b' : Z) (x : R) :
  within a b x -> (a' <= a)%Z -> (b <= b')%Z -> within a' b' x.
Proof.
  intros [X1 X2] Ha Hb. split.
  - eapply Rle_trans; [apply bpow_le; exact Ha | exact X1].
  - eapply Rle_trans; [exact X2 | apply bpow_le; exact Hb].
Qed.

Lemma within_pos (a b : Z) (x : R) : within a b x -> 0 < x.
Proof. intros [H _]. pose proof (bpow_pos a). lra. Qed.

Lemma within_near (k : nat) (t : R) :
  INR k * eps64 <= 1 / 4 -> near k t -> within (-1) 1 t.
Proof.
  intros Hk Ht. pose proof (near_half_two k t Hk Ht) as B.
  unfold within. rewrite bpow_1.
  replace (bpow (-1)) with (1 / 2) by (bpow_lit; lra). exact B.
Qed.

(** The binary64 value of a number in the normal range. *)
Lemma b64_within (a b : Z) (x : R) :
  (-1022 <= a)%Z -> (b <= 1023)%Z -> within a b (Rabs x) ->
  exists y t, b64 x = Fin y /\ binary64 y /\ y = x * t /\ near 1 t.
Proof.
  intros Ha Hb Hx. apply b64_near.
  exact (within_weaken _ _ _ _ _ Hx Ha Hb).
Qed.

Lemma INR_within (n : nat) :
  (1 <= n)%nat -> (Z.of_nat n <= 1000000)%Z -> within 0 20 (INR n).
Proof.
  intros H1 H2. unfold within. rewrite bpow_0.
  replace (bpow 20) with 1048576 by (bpow_lit; reflexivity).
  rewrite INR_IZR_INZ. split; apply IZR_le; lia.
Qed.

Lemma count_eps64 (n k : nat) :
  (Z.of_nat n <= 1000000)%Z -> (k <= 2 * n + 3)%nat ->
  INR k * eps64 <= 1 / 4.
Proof.
  intros Hn Hk. pose proof eps64_bounds as E.
  assert (INR k <= 2000003).
  { rewrite INR_IZR_INZ. apply IZR_le. lia. }
  pose proof (pos_INR k).
  unfold eps64 in *.
  assert (B : bpow (-53) <= / 9000000).
  { bpow_lit. apply Rinv_le_contravar; lra. }
  assert (INR k * bpow (-53) <= 2000003 * / 9000000).
  { apply Rmult_le_compat; lra. }
  lra.
Qed.

Lemma Rsum_within (a b : Z) (l : list R) :
  l <> [] -> (Z.of_nat (List.length l) <= 1000000)%Z ->
  Forall (within a b) l -> within a (b + 20) (Rsum l).
Proof.
  intros Hne Hlen Hall.
  pose proof (Rsum_bounds _ _ l Hall) as [B1 B2].
  assert (Hn : within 0 20 (INR (List.length l))).
  { apply INR_within; [| exact Hlen].
    destruct l; [congruence | simpl; lia]. }
  destruct Hn as [N1 N2]. rewrite bpow_0 in N1.
  pose proof (bpow_pos a). pose proof (bpow_pos b).
  split.
  - eapply Rle_trans; [| exact B1].
    rewrite <- (Rmult_1_l (bpow a)) at 1.
    apply Rmult_le_compat_r; lra.
  - eapply Rle_trans; [exact B2 |].
    rewrite bpow_add, Rmult_comm. apply Rmult_le_compat_l; lra.
Qed.

(** A sum of positive numbers each multiplied by a factor of [k]
    roundings is their sum multiplied by such a factor. *)
Lemma Rsum_near (k : nat) (al ys : list R) :
  Forall2 (fun a y => 0 < a /\ exists t, y = a * t /\ near k t) al ys ->
  0 <= Rsum al /\ exists t, Rsum ys = Rsum al * t /\ near k t.
Proof.
  intros H. induction H as [| a y al ys [Pa [t1 [E1 N1]]] _ [P [t2 [E2 N2]]]].
  - split; [simpl; lra |]. exists 1. split; [simpl; ring | apply near_1].
  - split; [simpl; lra |].
    destruct (near_convex k (Rsum al) a t2 t1 P Pa N2 N1) as [t [Et Nt]].
    exists t. split; [| exact Nt]. cbn [Rsum]. rewrite E1, E2.
    replace ((a + Rsum al) * t) with ((Rsum al + a) * t) by ring.
    rewrite <- Et. ring.
Qed.

(** The weights divided by their sum [W], as they are computed. *)
Lemma normalize_near (W : R) (ws : list R) :
  binary64 W -> within (-55) 44 W ->
  Forall (fun w => binary64 w /\ within (-54) 23 w) ws ->
  exists nws,
    map (fun w => fdiv64 w (Fin W)) (map Fin ws) = map Fin nws /\
    List.length nws = List.length ws /\
    Forall2 (fun a y => 0 < a /\ exists t, y = a * t /\ near 1 t)
      (map (fun w => w / W) ws) nws /\
    Forall (fun y => binary64 y /\ within (-99) 79 y) nws.
Proof.
  intros BW HW Hall. pose proof (within_pos _ _ _ HW) as PW.
  induction Hall as [| w ws [Bw Hw] _ IH].
  - exists []. repeat split; constructor.
  - destruct IH as [nws [Hm [Hlen [H2 Hr]]]].
    pose proof (within_div _ _ _ _ _ _ Hw HW) as Hq.
    replace (-54 - 44)%Z with (-98)%Z in Hq by lia.
    replace (23 - -55)%Z with 78%Z in Hq by lia.
    pose proof (within_pos _ _ _ Hq) as Pq.
    destruct (b64_within (-98) 78 (w / W)) as [y [t [Hy [By [Ey Nt]]]]];
      [lia | lia | rewrite Rabs_pos_eq by lra; exact Hq |].
    assert (Hk : INR 1 * eps64 <= 1 / 4)
      by (apply (count_eps64 0); simpl; lia).
    pose proof (within_mul _ _ _ _ _ _ Hq (within_near 1 t Hk Nt)) as Hyr.
    rewrite <- Ey in Hyr.
    exists (y :: nws). cbn [map List.length].
    rewrite (fdiv64_Fin w W Bw BW) by lra. rewrite Hy, Hm, Hlen.
    split; [reflexivity |]. split; [reflexivity |]. split.
    + constructor; [| exact H2]. split; [exact Pq |].
      exists t. split; assumption.
    + constructor; [| exact Hr]. split; [exact By |].
      apply (within_weaken _ _ _ _ _ Hyr); lia.
Qed.

(** The products of a number [v], of binary64 value [v'], by the
    normalized weights, as they are computed. *)
Lemma products_near (v v' : R) (nws : list R) :
  b64 v = Fin v' -> within (-901) 901 (Rabs v') ->
  Forall (fun y => binary64 y /\ within (-99) 79 y) nws ->
  exists al,
    zip_with fmul64 (repeat (Fin v) (List.length nws)) (map Fin nws)
    = map (fun a => Fin (v' * a)) al /\
    List.length al = List.length nws /\
    Forall2 (fun a y => 0 < a /\ exists t, y = a * t /\ near 1 t) nws al /\
    Forall (fun a => 0 < a /\ binary64 (v' * a)
                     /\ bpow (-1021) <= Rabs (v' * a)) al /\
    Forall (within (-100) 80) al.
Proof.
  intros Hv Hv' Hall.
  assert (Hk : INR 1 * eps64 <= 1 / 4)
    by (apply (count_eps64 0); simpl; lia).
  induction Hall as [| y nws [By Hy] _ IH].
  - exists []. repeat split; constructor.
  - destruct IH as [al [Hm [Hlen [H2 [Hr Hw]]]]].
    pose proof (within_pos _ _ _ Hy) as Py.
    pose proof (within_mul _ _ _ _ _ _ Hv' Hy) as Hp.
    replace (Rabs v' * y) with (Rabs (v' * y)) in Hp
      by (rewrite Rabs_mult, (Rabs_pos_eq y) by lra; reflexivity).
    destruct (b64_within (-901 + -99) (901 + 79) (v' * y)
                ltac:(lia) ltac:(lia) Hp)
      as [p [t [Hb [Bp [Ep Nt]]]]].
    pose proof (within_near 1 t Hk Nt) as Ht.
    pose proof (within_pos _ _ _ Ht) as Pt.
    pose proof (within_mul _ _ _ _ _ _ Hy Ht) as Ha.
    exists (y * t :: al). cbn [List.length repeat map zip_with].
    assert (Em : fmul64 (Fin v) (Fin y) = Fin (v' * (y * t))).
    { unfold fmul64. cbn [f64]. unfold binary64 in By.
      rewrite Hv, By. cbn [fmul f64]. rewrite Hb, Ep. f_equal. ring. }
    rewrite Em, Hm, Hlen.
    split; [reflexivity |]. split; [reflexivity |]. split.
    + constructor; [| exact H2]. split; [exact Py |].
      exists t. split; [reflexivity | exact Nt].
    + split.
      * constructor; [| exact Hr].
        split; [apply Rmult_lt_0_compat; assumption |].
        replace (v' * (y * t)) with p by (rewrite Ep; ring).
        split; [exact Bp |].
        pose proof (within_mul _ _ _ _ _ _ Hp Ht) as Hpt.
        rewrite Ep, Rabs_mult, (Rabs_pos_eq t) by lra.
        destruct Hpt as [L _]. eapply Rle_trans; [| exact L].
        apply bpow_le. lia.
      * constructor; [| exact Hw].
        apply (within_weaken _ _ _ _ _ Ha); lia.
Qed.

Lemma zero_products (nws : list R) :
  Forall (fun y => binary64 y /\ within (-99) 79 y) nws ->
  zip_with fmul64 (repeat (Fin 0) (List.length nws)) (map Fin nws)
  = repeat (Fin 0) (List.length nws).
Proof.
  intros H. induction H as [| y nws [By _] _ IH]; [reflexivity |].
  cbn [List.length repeat map zip_with]. rewrite IH. f_equal.
  rewrite (fmul64_Fin 0 y binary64_0 By), Rmult_0_l. exact b64_0.
Qed.

Lemma np_sum_zeros (k : nat) : np_sum (repeat (Fin 0) k) = Fin 0.
Proof.
  replace (repeat (Fin 0) k) with (map (fun a => Fin (0 * a)) (repeat 1 k)).
  - unfold np_sum.
    rewrite (summed_zero _ _ _ (pairwise_sum_summed 0 (repeat 1 k))).
    apply fadd64_0_l. exact binary64_0.
  - induction k as [| k IH]; [reflexivity |].
    cbn [repeat map]. rewrite IH, Rmult_0_l. reflexivity.
Qed.

(** The weighted mean of [n] times the number [v], with the normalized
    logarithmic weights: [v] times a factor of [2 n + 3] roundings; the
    weights add up to a factor of [2 n + 1] roundings. *)
Lemma average_of_constant (n : nat) (sh v : R) :
  (1 <= n)%nat -> (Z.of_nat n <= 1000000)%Z ->
  binary64 sh -> 1 < sh <= bpow 1022 ->
  v = 0 \/ within (-900) 900 (Rabs v) ->
  exists g W t,
    np_sum (normalized_weights n (Fin sh)) = Fin W /\
    near (2 * n + 1) W /\
    np_average (repeat (Fin v) n) (normalized_weights n (Fin sh))
    = Ok (Fin g) /\
    g = v * t /\ near (2 * n + 3) t.
Proof.
  intros Hn1 Hn2 Bsh Hsh Hv.
  assert (K : forall k, (k <= 2 * n + 3)%nat -> INR k * eps64 <= 1 / 4)
    by (intros k Hk; exact (count_eps64 n k Hn2 Hk)).
  destruct (log_weights_bounds sh (seq 0 n) Bsh Hsh) as [ws [Hws [Lws Aws]]].
  { apply Forall_forall. intros i Hi. apply in_seq in Hi. lia. }
  rewrite length_seq in Lws.
  assert (Nws : ws <> []) by (destruct ws; [simpl in Lws; lia | discriminate]).
  assert (Hin : within 0 20 (INR n)) by (apply INR_within; assumption).
  (* the sum of the weights *)
  destruct (np_sum_near (bpow (-54)) (bpow 23) ws)
    as [W0 [tW [HW0 [BW0 [EW0 NW0]]]]].
  { apply bpow_le. lia. }
  { exact Aws. }
  { rewrite Lws. destruct Hin as [_ Hi].
    pose proof (bpow_pos 23).
    assert (INR n * bpow 23 <= bpow 20 * bpow 23)
      by (apply Rmult_le_compat_r; lra).
    rewrite <- bpow_add in H0.
    assert (bpow (1 + (20 + 23)) <= bpow 1023) by (apply bpow_le; lia).
    rewrite bpow_add, bpow_1 in H1. lra. }
  { rewrite Lws. apply K. lia. }
  rewrite Lws in NW0.
  assert (Sws : within (-54) (23 + 20) (Rsum ws)).
  { apply Rsum_within; [exact Nws | rewrite Lws; exact Hn2 |].
    eapply Forall_impl; [| exact Aws]. intros w [_ Hw]. exact Hw. }
  pose proof (within_pos _ _ _ Sws) as Psw.
  assert (RW0 : within (-55) 44 W0).
  { rewrite EW0.
    apply (within_weaken (-54 + -1) (23 + 20 + 1)); [| lia | lia].
    apply within_mul; [exact Sws |].
    apply (within_near n); [apply K; lia | exact NW0]. }
  pose proof (within_pos _ _ _ RW0) as PW0.
  pose proof (near_pos _ _ NW0) as PtW.
  unfold normalized_weights, log_weights. rewrite Hws, HW0.
  destruct (normalize_near W0 ws BW0 RW0 Aws) as [nws [Hnw [Ln [F2 Fr]]]].
  rewrite Hnw. rewrite Lws in Ln.
  assert (Nnw : nws <> [])
    by (destruct nws; [simpl in Ln; lia | discriminate]).
  destruct (Rsum_near 1 _ _ F2) as [_ [tc [Ec Nc]]].
  rewrite Rsum_map_div in Ec.
  assert (Enw : Rsum nws = tc / tW).
  { rewrite Ec, EW0. field. lra. }
  assert (Pnw : 0 < Rsum nws).
  { rewrite Enw. apply Rdiv_lt_0_compat; [exact (near_pos _ _ Nc) | exact PtW]. }
  (* the sum of the normalized weights *)
  destruct (np_sum_near (bpow (-99)) (bpow 79) nws)
    as [scl [ts [Hs [Bs [Es Ns]]]]].
  { apply bpow_le. lia. }
  { exact Fr. }
  { rewrite Ln. destruct Hin as [_ Hi].
    pose proof (bpow_pos 79).
    assert (INR n * bpow 79 <= bpow 20 * bpow 79)
      by (apply Rmult_le_compat_r; lra).
    rewrite <- bpow_add in H0.
    assert (bpow (1 + (20 + 79)) <= bpow 1023) by (apply bpow_le; lia).
    rewrite bpow_add, bpow_1 in H1. lra. }
  { rewrite Ln. apply K. lia. }
  rewrite Ln in Ns.
  pose proof (near_pos _ _ Ns) as Pts.
  assert (Nscl : near (2 * n + 1) scl).
  { rewrite Es, Enw.
    replace (tc / tW * ts) with (tc * ts / tW) by (field; lra).
    replace (2 * n + 1)%nat with (1 + n + n)%nat by lia.
    apply near_div; [apply near_mul; assumption | exact NW0]. }
  pose proof (near_pos _ _ Nscl) as Pscl.
  unfold np_average. rewrite Hs, feqb_Fin_false by lra.
  destruct Hv as [-> | Hv].
  - (* a series of zeros *)
    exists 0, scl, 1. split; [reflexivity |]. split; [exact Nscl |].
    replace (repeat (Fin 0) n) with (repeat (Fin 0) (List.length nws))
      by (rewrite Ln; reflexivity).
    rewrite (zero_products nws Fr), np_sum_zeros.
    rewrite (fdiv64_Fin 0 scl binary64_0 Bs) by lra.
    unfold Rdiv. rewrite Rmult_0_l, b64_0.
    split; [reflexivity |]. split; [ring | apply near_1].
  - destruct (b64_within (-900) 900 v ltac:(lia) ltac:(lia) Hv)
      as [v' [tv [Hv' [Bv' [Ev' Nv']]]]].
    pose proof (near_pos _ _ Nv') as Ptv.
    assert (Rv' : within (-901) 901 (Rabs v')).
    { rewrite Ev', Rabs_mult, (Rabs_pos_eq tv) by lra.
      apply (within_weaken (-900 + -1) (900 + 1)); [| lia | lia].
      apply within_mul; [exact Hv |].
      apply (within_near 1); [apply K; lia | exact Nv']. }
    replace (repeat (Fin v) n) with (repeat (Fin v) (List.length nws))
      by (rewrite Ln; reflexivity).
    destruct (products_near v v' nws Hv' Rv' Fr)
      as [al [Hp [La [G2 [Gr Gw]]]]].
    rewrite Hp. rewrite Ln in La.
    assert (Nal : al <> [])
      by (destruct al; [simpl in La; lia | discriminate]).
    destruct (Rsum_near 1 _ _ G2) as [_ [tc' [Ec' Nc']]].
    assert (Sal : within (-100) (80 + 20) (Rsum al)).
    { apply Rsum_within; [exact Nal | rewrite La; exact Hn2 | exact Gw]. }
    destruct (np_sum_scaled_near v' al)
      as [sm [tS [HS [BS [ES NS]]]]].
    { exact Gr. }
    { pose proof (within_mul _ _ _ _ _ _ Rv' Sal) as [_ Hu].
      assert (bpow (1 + (901 + (80 + 20))) <= bpow 1023)
        by (apply bpow_le; lia).
      rewrite (bpow_add 1), bpow_1 in H. lra. }
    { rewrite La. apply K. lia. }
    rewrite La in NS.
    pose proof (near_pos _ _ NS) as PtS.
    pose proof (near_pos _ _ Nc') as Ptc'.
    rewrite HS.
    rewrite (fdiv64_Fin sm scl BS Bs) by lra.
    assert (Eq : sm / scl = v' * (tc' * tS / ts)).
    { rewrite ES, Es, Ec'. field. split; lra. }
    assert (Nq : near (1 + n + n) (tc' * tS / ts)).
    { apply near_div; [apply near_mul; assumption | exact Ns]. }
    assert (Rq : within (-902) 902 (Rabs (sm / scl))).
    { rewrite Eq, Rabs_mult.
      rewrite (Rabs_pos_eq (tc' * tS / ts))
        by (left; exact (near_pos _ _ Nq)).
      apply (within_weaken (-901 + -1) (901 + 1)); [| lia | lia].
      apply within_mul; [exact Rv' |].
      apply (within_near (1 + n + n)); [apply K; lia | exact Nq]. }
    destruct (b64_within (-902) 902 (sm / scl) ltac:(lia) ltac:(lia) Rq)
      as [g [tg [Hg [Bg [Eg Ng]]]]].
    exists g, scl, (tv * (tc' * tS / ts) * tg).
    split; [reflexivity |]. split; [exact Nscl |].
    rewrite Hg. split; [reflexivity |]. split.
    + rewrite Eg, Eq, Ev'. ring.
    + replace (2 * n + 3)%nat with (1 + (1 + n + n) + 1)%nat by lia.
      apply near_mul; [apply near_mul; assumption | exact Ng].
Qed.

(** C8 (as amended): on a constant series [v, ..., v], with a binary64
    shift, the weighted growth estimate is [v] up to the rounding of
    binary64 arithmetic.  With one observation and a positive shift other
    than 1 it is the binary64 value of [v], which is [v] itself when [v]
    is a binary64 number: the one weight, divided by itself, is 1.  With
    a shift above 1 (and up to [2^1022]), up to a million observations
    and [v] zero or of a magnitude between [2^-900] and [2^900], the
    logarithmic weights are all positive; divided by their sum they add
    up to 1 within [(4 n + 2) * 2^-53], and the estimate, their weighted
    sum, is within [(4 n + 6) * 2^-53 * |v|] of [v]. *)
Theorem weighted_growth_of_constant_series (key : string) (s s1 : State)
  (df : table) (col : series) (v shift : R) :
  ratios s = (Ok df, s1) ->
  getitem df key = Ok col ->
  dropna col <> [] ->
  Forall (fun p => snd p = Fin v) (dropna col) ->
  revenue_growth_log_shift (self s1) = Fin shift ->
  binary64 shift ->
  (List.length (dropna col) = 1%nat ->
   0 < shift -> shift <> 1 -> Rabs v <= bpow 1023 ->
   _get_average_growth_rate key s = (Ok (b64 v), s1)) /\
  (1 < shift <= bpow 1022 ->
   (Z.of_nat (List.length (dropna col)) <= 1000000)%Z ->
   v = 0 \/ bpow (-900) <= Rabs v <= bpow 900 ->
   exists g W,
     np_sum (normalized_weights (List.length (dropna col)) (Fin shift))
     = Fin W /\
     Rabs (W - 1)
     <= (4 * INR (List.length (dropna col)) + 2) * bpow (-53) /\
     _get_average_growth_rate key s = (Ok (Fin g), s1) /\
     Rabs (g - v)
     <= (4 * INR (List.length (dropna col)) + 6) * bpow (-53) * Rabs v).
Proof.
  intros Hr Hc Hne Hall Hshift Bsh.
  assert (Hvals : map snd (dropna col)
                  = repeat (Fin v) (List.length (dropna col))).
  { clear -Hall. induction Hall as [| p l Hp _ IH]; simpl; [reflexivity |].
    rewrite Hp. f_equal. exact IH. }
  rewrite (get_average_growth_rate_unfold key s s1 df col Hr Hc).
  rewrite Hshift, Hvals.
  split.
  - intros H1 Ps Ns Hv. rewrite H1. cbn [repeat].
    rewrite (normalized_weights_one shift Bsh Ps Ns), (np_average_one v Hv).
    reflexivity.
  - intros Hsh Hlen Hv.
    set (n := List.length (dropna col)) in *.
    assert (Hn : (1 <= n)%nat).
    { unfold n. destruct (dropna col); [congruence | simpl; lia]. }
    destruct (average_of_constant n shift v Hn Hlen Bsh Hsh Hv)
      as [g [W [t [HW [NW [Hg [Eg Ng]]]]]]].
    exists g, W. split; [exact HW |]. split.
    + assert (K1 : INR (2 * n + 1) * eps64 <= 1 / 2).
      { pose proof (count_eps64 n (2 * n + 1) Hlen ltac:(lia)). lra. }
      pose proof (near_bound _ _ K1 NW) as B.
      rewrite plus_INR, mult_INR in B. simpl INR in B. unfold eps64 in B.
      eapply Rle_trans; [exact B |]. right. ring.
    + split.
      * rewrite Hg. reflexivity.
      * assert (K3 : INR (2 * n + 3) * eps64 <= 1 / 2).
        { pose proof (count_eps64 n (2 * n + 3) Hlen ltac:(lia)). lra. }
        pose proof (near_bound _ _ K3 Ng) as B.
        rewrite plus_INR, mult_INR in B. simpl INR in B. unfold eps64 in B.
        replace (g - v) with (v * (t - 1)) by (rewrite Eg; ring).
        rewrite Rabs_mult.
        pose proof (Rabs_pos v) as Pv.
        assert (Rabs v * Rabs (t - 1)
                <= Rabs v * (2 * (2 * INR n + (1 + 1 + 1)) * bpow (-53)))
          by (apply Rmult_le_compat_l; assumption).
        eapply Rle_trans; [exact H |]. right. ring.
Qed.

(** The theorem on the one observation of revenue growth, 0.1, with the
    default shift 2: the estimate is the binary64 value of 0.1. *)
Lemma weighted_growth_of_constant_series_witness :
  _get_average_growth_rate "revenue-ps-growth" unobserved_growth_state
  = (Ok (b64 (1 / 10)), unobserved_growth_state)
  /\ exists g W,
    np_sum (normalized_weights 1 (Fin 2)) = Fin W /\
    Rabs (W - 1) <= (4 * INR 1 + 2) * bpow (-53) /\
    _get_average_growth_rate "revenue-ps-growth" unobserved_growth_state
    = (Ok (Fin g), unobserved_growth_state) /\
    Rabs (g - 1 / 10) <= (4 * INR 1 + 6) * bpow (-53) * Rabs (1 / 10).
Proof.
  assert (Hv : bpow (-900) <= Rabs (1 / 10) <= bpow 900).
  { rewrite Rabs_pos_eq by lra. split.
    - apply Rle_trans with (bpow (-4)); [apply bpow_le; lia | bpow_lit; lra].
    - apply Rle_trans with 1; [lra | apply bpow_ge_1; lia]. }
  destruct (weighted_growth_of_constant_series
              "revenue-ps-growth" unobserved_growth_state
              unobserved_growth_state unobserved_growth_table
              [(date 2019 12 1, NaN); (date 2020 12 1, Fin (1 / 10))]
              (1 / 10) 2) as [H1 H2].
  - apply unobserved_growth_ratios.
  - reflexivity.
  - simpl. discriminate.
  - simpl. repeat constructor.
  - reflexivity.
  - apply (binary64_int 2). lia.
  - split.
    + apply H1; [reflexivity | lra | lra |].
      destruct Hv as [_ Hv]. eapply Rle_trans; [exact Hv |].
      apply bpow_le. lia.
    + apply H2; [| simpl; lia | right; exact Hv].
      split; [lra |].
      apply Rle_trans with (bpow 1); [rewrite bpow_1; lra | apply bpow_le; lia].
Defined.

Lemma normalized_weights_one_one : normalized_weights 1 (Fin 1) = [NaN].
Proof.
  unfold normalized_weights, log_weights. cbn [seq map INR].
  rewrite (fadd64_0_l 1 binary64_1).
  rewrite np_log_Fin by (try exact binary64_1; lra).
  rewrite ln_1, b64_0, (np_sum_one 0 binary64_0).
  unfold fdiv64. cbn [f64]. rewrite b64_0, fdiv_zero_zero. reflexivity.
Qed.

(** C8 fails as stated: with a shift of 1 the single weight of a series
    of one observation is ln 1 = 0; dividing it by the sum of the weights
    is 0/0, and the estimate of the constant series [0.1] is [NaN]. *)
Lemma shift_one_estimate_of_constant_series_is_nan :
  revenue_growth_log_shift (self shift_one_state) = Fin 1 /\
  map snd (dropna [(date 2019 12 1, NaN); (date 2020 12 1, Fin (1 / 10))])
  = [Fin (1 / 10)] /\
  _get_average_growth_rate "revenue-ps-growth" shift_one_state
  = (Ok NaN, shift_one_state).
Proof.
  split; [reflexivity | split; [reflexivity |]].
  rewrite (get_average_growth_rate_unfold
             "revenue-ps-growth" shift_one_state shift_one_state
             unobserved_growth_table
             [(date 2019 12 1, NaN); (date 2020 12 1, Fin (1 / 10))]).
  - f_equal. cbn [dropna List.filter snd isna negb List.length map].
    change (revenue_growth_log_shift (self shift_one_state)) with (Fin 1).
    rewrite normalized_weights_one_one. unfold np_average.
    cbn [zip_with]. rewrite fmul64_NaN_r, np_sum_one_NaN, fdiv64_NaN_l.
    reflexivity.
  - apply ratios_assigned. reflexivity.
  - reflexivity.
Qed.

(* ================================================================= *)
(** ** The fractional change *)

Lemma ffill_from_length (last : float) (vs : list float) :
  List.length (ffill_from last vs) = List.length vs.
Proof.
  revert last. induction vs as [| v vs IH]; intros last; simpl.
  - reflexivity.
  - rewrite IH. reflexivity.
Qed.

Lemma ffill_from_nth (vs : list float) :
  forall (last : float) (i : nat),
    (i < List.length vs)%nat ->
    (exists j, (j <= i)%nat /\ isna (nth j vs NaN) = false /\
               (forall k, (j < k <= i)%nat -> isna (nth k vs NaN) = true) /\
               nth i (ffill_from last vs) NaN = nth j vs NaN)
    \/ ((forall k, (k <= i)%nat -> isna (nth k vs NaN) = true) /\
        nth i (ffill_from last vs) NaN = last).
Proof.
  induction vs as [| v vs IH]; intros last i Hi; simpl in Hi; [lia |].
  destruct i as [| i].
  - simpl. destruct (isna v) eqn:Ev.
    + right. split; [| reflexivity].
      intros k Hk. replace k with 0%nat by lia. exact Ev.
    + left. exists 0%nat. repeat split; try lia; try exact Ev.
  - assert (Hi' : (i < List.length vs)%nat) by lia.
    change (nth (S i) (ffill_from last (v :: vs)) NaN)
      with (nth i (ffill_from (if isna v then last else v) vs) NaN).
    destruct (IH (if isna v then last else v) i Hi')
      as [[j [Hj [Hv [Hgap Hn]]]] | [Hall Hn]].
    + left. exists (S j). split; [lia |]. split; [exact Hv |].
      split; [| exact Hn].
      intros k Hk. destruct k as [| k]; [lia |]. apply Hgap. lia.
    + destruct (isna v) eqn:Ev.
      * right. split; [| exact Hn].
        intros k Hk. destruct k as [| k]; [exact Ev |]. apply Hall. lia.
      * left. exists 0%nat. split; [lia |]. split; [exact Ev |].
        split; [| exact Hn].
        intros k Hk. destruct k as [| k]; [lia |]. apply Hall. lia.
Qed.

Lemma ffill_padded (vs : list float) (i : nat) :
  (i < List.length vs)%nat -> padded vs i (nth i (ffill vs) NaN).
Proof.
  intros Hi. unfold ffill.
  destruct (ffill_from_nth vs NaN i Hi) as [[j [Hj [Hv [Hgap Hn]]]] | [Hall Hn]].
  - left. exists j. rewrite Hn. repeat split; assumption.
  - right. split; assumption.
Qed.

(** A present value is its own padded value. *)
Lemma ffill_present (vs : list float) (i : nat) (x : R) :
  nth i vs NaN = Fin x -> nth i (ffill vs) NaN = Fin x.
Proof.
  intros Hx.
  assert (Hi : (i < List.length vs)%nat).
  { destruct (Nat.lt_ge_cases i (List.length vs)) as [H | H]; [exact H |].
    rewrite (nth_overflow _ _ H) in Hx. discriminate. }
  unfold ffill.
  destruct (ffill_from_nth vs NaN i Hi) as [[j [Hj [Hv [Hgap Hn]]]] | [Hall Hn]].
  - destruct (Nat.eq_dec j i) as [-> | Hne]; [congruence |].
    assert (H : isna (nth i vs NaN) = true) by (apply Hgap; lia).
    rewrite Hx in H. discriminate.
  - assert (H : isna (nth i vs NaN) = true) by (apply Hall; lia).
    rewrite Hx in H. discriminate.
Qed.

Lemma zip_with_removelast {A B} (f : A -> A -> B) (ds : list A) :
  forall d, zip_with f ds (removelast (d :: ds)) = zip_with f ds (d :: ds).
Proof.
  induction ds as [| x ds IH]; intros d.
  - reflexivity.
  - change (removelast (d :: x :: ds)) with (d :: removelast (x :: ds)).
    change (zip_with f (x :: ds) (d :: removelast (x :: ds)))
      with (f x d :: zip_with f ds (removelast (x :: ds))).
    rewrite IH. reflexivity.
Qed.

Lemma zip_with_nth {A B C} (f : A -> B -> C) (a : A) (b : B) (c : C) :
  forall (l1 : list A) (l2 : list B) (i : nat),
    (i < List.length l1)%nat -> (i < List.length l2)%nat ->
    nth i (zip_with f l1 l2) c = f (nth i l1 a) (nth i l2 b).
Proof.
  induction l1 as [| x l1 IH]; intros l2 i H1 H2; simpl in H1; [lia |].
  destruct l2 as [| y l2]; simpl in H2; [lia |].
  destruct i as [| i]; simpl; [reflexivity |].
  apply IH; lia.
Qed.

Lemma zip_with_length {A B C} (f : A -> B -> C) :
  forall (l1 : list A) (l2 : list B),
    List.length (zip_with f l1 l2)
    = Nat.min (List.length l1) (List.length l2).
Proof.
  induction l1 as [| x l1 IH]; intros l2; simpl; [reflexivity |].
  destruct l2 as [| y l2]; simpl; [reflexivity |]. rewrite IH. reflexivity.
Qed.

(** The quotients that [pct_change] forms: the first padded value is
    divided by a missing one, each later one by its predecessor. *)
Lemma pct_change_values_unfold (vs : list float) :
  pct_change_values vs
  = match ffill vs with
    | [] => []
    | d :: ds =>
        fsub64 (fdiv64 d NaN) (Fin 1)
        :: map (fun q => fsub64 q (Fin 1)) (zip_with fdiv64 ds (d :: ds))
    end.
Proof.
  unfold pct_change_values. destruct (ffill vs) as [| d ds]; [reflexivity |].
  change (zip_with fdiv64 (d :: ds) (shift (d :: ds)))
    with (fdiv64 d NaN :: zip_with fdiv64 ds (removelast (d :: ds))).
  rewrite zip_with_removelast. reflexivity.
Qed.

Lemma pct_change_values_length (vs : list float) :
  List.length (pct_change_values vs) = List.length vs.
Proof.
  rewrite pct_change_values_unfold.
  pose proof (ffill_from_length NaN vs) as H. fold (ffill vs) in H.
  destruct (ffill vs) as [| d ds]; [exact H |].
  simpl. rewrite length_map, zip_with_length. simpl in *. lia.
Qed.

Lemma pct_change_values_first (vs : list float) :
  nth 0 (pct_change_values vs) NaN = NaN.
Proof.
  rewrite pct_change_values_unfold.
  destruct (ffill vs) as [| d ds]; [reflexivity |].
  cbn [nth]. rewrite fdiv64_NaN_r. apply fsub64_NaN_l.
Qed.

Lemma pct_change_values_next (vs : list float) (i : nat) :
  (S i < List.length vs)%nat ->
  nth (S i) (pct_change_values vs) NaN
  = fsub64 (fdiv64 (nth (S i) (ffill vs) NaN) (nth i (ffill vs) NaN))
      (Fin 1).
Proof.
  intros Hi. rewrite pct_change_values_unfold.
  pose proof (ffill_from_length NaN vs) as H. fold (ffill vs) in H.
  destruct (ffill vs) as [| d ds]; simpl in H; [lia |].
  change (nth (S i) (?x :: ?l) NaN) with (nth i l NaN).
  assert (Hds : (i < List.length ds)%nat) by lia.
  rewrite (nth_indep _ NaN (fsub64 NaN (Fin 1))).
  - rewrite (map_nth (fun q => fsub64 q (Fin 1))). f_equal.
    apply zip_with_nth; simpl; lia.
  - rewrite length_map, zip_with_length. simpl. lia.
Qed.

(** The fractional change of two binary64 numbers, as it is computed: a
    quotient and a difference, each rounded.  The result is within
    [2^-51 * (|c / p| + 1)] of [(c - p) / p], as long as the quotient does
    not overflow. *)
Lemma fractional_change_close (c p : R) :
  binary64 c -> binary64 p -> p <> 0 -> Rabs (c / p) <= bpow 1022 ->
  exists g,
    fsub64 (fdiv64 (Fin c) (Fin p)) (Fin 1) = Fin g /\
    Rabs (g - (c - p) / p) <= bpow (-51) * (Rabs (c / p) + 1).
Proof.
  intros Hc Hp Hnz Hq.
  assert (B1 : bpow 1022 < bpow 1023) by (apply bpow_lt; lia).
  assert (B2 : bpow 1023 = 2 * bpow 1022).
  { replace 1023%Z with (1 + 1022)%Z by lia. rewrite bpow_add, bpow_1. ring. }
  assert (B3 : 2 <= bpow 1022).
  { rewrite <- bpow_1. apply bpow_le. lia. }
  assert (B4 : bpow (-1075) < bpow (-53)) by (apply bpow_lt; lia).
  assert (B5 : bpow (-51) = 4 * bpow (-53)).
  { replace (-51)%Z with (1 + (1 + -53))%Z by lia.
    rewrite !bpow_add, bpow_1. ring. }
  pose proof eps64_bounds as E. unfold eps64 in E.
  set (q := c / p) in *. pose proof (Rabs_pos q) as Pq.
  rewrite (fdiv64_Fin c p Hc Hp Hnz). fold q.
  assert (Hb : b64 q = Fin (b64r q)) by (apply b64_in_range; lra).
  pose proof (binary64_b64 q _ Hb) as Hq'. rewrite Hb.
  rewrite (fsub64_Fin _ 1 Hq' binary64_1).
  pose proof (b64r_error q) as E1.
  pose proof (b64r_error (b64r q - 1)) as E2.
  set (q' := b64r q) in *.
  assert (T1 : Rabs q' <= Rabs (q' - q) + Rabs q).
  { replace q' with ((q' - q) + q) at 1 by ring. apply Rabs_triang. }
  assert (T2 : Rabs (q' - 1) <= Rabs q' + 1).
  { replace (q' - 1) with (q' + - (1)) by ring.
    eapply Rle_trans; [apply Rabs_triang |]. rewrite Rabs_Ropp, Rabs_R1. lra. }
  assert (M1 : bpow (-53) * Rabs q <= bpow (-53) * bpow 1022)
    by (apply Rmult_le_compat_l; lra).
  assert (M0 : 0 <= bpow (-53) * Rabs q) by (apply Rmult_le_pos; lra).
  assert (M2 : bpow (-53) * bpow 1022 <= / 1000000 * bpow 1022)
    by (apply Rmult_le_compat_r; lra).
  assert (M4 : bpow (-53) * Rabs q <= 1 * Rabs q)
    by (apply Rmult_le_compat_r; lra).
  assert (M3 : bpow (-53) * Rabs (q' - 1)
               <= bpow (-53) * (Rabs q + Rabs q + 2)).
  { apply Rmult_le_compat_l; lra. }
  assert (Hr : Rabs (q' - 1) <= bpow 1023) by lra.
  exists (b64r (q' - 1)). split; [apply b64_in_range; exact Hr |].
  replace ((c - p) / p) with (q - 1) by (unfold q; field; exact Hnz).
  replace (b64r (q' - 1) - (q - 1))
    with ((b64r (q' - 1) - (q' - 1)) + (q' - q)) by ring.
  eapply Rle_trans; [apply Rabs_triang |]. rewrite B5. lra.
Qed.

Lemma b64_11_10 : b64 (11 / 10) = Fin (4953959590107546 * bpow (-52)).
Proof.
  rewrite (b64_eval_pos (11 / 10) 0 4953959590107546).
  - reflexivity.
  - lia.
  - bpow_lit. lra.
  - bpow_lit. lra.
Qed.

Lemma b64_121_100 : b64 (121 / 100) = Fin (5449355549118300 * bpow (-52)).
Proof.
  rewrite (b64_eval_pos (121 / 100) 0 5449355549118300).
  - reflexivity.
  - lia.
  - bpow_lit. lra.
  - bpow_lit. lra.
Qed.

(** The growth from 100 to 110, as it is computed: the binary64 number
    next to 1.1, less 1. *)
Lemma growth_of_a_tenth (c p : Z) :
  (0 < p <= 1000)%Z -> (10 * c = 11 * p)%Z ->
  fsub64 (fdiv64 (Fin (IZR c)) (Fin (IZR p))) (Fin 1)
  = Fin (225179981368525 / 2251799813685248).
Proof.
  intros Hp Hc.
  assert (Pp : 0 < IZR p) by (apply IZR_lt; lia).
  rewrite fdiv64_Fin by (try apply binary64_int; try lia; lra).
  replace (IZR c / IZR p) with (11 / 10).
  - rewrite b64_11_10.
    rewrite fsub64_Fin
      by (first [exact binary64_1 | exact (binary64_b64 _ _ b64_11_10)]).
    replace (4953959590107546 * bpow (-52) - 1)
      with (IZR 450359962737050 * bpow (-52)) by (bpow_lit; lra).
    rewrite b64_grid by lia. f_equal. bpow_lit. lra.
  - apply Rmult_eq_reg_r with (10 * IZR p); [| lra].
    transitivity (11 * IZR p); [field |].
    + transitivity (10 * IZR c); [| field; lra].
      rewrite <- !mult_IZR. f_equal. lia.
Qed.

Lemma pct_change_100_110_121 :
  pct_change_values [Fin 100; Fin 110; Fin 121]
  = [NaN; Fin (225179981368525 / 2251799813685248);
     Fin (225179981368525 / 2251799813685248)].
Proof.
  rewrite pct_change_values_unfold.
  change (ffill [Fin 100; Fin 110; Fin 121])
    with [Fin 100; Fin 110; Fin 121].
  cbv beta iota. cbn [zip_with map].
  rewrite fdiv64_NaN_r, fsub64_NaN_l.
  rewrite (growth_of_a_tenth 110 100), (growth_of_a_tenth 121 110) by lia.
  reflexivity.
Qed.

(** C7 fails as stated.  In [100, missing, 121] the value before the
    third period is missing and the value of the second period is
    missing, yet both growths are defined: the missing value is padded
    with 100 (the growths are 0.0 and 0.20999999999999996).  In [0, 5]
    the denominator is zero and the growth is infinite, a value that
    [dropna] keeps. *)
Lemma growth_next_to_missing_value_is_defined :
  pct_change_values [Fin 100; NaN; Fin 121]
  = [NaN; Fin 0; Fin (236438980436951 / 1125899906842624)] /\
  pct_change_values [Fin 0; Fin 5] = [NaN; PInf] /\
  dropna [(0%Z, NaN); (1%Z, PInf)] = [(1%Z, PInf)].
Proof.
  assert (H100 : binary64 100) by (apply (binary64_int 100); lia).
  assert (H121 : binary64 121) by (apply (binary64_int 121); lia).
  split; [| split; [| reflexivity]].
  - rewrite pct_change_values_unfold.
    change (ffill [Fin 100; NaN; Fin 121])
      with [Fin 100; Fin 100; Fin 121].
    cbv beta iota. cbn [zip_with map].
    rewrite fdiv64_NaN_r, fsub64_NaN_l.
    rewrite !fdiv64_Fin by (assumption || lra).
    replace (100 / 100) with 1 by lra. rewrite b64_1, b64_121_100.
    rewrite !fsub64_Fin
      by (first [exact binary64_1 | exact (binary64_b64 _ _ b64_121_100)]).
    replace (1 - 1) with 0 by lra. rewrite b64_0.
    replace (5449355549118300 * bpow (-52) - 1)
      with (IZR 945755921747804 * bpow (-52)) by (bpow_lit; lra).
    rewrite b64_grid by lia. do 4 f_equal. bpow_lit. lra.
  - rewrite pct_change_values_unfold.
    change (ffill [Fin 0; Fin 5]) with [Fin 0; Fin 5].
    cbv beta iota. cbn [zip_with map].
    rewrite fdiv64_NaN_r, fsub64_NaN_l.
    unfold fdiv64, fsub64. cbn [f64].
    rewrite b64_0, b64_1, (binary64_int 5) by lia.
    rewrite fdiv_pos_zero by lra. reflexivity.
Qed.

(* ================================================================= *)
(** ** Running the derivation steps *)

Lemma bind_ok {A B} (m : M A) (f : A -> M B) (s s' : State) (a : A) :
  m s = (Ok a, s') -> bind m f s = f a s'.
Proof. intros H. unfold bind. rewrite H. reflexivity. Qed.

Lemma bind_raise {A B} (m : M A) (f : A -> M B) (s s' : State) (e : exn) :
  m s = (Raise e, s') -> bind m f s = (Raise e, s').
Proof. intros H. unfold bind. rewrite H. reflexivity. Qed.

Arguments bind_ok {A B m} f {s s' a} _.
Arguments bind_raise {A B m} f {s s' e} _.

Lemma the_ratios_assigned (s : State) (df : table) :
  _ratios (self s) = Some df -> the_ratios s = (Ok df, s).
Proof. intros H. unfold the_ratios. munfold. rewrite H. reflexivity. Qed.

Lemma currency_assigned_eq (s : State) (df : table) :
  _ratios (self s) = Some df ->
  currency_assigned s = (Ok (currency_of df), s).
Proof.
  intros H. unfold currency_assigned.
  rewrite (bind_ok _ (the_ratios_assigned _ _ H)). reflexivity.
Qed.

Lemma ratios_col_eq (key : string) (s : State) (df : table) :
  _ratios (self s) = Some df -> ratios_col key s = (getitem df key, s).
Proof.
  intros H. unfold ratios_col.
  rewrite (bind_ok _ (the_ratios_assigned _ _ H)). reflexivity.
Qed.

Lemma ratios_assign_eq (key : string) (x : series) (s : State)
  (df : table) :
  _ratios (self s) = Some df ->
  ratios_assign key x s
  = (Ok tt, on_self (set_ratios (Some (setitem df key x))) s).
Proof.
  intros H. unfold ratios_assign.
  rewrite (bind_ok _ (the_ratios_assigned _ _ H)). reflexivity.
Qed.

(** The earnings growth is the [pct_change] of the earnings per share. *)
Lemma add_earnings_ps_growth_eq (s : State) (df : table) (e : series) :
  _ratios (self s) = Some df ->
  getitem df ("earnings-per-share-" ++ str_of (currency_of df)) = Ok e ->
  add_earnings_ps_growth s
  = (Ok tt,
     on_self (set_ratios
                (Some (setitem df "earnings-ps-growth" (pct_change e)))) s).
Proof.
  intros H He. unfold add_earnings_ps_growth.
  rewrite (bind_ok _ (currency_assigned_eq _ _ H)).
  rewrite (@bind_ok _ _ _ _ s s e).
  - apply ratios_assign_eq. exact H.
  - rewrite (ratios_col_eq _ _ _ H). rewrite He. reflexivity.
Qed.

(* ================================================================= *)
(** ** Columns of a data frame *)

Lemma same_index_refl (idx : list label) : same_index idx idx = true.
Proof.
  induction idx as [| l idx IH]; simpl.
  - reflexivity.
  - rewrite Z.eqb_refl, IH. reflexivity.
Qed.

Lemma same_index_eq (i1 i2 : list label) :
  same_index i1 i2 = true -> i1 = i2.
Proof.
  revert i2. induction i1 as [| l i1 IH]; intros [| l2 i2] H; simpl in H;
    try discriminate; [reflexivity |].
  apply andb_prop in H. destruct H as [Hl Hr].
  apply Z.eqb_eq in Hl. subst l2. f_equal. apply IH. exact Hr.
Qed.

Lemma reindex_same (idx : list label) (x : series) :
  map fst x = idx -> reindex idx x = map snd x.
Proof.
  intros H. unfold reindex. rewrite H, same_index_refl. reflexivity.
Qed.

Lemma reindex_length (idx : list label) (x : series) :
  List.length (reindex idx x) = List.length idx.
Proof.
  unfold reindex. destruct (same_index (map fst x) idx) eqn:E.
  - apply same_index_eq in E. rewrite <- E, !length_map. reflexivity.
  - rewrite length_map. reflexivity.
Qed.

Lemma combine_fst_snd {A B} (x : list (A * B)) :
  combine (map fst x) (map snd x) = x.
Proof.
  induction x as [| [a b] x IH]; simpl.
  - reflexivity.
  - rewrite IH. reflexivity.
Qed.

Lemma map_fst_combine {A B} (l1 : list A) :
  forall l2 : list B,
    (List.length l1 <= List.length l2)%nat ->
    map fst (combine l1 l2) = l1.
Proof.
  induction l1 as [| a l1 IH]; intros [| b l2] H; simpl in *;
    try reflexivity; try lia.
  rewrite IH by lia. reflexivity.
Qed.

Lemma map_snd_combine {A B} (l1 : list A) :
  forall l2 : list B,
    List.length l1 = List.length l2 ->
    map snd (combine l1 l2) = l2.
Proof.
  induction l1 as [| a l1 IH]; intros [| b l2] H; simpl in *;
    try reflexivity; try lia.
  rewrite IH by lia. reflexivity.
Qed.

Lemma getitem_setitem_same (df : table) (key : string) (x : series) :
  getitem (setitem df key x) key
  = Ok (combine (index df) (reindex (index df) x)).
Proof.
  unfold getitem, setitem. simpl. rewrite assoc_set_assoc_same.
  reflexivity.
Qed.

Lemma getitem_setitem_other (df : table) (key key' : string) (x : series) :
  String.eqb key' key = false ->
  getitem (setitem df key x) key' = getitem df key'.
Proof.
  intros H. unfold getitem, setitem. simpl.
  rewrite (assoc_set_assoc_other _ _ _ _ H). reflexivity.
Qed.

Lemma contains_setitem_same (df : table) (key : string) (x : series) :
  contains (setitem df key x) key = true.
Proof.
  unfold contains, setitem. simpl. rewrite assoc_set_assoc_same.
  reflexivity.
Qed.

Lemma contains_setitem_other (df : table) (key key' : string)
  (x : series) :
  String.eqb key' key = false ->
  contains (setitem df key x) key' = contains df key'.
Proof.
  intros H. unfold contains, setitem. simpl.
  rewrite (assoc_set_assoc_other _ _ _ _ H). reflexivity.
Qed.

(** A series whose labels are the index of the frame is stored as it
    is. *)
Lemma getitem_setitem_aligned (df : table) (key : string) (x : series) :
  map fst x = index df ->
  getitem (setitem df key x) key = Ok x.
Proof.
  intros H. rewrite getitem_setitem_same, (reindex_same _ _ H), <- H.
  rewrite combine_fst_snd. reflexivity.
Qed.

Lemma series_scalar_labels (f : float -> float -> float) (x : series)
  (c : float) :
  map fst (series_scalar f x c) = map fst x.
Proof. unfold series_scalar. rewrite map_map. reflexivity. Qed.

Lemma getitem_labels (df : table) (key : string) (x : series) :
  getitem df key = Ok x ->
  List.length x = List.length (index df) ->
  map fst x = index df.
Proof.
  unfold getitem. destruct (assoc key (columns df)) as [vs |];
    [| discriminate].
  intros H Hlen. injection H as <-. apply map_fst_combine.
  rewrite length_combine in Hlen. lia.
Qed.

(** Adding a column whose name does not start like the earnings per
    share leaves the currency as it is. *)
Lemma currency_of_keys_set_assoc {A} (key : string) (v : A)
  (l : list (string * A)) :
  starts_with "earnings-per-share-" key = false ->
  currency_of_keys (map fst (set_assoc key v l))
  = currency_of_keys (map fst l).
Proof.
  intros Hk. induction l as [| [k0 v0] l IH]; simpl.
  - rewrite Hk. reflexivity.
  - destruct (String.eqb key k0) eqn:E.
    + apply String.eqb_eq in E. subst k0. reflexivity.
    + cbn [map fst currency_of_keys]. rewrite IH. reflexivity.
Qed.

Lemma currency_of_setitem (df : table) (key : string) (x : series) :
  starts_with "earnings-per-share-" key = false ->
  currency_of (setitem df key x) = currency_of df.
Proof.
  intros H. unfold currency_of, setitem. simpl columns.
  apply currency_of_keys_set_assoc. exact H.
Qed.

(** The book-value growth is the [pct_change] of the book value per
    share. *)
Lemma add_book_value_ps_growth_eq (s : State) (df : table) (b : series) :
  _ratios (self s) = Some df ->
  getitem df ("book-value-per-share-" ++ str_of (currency_of df)) = Ok b ->
  add_book_value_ps_growth s
  = (Ok tt,
     on_self (set_ratios
                (Some (setitem df "book-value-ps-growth" (pct_change b)))) s).
Proof.
  intros H Hb. unfold add_book_value_ps_growth.
  rewrite (bind_ok _ (currency_assigned_eq _ _ H)).
  rewrite (@bind_ok _ _ _ _ s s b).
  - apply ratios_assign_eq. exact H.
  - rewrite (ratios_col_eq _ _ _ H). rewrite Hb. reflexivity.
Qed.

Lemma string_length_append (s1 s2 : string) :
  String.length (s1 ++ s2) = (String.length s1 + String.length s2)%nat.
Proof.
  induction s1 as [| a s1 IH]; simpl.
  - reflexivity.
  - rewrite IH. reflexivity.
Qed.

Lemma string_neq_longer (p c : string) :
  p <> "" -> String.eqb c (p ++ c) = false.
Proof.
  intros Hp. apply String.eqb_neq. intros Heq.
  assert (Hlen : String.length c = String.length (p ++ c)) by congruence.
  rewrite string_length_append in Hlen.
  destruct p as [| a p]; [congruence |]. simpl in Hlen. lia.
Qed.

(** The revenue growth is the [pct_change] of the revenue per share,
    which is the revenue over the shares. *)
Lemma add_revenue_ps_growth_eq (s : State) (df : table) (r sh : series) :
  _ratios (self s) = Some df ->
  getitem df ("revenue-" ++ str_of (currency_of df)) = Ok r ->
  getitem df "shares" = Ok sh ->
  add_revenue_ps_growth s
  = (Ok tt,
     on_self
       (set_ratios
          (Some (setitem
                   (setitem df
                      ("revenue-per-share-" ++ str_of (currency_of df))
                      (series_op fdiv r sh))
                   "revenue-ps-growth"
                   (pct_change (series_op fdiv r sh))))) s).
Proof.
  intros H Hr Hsh. unfold add_revenue_ps_growth.
  set (cur := str_of (currency_of df)) in *.
  set (d1 := setitem df ("revenue-per-share-" ++ cur) (series_op fdiv r sh)).
  set (s1 := on_self (set_ratios (Some d1)) s).
  assert (H1 : _ratios (self s1) = Some d1) by reflexivity.
  assert (Hcur1 : currency_of d1 = currency_of df).
  { unfold d1. apply currency_of_setitem. reflexivity. }
  assert (Hr1 : getitem d1 ("revenue-" ++ cur) = Ok r).
  { unfold d1. rewrite getitem_setitem_other; [exact Hr |].
    cbn [append String.eqb Ascii.eqb Bool.eqb andb].
    apply (string_neq_longer "per-share-" cur). discriminate. }
  assert (Hsh1 : getitem d1 "shares" = Ok sh).
  { unfold d1. rewrite getitem_setitem_other by reflexivity. exact Hsh. }
  rewrite (bind_ok _ (currency_assigned_eq _ _ H)). fold cur.
  rewrite (@bind_ok _ _ _ _ s s r)
    by (rewrite (ratios_col_eq _ _ _ H), Hr; reflexivity).
  rewrite (@bind_ok _ _ _ _ s s sh)
    by (rewrite (ratios_col_eq _ _ _ H), Hsh; reflexivity).
  rewrite (bind_ok _ (currency_assigned_eq _ _ H)). fold cur.
  rewrite (bind_ok _ (ratios_assign_eq _ _ s df H)). fold d1. fold s1.
  rewrite (bind_ok _ (currency_assigned_eq _ _ H1)). rewrite Hcur1. fold cur.
  rewrite (@bind_ok _ _ _ _ s1 s1 r)
    by (rewrite (ratios_col_eq _ _ _ H1), Hr1; reflexivity).
  rewrite (@bind_ok _ _ _ _ s1 s1 sh)
    by (rewrite (ratios_col_eq _ _ _ H1), Hsh1; reflexivity).
  rewrite (ratios_assign_eq _ _ s1 d1 H1). reflexivity.
Qed.

(** After the step the earnings growth of the table is the fractional
    change of the earnings per share, period by period. *)
Lemma earnings_growth_column (s : State) (df : table) (e : series) :
  _ratios (self s) = Some df ->
  getitem df ("earnings-per-share-" ++ str_of (currency_of df)) = Ok e ->
  List.length e = List.length (index df) ->
  exists s' df',
    add_earnings_ps_growth s = (Ok tt, s') /\
    _ratios (self s') = Some df' /\
    getitem df' "earnings-ps-growth"
    = Ok (combine (map fst e) (pct_change_values (map snd e))).
Proof.
  intros Hslot He Hlen.
  exists (on_self (set_ratios
                     (Some (setitem df "earnings-ps-growth"
                              (pct_change e)))) s),
    (setitem df "earnings-ps-growth" (pct_change e)).
  split; [apply add_earnings_ps_growth_eq; assumption |].
  split; [reflexivity |].
  apply getitem_setitem_aligned. unfold pct_change.
  rewrite map_fst_combine.
  - apply (getitem_labels df _ e He Hlen).
  - rewrite pct_change_values_length, !length_map. lia.
Qed.

(* ================================================================= *)
(** ** The dividend growth *)

Lemma bind_ok_inv {A B} (m : M A) (f : A -> M B) (s s' : State) (b : B) :
  bind m f s = (Ok b, s') ->
  exists a s1, m s = (Ok a, s1) /\ f a s1 = (Ok b, s').
Proof.
  unfold bind. destruct (m s) as [[a | e] s1]; intros H.
  - exists a, s1. split; [reflexivity | exact H].
  - discriminate.
Qed.

(** [bind_inv H as a s1 Hm]: from [H : bind m f s = (Ok b, s')], the
    run [Hm] of [m] to a value [a] and a state [s1], [H] becoming the run
    of [f a]. *)
Tactic Notation "bind_inv" hyp(H) "as" ident(a) ident(s1) ident(Hm) :=
  apply bind_ok_inv in H; destruct H as [a [s1 [Hm H]]].

Lemma the_ratios_ok_inv (s s' : State) (df : table) :
  the_ratios s = (Ok df, s') -> s' = s /\ _ratios (self s) = Some df.
Proof.
  unfold the_ratios. munfold.
  destruct (_ratios (self s)) as [d |]; intros H; [| discriminate].
  injection H as -> ->. split; reflexivity.
Qed.

(** However the step is entered, when it returns the dividend growth is
    the shares times zero. *)
Lemma add_dividends_ps_growth_ok (s s' : State) :
  add_dividends_ps_growth s = (Ok tt, s') ->
  exists d sh,
    getitem d "shares" = Ok sh /\
    _ratios (self s')
    = Some (setitem d "dividends-ps-growth" (series_scalar fmul sh (Fin 0))).
Proof.
  unfold add_dividends_ps_growth. intros H.
  destruct (_ratios (self s)) as [d0 |] eqn:Hslot.
  - rewrite (bind_ok _ (currency_assigned_eq _ _ Hslot)) in H.
    rewrite (bind_ok _ (the_ratios_assigned _ _ Hslot)) in H.
    bind_inv H as u s1 Hbranch.
    assert (Hs1 : exists d1, _ratios (self s1) = Some d1 /\
                             (d1 = d0 \/ exists dv,
                                d1 = setitem d0 "dividends-ps-growth"
                                       (pct_change dv))).
    { destruct (contains d0 ("dividends-" ++ str_of (currency_of d0))).
      - rewrite (bind_ok _ (currency_assigned_eq _ _ Hslot)) in Hbranch.
        bind_inv Hbranch as dv s2 Hcol.
        rewrite (ratios_col_eq _ _ _ Hslot) in Hcol.
        injection Hcol as Hcol <-.
        rewrite (ratios_assign_eq _ _ _ _ Hslot) in Hbranch.
        injection Hbranch as _ <-.
        eexists. split; [reflexivity |]. right. exists dv. reflexivity.
      - injection Hbranch as _ <-.
        exists d0. split; [exact Hslot | left; reflexivity]. }
    destruct Hs1 as [d1 [Hslot1 _]].
    bind_inv H as sh s2 Hcol.
    rewrite (ratios_col_eq _ _ _ Hslot1) in Hcol.
    injection Hcol as Hcol <-.
    rewrite (ratios_assign_eq _ _ _ _ Hslot1) in H.
    injection H as <-.
    exists d1, sh. split; [exact Hcol | reflexivity].
  - assert (Hr : currency_assigned s = (Raise TypeError, s)).
    { unfold currency_assigned, the_ratios. munfold. rewrite Hslot.
      reflexivity. }
    rewrite (bind_raise _ Hr) in H. discriminate.
Qed.

(** With a dividends column the step computes the fractional change of
    the dividends and then overwrites it: the growth of a dividend that
    doubled is stored as the shares times zero. *)
Lemma dividends_growth_is_overwritten :
  contains dividend_paying_table "dividends-usd" = true /\
  pct_change_values [Fin 1; Fin 2] = [NaN; Fin 1] /\
  exists s' df',
    add_dividends_ps_growth dividend_paying_state = (Ok tt, s') /\
    _ratios (self s') = Some df' /\
    getitem df' "dividends-ps-growth"
    = Ok [(date 2019 12 1, Fin (100 * 0)); (date 2020 12 1, Fin (100 * 0))].
Proof.
  split; [reflexivity |]. split.
  - rewrite pct_change_values_unfold.
    change (ffill [Fin 1; Fin 2]) with [Fin 1; Fin 2].
    cbv beta iota. cbn [zip_with map].
    rewrite fdiv64_NaN_r, fsub64_NaN_l.
    rewrite fdiv64_Fin
      by (first [exact binary64_1 | apply (binary64_int 2); lia | lra]).
    replace (2 / 1) with 2 by lra. rewrite (binary64_int 2) by lia.
    rewrite fsub64_Fin
      by (first [exact binary64_1 | apply (binary64_int 2); lia]).
    replace (2 - 1) with 1 by lra. rewrite b64_1. reflexivity.
  - eexists. eexists. split; [reflexivity |]. split; reflexivity.
Qed.

(** The last step of the derivation is the dividend growth: when the
    property returns a table derived from a non-empty export, that step
    left it. *)
Lemma ratios_ends_with_dividends_step (s s0 s' : State) (df0 df : table) :
  _ratios (self s) = None ->
  _load_report_csv_to_df "ratios" s = (Ok df0, s0) ->
  empty df0 = false ->
  ratios s = (Ok df, s') ->
  exists s9,
    add_dividends_ps_growth s9 = (Ok tt, s') /\ _ratios (self s') = Some df.
Proof.
  intros Hslot Hload Hne H. unfold ratios in H.
  bind_inv H as slot s1 Hg. unfold gets in Hg. injection Hg as <- <-.
  rewrite Hslot in H.
  rewrite (bind_ok _ Hload) in H.
  bind_inv H as u1 s2 Hm. clear Hm.
  bind_inv H as u2 s3 Hsteps.
  apply the_ratios_ok_inv in H. destruct H as [-> Hfinal].
  rewrite Hne in Hsteps. cbn [negb] in Hsteps.
  do 9 (let u := fresh "u" in let t := fresh "t" in let Hm := fresh "Hm" in
        bind_inv Hsteps as u t Hm; clear Hm).
  bind_inv Hsteps as hd s8 Hhd. clear Hhd.
  bind_inv Hsteps as u' s9 Hfill. clear Hfill.
  destruct u2. exists s9. split; [exact Hsteps | exact Hfinal].
Qed.

(** C3 (as amended): when the derivation has run on a non-empty ratios
    table and the table has no dividends-<currency> column, the table has
    a dividends-ps-growth column all the same: it is the shares column
    times zero, period by period. *)
Theorem dividends_growth_without_dividends (s s0 s' : State)
  (df0 df : table) :
  _ratios (self s) = None ->
  _load_report_csv_to_df "ratios" s = (Ok df0, s0) ->
  empty df0 = false ->
  ratios s = (Ok df, s') ->
  contains df ("dividends-" ++ str_of (currency_of df)) = false ->
  contains df "dividends-ps-growth" = true /\
  exists sh,
    getitem df "shares" = Ok sh /\
    (List.length sh = List.length (index df) ->
     getitem df "dividends-ps-growth" = Ok (series_scalar fmul sh (Fin 0))).
Proof.
  intros Hslot Hload Hne Hr _.
  destruct (ratios_ends_with_dividends_step _ _ _ _ _ Hslot Hload Hne Hr)
    as [s9 [Hstep Hfinal]].
  destruct (add_dividends_ps_growth_ok _ _ Hstep) as [d [sh [Hsh Hd]]].
  rewrite Hfinal in Hd. injection Hd as ->.
  split; [apply contains_setitem_same |].
  exists sh. split.
  - rewrite getitem_setitem_other by reflexivity. exact Hsh.
  - intros Hlen. apply getitem_setitem_aligned.
    rewrite series_scalar_labels.
    apply (getitem_labels _ _ _ Hsh). exact Hlen.
Qed.

Lemma run_shape {A} (r : result A * State) (a : A) :
  fst r = Ok a -> r = (Ok a, snd r).
Proof. destruct r as [x s]. simpl. intros ->. reflexivity. Qed.

Lemma ratios_of_shape (s : State) :
  match fst (ratios s) with Ok _ => True | Raise _ => False end ->
  ratios s = (Ok (ratios_of s), snd (ratios s)).
Proof.
  unfold ratios_of. destruct (ratios s) as [[df | e] s']; simpl.
  - reflexivity.
  - intros [].
Qed.

(** The derivation of the ACME scenario runs to its end. *)
Lemma acme_ratios_run :
  ratios acme_state = (Ok (ratios_of acme_state), snd (ratios acme_state)).
Proof. apply ratios_of_shape. exact I. Qed.

(** The theorem on the ACME scenario. *)
Lemma dividends_growth_without_dividends_witness :
  contains (ratios_of acme_state) "dividends-ps-growth" = true /\
  exists sh,
    getitem (ratios_of acme_state) "shares" = Ok sh /\
    (List.length sh = List.length (index (ratios_of acme_state)) ->
     getitem (ratios_of acme_state) "dividends-ps-growth"
     = Ok (series_scalar fmul sh (Fin 0))).
Proof.
  apply (dividends_growth_without_dividends acme_state
           (snd (_load_report_csv_to_df "ratios" acme_state))
           (snd (ratios acme_state)) acme_ratios_export
           (ratios_of acme_state)).
  - reflexivity.
  - apply run_shape. reflexivity.
  - reflexivity.
  - exact acme_ratios_run.
  - reflexivity.
Defined.

(** C3 fails as stated: ACME has no dividends column, and the derived
    table has a dividend-growth column. *)
Lemma dividends_growth_is_produced_without_dividends :
  currency_of (ratios_of acme_state) = Some "usd" /\
  contains (ratios_of acme_state) "dividends-usd" = false /\
  contains (ratios_of acme_state) "dividends-ps-growth" = true.
Proof. repeat split; reflexivity. Qed.

(* ================================================================= *)
(** ** The estimated growth *)

Lemma insert_float_Fin (x : R) (l : list R) :
  Sorted Rle l ->
  exists l', insert_float (Fin x) (map Fin l) = map Fin l' /\
             Permutation l' (x :: l) /\ Sorted Rle l'.
Proof.
  induction l as [| y l IH]; intros Hs.
  - exists [x]. repeat split; auto.
  - simpl. destruct (Rlt_dec y x) as [Hlt | Hge].
    + assert (Hyl : Forall (Rle y) l).
      { apply Sorted_extends; [| exact Hs].
        intros a b c Hab Hbc. lra. }
      apply Sorted_inv in Hs. destruct Hs as [Hs Hhd].
      destruct (IH Hs) as [l' [Heq [Hp Hs']]].
      exists (y :: l'). split; [simpl; rewrite Heq; reflexivity |].
      split.
      * rewrite Hp. apply perm_swap.
      * constructor; [exact Hs' |].
        assert (Hall : Forall (Rle y) (x :: l)).
        { constructor; [lra | exact Hyl]. }
        assert (Hall' : Forall (Rle y) l').
        { apply Forall_forall. intros z Hz.
          rewrite Forall_forall in Hall. apply Hall.
          apply (Permutation_in _ Hp). exact Hz. }
        destruct l' as [| z l'']; constructor.
        inversion Hall'. assumption.
    + exists (x :: y :: l). split; [reflexivity |].
      split; [apply Permutation_refl |].
      constructor; [exact Hs | constructor; lra].
Qed.

Lemma sort_floats_Fin (l : list R) :
  exists l', sort_floats (map Fin l) = map Fin l' /\
             Permutation l' l /\ Sorted Rle l'.
Proof.
  induction l as [| x l IH].
  - exists []. repeat split; auto.
  - destruct IH as [l0 [Heq [Hp Hs]]].
    destruct (insert_float_Fin x l0 Hs) as [l1 [Heq1 [Hp1 Hs1]]].
    exists l1. split.
    + change (sort_floats (map Fin (x :: l)))
        with (insert_float (Fin x) (sort_floats (map Fin l))).
      rewrite Heq. exact Heq1.
    + split; [| exact Hs1]. rewrite Hp1. constructor. exact Hp.
Qed.

Lemma existsb_isna_Fin (l : list R) : existsb isna (map Fin l) = false.
Proof. induction l as [| x l IH]; simpl; auto. Qed.

(** The median of four finite values: the mean of the two middle
    ones, their sum and its half being binary64 operations. *)
Lemma np_median_four (x1 x2 x3 x4 : R) :
  exists p q r t,
    Permutation [p; q; r; t] [x1; x2; x3; x4] /\
    p <= q /\ q <= r /\ r <= t /\
    np_median [Fin x1; Fin x2; Fin x3; Fin x4]
    = fdiv64 (fadd64 (Fin q) (Fin r)) (Fin 2).
Proof.
  destruct (sort_floats_Fin [x1; x2; x3; x4]) as [l' [Heq [Hp Hs]]].
  pose proof (Permutation_length Hp) as Hlen.
  destruct l' as [| p [| q [| r [| t [| z l']]]]]; try discriminate Hlen.
  exists p, q, r, t. split; [exact Hp |].
  apply Sorted_inv in Hs. destruct Hs as [Hs Hpq].
  apply Sorted_inv in Hs. destruct Hs as [Hs Hqr].
  apply Sorted_inv in Hs. destruct Hs as [_ Hrt].
  inversion Hpq; subst. inversion Hqr; subst. inversion Hrt; subst.
  repeat (split; [assumption |]).
  unfold np_median.
  change [Fin x1; Fin x2; Fin x3; Fin x4] with (map Fin [x1; x2; x3; x4]).
  rewrite existsb_isna_Fin, Heq. reflexivity.
Qed.

Lemma round2_NaN : round2 NaN = NaN.
Proof. reflexivity. Qed.

Lemma np_median_missing (l : list float) :
  existsb isna l = true -> round2 (np_median l) = NaN.
Proof. intros H. unfold np_median. rewrite H. apply round2_NaN. Qed.

Lemma estimated_growth_runs (s s1 s2 s3 s4 : State) (e r b o : float) :
  _estimated_growth (self s) = None ->
  estimated_eps_growth s = (Ok e, s1) ->
  estimated_revenue_growth s1 = (Ok r, s2) ->
  estimated_bookvalue_growth s2 = (Ok b, s3) ->
  estimated_operational_cashflow_growth s3 = (Ok o, s4) ->
  estimated_growth s
  = (Ok (round2 (np_median [e; r; b; o])),
     on_self (set_estimated_growth
                (Some (round2 (np_median [e; r; b; o])))) s4).
Proof.
  intros Hslot He Hr Hb Ho. unfold estimated_growth.
  unfold bind at 1. unfold gets. rewrite Hslot.
  rewrite (bind_ok _ He), (bind_ok _ Hr), (bind_ok _ Hb), (bind_ok _ Ho).
  reflexivity.
Qed.

(** An estimate that raises makes the estimated growth raise. *)
Lemma estimated_growth_raises (s s1 : State) (x : exn) :
  _estimated_growth (self s) = None ->
  estimated_eps_growth s = (Raise x, s1) ->
  estimated_growth s = (Raise x, s1).
Proof.
  intros Hslot He. unfold estimated_growth.
  unfold bind at 1. unfold gets. rewrite Hslot.
  rewrite (bind_raise _ He). reflexivity.
Qed.

(** C4 (as amended): when the four weighted growth estimates (EPS,
    revenue, book value, operating cashflow) are computed, the estimated
    growth is their median rounded to 2 decimal places, as numpy computes
    the two in binary64: the median of four numbers is half the sum of
    the two middle ones, and the rounding multiplies by 100, rounds to the
    nearest integer (a tie to the even one) and divides by 100; if one of
    the four is undefined ([NaN]) so is the estimated growth: the median
    is not taken over the others. *)
Theorem estimated_growth_is_rounded_median (s s1 s2 s3 s4 : State)
  (e r b o : float) :
  _estimated_growth (self s) = None ->
  estimated_eps_growth s = (Ok e, s1) ->
  estimated_revenue_growth s1 = (Ok r, s2) ->
  estimated_bookvalue_growth s2 = (Ok b, s3) ->
  estimated_operational_cashflow_growth s3 = (Ok o, s4) ->
  fst (estimated_growth s) = Ok (round2 (np_median [e; r; b; o])) /\
  (existsb isna [e; r; b; o] = true ->
   fst (estimated_growth s) = Ok NaN) /\
  (forall x1 x2 x3 x4,
     e = Fin x1 -> r = Fin x2 -> b = Fin x3 -> o = Fin x4 ->
     exists p q r' t,
       Permutation [p; q; r'; t] [x1; x2; x3; x4] /\
       p <= q /\ q <= r' /\ r' <= t /\
       fst (estimated_growth s)
       = Ok (fdiv64
               (np_rint
                  (fmul64 (fdiv64 (fadd64 (Fin q) (Fin r')) (Fin 2))
                     (Fin 100)))
               (Fin 100))).
Proof.
  intros Hslot He Hr Hb Ho.
  rewrite (estimated_growth_runs _ _ _ _ _ _ _ _ _ Hslot He Hr Hb Ho).
  cbn [fst]. split; [reflexivity |]. split.
  - intros Hna. rewrite (np_median_missing _ Hna). reflexivity.
  - intros x1 x2 x3 x4 -> -> -> ->.
    destruct (np_median_four x1 x2 x3 x4)
      as [p [q [r' [t [Hp [H1 [H2 [H3 Hm]]]]]]]].
    exists p, q, r', t. rewrite Hm. repeat (split; [assumption |]).
    reflexivity.
Qed.

(** The binary64 number next to 0.1 (0.1000000000000000055...). *)
Lemma b64_tenth : b64 (1 / 10) = Fin (7205759403792794 * bpow (-56)).
Proof.
  rewrite (b64_eval_pos (1 / 10) (-4) 7205759403792794).
  - reflexivity.
  - lia.
  - bpow_lit. lra.
  - bpow_lit. lra.
Qed.

Lemma tenth_in_range : Rabs (1 / 10) <= bpow 1023.
Proof.
  rewrite Rabs_pos_eq by lra.
  apply Rle_trans with 1; [lra | apply bpow_ge_1; lia].
Qed.

(** The median of four estimates of 0.1 is 0.1, and its rounding to two
    decimal places too. *)
Lemma np_median_four_tenths :
  np_median [b64 (1 / 10); b64 (1 / 10); b64 (1 / 10); b64 (1 / 10)]
  = b64 (1 / 10).
Proof.
  pose proof (binary64_b64 _ _ b64_tenth) as Hb.
  rewrite b64_tenth. set (t := 7205759403792794 * bpow (-56)) in *.
  destruct (np_median_four t t t t) as [p [q [r [u [Hp [_ [_ [_ Hm]]]]]]]].
  rewrite Hm.
  assert (Hin : forall z, In z [p; q; r; u] -> z = t).
  { intros z Hz. apply (Permutation_in _ Hp) in Hz.
    simpl in Hz. intuition congruence. }
  rewrite (Hin q), (Hin r) by (simpl; auto).
  rewrite (fadd64_Fin t t Hb Hb).
  replace (t + t) with (IZR 7205759403792794 * bpow (-55))
    by (unfold t; bpow_lit; lra).
  assert (H2 : b64 (IZR 7205759403792794 * bpow (-55))
               = Fin (IZR 7205759403792794 * bpow (-55)))
    by (apply b64_grid; lia).
  rewrite H2.
  rewrite fdiv64_Fin
    by (first [exact (binary64_b64 _ _ H2) | apply (binary64_int 2); lia
              | lra]).
  replace (IZR 7205759403792794 * bpow (-55) / 2) with t
    by (unfold t; bpow_lit; lra).
  exact Hb.
Qed.

Lemma round2_tenth : round2 (b64 (1 / 10)) = b64 (1 / 10).
Proof.
  pose proof (binary64_b64 _ _ b64_tenth) as Hb.
  assert (H100 : binary64 100) by (apply (binary64_int 100); lia).
  assert (H10 : binary64 10) by (apply (binary64_int 10); lia).
  unfold round2. rewrite b64_tenth at 1.
  rewrite (fmul64_Fin _ 100 Hb H100).
  rewrite (b64_eval_pos _ 3 5629499534213120)
    by (first [lia | bpow_lit; lra]).
  replace (5629499534213120 * bpow (3 - 52)) with 10 by (bpow_lit; lra).
  cbn [np_rint]. rewrite (rint_IZR 10).
  rewrite (fdiv64_Fin 10 100 H10 H100) by lra.
  f_equal. lra.
Qed.

(** The rounding is of the binary64 number: the one next to 0.575 is
    below it, its product by 100 is rounded to 57.49999999999999, and
    0.575 is rounded to 0.57. *)
Lemma round2_575_thousandths : round2 (Fin (575 / 1000)) = b64 (57 / 100).
Proof.
  assert (H100 : binary64 100) by (apply (binary64_int 100); lia).
  assert (H57 : binary64 57) by (apply (binary64_int 57); lia).
  unfold round2, fmul64. cbn [f64].
  rewrite (b64_eval_pos (575 / 1000) (-1) 5179139571476070)
    by (first [lia | bpow_lit; lra]).
  rewrite H100. cbn [fmul f64].
  rewrite (b64_eval_pos _ 5 8092405580431359)
    by (first [lia | bpow_lit; lra]).
  cbn [np_rint].
  rewrite (rint_unique _ 57)
    by (apply Rabs_def1; bpow_lit; lra).
  rewrite (fdiv64_Fin 57 100 H57 H100) by lra. reflexivity.
Qed.

(** A tie that only the binary64 product makes: the number next to 0.155
    is below it, its product by 100 is rounded to 15.5, the tie goes to
    the even integer, and 0.155 is rounded to 0.16. *)
Lemma round2_155_thousandths : round2 (Fin (155 / 1000)) = b64 (16 / 100).
Proof.
  assert (H100 : binary64 100) by (apply (binary64_int 100); lia).
  assert (H16 : binary64 16) by (apply (binary64_int 16); lia).
  unfold round2, fmul64. cbn [f64].
  rewrite (b64_eval_pos (155 / 1000) (-3) 5584463537939415)
    by (first [lia | bpow_lit; lra]).
  rewrite H100. cbn [fmul f64].
  rewrite (b64_eval_pos _ 3 8725724278030336)
    by (first [lia | bpow_lit; lra]).
  replace (8725724278030336 * bpow (3 - 52)) with (31 / 2)
    by (bpow_lit; lra).
  cbn [np_rint].
  assert (E : rint (31 / 2) = 16%Z).
  { unfold rint.
    assert (Ei : Int_part (31 / 2) = 15%Z)
      by (symmetry; apply Int_part_spec; lra).
    rewrite Ei.
    destruct (Rlt_dec (31 / 2 - 15) (1 / 2)) as [H | H]; [lra |].
    destruct (Rlt_dec (1 / 2) (31 / 2 - 15)) as [H' | H']; [lra |].
    reflexivity. }
  rewrite E, (fdiv64_Fin 16 100 H16 H100) by lra. reflexivity.
Qed.

(** The theorem on four estimates of 10%: the estimated growth is the
    binary64 number 0.1. *)
Lemma estimated_growth_is_rounded_median_witness :
  fst (estimated_growth steady_growth_state) = Ok (b64 (1 / 10)).
Proof.
  assert (He : forall key,
             getitem steady_growth_table key
             = Ok [(date 2019 12 1, NaN); (date 2020 12 1, Fin (1 / 10))] ->
             _get_average_growth_rate key steady_growth_state
             = (Ok (b64 (1 / 10)), steady_growth_state)).
  { intros key Hkey.
    apply (one_observation_estimate key steady_growth_state
             steady_growth_table _ _ _ eq_refl eq_refl Hkey tenth_in_range). }
  destruct (estimated_growth_is_rounded_median
              steady_growth_state steady_growth_state steady_growth_state
              steady_growth_state steady_growth_state
              (b64 (1 / 10)) (b64 (1 / 10)) (b64 (1 / 10)) (b64 (1 / 10))
              eq_refl (He "earnings-ps-growth" eq_refl)
              (He "revenue-ps-growth" eq_refl)
              (He "book-value-ps-growth" eq_refl)
              (He "operating-cashflow-ps-growth" eq_refl)) as [H _].
  rewrite H, np_median_four_tenths, round2_tenth. reflexivity.
Defined.

(** C4 fails as stated: three of the four estimates of this table are
    defined (10% each) and the earnings growth has no observation; the
    estimated growth is not the median of the three, it raises.  With an
    estimate that is [NaN] the median is [NaN]. *)
Lemma estimated_growth_with_an_undefined_estimate :
  _get_average_growth_rate "revenue-ps-growth" unobserved_growth_state
  = (Ok (b64 (1 / 10)), unobserved_growth_state) /\
  _get_average_growth_rate "book-value-ps-growth" unobserved_growth_state
  = (Ok (b64 (1 / 10)), unobserved_growth_state) /\
  _get_average_growth_rate "operating-cashflow-ps-growth"
    unobserved_growth_state
  = (Ok (b64 (1 / 10)), unobserved_growth_state) /\
  estimated_growth unobserved_growth_state
  = (Raise ZeroDivisionError, unobserved_growth_state) /\
  round2 (np_median [NaN; b64 (1 / 10); b64 (1 / 10); b64 (1 / 10)]) = NaN.
Proof.
  assert (He : forall key,
             getitem unobserved_growth_table key
             = Ok [(date 2019 12 1, NaN); (date 2020 12 1, Fin (1 / 10))] ->
             _get_average_growth_rate key unobserved_growth_state
             = (Ok (b64 (1 / 10)), unobserved_growth_state)).
  { intros key Hkey.
    apply (one_observation_estimate key unobserved_growth_state
             unobserved_growth_table _ _ _ eq_refl eq_refl Hkey
             tenth_in_range). }
  split; [apply He; reflexivity |].
  split; [apply He; reflexivity |].
  split; [apply He; reflexivity |].
  split; [| reflexivity].
  apply estimated_growth_raises; [reflexivity |].
  apply (average_growth_rate_of_nothing "earnings-ps-growth"
           unobserved_growth_state unobserved_growth_state
           unobserved_growth_table
           [(date 2019 12 1, NaN); (date 2020 12 1, NaN)]
           unobserved_growth_ratios).
  - reflexivity.
  - repeat constructor.
Qed.

(* ================================================================= *)
(** ** The target P/E *)

Lemma flt_irrefl (a : float) : flt a a = false.
Proof.
  destruct a; try reflexivity. simpl.
  destruct (Rlt_dec r r); [exfalso; lra | reflexivity].
Qed.

Lemma flt_asym (a b : float) : flt a b = true -> flt b a = false.
Proof.
  destruct a, b; simpl; try congruence.
  destruct (Rlt_dec r r0), (Rlt_dec r0 r); try congruence. exfalso. lra.
Qed.

Lemma flt_true_notna (a b : float) : flt a b = true -> isna b = false.
Proof. destruct a, b; simpl; congruence. Qed.

Lemma fold_max_spec (l : list float) :
  forall x,
    isna x = false ->
    let m := fold_left (fun m v => if flt m v then v else m) l x in
    In m (x :: l) /\ isna m = false /\
    forall v, In v (x :: l) -> flt m v = false.
Proof.
  induction l as [| y l IH]; intros x Hx.
  - cbn. split; [left; reflexivity |]. split; [exact Hx |].
    intros v [<- | []]. apply flt_irrefl.
  - cbn [fold_left]. destruct (flt x y) eqn:E.
    + pose proof (flt_true_notna x y E) as Hy.
      destruct (IH y Hy) as [Hin [Hna Hmax]].
      split; [right; exact Hin |]. split; [exact Hna |].
      intros v [<- | Hv]; [| apply Hmax; exact Hv].
      set (m := fold_left (fun m v => if flt m v then v else m) l y) in *.
      assert (Hym : flt m y = false) by (apply Hmax; left; reflexivity).
      destruct m, x, y; simpl in *; try congruence.
      destruct (Rlt_dec r r0), (Rlt_dec r0 r1), (Rlt_dec r r1);
        try congruence; exfalso; lra.
    + destruct (IH x Hx) as [Hin [Hna Hmax]].
      split; [destruct Hin as [<- | Hin];
              [left; reflexivity | right; right; exact Hin] |].
      split; [exact Hna |].
      set (m := fold_left (fun m v => if flt m v then v else m) l x) in *.
      intros v [<- | [<- | Hv]].
      * apply Hmax. left. reflexivity.
      * assert (Hxm : flt m x = false) by (apply Hmax; left; reflexivity).
        destruct m, x, y; simpl in *; try congruence.
        destruct (Rlt_dec r r0), (Rlt_dec r0 r1), (Rlt_dec r r1);
          try congruence; exfalso; lra.
      * apply Hmax. right. exact Hv.
Qed.

(** Python's [max] of values the first of which is not missing is one of
    them, not a missing one, and none of them is above it. *)
Lemma py_max_spec (x : float) (l : list float) :
  isna x = false ->
  exists m, py_max (x :: l) = Ok m /\ In m (x :: l) /\ isna m = false /\
            forall v, In v (x :: l) -> flt m v = false.
Proof.
  intros Hx. eexists. split; [reflexivity |]. exact (fold_max_spec l x Hx).
Qed.

(** Python's [min] of two values is one of them, and neither is below
    it. *)
Lemma py_min_spec (a m : float) :
  (py_min a m = a \/ py_min a m = m) /\
  flt m (py_min a m) = false /\ flt a (py_min a m) = false.
Proof.
  unfold py_min. destruct (flt m a) eqn:E.
  - split; [right; reflexivity |].
    split; [apply flt_irrefl | apply flt_asym; exact E].
  - split; [left; reflexivity |]. split; [exact E | apply flt_irrefl].
Qed.

Lemma target_pe_without_pe (s s1 : State) (df : table) :
  _target_pe (self s) = None ->
  ratios s = (Ok df, s1) ->
  contains df "pe" = false ->
  target_pe s = (Ok (Fin (-1)), s1).
Proof.
  intros Hslot Hr Hpe. unfold target_pe.
  unfold bind at 1. unfold gets. rewrite Hslot.
  rewrite (bind_ok _ Hr), Hpe. reflexivity.
Qed.

Lemma target_pe_with_pe (s s1 s2 s3 : State) (df df2 : table)
  (g m : float) (col : series) :
  _target_pe (self s) = None ->
  ratios s = (Ok df, s1) ->
  contains df "pe" = true ->
  estimated_growth s1 = (Ok g, s2) ->
  ratios s2 = (Ok df2, s3) ->
  getitem df2 "pe" = Ok col ->
  py_max (map snd col) = Ok m ->
  target_pe s
  = (Ok (py_min (fmul64 (fmul64 (Fin 2) g) (Fin 100)) m),
     on_self (set_target_pe
                (Some (py_min (fmul64 (fmul64 (Fin 2) g) (Fin 100)) m))) s3).
Proof.
  intros Hslot Hr Hpe Hg Hr2 Hcol Hmax. unfold target_pe.
  unfold bind at 1. unfold gets. rewrite Hslot.
  rewrite (bind_ok _ Hr), Hpe. cbn [negb].
  rewrite (bind_ok _ Hg), (bind_ok _ Hr2).
  unfold lift at 1. unfold bind at 1. rewrite Hcol.
  unfold lift at 1. unfold bind at 1. rewrite Hmax.
  reflexivity.
Qed.

(** A growth that is a number has a multiple that is one. *)
Lemma growth_multiple_notna (g : float) :
  isna g = false -> isna (fmul64 (fmul64 (Fin 2) g) (Fin 100)) = false.
Proof.
  assert (F : forall x, isna x = false -> isna (f64 x) = false).
  { intros [| | | r]; try reflexivity; try discriminate. intros _.
    cbn [f64]. unfold b64.
    destruct (Rle_dec (bpow 1024) (b64r r)); [reflexivity |].
    destruct (Rle_dec (b64r r) (- bpow 1024)); reflexivity. }
  assert (P : forall c x, 0 < c -> isna x = false ->
                          isna (fmul (Fin c) x) = false).
  { intros c [| | | r] Hc; try discriminate; intros _; simpl;
      rewrite ?(Rsign_pos c Hc); reflexivity. }
  assert (Q : forall c x, 0 < c -> isna x = false ->
                          isna (fmul x (Fin c)) = false).
  { intros c [| | | r] Hc; try discriminate; intros _; simpl;
      rewrite ?(Rsign_pos c Hc); reflexivity. }
  intros Hg. unfold fmul64. rewrite f64_idem. apply F.
  cbn [f64]. rewrite (binary64_int 2), (binary64_int 100) by lia.
  apply Q; [lra |]. apply F. apply P; [lra |]. apply F. exact Hg.
Qed.

(** C5 (as amended): with a pe column whose first value is not
    missing, the target P/E is min(2 x estimatedGrowth x 100, maximum
    historical pe), the product being computed in binary64 and the
    maximum being one of the values of the column, a number, which none
    of them exceeds; so for an estimated growth that is a number the
    target P/E is one of the two and exceeds neither, the maximum
    historical pe least of all.  Without a pe column it is the sentinel
    -1.  (The converse is left out: the minimum can be -1 itself.  A pe
    column that begins with a missing value is left out too: Python's
    [max] keeps the missing value it starts from, and [min] of a number
    and a missing value is the number.) *)
Theorem target_pe_is_capped_growth_multiple (s s1 : State) (df : table) :
  _target_pe (self s) = None ->
  ratios s = (Ok df, s1) ->
  (contains df "pe" = false -> target_pe s = (Ok (Fin (-1)), s1)) /\
  (contains df "pe" = true ->
   forall (s2 s3 : State) (g : float) (l0 : label) (v0 : float)
     (col : series),
     estimated_growth s1 = (Ok g, s2) ->
     ratios s2 = (Ok df, s3) ->
     getitem df "pe" = Ok ((l0, v0) :: col) ->
     isna v0 = false ->
     exists m,
       In m (v0 :: map snd col) /\ isna m = false /\
       (forall v, In v (v0 :: map snd col) -> flt m v = false) /\
       fst (target_pe s)
       = Ok (py_min (fmul64 (fmul64 (Fin 2) g) (Fin 100)) m) /\
       (isna g = false ->
        exists t,
          fst (target_pe s) = Ok t /\ isna t = false /\
          (t = fmul64 (fmul64 (Fin 2) g) (Fin 100) \/ t = m) /\
          flt m t = false /\
          flt (fmul64 (fmul64 (Fin 2) g) (Fin 100)) t = false)).
Proof.
  intros Hslot Hr. split.
  - apply target_pe_without_pe; assumption.
  - intros Hpe s2 s3 g l0 v0 col Hg Hr2 Hcol Hna.
    destruct (py_max_spec v0 (map snd col) Hna)
      as [m [Hmax [Hin [Hm Hle]]]].
    exists m. split; [exact Hin |]. split; [exact Hm |].
    split; [exact Hle |].
    rewrite (target_pe_with_pe _ _ _ _ _ _ _ _ _
               Hslot Hr Hpe Hg Hr2 Hcol Hmax).
    cbn [fst]. split; [reflexivity |].
    intros Hgn. eexists. split; [reflexivity |].
    pose proof (growth_multiple_notna g Hgn) as Hx.
    destruct (py_min_spec (fmul64 (fmul64 (Fin 2) g) (Fin 100)) m)
      as [Hor [H1 H2]].
    split; [destruct Hor as [-> | ->]; assumption |].
    split; [exact Hor |]. split; assumption.
Qed.

Lemma steady_estimated_growth (s : State) (df : table) (l1 l2 : label) :
  _ratios (self s) = Some df ->
  _estimated_growth (self s) = None ->
  revenue_growth_log_shift (self s) = Fin 2 ->
  (forall key,
     In key ["earnings-ps-growth"; "revenue-ps-growth";
             "book-value-ps-growth"; "operating-cashflow-ps-growth"] ->
     getitem df key = Ok [(l1, NaN); (l2, Fin (1 / 10))]) ->
  estimated_growth s
  = (Ok (b64 (1 / 10)),
     on_self (set_estimated_growth (Some (b64 (1 / 10)))) s).
Proof.
  intros Hslot Hnone Hshift Hcols.
  assert (He : forall key,
             In key ["earnings-ps-growth"; "revenue-ps-growth";
                     "book-value-ps-growth";
                     "operating-cashflow-ps-growth"] ->
             _get_average_growth_rate key s = (Ok (b64 (1 / 10)), s)).
  { intros key Hkey.
    apply (one_observation_estimate key s df l1 l2 _ Hslot Hshift);
      [| exact tenth_in_range].
    apply Hcols. exact Hkey. }
  rewrite (estimated_growth_runs s s s s s (b64 (1 / 10)) (b64 (1 / 10))
             (b64 (1 / 10)) (b64 (1 / 10)) Hnone).
  - rewrite np_median_four_tenths, round2_tenth. reflexivity.
  - apply He. simpl. auto.
  - apply He. simpl. auto.
  - apply He. simpl. auto.
  - apply He. simpl. auto 6.
Qed.

Lemma steady_growth_columns (pes : list float) (key : string) :
  In key ["earnings-ps-growth"; "revenue-ps-growth";
          "book-value-ps-growth"; "operating-cashflow-ps-growth"] ->
  getitem
    (mkTable [date 2019 12 1; date 2020 12 1]
       [("earnings-ps-growth", [NaN; Fin (1 / 10)]);
        ("revenue-ps-growth", [NaN; Fin (1 / 10)]);
        ("book-value-ps-growth", [NaN; Fin (1 / 10)]);
        ("operating-cashflow-ps-growth", [NaN; Fin (1 / 10)]);
        ("pe", pes)]) key
  = Ok [(date 2019 12 1, NaN); (date 2020 12 1, Fin (1 / 10))].
Proof.
  intros [<- | [<- | [<- | [<- | []]]]]; reflexivity.
Qed.

(** Twice a growth of 0.1, in percent: 20.0. *)
Lemma growth_multiple_of_tenth :
  fmul64 (fmul64 (Fin 2) (b64 (1 / 10))) (Fin 100) = Fin 20.
Proof.
  pose proof (binary64_b64 _ _ b64_tenth) as Hb.
  assert (H100 : binary64 100) by (apply (binary64_int 100); lia).
  assert (H2 : binary64 2) by (apply (binary64_int 2); lia).
  rewrite b64_tenth. rewrite (fmul64_Fin 2 _ H2 Hb).
  replace (2 * (7205759403792794 * bpow (-56)))
    with (IZR 7205759403792794 * bpow (-55)) by (bpow_lit; lra).
  assert (E : b64 (IZR 7205759403792794 * bpow (-55))
              = Fin (IZR 7205759403792794 * bpow (-55)))
    by (apply b64_grid; lia).
  rewrite E, (fmul64_Fin _ 100 (binary64_b64 _ _ E) H100).
  rewrite (b64_eval_pos _ 4 5629499534213120)
    by (first [lia | bpow_lit; lra]).
  f_equal. bpow_lit. lra.
Qed.

(** The theorem on a growth of 10% and a pe column of maximum 30: the
    target P/E is min(20, 30) = 20. *)
Lemma target_pe_is_capped_growth_multiple_witness :
  fst (target_pe steady_growth_state) = Ok (Fin 20).
Proof.
  destruct (target_pe_is_capped_growth_multiple
              steady_growth_state steady_growth_state steady_growth_table
              eq_refl
              (ratios_assigned steady_growth_state steady_growth_table
                 eq_refl))
    as [_ H].
  destruct (H eq_refl
              (on_self (set_estimated_growth (Some (b64 (1 / 10))))
                 steady_growth_state)
              (on_self (set_estimated_growth (Some (b64 (1 / 10))))
                 steady_growth_state)
              (b64 (1 / 10)) (date 2019 12 1) (Fin 15)
              [(date 2020 12 1, Fin 30)])
    as [m [Hin [_ [Hmax [Heq _]]]]].
  - apply (steady_estimated_growth steady_growth_state steady_growth_table
             (date 2019 12 1) (date 2020 12 1) eq_refl eq_refl eq_refl).
    apply steady_growth_columns.
  - apply ratios_assigned. reflexivity.
  - reflexivity.
  - reflexivity.
  - rewrite Heq, growth_multiple_of_tenth. f_equal.
    assert (Hm : m = Fin 30).
    { cbn [map snd In] in Hin, Hmax.
      destruct Hin as [<- | [<- | []]]; [| reflexivity].
      specialize (Hmax (Fin 30) (or_intror (or_introl eq_refl))).
      rewrite flt_Fin_true in Hmax by lra. discriminate. }
    rewrite Hm. unfold py_min. rewrite flt_Fin_false by lra. reflexivity.
Defined.

(** C5 fails as stated.  The first table has a pe column, of maximum -1,
    and the estimated growth is 10%; the target P/E is min(20, -1) = -1,
    the value that is to tell that there is no pe column.  In the pe
    column of the second table the first value is missing and the second
    is 15; Python's [max] keeps the missing value it starts from, [min]
    of 20 and a missing value is 20, and the target P/E, 20, exceeds the
    one historical pe there is. *)
Lemma target_pe_is_minus_one_with_a_pe_column :
  contains loss_making_table "pe" = true /\
  fst (ratios loss_making_state) = Ok loss_making_table /\
  fst (target_pe loss_making_state) = Ok (Fin (-1)) /\
  getitem missing_pe_table "pe"
  = Ok [(date 2019 12 1, NaN); (date 2020 12 1, Fin 15)] /\
  fst (ratios missing_pe_state) = Ok missing_pe_table /\
  fst (estimated_growth missing_pe_state) = Ok (b64 (1 / 10)) /\
  py_max [NaN; Fin 15] = Ok NaN /\
  py_min (Fin 20) NaN = Fin 20 /\
  fst (target_pe missing_pe_state) = Ok (Fin 20) /\
  flt (Fin 15) (Fin 20) = true.
Proof.
  split; [reflexivity |]. split; [reflexivity |]. split.
  { rewrite (target_pe_with_pe loss_making_state loss_making_state
               (on_self (set_estimated_growth (Some (b64 (1 / 10))))
                  loss_making_state)
               (on_self (set_estimated_growth (Some (b64 (1 / 10))))
                  loss_making_state)
               loss_making_table loss_making_table (b64 (1 / 10)) (Fin (-1))
               [(date 2019 12 1, Fin (-2)); (date 2020 12 1, Fin (-1))]).
    - cbn [fst]. rewrite growth_multiple_of_tenth.
      unfold py_min. rewrite flt_Fin_true by lra. reflexivity.
    - reflexivity.
    - apply ratios_assigned. reflexivity.
    - reflexivity.
    - apply (steady_estimated_growth loss_making_state loss_making_table
               (date 2019 12 1) (date 2020 12 1) eq_refl eq_refl eq_refl).
      apply steady_growth_columns.
    - apply ratios_assigned. reflexivity.
    - reflexivity.
    - cbn [map snd py_max fold_left].
      rewrite flt_Fin_true by lra. reflexivity. }
  split; [reflexivity |]. split; [reflexivity |].
  assert (Hg : estimated_growth missing_pe_state
               = (Ok (b64 (1 / 10)),
                  on_self (set_estimated_growth (Some (b64 (1 / 10))))
                    missing_pe_state)).
  { apply (steady_estimated_growth missing_pe_state missing_pe_table
             (date 2019 12 1) (date 2020 12 1) eq_refl eq_refl eq_refl).
    apply steady_growth_columns. }
  split; [rewrite Hg; reflexivity |].
  split; [reflexivity |]. split; [reflexivity |]. split.
  - rewrite (target_pe_with_pe missing_pe_state missing_pe_state
               (on_self (set_estimated_growth (Some (b64 (1 / 10))))
                  missing_pe_state)
               (on_self (set_estimated_growth (Some (b64 (1 / 10))))
                  missing_pe_state)
               missing_pe_table missing_pe_table (b64 (1 / 10)) NaN
               [(date 2019 12 1, NaN); (date 2020 12 1, Fin 15)]).
    + cbn [fst]. rewrite growth_multiple_of_tenth. reflexivity.
    + reflexivity.
    + apply ratios_assigned. reflexivity.
    + reflexivity.
    + exact Hg.
    + apply ratios_assigned. reflexivity.
    + reflexivity.
    + reflexivity.
  - apply flt_Fin_true. lra.
Qed.

(* ================================================================= *)
(** ** The nearest price date *)

Local Open Scope Z_scope.

Lemma searchsorted_le_length (right : bool) (key : label)
  (idx : list label) :
  (searchsorted right idx key <= List.length idx)%nat.
Proof.
  induction idx as [| l idx IH]; simpl; [lia |].
  destruct (if right then l <=? key else l <? key); simpl; lia.
Qed.

Lemma searchsorted_prefix (right : bool) (key : label) (idx : list label) :
  forall j, (j < searchsorted right idx key)%nat ->
            counted right key (nth j idx 0) = true.
Proof.
  induction idx as [| l idx IH]; intros j Hj; simpl in Hj; [lia |].
  destruct (if right then l <=? key else l <? key) eqn:E; [| lia].
  destruct j as [| j]; simpl.
  - exact E.
  - apply IH. lia.
Qed.

Lemma strictly_increasing_tail (l : label) (idx : list label) :
  strictly_increasing (l :: idx) = true -> strictly_increasing idx = true.
Proof.
  simpl. destruct idx as [| l' idx]; [reflexivity |].
  intros H. apply andb_prop in H. apply H.
Qed.

Lemma strictly_increasing_head (l : label) (idx : list label) :
  strictly_increasing (l :: idx) = true ->
  forall j, (j < List.length idx)%nat -> l < nth j idx 0.
Proof.
  revert l. induction idx as [| l' idx IH]; intros l H j Hj; simpl in Hj;
    [lia |].
  simpl in H. apply andb_prop in H. destruct H as [Hl Hs].
  apply Z.ltb_lt in Hl. destruct j as [| j]; simpl; [exact Hl |].
  assert (l' < nth j idx 0) by (apply IH; [exact Hs | lia]). lia.
Qed.

Lemma strictly_increasing_nth (idx : list label) :
  strictly_increasing idx = true ->
  forall a b, (a < b)%nat -> (b < List.length idx)%nat ->
              nth a idx 0 < nth b idx 0.
Proof.
  induction idx as [| l idx IH]; intros H a b Hab Hb; simpl in Hb; [lia |].
  destruct b as [| b]; [lia |]. destruct a as [| a]; simpl.
  - apply (strictly_increasing_head _ _ H). lia.
  - apply IH; [exact (strictly_increasing_tail _ _ H) | lia | lia].
Qed.

Lemma searchsorted_suffix (right : bool) (key : label) (idx : list label) :
  strictly_increasing idx = true ->
  forall j, (searchsorted right idx key <= j)%nat ->
            (j < List.length idx)%nat ->
            counted right key (nth j idx 0) = false.
Proof.
  induction idx as [| l idx IH]; intros H j Hj Hlen; simpl in Hlen; [lia |].
  simpl in Hj.
  destruct (if right then l <=? key else l <? key) eqn:E.
  - destruct j as [| j]; [lia |]. simpl.
    apply IH; [exact (strictly_increasing_tail _ _ H) | lia | lia].
  - destruct j as [| j]; simpl; [exact E |].
    assert (Hlt : l < nth j idx 0).
    { apply (strictly_increasing_head _ _ H). lia. }
    unfold counted. destruct right.
    + apply Z.leb_gt. apply Z.leb_gt in E. lia.
    + apply Z.ltb_ge. apply Z.ltb_ge in E. lia.
Qed.

Lemma np_take_nonneg (idx : list label) (j : nat) :
  (j < List.length idx)%nat ->
  np_take idx (Z.of_nat j) = Ok (nth j idx 0).
Proof.
  intros Hj. unfold np_take.
  destruct (Z.of_nat j <? 0) eqn:E; [apply Z.ltb_lt in E; lia |].
  replace ((0 <=? Z.of_nat j) && (Z.of_nat j <? Z.of_nat (List.length idx)))%bool
    with true.
  - rewrite Nat2Z.id.
    rewrite (nth_error_nth' idx 0 Hj). reflexivity.
  - symmetry. apply andb_true_intro. split.
    + apply Z.leb_le. lia.
    + apply Z.ltb_lt. lia.
Qed.

Lemma np_take_last (idx : list label) :
  idx <> [] ->
  np_take idx (-1) = Ok (nth (List.length idx - 1) idx 0).
Proof.
  intros Hne.
  assert (Hlen : (0 < List.length idx)%nat).
  { destruct idx; [congruence | simpl; lia]. }
  unfold np_take. change (-1 <? 0) with true. cbv beta iota.
  replace (Z.of_nat (List.length idx) + -1)
    with (Z.of_nat (List.length idx - 1)) by lia.
  replace ((0 <=? Z.of_nat (List.length idx - 1))
           && (Z.of_nat (List.length idx - 1)
               <? Z.of_nat (List.length idx)))%bool
    with true.
  - rewrite Nat2Z.id.
    rewrite (nth_error_nth' idx 0); [reflexivity | lia].
  - symmetry. apply andb_true_intro. split.
    + apply Z.leb_le. lia.
    + apply Z.ltb_lt. lia.
Qed.

Lemma increasing_nth_le (idx : list label) :
  strictly_increasing idx = true ->
  forall a b, (a <= b)%nat -> (b < List.length idx)%nat ->
              nth a idx 0 <= nth b idx 0.
Proof.
  intros H a b Hab Hb. destruct (Nat.eq_dec a b) as [-> | Hne]; [lia |].
  assert (nth a idx 0 < nth b idx 0).
  { apply strictly_increasing_nth; [exact H | lia | exact Hb]. }
  lia.
Qed.

(** On a non-empty index of increasing labels, [get_loc] with
    [method='nearest'] returns a position whose label is as near to the
    key as any label of the index. *)
Lemma get_loc_nearest_correct (idx : list label) (key : label) :
  strictly_increasing idx = true ->
  idx <> [] ->
  exists pos,
    get_loc_nearest idx key = Ok pos /\
    (pos < List.length idx)%nat /\
    forall j, (j < List.length idx)%nat ->
              Z.abs (nth pos idx 0 - key) <= Z.abs (nth j idx 0 - key).
Proof.
  intros Hs Hne.
  assert (Hlen : (0 < List.length idx)%nat).
  { destruct idx; [congruence | simpl; lia]. }
  pose proof (searchsorted_le_length true key idx) as Hnr.
  pose proof (searchsorted_le_length false key idx) as Hnl.
  pose proof (searchsorted_prefix true key idx) as F1.
  pose proof (searchsorted_suffix true key idx Hs) as F2.
  pose proof (searchsorted_prefix false key idx) as F3.
  pose proof (searchsorted_suffix false key idx Hs) as F4.
  pose proof (increasing_nth_le idx Hs) as Hmono.
  unfold get_loc_nearest. rewrite Hs. cbn [negb].
  replace (Nat.eqb (List.length idx) 0) with false
    by (symmetry; apply Nat.eqb_neq; lia).
  set (nr := searchsorted true idx key) in *.
  set (nl := searchsorted false idx key) in *.
  unfold counted in F1, F2, F3, F4.
  assert (Hlr : (nl <= nr)%nat).
  { destruct (Nat.le_gt_cases nl nr) as [H | H]; [exact H |].
    assert (H3 : (nth nr idx 0 <? key) = true) by (apply F3; lia).
    assert (H2 : (nth nr idx 0 <=? key) = false) by (apply F2; lia).
    apply Z.ltb_lt in H3. apply Z.leb_gt in H2. lia. }
  destruct (Nat.eqb nl (List.length idx)) eqn:Enl.
  - (* every label is before the key: the last one is taken *)
    apply Nat.eqb_eq in Enl.
    assert (Enr : nr = List.length idx) by lia.
    replace (Z.of_nat nr - 1) with (Z.of_nat (List.length idx - 1)) by lia.
    rewrite np_take_nonneg by lia. rewrite (np_take_last idx Hne).
    cbn [rbind]. rewrite Z.eqb_refl, orb_true_r.
    destruct (Z.of_nat (List.length idx - 1) =? -1) eqn:E;
      [apply Z.eqb_eq in E; lia |].
    rewrite Nat2Z.id. exists (List.length idx - 1)%nat.
    split; [reflexivity |]. split; [lia |].
    intros j Hj.
    assert (H3 : (nth j idx 0 <? key) = true) by (apply F3; lia).
    assert (H3' : (nth (List.length idx - 1) idx 0 <? key) = true)
      by (apply F3; lia).
    apply Z.ltb_lt in H3, H3'.
    assert (nth j idx 0 <= nth (List.length idx - 1) idx 0)
      by (apply Hmono; lia).
    lia.
  - apply Nat.eqb_neq in Enl.
    destruct (Nat.eq_dec nr 0) as [Enr | Enr].
    + (* every label is after the key: the first one is taken *)
      assert (Enl0 : nl = 0%nat) by lia.
      rewrite Enr, Enl0. change (Z.of_nat 0 - 1) with (-1).
      rewrite (np_take_last idx Hne).
      rewrite (np_take_nonneg idx 0 Hlen). cbn [rbind].
      assert (H0 : (nth 0 idx 0 <=? key) = false) by (apply F2; lia).
      assert (Hl : (nth (List.length idx - 1) idx 0 <=? key) = false)
        by (apply F2; lia).
      apply Z.leb_gt in H0, Hl.
      assert (nth 0 idx 0 <= nth (List.length idx - 1) idx 0)
        by (apply Hmono; lia).
      replace (Z.abs (nth (List.length idx - 1) idx 0 - key)
               <? Z.abs (nth 0 idx 0 - key)) with false
        by (symmetry; apply Z.ltb_ge; lia).
      change (Z.of_nat 0 =? -1) with false. cbn [orb].
      exists 0%nat. split; [reflexivity |]. split; [exact Hlen |].
      intros j Hj.
      assert (Hj' : (nth j idx 0 <=? key) = false) by (apply F2; lia).
      apply Z.leb_gt in Hj'.
      assert (nth 0 idx 0 <= nth j idx 0) by (apply Hmono; lia).
      lia.
    + (* a label on each side: the nearer one, the later one on a tie *)
      replace (Z.of_nat nr - 1) with (Z.of_nat (nr - 1)) by lia.
      rewrite np_take_nonneg by lia. rewrite np_take_nonneg by lia.
      cbn [rbind].
      assert (Hl : (nth (nr - 1) idx 0 <=? key) = true) by (apply F1; lia).
      assert (Hr : (nth nl idx 0 <? key) = false) by (apply F4; lia).
      apply Z.leb_le in Hl. apply Z.ltb_ge in Hr.
      destruct (Z.of_nat nl =? -1) eqn:E1; [apply Z.eqb_eq in E1; lia |].
      rewrite orb_false_r.
      destruct (Z.abs (nth (nr - 1) idx 0 - key)
                <? Z.abs (nth nl idx 0 - key)) eqn:Ecmp.
      * apply Z.ltb_lt in Ecmp.
        destruct (Z.of_nat (nr - 1) =? -1) eqn:E2;
          [apply Z.eqb_eq in E2; lia |].
        rewrite Nat2Z.id. exists (nr - 1)%nat.
        split; [reflexivity |]. split; [lia |].
        intros j Hj. destruct (Nat.le_gt_cases j (nr - 1)) as [Hle | Hgt].
        -- assert (nth j idx 0 <= nth (nr - 1) idx 0)
             by (apply Hmono; lia).
           lia.
        -- assert (nth nl idx 0 <= nth j idx 0) by (apply Hmono; lia).
           lia.
      * apply Z.ltb_ge in Ecmp. rewrite E1.
        rewrite Nat2Z.id. exists nl.
        split; [reflexivity |]. split; [lia |].
        intros j Hj. destruct (Nat.le_gt_cases nl j) as [Hle | Hgt].
        -- assert (nth nl idx 0 <= nth j idx 0) by (apply Hmono; lia).
           lia.
        -- assert (nth j idx 0 <= nth (nr - 1) idx 0)
             by (apply Hmono; lia).
           lia.
Qed.

(* ================================================================= *)
(** ** The price/earnings ratio *)

(** A price history that is at hand is what the property returns, and
    what the object holds from then on; the ratios that the object holds
    stay. *)
Lemma historic_prices_at_hand (s : State) (hp : table) :
  prices_available s hp ->
  exists t,
    historic_prices_assigned s = (Ok hp, t) /\
    _historic_prices (self t) = Some hp /\
    _ratios (self t) = _ratios (self s).
Proof.
  unfold prices_available, historic_prices_assigned, historic_prices_with.
  intros H. unfold bind at 1. unfold gets.
  destruct (_historic_prices (self s)) as [df |] eqn:Hslot.
  - subst df. exists s. repeat split. exact Hslot.
  - destruct (assoc (price_path s) (files (world s))) as [f |] eqn:Hf.
    + assert (Hload : _load_price_csv_to_df_with currency_assigned s
                      = (Ok hp, s)).
      { unfold _load_price_csv_to_df_with, report_path, read_csv. munfold.
        fold (price_path s). rewrite csv_cache_valid_present.
        cbv beta iota. rewrite Hf. cbn [negb]. rewrite Hf, H.
        reflexivity. }
      rewrite (bind_ok _ Hload).
      eexists. split; [reflexivity |]. split; reflexivity.
    + destruct H as [df [c [Hr [Hc Hremote]]]].
      set (file := mkFile (clock (world s)) (Parsed hp)).
      set (t := on_world
                  (fun w => set_files
                              (set_assoc (price_path s) file (files w))
                              (add_request (price_url s c) w)) s).
      assert (Hdown : _download_morningstar_pricedata_with
                        currency_assigned s = (Ok tt, t)).
      { unfold _download_morningstar_pricedata_with, try_except.
        rewrite (bind_ok _ (currency_assigned_eq _ _ Hr)), Hc.
        unfold report_path, urlretrieve. munfold.
        cbn [world on_world add_request remote].
        fold (price_url s c). rewrite Hremote. reflexivity. }
      assert (Hload : _load_price_csv_to_df_with currency_assigned s
                      = (Ok hp, t)).
      { assert (Hpath : report_path "price" s = (Ok (price_path s), s))
          by reflexivity.
        assert (Hread : read_csv (price_path s) t = (Ok (ReadOk hp), t)).
        { unfold read_csv, bind, gets, ret.
          change (files (world t))
            with (set_assoc (price_path s) file (files (world s))).
          rewrite assoc_set_assoc_same. reflexivity. }
        unfold _load_price_csv_to_df_with.
        rewrite (bind_ok _ Hpath).
        rewrite (bind_ok _ (csv_cache_valid_present (price_path s) 40000 s)).
        rewrite Hf. cbn [negb].
        rewrite (@bind_ok _ _ _ _ s t true).
        - cbn [negb]. rewrite (bind_ok _ Hread). reflexivity.
        - unfold try_except. rewrite (bind_ok _ Hdown). reflexivity. }
      rewrite (bind_ok _ Hload).
      eexists. split; [reflexivity |]. split; reflexivity.
Qed.

Lemma historic_prices_held (s : State) (hp : table) :
  _historic_prices (self s) = Some hp ->
  historic_prices_assigned s = (Ok hp, s).
Proof.
  intros H. unfold historic_prices_assigned, historic_prices_with.
  unfold bind, gets. rewrite H. reflexivity.
Qed.

Lemma prices_held_available (s : State) (hp : table) :
  _historic_prices (self s) = Some hp -> prices_available s hp.
Proof. intros H. unfold prices_available. rewrite H. reflexivity. Qed.

Lemma iloc_get_close (hp : table) (closes : list float) (pos : nat) :
  assoc "Close" (columns hp) = Some closes ->
  List.length closes = List.length (index hp) ->
  (pos < List.length (index hp))%nat ->
  exists close, iloc_get hp pos "Close" = Ok close /\
                nth_error closes pos = Some close.
Proof.
  intros Hc Hlen Hpos. unfold iloc_get, getitem.
  apply Nat.ltb_lt in Hpos. rewrite Hpos, Hc. cbn [rbind].
  apply Nat.ltb_lt in Hpos.
  destruct (nth_error closes pos) as [close |] eqn:Eclose.
  - exists close. split; [| reflexivity].
    destruct (nth_error (index hp) pos) as [d |] eqn:Ed.
    + assert (H : nth_error (combine (index hp) closes) pos
                  = Some (d, close)).
      { clear -Ed Eclose. revert pos closes Ed Eclose.
        induction (index hp) as [| a l IH]; intros [| pos] [| b closes];
          simpl; intros Ed Eclose; try discriminate.
        - injection Ed as ->. injection Eclose as ->. reflexivity.
        - apply IH; assumption. }
      rewrite H. reflexivity.
    + apply nth_error_None in Ed. lia.
  - apply nth_error_None in Eclose. lia.
Qed.

Lemma lookup_label_present (i : label) (x : series) :
  In i (map fst x) -> exists e, lookup_label i x = Some e.
Proof.
  induction x as [| [l v] x IH]; simpl; intros H; [contradiction |].
  destruct (Z.eqb i l) eqn:E.
  - exists v. reflexivity.
  - apply IH. destruct H as [H | H]; [| exact H].
    apply Z.eqb_neq in E. congruence.
Qed.

Lemma lookup_label_in (i : label) (e : float) (x : series) :
  NoDup (map fst x) -> In (i, e) x -> lookup_label i x = Some e.
Proof.
  induction x as [| [l v] x IH]; simpl; intros Hnd H; [contradiction |].
  apply NoDup_cons_iff in Hnd. destruct Hnd as [Hnotin Hnd].
  destruct H as [H | H].
  - injection H as -> ->. rewrite Z.eqb_refl. reflexivity.
  - destruct (Z.eqb i l) eqn:E.
    + apply Z.eqb_eq in E. subst l. exfalso. apply Hnotin.
      apply in_map_iff. exists (i, e). split; [reflexivity | exact H].
    + apply IH; assumption.
Qed.

Lemma lookup_label_updated (i j : label) (v : float) (x : series) :
  lookup_label j
    (map (fun p => if Z.eqb (fst p) i then (fst p, v) else p) x)
  = if Z.eqb j i
    then match lookup_label j x with
         | Some _ => Some v
         | None => None
         end
    else lookup_label j x.
Proof.
  induction x as [| [l w] x IH]; simpl.
  - destruct (Z.eqb j i); reflexivity.
  - destruct (Z.eqb l i) eqn:Eli; simpl.
    + apply Z.eqb_eq in Eli. subst l.
      rewrite IH. destruct (Z.eqb j i); reflexivity.
    + destruct (Z.eqb j l) eqn:Ejl.
      * apply Z.eqb_eq in Ejl. subst l. rewrite Eli. reflexivity.
      * exact IH.
Qed.

Lemma updated_labels (i : label) (v : float) (x : series) :
  map fst (map (fun p => if Z.eqb (fst p) i then (fst p, v) else p) x)
  = map fst x.
Proof.
  rewrite map_map. apply map_ext. intros [l w]. cbn [fst].
  destruct (Z.eqb l i); reflexivity.
Qed.

Lemma prices_available_after_assign (s : State) (df hp : table)
  (x : series) :
  _ratios (self s) = Some df ->
  prices_available s hp ->
  prices_available (on_self (set_ratios (Some (setitem df "pe" x))) s) hp.
Proof.
  intros Hslot. unfold prices_available.
  change (_historic_prices
            (self (on_self (set_ratios (Some (setitem df "pe" x))) s)))
    with (_historic_prices (self s)).
  destruct (_historic_prices (self s)) as [h |]; [exact (fun H => H) |].
  change (price_path (on_self (set_ratios (Some (setitem df "pe" x))) s))
    with (price_path s).
  change (files (world (on_self (set_ratios (Some (setitem df "pe" x))) s)))
    with (files (world s)).
  destruct (assoc (price_path s) (files (world s))) as [f |];
    [exact (fun H => H) |].
  intros [df' [c [Hr [Hc Hremote]]]].
  assert (df' = df) by congruence. subst df'.
  exists (setitem df "pe" x), c. split; [reflexivity |]. split.
  - rewrite currency_of_setitem by reflexivity. exact Hc.
  - exact Hremote.
Qed.

(** One turn of the loop of [add_pe]. *)
Lemma add_pe_row_eq (t : State) (d hp : table) (eps pe : series)
  (i : label) (e close : float) (pos : nat) :
  _ratios (self t) = Some d ->
  prices_available t hp ->
  get_loc_nearest (index hp) i = Ok pos ->
  iloc_get hp pos "Close" = Ok close ->
  getitem d ("earnings-per-share-" ++ str_of (currency_of d)) = Ok eps ->
  lookup_label i eps = Some e ->
  getitem d "pe" = Ok pe ->
  exists t1,
    _historic_prices (self t1) = Some hp /\
    add_pe_row i t
    = (Ok tt,
       on_self
         (set_ratios
            (Some (setitem d "pe"
                     (map (fun p => if Z.eqb (fst p) i
                                    then (fst p, fdiv close e) else p) pe))))
         t1).
Proof.
  intros Hslot Hav Hpos Hclose Heps He Hpe.
  destruct (historic_prices_at_hand t hp Hav) as [t1 [Hrun [Hheld Hsame]]].
  assert (Hslot1 : _ratios (self t1) = Some d) by congruence.
  exists t1. split; [exact Hheld |].
  unfold add_pe_row.
  rewrite (bind_ok _ Hrun).
  rewrite (bind_ok _ (historic_prices_held t1 hp Hheld)).
  unfold lift at 1. unfold bind at 1. rewrite Hpos.
  unfold lift at 1. unfold bind at 1. rewrite Hclose.
  rewrite (bind_ok _ (the_ratios_assigned _ _ Hslot1)).
  rewrite (bind_ok _ (currency_assigned_eq _ _ Hslot1)).
  unfold loc_get. rewrite Heps. cbn [rbind]. rewrite He.
  unfold lift at 1. unfold bind at 1.
  rewrite (bind_ok _ (the_ratios_assigned _ _ Hslot1)).
  unfold loc_set. rewrite Hpe. reflexivity.
Qed.

(** The loop of [add_pe]: each period it goes through is given its
    ratio, and the ratios given before stay. *)
Lemma add_pe_loop (hp df : table) (eps : series) (closes : list float) :
  strictly_increasing (index hp) = true ->
  index hp <> [] ->
  assoc "Close" (columns hp) = Some closes ->
  List.length closes = List.length (index hp) ->
  NoDup (index df) ->
  map fst eps = index df ->
  forall (rest done : list label) (t : State) (d : table) (pe : series),
    index df = (done ++ rest)%list ->
    _ratios (self t) = Some d ->
    prices_available t hp ->
    currency_of d = currency_of df ->
    index d = index df ->
    getitem d ("earnings-per-share-" ++ str_of (currency_of df)) = Ok eps ->
    getitem d "pe" = Ok pe ->
    map fst pe = index df ->
    pe_filled hp eps done pe ->
    exists t' d' pe',
      for_each rest add_pe_row t = (Ok tt, t') /\
      _ratios (self t') = Some d' /\
      getitem d' "pe" = Ok pe' /\
      pe_filled hp eps (done ++ rest)%list pe'.
Proof.
  intros Hsorted Hne Hclose Hlen Hnd Heps_labels.
  induction rest as [| i rest IH];
    intros done t d pe Hsplit Hslot Hav Hcur Hidx Heps Hpe Hpe_labels Hfilled.
  - exists t, d, pe. rewrite app_nil_r. repeat split; assumption.
  - assert (Hi : In i (index df)).
    { rewrite Hsplit. apply in_or_app. right. left. reflexivity. }
    assert (Hnotin : ~ In i done).
    { rewrite Hsplit in Hnd. apply NoDup_remove_2 in Hnd.
      intros H. apply Hnd. apply in_or_app. left. exact H. }
    destruct (lookup_label_present i eps) as [e He];
      [rewrite Heps_labels; exact Hi |].
    destruct (lookup_label_present i pe) as [v0 Hv0];
      [rewrite Hpe_labels; exact Hi |].
    destruct (get_loc_nearest_correct (index hp) i Hsorted Hne)
      as [pos [Hpos [Hlt _]]].
    destruct (iloc_get_close hp closes pos Hclose Hlen Hlt)
      as [close [Hiloc _]].
    assert (Heps' : getitem d ("earnings-per-share-"
                                ++ str_of (currency_of d)) = Ok eps).
    { rewrite Hcur. exact Heps. }
    destruct (add_pe_row_eq t d hp eps pe i e close pos
                Hslot Hav Hpos Hiloc Heps' He Hpe) as [t0 [Hheld Hrow]].
    set (pe1 := map (fun p => if Z.eqb (fst p) i
                              then (fst p, fdiv close e) else p) pe) in *.
    set (d1 := setitem d "pe" pe1) in *.
    set (t1 := on_self (set_ratios (Some d1)) t0) in *.
    cbn [for_each]. rewrite (bind_ok _ Hrow).
    assert (Hlab1 : map fst pe1 = index df).
    { unfold pe1. rewrite updated_labels. exact Hpe_labels. }
    destruct (IH (done ++ [i])%list t1 d1 pe1) as [t' [d' [pe' [Hrun [Hs' [Hp' Hf']]]]]].
    + rewrite <- app_assoc. exact Hsplit.
    + reflexivity.
    + apply prices_held_available. exact Hheld.
    + unfold d1. rewrite currency_of_setitem by reflexivity. exact Hcur.
    + exact Hidx.
    + unfold d1. rewrite getitem_setitem_other by reflexivity. exact Heps.
    + unfold d1. apply getitem_setitem_aligned.
      transitivity (index df); [exact Hlab1 | symmetry; exact Hidx].
    + exact Hlab1.
    + intros j e' Hj Hlook. apply in_app_or in Hj.
      destruct Hj as [Hj | [<- | []]].
      * destruct (Hfilled j e' Hj Hlook) as [pos' [close' [H1 [H2 H3]]]].
        exists pos', close'. split; [exact H1 |]. split; [exact H2 |].
        unfold pe1. rewrite lookup_label_updated.
        destruct (Z.eqb j i) eqn:E; [| exact H3].
        apply Z.eqb_eq in E. subst j. contradiction.
      * exists pos, close. split; [exact Hpos |]. split; [exact Hiloc |].
        unfold pe1. rewrite lookup_label_updated, Z.eqb_refl, Hv0.
        congruence.
    + exists t', d', pe'. rewrite <- app_assoc in Hf'.
      repeat split; assumption.
Qed.

(** C9: on a ratios table of distinct periods, with a price history of
    increasing dates at hand, [add_pe] sets the pe of every period to the
    close of the price date nearest to the period (no price date is
    nearer in days) divided by the earnings per share of the period.
    For the period 2020-01-01 and the price dates 2019-12-20 and
    2020-01-10, the second date (9 days away, against 12) is the one
    found. *)
Theorem pe_is_nearest_close_over_earnings (s : State) (df hp : table)
  (eps : series) (closes : list float) :
  _ratios (self s) = Some df ->
  NoDup (index df) ->
  getitem df ("earnings-per-share-" ++ str_of (currency_of df)) = Ok eps ->
  List.length eps = List.length (index df) ->
  prices_available s hp ->
  strictly_increasing (index hp) = true ->
  index hp <> [] ->
  assoc "Close" (columns hp) = Some closes ->
  List.length closes = List.length (index hp) ->
  (exists s' df',
     add_pe s = (Ok tt, s') /\
     _ratios (self s') = Some df' /\
     forall i e,
       In (i, e) eps ->
       exists pos close,
         (pos < List.length (index hp))%nat /\
         (forall j, (j < List.length (index hp))%nat ->
                    Z.abs (nth pos (index hp) 0 - i)
                    <= Z.abs (nth j (index hp) 0 - i)) /\
         nth_error closes pos = Some close /\
         loc_get df' i "pe" = Ok (fdiv close e)) /\
  get_loc_nearest [date 2019 12 20; date 2020 1 10] (date 2020 1 1)
  = Ok 1%nat.
Proof.
  intros Hslot Hnd Heps Hlen_eps Hav Hsorted Hne Hclose Hlen.
  split; [| reflexivity].
  pose proof (getitem_labels df _ eps Heps Hlen_eps) as Hlabels.
  set (d0 := setitem df "pe" eps).
  set (s0 := on_self (set_ratios (Some d0)) s).
  assert (Hpe0 : getitem d0 "pe" = Ok eps).
  { unfold d0. apply getitem_setitem_aligned. exact Hlabels. }
  destruct (add_pe_loop hp df eps closes Hsorted Hne Hclose Hlen Hnd
              Hlabels (index df) [] s0 d0 eps)
    as [s' [df' [pe' [Hrun [Hs' [Hp' Hf']]]]]].
  - reflexivity.
  - reflexivity.
  - apply prices_available_after_assign; assumption.
  - unfold d0. apply currency_of_setitem. reflexivity.
  - reflexivity.
  - unfold d0. rewrite getitem_setitem_other by reflexivity. exact Heps.
  - exact Hpe0.
  - exact Hlabels.
  - intros i e [].
  - exists s', df'. split; [| split; [exact Hs' |]].
    + unfold add_pe.
      rewrite (bind_ok _ (currency_assigned_eq _ _ Hslot)).
      rewrite (@bind_ok _ _ _ _ s s eps)
        by (rewrite (ratios_col_eq _ _ _ Hslot), Heps; reflexivity).
      rewrite (bind_ok _ (ratios_assign_eq "pe" eps s df Hslot)).
      fold d0. fold s0.
      rewrite (@bind_ok _ _ _ _ s0 s0 eps)
        by (rewrite (ratios_col_eq "pe" s0 d0 eq_refl), Hpe0; reflexivity).
      rewrite Hlabels. exact Hrun.
    + intros i e Hin.
      assert (Hi : In i (index df)).
      { rewrite <- Hlabels. apply in_map_iff. exists (i, e).
        split; [reflexivity | exact Hin]. }
      assert (Hlook : lookup_label i eps = Some e).
      { apply lookup_label_in; [rewrite Hlabels; exact Hnd | exact Hin]. }
      destruct (Hf' i e Hi Hlook) as [pos [close [Hpos [Hiloc Hval]]]].
      destruct (get_loc_nearest_correct (index hp) i Hsorted Hne)
        as [pos' [Hpos' [Hlt Hnear]]].
      assert (pos' = pos) by congruence. subst pos'.
      destruct (iloc_get_close hp closes pos Hclose Hlen Hlt)
        as [close' [Hiloc' Hnth]].
      assert (close' = close) by congruence. subst close'.
      exists pos, close. repeat split; try assumption.
      unfold loc_get. rewrite Hp'. cbn [rbind]. rewrite Hval. reflexivity.
Qed.

(** The theorem on the period 2020-01-01 with earnings of 2 and the
    prices of 2019-12-20 (10) and 2020-01-10 (12): the pe is 12 / 2. *)
Lemma pe_is_nearest_close_over_earnings_witness :
  exists s' df',
    add_pe one_period_state = (Ok tt, s') /\
    _ratios (self s') = Some df' /\
    loc_get df' (date 2020 1 1) "pe" = Ok (fdiv (Fin 12) (Fin 2)).
Proof.
  destruct (pe_is_nearest_close_over_earnings
              one_period_state one_period_table two_prices_table
              [(date 2020 1 1, Fin 2)] [Fin 10; Fin 12])
    as [[s' [df' [Hrun [Hs' Hall]]]] _].
  - reflexivity.
  - constructor; [intros [] | constructor].
  - reflexivity.
  - reflexivity.
  - reflexivity.
  - reflexivity.
  - discriminate.
  - reflexivity.
  - reflexivity.
  - exists s', df'. split; [exact Hrun |]. split; [exact Hs' |].
    destruct (Hall (date 2020 1 1) (Fin 2) (or_introl eq_refl))
      as [pos [close [Hlt [Hnear [Hnth Hval]]]]].
    destruct pos as [| [| pos]].
    + specialize (Hnear 1%nat (Nat.lt_succ_diag_r 1)).
      vm_compute in Hnear. exfalso. apply Hnear. reflexivity.
    + injection Hnth as <-. exact Hval.
    + cbn in Hlt. lia.
Defined.

(** The same in the ACME scenario, where the derivation finds no price
    export cached and retrieves it: the period 2019-12-01 gets the close
    of 2019-12-02, the nearest price date, over its earnings per share;
    the earnings growth of the table is the fractional change of the
    earnings per share. *)
Lemma acme_derived_ratios :
  loc_get (ratios_of acme_state) (date 2019 12 1) "pe"
  = Ok (fdiv (Fin 11) (Fin (11 / 10))) /\
  getitem (ratios_of acme_state) "earnings-ps-growth"
  = Ok (pct_change [(date 2018 12 1, Fin 1); (date 2019 12 1, Fin (11 / 10));
                    (date 2020 12 1, Fin (121 / 100))]).
Proof. split; reflexivity. Qed.

(* ================================================================= *)
(** * Further properties *)

(* ================================================================= *)
(** ** Clearing the cache *)

Lemma assoc_remove_assoc_same {A} (k : string) (l : list (string * A)) :
  assoc k (remove_assoc k l) = None.
Proof.
  induction l as [| [k' v] l IH]; simpl; [reflexivity |].
  destruct (String.eqb k k') eqn:E; [exact IH |].
  simpl. rewrite E. exact IH.
Qed.

Lemma assoc_remove_assoc_other {A} (k k' : string)
  (l : list (string * A)) :
  String.eqb k' k = false ->
  assoc k' (remove_assoc k l) = assoc k' l.
Proof.
  intros Hne. induction l as [| [k0 v] l IH]; simpl; [reflexivity |].
  destruct (String.eqb k k0) eqn:E.
  - apply String.eqb_eq in E. subst k0. rewrite Hne. exact IH.
  - simpl. rewrite IH. reflexivity.
Qed.

Lemma remove_assoc_absent {A} (k : string) (l : list (string * A)) :
  assoc k l = None -> remove_assoc k l = l.
Proof.
  induction l as [| [k' v] l IH]; simpl; [reflexivity |].
  destruct (String.eqb k k'); [discriminate |].
  intros H. rewrite (IH H). reflexivity.
Qed.

Lemma on_world_same_files (s : State) :
  on_world (fun w => set_files (files w) w) s = s.
Proof. destruct s as [o w]. destruct w. reflexivity. Qed.

(** One turn of the loop of [clear_cached_files]: the file of the report
    type is gone, whether it was there or not. *)
Lemma clear_one (report_type : string) (s : State) :
  (path <- report_path report_type ;;
   present <- os_path_exists path ;;
   if present then
     path <- report_path report_type ;;
     os_remove path
   else ret tt) s
  = (Ok tt,
     on_world (fun w => set_files
                          (remove_assoc (cache_path s report_type) (files w))
                          w) s).
Proof.
  unfold report_path, os_path_exists, os_remove. munfold.
  fold (cache_path s report_type).
  destruct (assoc (cache_path s report_type) (files (world s))) eqn:E.
  - reflexivity.
  - f_equal. unfold on_world at 1. cbn [world files].
    rewrite <- (on_world_same_files s) at 1.
    unfold on_world. cbn [world self]. rewrite (remove_assoc_absent _ _ E).
    reflexivity.
Qed.

Lemma clear_cached_files_run (s : State) :
  clear_cached_files s
  = (Ok tt,
     on_world (fun w => set_files
       (fold_left (fun fs rt => remove_assoc (cache_path s rt) fs)
          report_types (files w)) w) s).
Proof.
  unfold clear_cached_files, report_types. cbn [for_each fold_left].
  do 5 (unfold bind at 1; rewrite clear_one).
  unfold ret. reflexivity.
Qed.

Lemma assoc_fold_remove_other {A} (p : string) (ps : list string)
  (l : list (string * A)) :
  (forall q, In q ps -> String.eqb p q = false) ->
  assoc p (fold_left (fun fs q => remove_assoc q fs) ps l) = assoc p l.
Proof.
  revert l. induction ps as [| q ps IH]; intros l Hne; simpl;
    [reflexivity |].
  rewrite IH by (intros q' Hq'; apply Hne; right; exact Hq').
  apply assoc_remove_assoc_other. apply Hne. left. reflexivity.
Qed.

Lemma assoc_fold_remove_gone {A} (p : string) (ps : list string)
  (l : list (string * A)) :
  assoc p l = None ->
  assoc p (fold_left (fun fs q => remove_assoc q fs) ps l) = None.
Proof.
  revert l. induction ps as [| q ps IH]; intros l Hl; simpl; [exact Hl |].
  apply IH. destruct (String.eqb p q) eqn:E.
  - apply String.eqb_eq in E. subst q. apply assoc_remove_assoc_same.
  - rewrite assoc_remove_assoc_other by exact E. exact Hl.
Qed.

Lemma assoc_fold_remove_in {A} (p : string) (ps : list string)
  (l : list (string * A)) :
  In p ps ->
  assoc p (fold_left (fun fs q => remove_assoc q fs) ps l) = None.
Proof.
  revert l. induction ps as [| q ps IH]; intros l Hin; simpl;
    [destruct Hin |].
  destruct Hin as [-> | Hin].
  - apply assoc_fold_remove_gone. apply assoc_remove_assoc_same.
  - apply IH. exact Hin.
Qed.

Lemma fold_remove_map {A} (f : string -> string) (ps : list string)
  (l : list (string * A)) :
  fold_left (fun fs q => remove_assoc (f q) fs) ps l
  = fold_left (fun fs q => remove_assoc q fs) (map f ps) l.
Proof.
  revert l. induction ps as [| q ps IH]; intros l; simpl;
    [reflexivity | apply IH].
Qed.

(** X1: [clear_cached_files] never raises; afterwards none of the five
    cached exports of the symbol exists, every other file is as it was,
    and neither the object (its loaded tables included) nor the clock or
    the log of requests has changed. *)
Theorem clear_cached_files_removes_the_five_exports (s : State) :
  let s' := snd (clear_cached_files s) in
  fst (clear_cached_files s) = Ok tt
  /\ (forall rt, In rt report_types ->
        assoc (cache_path s rt) (files (world s')) = None)
  /\ (forall p, (forall rt, In rt report_types -> p <> cache_path s rt) ->
        assoc p (files (world s')) = assoc p (files (world s)))
  /\ self s' = self s
  /\ clock (world s') = clock (world s)
  /\ requests (world s') = requests (world s).
Proof.
  rewrite clear_cached_files_run. cbn [fst snd].
  split; [reflexivity |].
  split; [| split; [| split; [| split]]]; try reflexivity.
  - intros rt Hin. unfold on_world. cbn [world files set_files].
    rewrite fold_remove_map. apply assoc_fold_remove_in.
    apply in_map. exact Hin.
  - intros p Hp. unfold on_world. cbn [world files set_files].
    rewrite fold_remove_map. apply assoc_fold_remove_other.
    intros q Hq. apply in_map_iff in Hq. destruct Hq as [rt [<- Hrt]].
    apply String.eqb_neq. apply Hp. exact Hrt.
Qed.

(* ================================================================= *)
(** ** Retrievals that fail *)

Lemma load_report_unreachable (rt : string) (s : State) :
  assoc (cache_path s rt) (files (world s)) = None ->
  remote (world s) (report_url s rt) = None ->
  _load_report_csv_to_df rt s
  = (Raise URLError, on_world (add_request (report_url s rt)) s).
Proof.
  intros Hf Hr.
  unfold _load_report_csv_to_df, _download_morningstar_data, urlretrieve,
    report_path.
  munfold. fold (cache_path s rt). rewrite csv_cache_valid_present.
  cbv beta iota. rewrite Hf. cbn [negb].
  fold (report_url s rt).
  cbn [world on_world add_request remote]. rewrite Hr. reflexivity.
Qed.

(** X2: when the export of a statement is not cached and the server
    gives no answer to its retrieval (it is not reached, or it refuses
    the request: [urlretrieve] then raises before it opens the file),
    the loader raises the retrieval error to the caller: nothing is
    written to the error log or to the data directory, and the property
    that asked for the table ([income], [cashflow], [balancesheet] or
    [ratios]) raises too and stays unloaded, so that the next access
    retries.  The state differs from the one before by the logged request
    only. *)
Theorem statement_retrieval_failure_propagates (rt : string) (s : State) :
  assoc (cache_path s rt) (files (world s)) = None ->
  remote (world s) (report_url s rt) = None ->
  let s' := on_world (add_request (report_url s rt)) s in
  _load_report_csv_to_df rt s = (Raise URLError, s')
  /\ (rt = "income" -> _income (self s) = None ->
      income s = (Raise URLError, s'))
  /\ (rt = "cashflow" -> _cashflow (self s) = None ->
      cashflow s = (Raise URLError, s'))
  /\ (rt = "balancesheet" -> _balancesheet (self s) = None ->
      balancesheet s = (Raise URLError, s'))
  /\ (rt = "ratios" -> _ratios (self s) = None ->
      ratios s = (Raise URLError, s')).
Proof.
  intros Hf Hr s'. pose proof (load_report_unreachable rt s Hf Hr) as Hl.
  split; [exact Hl |].
  split; [| split; [| split]]; intros -> Hslot.
  - unfold income. unfold bind at 1, gets at 1. rewrite Hslot.
    apply (bind_raise _ Hl).
  - unfold cashflow. unfold bind at 1, gets at 1. rewrite Hslot.
    apply (bind_raise _ Hl).
  - unfold balancesheet. unfold bind at 1, gets at 1. rewrite Hslot.
    apply (bind_raise _ Hl).
  - unfold ratios. unfold bind at 1, gets at 1. rewrite Hslot.
    apply (bind_raise _ Hl).
Qed.

Lemma statement_retrieval_failure_propagates_witness :
  income offline_state
  = (Raise URLError,
     on_world (add_request (report_url offline_state "income"))
       offline_state)
  /\ _income (self (snd (income offline_state))) = None
  /\ error_log (self (snd (income offline_state))) = [].
Proof.
  pose proof (statement_retrieval_failure_propagates "income" offline_state
                eq_refl eq_refl) as H.
  destruct H as [_ [H _]]. specialize (H eq_refl eq_refl).
  split; [exact H |]. rewrite H. split; reflexivity.
Defined.

Lemma download_pricedata_raises_its_own_error (c : M (option string))
  (s s1 : State) (e : exn) :
  _download_morningstar_pricedata_with c s = (Raise e, s1) ->
  e = MorningStarPriceError.
Proof.
  unfold _download_morningstar_pricedata_with, try_except.
  match goal with
  | |- context [match ?m s with _ => _ end] => destruct (m s) as [[u | x] t]
  end.
  - discriminate.
  - unfold raise. intros H. injection H as <- _. reflexivity.
Qed.

Lemma failed_price_download (c : M (option string)) (s s1 : State)
  (e : exn) :
  assoc (price_path s) (files (world s)) = None ->
  _download_morningstar_pricedata_with c s = (Raise e, s1) ->
  _load_price_csv_to_df_with c s
  = (Ok empty_frame, on_self (append_error "Unable to load price data") s1).
Proof.
  intros Hf Hd.
  pose proof (download_pricedata_raises_its_own_error c s s1 e Hd) as He.
  subst e.
  assert (Hpath : report_path "price" s = (Ok (price_path s), s))
    by reflexivity.
  unfold _load_price_csv_to_df_with.
  rewrite (bind_ok _ Hpath).
  rewrite (bind_ok _ (csv_cache_valid_present (price_path s) 40000 s)).
  rewrite Hf. cbn [negb].
  rewrite (@bind_ok _ _ _ _ s
             (on_self (append_error "Unable to load price data") s1) false).
  - reflexivity.
  - unfold try_except. rewrite (bind_raise _ Hd). reflexivity.
Qed.

Lemma historic_prices_after_failed_download (c : M (option string))
  (s s1 : State) (e : exn) :
  _historic_prices (self s) = None ->
  assoc (price_path s) (files (world s)) = None ->
  _download_morningstar_pricedata_with c s = (Raise e, s1) ->
  historic_prices_with c s
  = (Ok empty_frame,
     on_self (set_historic_prices (Some empty_frame))
       (on_self (append_error "Unable to load price data") s1)).
Proof.
  intros Hslot Hf Hd. unfold historic_prices_with.
  unfold bind at 1, gets at 1. rewrite Hslot.
  rewrite (bind_ok _ (failed_price_download c s s1 e Hf Hd)). reflexivity.
Qed.

(** X3: the price download turns whatever goes wrong in it (no currency
    to name, a retrieval that fails, an exception of [currency]) into
    [MorningStarPriceError], and the price loader absorbs that error:
    when no price export is cached and the download raises, the loader
    returns the empty table and appends [Unable to load price data] to
    the error log, and [historic_prices] keeps that empty table.  The
    statement holds for the methods as a caller runs them and as the
    derivation of the ratios runs them. *)
Theorem price_retrieval_failure_is_absorbed (c : M (option string))
  (s s1 : State) (e : exn) :
  assoc (price_path s) (files (world s)) = None ->
  _download_morningstar_pricedata_with c s = (Raise e, s1) ->
  let s2 := on_self (append_error "Unable to load price data") s1 in
  e = MorningStarPriceError
  /\ _load_price_csv_to_df_with c s = (Ok empty_frame, s2)
  /\ (_historic_prices (self s) = None ->
      historic_prices_with c s
      = (Ok empty_frame,
         on_self (set_historic_prices (Some empty_frame)) s2)).
Proof.
  intros Hf Hd s2.
  split; [exact (download_pricedata_raises_its_own_error c s s1 e Hd) |].
  split; [exact (failed_price_download c s s1 e Hf Hd) |].
  intros Hslot.
  exact (historic_prices_after_failed_download c s s1 e Hslot Hf Hd).
Qed.

Lemma price_retrieval_failure_is_absorbed_witness :
  historic_prices offline_state
  = (Ok empty_frame,
     on_self (set_historic_prices (Some empty_frame))
       (on_self (append_error "Unable to load price data")
          (on_world (add_request (report_url offline_state "ratios"))
             offline_state))).
Proof.
  refine (proj2 (proj2 (price_retrieval_failure_is_absorbed currency
            offline_state
            (on_world (add_request (report_url offline_state "ratios"))
               offline_state)
            MorningStarPriceError eq_refl _)) eq_refl).
  reflexivity.
Defined.

(* ================================================================= *)
(** ** What the methods do to the ratios table of the object *)

Lemma keeps_ret {A} (a : A) : keeps_ratios (ret a).
Proof. intros s. reflexivity. Qed.

Lemma keeps_raise {A} (e : exn) : keeps_ratios (@raise A e).
Proof. intros s. reflexivity. Qed.

Lemma keeps_lift {A} (r : result A) : keeps_ratios (lift r).
Proof. intros s. reflexivity. Qed.

Lemma keeps_gets {A} (f : State -> A) : keeps_ratios (gets f).
Proof. intros s. reflexivity. Qed.

Lemma keeps_modify (g : State -> State) :
  (forall s, _ratios (self (g s)) = _ratios (self s)) ->
  keeps_ratios (modify g).
Proof. intros Hg s. apply Hg. Qed.

Lemma keeps_bind {A B} (m : M A) (f : A -> M B) :
  keeps_ratios m -> (forall a, keeps_ratios (f a)) ->
  keeps_ratios (bind m f).
Proof.
  intros Hm Hf s. unfold bind. specialize (Hm s).
  destruct (m s) as [[a | e] s1]; cbn [snd] in *.
  - rewrite Hf. exact Hm.
  - exact Hm.
Qed.

Lemma keeps_try_except {A} (m : M A) (h : exn -> M A) :
  keeps_ratios m -> (forall e, keeps_ratios (h e)) ->
  keeps_ratios (try_except m h).
Proof.
  intros Hm Hh s. unfold try_except. specialize (Hm s).
  destruct (m s) as [[a | e] s1]; cbn [snd] in *.
  - exact Hm.
  - rewrite Hh. exact Hm.
Qed.

Lemma keeps_for_each {A} (l : list A) (body : A -> M unit) :
  (forall a, keeps_ratios (body a)) -> keeps_ratios (for_each l body).
Proof.
  intros Hb. induction l as [| a l IH]; simpl.
  - apply keeps_ret.
  - apply keeps_bind; [apply Hb | intros _; exact IH].
Qed.

Create HintDb keeps.

(** One step of a proof that a method leaves the ratios table alone. *)
Ltac keeps_step :=
  match goal with
  | |- keeps_ratios (bind _ _) => apply keeps_bind; [| intros]
  | |- keeps_ratios (try_except _ _) => apply keeps_try_except; [| intros]
  | |- keeps_ratios (for_each _ _) => apply keeps_for_each; intros
  | |- keeps_ratios (ret _) => apply keeps_ret
  | |- keeps_ratios (raise _) => apply keeps_raise
  | |- keeps_ratios (lift _) => apply keeps_lift
  | |- keeps_ratios (gets _) => apply keeps_gets
  | |- keeps_ratios (modify _) => apply keeps_modify; intros; reflexivity
  | |- keeps_ratios (if ?c then _ else _) => destruct c
  | |- keeps_ratios (match ?x with _ => _ end) => destruct x
  | |- keeps_ratios _ => solve [auto with keeps]
  end.

Ltac keeps_tac := repeat keeps_step.

Lemma keeps_os_path_exists (path : string) :
  keeps_ratios (os_path_exists path).
Proof. unfold os_path_exists. keeps_tac. Qed.

Lemma keeps_os_remove (path : string) : keeps_ratios (os_remove path).
Proof. unfold os_remove. keeps_tac. Qed.

Lemma keeps_urlretrieve (url path : string) :
  keeps_ratios (urlretrieve url path).
Proof. unfold urlretrieve. keeps_tac. Qed.

Lemma keeps_report_path (report_type : string) :
  keeps_ratios (report_path report_type).
Proof. unfold report_path. keeps_tac. Qed.

#[local] Hint Resolve keeps_os_path_exists keeps_os_remove
  keeps_urlretrieve keeps_report_path : keeps.

Lemma keeps_csv_cache_valid (path : string) (lifetime : Z) :
  keeps_ratios (_csv_cache_valid path lifetime).
Proof. unfold _csv_cache_valid. keeps_tac. Qed.

Lemma keeps_download_morningstar_data (report_type : string) :
  keeps_ratios (_download_morningstar_data report_type).
Proof. unfold _download_morningstar_data. keeps_tac. Qed.

Lemma keeps_read_csv (path : string) : keeps_ratios (read_csv path).
Proof. unfold read_csv. keeps_tac. Qed.

Lemma keeps_load_name (locals : list (string * string)) (name : string) :
  keeps_ratios (load_name locals name).
Proof. unfold load_name. keeps_tac. Qed.

Lemma keeps_log_error (msg : string) : keeps_ratios (log_error msg).
Proof. unfold log_error. keeps_tac. Qed.

#[local] Hint Resolve keeps_csv_cache_valid keeps_download_morningstar_data
  keeps_read_csv keeps_load_name keeps_log_error : keeps.

Lemma keeps_load_report_csv_to_df (report_type : string) :
  keeps_ratios (_load_report_csv_to_df report_type).
Proof. unfold _load_report_csv_to_df. keeps_tac. Qed.

#[local] Hint Resolve keeps_load_report_csv_to_df : keeps.

Lemma keeps_download_morningstar_pricedata_with (c : M (option string)) :
  keeps_ratios c -> keeps_ratios (_download_morningstar_pricedata_with c).
Proof. intros Hc. unfold _download_morningstar_pricedata_with. keeps_tac. Qed.

#[local] Hint Resolve keeps_download_morningstar_pricedata_with : keeps.

Lemma keeps_load_price_csv_to_df_with (c : M (option string)) :
  keeps_ratios c -> keeps_ratios (_load_price_csv_to_df_with c).
Proof. intros Hc. unfold _load_price_csv_to_df_with. keeps_tac. Qed.

#[local] Hint Resolve keeps_load_price_csv_to_df_with : keeps.

Lemma keeps_historic_prices_with (c : M (option string)) :
  keeps_ratios c -> keeps_ratios (historic_prices_with c).
Proof. intros Hc. unfold historic_prices_with. keeps_tac. Qed.

Lemma keeps_income : keeps_ratios income.
Proof. unfold income. keeps_tac. Qed.

Lemma keeps_cashflow : keeps_ratios cashflow.
Proof. unfold cashflow. keeps_tac. Qed.

Lemma keeps_balancesheet : keeps_ratios balancesheet.
Proof. unfold balancesheet. keeps_tac. Qed.

Lemma keeps_the_ratios : keeps_ratios the_ratios.
Proof. unfold the_ratios. keeps_tac. Qed.

#[local] Hint Resolve keeps_historic_prices_with keeps_income keeps_cashflow
  keeps_balancesheet keeps_the_ratios : keeps.

Lemma keeps_currency_assigned : keeps_ratios currency_assigned.
Proof. unfold currency_assigned. keeps_tac. Qed.

Lemma keeps_ratios_col (key : string) : keeps_ratios (ratios_col key).
Proof. unfold ratios_col. keeps_tac. Qed.

Lemma keeps_balancesheet_col (key : string) :
  keeps_ratios (balancesheet_col key).
Proof. unfold balancesheet_col. keeps_tac. Qed.

#[local] Hint Resolve keeps_currency_assigned keeps_ratios_col
  keeps_balancesheet_col : keeps.

Lemma keeps_has_dividends : keeps_ratios has_dividends.
Proof. unfold has_dividends. keeps_tac. Qed.

Lemma keeps_historic_prices_assigned : keeps_ratios historic_prices_assigned.
Proof. unfold historic_prices_assigned. keeps_tac. Qed.

Lemma keeps_clear_cached_files : keeps_ratios clear_cached_files.
Proof. unfold clear_cached_files. keeps_tac. Qed.

#[local] Hint Resolve keeps_has_dividends keeps_historic_prices_assigned
  keeps_clear_cached_files : keeps.

Lemma keeps_run {A} (m : M A) (s s' : State) (r : result A) :
  keeps_ratios m -> m s = (r, s') -> _ratios (self s') = _ratios (self s).
Proof. intros Hm H. specialize (Hm s). rewrite H in Hm. exact Hm. Qed.

(** *** Tables that only grow *)

Lemma extends_refl (d : table) : extends d d.
Proof. split; [reflexivity | split; [reflexivity | auto]]. Qed.

Lemma extends_trans (d1 d2 d3 : table) :
  extends d1 d2 -> extends d2 d3 -> extends d1 d3.
Proof.
  intros [Hi [Hc Hk]] [Hi' [Hc' Hk']].
  split; [congruence | split; [congruence | auto]].
Qed.

Lemma contains_setitem_mono (d : table) (key key' : string) (x : series) :
  contains d key' = true -> contains (setitem d key x) key' = true.
Proof.
  intros H. destruct (String.eqb key' key) eqn:E.
  - apply String.eqb_eq in E. subst key'. apply contains_setitem_same.
  - rewrite (contains_setitem_other _ _ _ _ E). exact H.
Qed.

Lemma extends_setitem (d : table) (key : string) (x : series) :
  starts_with "earnings-per-share-" key = false ->
  extends d (setitem d key x).
Proof.
  intros Hk. split; [reflexivity |]. split.
  - apply currency_of_setitem. exact Hk.
  - intros key' H. apply contains_setitem_mono. exact H.
Qed.

Lemma grows_of_keeps {A} (m : M A) : keeps_ratios m -> grows m.
Proof.
  intros Hm s d Hs. exists d. split.
  - rewrite Hm. exact Hs.
  - apply extends_refl.
Qed.

Lemma grows_bind {A B} (m : M A) (f : A -> M B) :
  grows m -> (forall a, grows (f a)) -> grows (bind m f).
Proof.
  intros Hm Hf s d Hs. unfold bind.
  destruct (Hm s d Hs) as [d1 [H1 E1]].
  destruct (m s) as [[a | e] s1]; cbn [snd] in *.
  - destruct (Hf a s1 d1 H1) as [d2 [H2 E2]].
    exists d2. split; [exact H2 | exact (extends_trans _ _ _ E1 E2)].
  - exists d1. split; [exact H1 | exact E1].
Qed.

Lemma grows_for_each {A} (l : list A) (body : A -> M unit) :
  (forall a, grows (body a)) -> grows (for_each l body).
Proof.
  intros Hb. induction l as [| a l IH]; simpl.
  - apply grows_of_keeps, keeps_ret.
  - apply grows_bind; [apply Hb | intros _; exact IH].
Qed.

Lemma grows_ratios_assign (key : string) (x : series) :
  starts_with "earnings-per-share-" key = false ->
  grows (ratios_assign key x).
Proof.
  intros Hk s d Hs. rewrite (ratios_assign_eq key x s d Hs). cbn [snd].
  exists (setitem d key x). split; [reflexivity |].
  apply extends_setitem. exact Hk.
Qed.

(** [self.ratios.loc[i, key] = v] *)
Lemma grows_loc_set (i : label) (key : string) (v : float) :
  starts_with "earnings-per-share-" key = false ->
  grows (df <- the_ratios ;;
         df' <- lift (loc_set df i key v) ;;
         modify (on_self (set_ratios (Some df')))).
Proof.
  intros Hk s d Hs. rewrite (bind_ok _ (the_ratios_assigned _ _ Hs)).
  unfold loc_set, bind, lift, modify.
  destruct (getitem d key) as [x | e]; cbn [rbind snd].
  - eexists. split; [reflexivity |]. apply extends_setitem. exact Hk.
  - exists d. split; [exact Hs | apply extends_refl].
Qed.

Create HintDb grows.

(** One step of a proof that a method only adds to the ratios table. *)
Ltac grows_step :=
  match goal with
  | |- grows (ratios_assign _ _) => apply grows_ratios_assign; reflexivity
  | |- grows (bind the_ratios _) =>
      first [ apply grows_loc_set; reflexivity
            | apply grows_bind; [| intros] ]
  | |- grows (bind _ _) => apply grows_bind; [| intros]
  | |- grows (for_each _ _) => apply grows_for_each; intros
  | |- grows (if ?c then _ else _) => destruct c
  | |- grows (match ?x with _ => _ end) => destruct x
  | |- grows _ =>
      first [ solve [auto with grows]
            | solve [apply grows_of_keeps; keeps_tac] ]
  end.

Ltac grows_tac := repeat grows_step.

Lemma grows_add_book_value_ps_growth : grows add_book_value_ps_growth.
Proof. unfold add_book_value_ps_growth. grows_tac. Qed.

Lemma grows_add_earnings_ps_growth : grows add_earnings_ps_growth.
Proof. unfold add_earnings_ps_growth. grows_tac. Qed.

Lemma grows_add_revenue_ps_growth : grows add_revenue_ps_growth.
Proof. unfold add_revenue_ps_growth. grows_tac. Qed.

Lemma grows_add_operating_cashflow_ps_growth :
  grows add_operating_cashflow_ps_growth.
Proof. unfold add_operating_cashflow_ps_growth. grows_tac. Qed.

Lemma grows_add_long_term_debt_ps_growth :
  grows add_long_term_debt_ps_growth.
Proof. unfold add_long_term_debt_ps_growth. grows_tac. Qed.

Lemma grows_add_short_term_debt_ps_growth :
  grows add_short_term_debt_ps_growth.
Proof. unfold add_short_term_debt_ps_growth. grows_tac. Qed.

Lemma grows_add_total_debt : grows add_total_debt.
Proof. unfold add_total_debt. grows_tac. Qed.

Lemma grows_add_debt_ratios : grows add_debt_ratios.
Proof. unfold add_debt_ratios. grows_tac. Qed.

Lemma grows_add_pe_row (i : label) : grows (add_pe_row i).
Proof. unfold add_pe_row. grows_tac. Qed.

#[local] Hint Resolve grows_add_pe_row : grows.

Lemma grows_add_pe : grows add_pe.
Proof. unfold add_pe. grows_tac. Qed.

Lemma grows_add_dividends_ps_growth : grows add_dividends_ps_growth.
Proof. unfold add_dividends_ps_growth. grows_tac. Qed.

#[local] Hint Resolve grows_add_book_value_ps_growth
  grows_add_earnings_ps_growth grows_add_revenue_ps_growth
  grows_add_operating_cashflow_ps_growth grows_add_long_term_debt_ps_growth
  grows_add_short_term_debt_ps_growth grows_add_total_debt
  grows_add_debt_ratios grows_add_pe grows_add_dividends_ps_growth : grows.

Lemma grows_derivation : grows derivation.
Proof. unfold derivation. grows_tac. Qed.

#[local] Hint Resolve grows_derivation : grows.

(* ================================================================= *)
(** ** The price over earnings when no price is at hand *)

Lemma historic_prices_with_ok_held (c : M (option string)) (s t : State)
  (hp : table) :
  historic_prices_with c s = (Ok hp, t) ->
  _historic_prices (self t) = Some hp.
Proof.
  unfold historic_prices_with. unfold bind at 1, gets at 1.
  destruct (_historic_prices (self s)) as [df |] eqn:Hslot.
  - unfold ret. intros H. injection H as <- <-. exact Hslot.
  - intros H. bind_inv H as df t1 Hl. unfold bind, modify, ret in H.
    injection H as <- <-. reflexivity.
Qed.

Lemma get_loc_nearest_nil (i : label) :
  get_loc_nearest [] i = Raise (KeyError "nearest").
Proof. reflexivity. Qed.

(** X4: [add_pe] first copies the earnings per share to the column [pe]
    and then fills it period by period.  When the price history that
    [historic_prices] hands out has no row (as after a price download
    that failed), looking up the first period raises, and the exception
    leaves [add_pe] with the column [pe] still holding the earnings per
    share, not a price over earnings. *)
Theorem add_pe_without_prices_raises (s t' : State) (df hp : table)
  (eps : series) (i : label) (rest : list label) :
  _ratios (self s) = Some df ->
  getitem df ("earnings-per-share-" ++ str_of (currency_of df)) = Ok eps ->
  index df = i :: rest ->
  historic_prices_assigned
    (on_self (set_ratios (Some (setitem df "pe" eps))) s) = (Ok hp, t') ->
  index hp = [] ->
  exists e,
    add_pe s = (Raise e, t')
    /\ _ratios (self t') = Some (setitem df "pe" eps)
    /\ getitem (setitem df "pe" eps) "pe"
       = Ok (combine (index df) (reindex (index df) eps)).
Proof.
  intros Hslot Heps Hidx Hhp Hempty. exists (KeyError "nearest").
  set (d1 := setitem df "pe" eps) in *.
  set (t := on_self (set_ratios (Some d1)) s) in *.
  assert (Ht : _ratios (self t) = Some d1) by reflexivity.
  assert (Hpe : getitem d1 "pe"
                = Ok (combine (index df) (reindex (index df) eps)))
    by apply getitem_setitem_same.
  assert (Hkeep : _ratios (self t') = Some d1).
  { rewrite (keeps_run _ _ _ _ keeps_historic_prices_assigned Hhp).
    exact Ht. }
  split; [| split; [exact Hkeep | exact Hpe]].
  unfold add_pe.
  rewrite (bind_ok _ (currency_assigned_eq _ _ Hslot)).
  rewrite (@bind_ok _ _ _ _ s s eps)
    by (rewrite (ratios_col_eq _ _ _ Hslot), Heps; reflexivity).
  rewrite (bind_ok _ (ratios_assign_eq "pe" eps s df Hslot)).
  fold d1. fold t.
  rewrite (@bind_ok _ _ _ _ t t
             (combine (index df) (reindex (index df) eps)))
    by (rewrite (ratios_col_eq "pe" t d1 Ht), Hpe; reflexivity).
  rewrite map_fst_combine by (rewrite reindex_length; reflexivity).
  rewrite Hidx. cbn [for_each].
  apply bind_raise. unfold add_pe_row.
  rewrite (bind_ok _ Hhp).
  rewrite (bind_ok _ (historic_prices_held t' hp
                        (historic_prices_with_ok_held _ _ _ _ Hhp))).
  rewrite Hempty. reflexivity.
Qed.

Lemma add_pe_without_prices_raises_witness :
  exists e,
    add_pe no_prices_state
    = (Raise e,
       snd (historic_prices_assigned
              (on_self
                 (set_ratios
                    (Some (setitem no_prices_table "pe"
                             [(date 2018 12 1, Fin 2%R)])))
                 no_prices_state)))
    /\ error_log (self (snd (add_pe no_prices_state)))
       = ["Unable to load price data"%string].
Proof.
  destruct (add_pe_without_prices_raises no_prices_state
              (snd (historic_prices_assigned
                      (on_self
                         (set_ratios
                            (Some (setitem no_prices_table "pe"
                                     [(date 2018 12 1, Fin 2%R)])))
                         no_prices_state)))
              no_prices_table empty_frame [(date 2018 12 1, Fin 2%R)]
              (date 2018 12 1) []
              eq_refl eq_refl eq_refl eq_refl eq_refl)
    as [e [H _]].
  exists e. split; [exact H |]. rewrite H. reflexivity.
Defined.

(* ================================================================= *)
(** ** The ratios table after its derivation *)

Lemma ratios_fresh (s s0 : State) (df0 : table) :
  _ratios (self s) = None ->
  _load_report_csv_to_df "ratios" s = (Ok df0, s0) ->
  ratios s
  = ((if negb (empty df0) then derivation else ret tt) ;;; the_ratios)
      (on_self (set_ratios (Some df0)) s0).
Proof.
  intros Hslot Hload. unfold ratios.
  unfold bind at 1, gets at 1. rewrite Hslot.
  rewrite (bind_ok _ Hload). reflexivity.
Qed.

(** X5: once the ratios export has been loaded, the object holds a
    ratios table whatever becomes of the derivation: the table has the
    periods, the currency and all the columns of the export.  When a step
    of the derivation raises, the exception reaches the caller of
    [ratios], but the table derived so far stays assigned, and the next
    access returns it without raising and without running the remaining
    steps. *)
Theorem ratios_keeps_the_table_of_a_derivation_that_raised
  (s s0 : State) (df0 : table) :
  _ratios (self s) = None ->
  _load_report_csv_to_df "ratios" s = (Ok df0, s0) ->
  exists df,
    _ratios (self (snd (ratios s))) = Some df
    /\ extends df0 df
    /\ (fst (ratios s) = Ok df \/ exists e, fst (ratios s) = Raise e)
    /\ ratios (snd (ratios s)) = (Ok df, snd (ratios s)).
Proof.
  intros Hslot Hload. rewrite (ratios_fresh s s0 df0 Hslot Hload).
  set (s1 := on_self (set_ratios (Some df0)) s0).
  set (body := if negb (empty df0) then derivation else ret tt).
  assert (Hbody : grows body) by (subst body; grows_tac).
  destruct (Hbody s1 df0 eq_refl) as [df [Hdf Hext]].
  exists df. unfold bind.
  destruct (body s1) as [[u | e] s2]; cbn [snd] in Hdf.
  - rewrite (the_ratios_assigned s2 df Hdf). cbn [fst snd].
    split; [exact Hdf |]. split; [exact Hext |].
    split; [left; reflexivity |]. apply ratios_assigned. exact Hdf.
  - cbn [fst snd].
    split; [exact Hdf |]. split; [exact Hext |].
    split; [right; exists e; reflexivity |].
    apply ratios_assigned. exact Hdf.
Qed.

Lemma ratios_keeps_the_table_of_a_derivation_that_raised_witness :
  fst (ratios partial_export_state)
  = Raise (KeyError "book-value-per-share-usd")
  /\ exists df,
       extends partial_ratios_export df
       /\ ratios (snd (ratios partial_export_state))
          = (Ok df, snd (ratios partial_export_state)).
Proof.
  split; [reflexivity |].
  destruct (ratios_keeps_the_table_of_a_derivation_that_raised
              partial_export_state partial_export_state
              partial_ratios_export eq_refl eq_refl)
    as [df [_ [Hext [_ Hnext]]]].
  exists df. split; [exact Hext | exact Hnext].
Defined.

(** *** The columns that a derivation that returns has added *)

Lemma provides_here {A B} (c0 : option string) (key : string) (m : M A)
  (f : A -> M B) :
  provides c0 key m -> (forall a, grows (f a)) ->
  provides c0 key (bind m f).
Proof.
  intros Hm Hf s s' b d Hs Hc H. bind_inv H as a s1 Hrun.
  destruct (Hm s s1 a d Hs Hc Hrun) as [d1 [H1 K1]].
  destruct (Hf a s1 d1 H1) as [d2 [H2 [_ [_ E2]]]].
  rewrite H in H2. cbn [snd] in H2.
  exists d2. split; [exact H2 | apply E2; exact K1].
Qed.

Lemma provides_later {A B} (c0 : option string) (key : string) (m : M A)
  (f : A -> M B) :
  grows m -> (forall a, provides c0 key (f a)) ->
  provides c0 key (bind m f).
Proof.
  intros Hm Hf s s' b d Hs Hc H. bind_inv H as a s1 Hrun.
  destruct (Hm s d Hs) as [d1 [H1 [_ [C1 _]]]].
  rewrite Hrun in H1. cbn [snd] in H1.
  apply (Hf a s1 s' b d1 H1); [congruence | exact H].
Qed.

Lemma provides_currency {B} (c0 : option string) (key : string)
  (f : option string -> M B) :
  provides c0 key (f c0) -> provides c0 key (bind currency_assigned f).
Proof.
  intros Hf s s' b d Hs Hc H.
  rewrite (bind_ok _ (currency_assigned_eq s d Hs)), Hc in H.
  exact (Hf s s' b d Hs Hc H).
Qed.

Lemma provides_ratios_assign (c0 : option string) (key : string)
  (x : series) :
  provides c0 key (ratios_assign key x).
Proof.
  intros s s' u d Hs _ H. rewrite (ratios_assign_eq key x s d Hs) in H.
  injection H as H. subst s'. eexists. split; [reflexivity |].
  apply contains_setitem_same.
Qed.

Lemma provides_ratios_col (c0 : option string) (key : string) :
  provides c0 key (ratios_col key).
Proof.
  intros s s' x d Hs _ H. rewrite (ratios_col_eq key s d Hs) in H.
  injection H as Hget H. subst s'. exists d. split; [exact Hs |].
  unfold getitem in Hget. unfold contains.
  destruct (assoc key (columns d)); [reflexivity | discriminate].
Qed.

Create HintDb provides.

#[local] Hint Resolve provides_ratios_assign provides_ratios_col : provides.

(** The search for the place where a method provides a column: at the
    head of a sequence, the rest only adding to the table, or later in
    the sequence, the head only adding to the table. *)
Ltac provides_tac :=
  match goal with
  | |- provides _ _ (bind currency_assigned _) =>
      first
        [ solve [apply provides_currency; provides_tac]
        | solve [apply provides_later;
                 [solve [grows_tac] | intros; provides_tac]] ]
  | |- provides _ _ (bind _ _) =>
      first
        [ solve [apply provides_here;
                 [provides_tac | intros; solve [grows_tac]]]
        | solve [apply provides_later;
                 [solve [grows_tac] | intros; provides_tac]] ]
  | |- provides _ _ _ => solve [auto with provides]
  end.

Lemma derivation_provides (c0 : option string) (key : string) :
  In key (read_columns (str_of c0) ++ derived_columns (str_of c0))%list ->
  provides c0 key derivation.
Proof.
  intros Hin. unfold read_columns, derived_columns in Hin.
  cbn [In app] in Hin.
  unfold derivation, add_book_value_ps_growth, add_earnings_ps_growth,
    add_revenue_ps_growth, add_operating_cashflow_ps_growth,
    add_short_term_debt_ps_growth, add_total_debt, add_debt_ratios,
    add_pe, add_dividends_ps_growth.
  repeat (destruct Hin as [<- | Hin]; [provides_tac |]).
  destruct Hin.
Qed.

Lemma derived_table_inv (s s0 s' : State) (df0 df : table) :
  _ratios (self s) = None ->
  _load_report_csv_to_df "ratios" s = (Ok df0, s0) ->
  empty df0 = false ->
  ratios s = (Ok df, s') ->
  _ratios (self s') = Some df
  /\ extends df0 df
  /\ derivation (on_self (set_ratios (Some df0)) s0) = (Ok tt, s').
Proof.
  intros Hslot Hload Hne Hrun.
  rewrite (ratios_fresh s s0 df0 Hslot Hload), Hne in Hrun.
  cbn [negb] in Hrun. bind_inv Hrun as u s2 Hd.
  apply the_ratios_ok_inv in Hrun. destruct Hrun as [-> Hdf].
  destruct u. split; [exact Hdf |]. split; [| exact Hd].
  destruct (grows_derivation (on_self (set_ratios (Some df0)) s0) df0
              eq_refl) as [d' [H' E]].
  rewrite Hd in H'. cbn [snd] in H'. congruence.
Qed.

(** X6: when the derivation of a non-empty ratios export returns, the
    table that [ratios] hands out and keeps has the periods, the currency
    and all the columns of the export, the columns that the derivation
    reads (so a derivation that returns shows that the export had them),
    and every column that the derivation adds whatever the balance sheet
    holds. *)
Theorem derivation_that_returns_has_added_its_columns
  (s s0 s' : State) (df0 df : table) :
  _ratios (self s) = None ->
  _load_report_csv_to_df "ratios" s = (Ok df0, s0) ->
  empty df0 = false ->
  ratios s = (Ok df, s') ->
  _ratios (self s') = Some df
  /\ extends df0 df
  /\ Forall (fun key => contains df key = true)
       (read_columns (str_of (currency_of df0))
        ++ derived_columns (str_of (currency_of df0)))%list.
Proof.
  intros Hslot Hload Hne Hrun.
  destruct (derived_table_inv s s0 s' df0 df Hslot Hload Hne Hrun)
    as [Hdf [Hext Hd]].
  split; [exact Hdf |]. split; [exact Hext |].
  apply Forall_forall. intros key Hin.
  destruct (derivation_provides (currency_of df0) key Hin
              (on_self (set_ratios (Some df0)) s0) s' tt df0
              eq_refl eq_refl Hd) as [d' [H' K]].
  congruence.
Qed.

Lemma cached_ratios_run :
  ratios cached_state
  = (Ok (ratios_of cached_state), snd (ratios cached_state)).
Proof. apply ratios_of_shape. exact I. Qed.

Lemma derivation_that_returns_has_added_its_columns_witness :
  Forall (fun key => contains (ratios_of cached_state) key = true)
    (read_columns "usd" ++ derived_columns "usd")%list.
Proof.
  exact (proj2 (proj2
    (derivation_that_returns_has_added_its_columns cached_state
       cached_state (snd (ratios cached_state)) full_ratios_export
       (ratios_of cached_state) eq_refl eq_refl eq_refl
       cached_ratios_run))).
Defined.

(* ================================================================= *)
(** ** The summary table *)

Lemma select_columns_ok (df : table) (keys : list string) :
  Forall (fun key => contains df key = true) keys ->
  exists cs,
    select_columns df keys = Ok cs
    /\ map fst cs = keys
    /\ forall key vs, In (key, vs) cs -> assoc key (columns df) = Some vs.
Proof.
  induction keys as [| key keys IH]; intros H.
  - exists []. split; [reflexivity |]. split; [reflexivity |].
    intros key vs [].
  - inversion H as [| k l Hk Hl]; subst.
    destruct (IH Hl) as [cs [Hsel [Hnames Hcols]]].
    unfold contains in Hk. cbn [select_columns].
    destruct (assoc key (columns df)) as [vs |] eqn:E; [| discriminate].
    rewrite Hsel. cbn [rbind].
    exists ((key, vs) :: cs). split; [reflexivity |]. split.
    + cbn [map fst]. rewrite Hnames. reflexivity.
    + intros k' vs' [Heq | Hin].
      * injection Heq as <- <-. exact E.
      * apply Hcols. exact Hin.
Qed.

Lemma get_summary_df_assigned (s : State) (df : table) :
  _ratios (self s) = Some df ->
  get_summary_df s
  = (getitems df (summary_columns (str_of (currency_of df))), s).
Proof.
  intros H. unfold get_summary_df.
  rewrite (bind_ok _ (ratios_assigned s df H)).
  assert (Hc : currency s = (Ok (currency_of df), s)).
  { rewrite (currency_is_currency_assigned s df H).
    apply currency_assigned_eq. exact H. }
  do 4 rewrite (bind_ok _ Hc). reflexivity.
Qed.

(** X7: after a derivation that returned, on an export that has the
    returns on equity and on invested capital, [get_summary_df] returns
    without changing the object: its table has the periods of the ratios
    and exactly the fifteen columns of the summary, in their order, each
    one the column of that name in the ratios. *)
Theorem summary_of_a_derived_table (s s0 s' : State) (df0 df : table) :
  _ratios (self s) = None ->
  _load_report_csv_to_df "ratios" s = (Ok df0, s0) ->
  empty df0 = false ->
  ratios s = (Ok df, s') ->
  contains df0 "return-on-equity" = true ->
  contains df0 "return-on-invested-capital" = true ->
  exists t,
    get_summary_df s' = (Ok t, s')
    /\ index t = index df
    /\ map fst (columns t) = summary_columns (str_of (currency_of df))
    /\ forall key vs,
         In (key, vs) (columns t) -> assoc key (columns df) = Some vs.
Proof.
  intros Hslot Hload Hne Hrun Hroe Hroic.
  destruct (derived_table_inv s s0 s' df0 df Hslot Hload Hne Hrun)
    as [Hdf [[Hi [Hc Hk]] Hd]].
  assert (Hall : Forall (fun key => contains df key = true)
                   (summary_columns (str_of (currency_of df)))).
  { rewrite Hc. apply Forall_forall. intros key Hin.
    unfold summary_columns in Hin. cbn [In] in Hin.
    destruct Hin as [<- | [<- | Hin]];
      [apply Hk; exact Hroe | apply Hk; exact Hroic |].
    assert (Hin' : In key (read_columns (str_of (currency_of df0))
                           ++ derived_columns (str_of (currency_of df0)))%list).
    { unfold read_columns, derived_columns. cbn [In app].
      repeat (destruct Hin as [<- | Hin]; [tauto |]). destruct Hin. }
    destruct (derivation_provides (currency_of df0) key Hin'
                (on_self (set_ratios (Some df0)) s0) s' tt df0
                eq_refl eq_refl Hd) as [d' [Hd' K]].
    congruence. }
  destruct (select_columns_ok df _ Hall) as [cs [Hsel [Hnames Hcols]]].
  exists (mkTable (index df) cs).
  rewrite (get_summary_df_assigned s' df Hdf).
  unfold getitems. rewrite Hsel. cbn [rbind].
  split; [reflexivity |]. split; [reflexivity |].
  split; [exact Hnames | exact Hcols].
Qed.

Lemma summary_of_a_derived_table_witness :
  exists t,
    get_summary_df (snd (ratios cached_state))
    = (Ok t, snd (ratios cached_state))
    /\ map fst (columns t) = summary_columns "usd".
Proof.
  destruct (summary_of_a_derived_table cached_state cached_state
              (snd (ratios cached_state)) full_ratios_export
              (ratios_of cached_state) eq_refl eq_refl eq_refl
              cached_ratios_run eq_refl eq_refl)
    as [t [Hrun [_ [Hnames _]]]].
  exists t. split; [exact Hrun |].
  rewrite Hnames.
  destruct (derived_table_inv cached_state cached_state
              (snd (ratios cached_state)) full_ratios_export
              (ratios_of cached_state) eq_refl eq_refl eq_refl
              cached_ratios_run) as [_ [[_ [Hc _]] _]].
  rewrite Hc. reflexivity.
Defined.

(* ================================================================= *)
(** ** What a method leaves as it is *)

Lemma preserves_ret {A} (P : State -> Prop) (a : A) : preserves P (ret a).
Proof. intros s H. exact H. Qed.

Lemma preserves_raise {A} (P : State -> Prop) (e : exn) :
  preserves P (@raise A e).
Proof. intros s H. exact H. Qed.

Lemma preserves_lift {A} (P : State -> Prop) (r : result A) :
  preserves P (lift r).
Proof. intros s H. exact H. Qed.

Lemma preserves_gets {A} (P : State -> Prop) (f : State -> A) :
  preserves P (gets f).
Proof. intros s H. exact H. Qed.

Lemma preserves_modify (P : State -> Prop) (g : State -> State) :
  (forall s, P s -> P (g s)) -> preserves P (modify g).
Proof. intros Hg s H. apply Hg. exact H. Qed.

Lemma preserves_bind {A B} (P : State -> Prop) (m : M A) (f : A -> M B) :
  preserves P m -> (forall a, preserves P (f a)) -> preserves P (bind m f).
Proof.
  intros Hm Hf s H. unfold bind. specialize (Hm s H).
  destruct (m s) as [[a | e] s1]; cbn [snd] in *.
  - apply Hf. exact Hm.
  - exact Hm.
Qed.

Lemma preserves_try_except {A} (P : State -> Prop) (m : M A)
  (h : exn -> M A) :
  preserves P m -> (forall e, preserves P (h e)) ->
  preserves P (try_except m h).
Proof.
  intros Hm Hh s H. unfold try_except. specialize (Hm s H).
  destruct (m s) as [[a | e] s1]; cbn [snd] in *.
  - exact Hm.
  - apply Hh. exact Hm.
Qed.

Lemma preserves_for_each {A} (P : State -> Prop) (l : list A)
  (body : A -> M unit) :
  (forall a, preserves P (body a)) -> preserves P (for_each l body).
Proof.
  intros Hb. induction l as [| a l IH]; simpl.
  - apply preserves_ret.
  - apply preserves_bind; [apply Hb | intros _; exact IH].
Qed.

Lemma preserves_run {A} (P : State -> Prop) (m : M A) (s s' : State)
  (r : result A) :
  preserves P m -> P s -> m s = (r, s') -> P s'.
Proof. intros Hm H Hrun. specialize (Hm s H). rewrite Hrun in Hm. exact Hm. Qed.

Create HintDb preserves.

Ltac head_of t :=
  match t with
  | ?f _ => head_of f
  | _ => t
  end.

(** One step of a proof that a method preserves a property of the
    object: a method that is not known to preserve it is taken apart,
    down to the writes of the state. *)
Ltac preserves_step :=
  match goal with
  | |- preserves _ (bind _ _) => apply preserves_bind; [| intros]
  | |- preserves _ (try_except _ _) => apply preserves_try_except; [| intros]
  | |- preserves _ (for_each _ _) => apply preserves_for_each; intros
  | |- preserves _ (ret _) => apply preserves_ret
  | |- preserves _ (raise _) => apply preserves_raise
  | |- preserves _ (lift _) => apply preserves_lift
  | |- preserves _ (gets _) => apply preserves_gets
  | |- preserves _ (modify _) =>
      apply preserves_modify;
      let s := fresh "s" in let H := fresh "H" in
      intros s H; exact H
  | |- preserves _ (if ?c then _ else _) => destruct c
  | |- preserves _ (match ?x with _ => _ end) => destruct x
  | |- preserves _ _ => solve [auto with preserves]
  | |- preserves _ ?m => let h := head_of m in unfold h
  end.

Ltac preserves_tac := repeat preserves_step.

(* ================================================================= *)
(** ** The debt columns of the balance sheet *)

Lemma balancesheet_keeps_its_table (bs : table) :
  preserves (balancesheet_held bs) balancesheet.
Proof.
  intros s H. unfold balancesheet, bind, gets.
  unfold balancesheet_held in H. rewrite H. exact H.
Qed.

#[local] Hint Resolve balancesheet_keeps_its_table : preserves.

Lemma balancesheet_col_held (key : string) (bs : table) (s : State) :
  _balancesheet (self s) = Some bs ->
  balancesheet_col key s = (getitem bs key, s).
Proof.
  intros H. unfold balancesheet_col, balancesheet, bind, gets, lift.
  rewrite H. reflexivity.
Qed.

Lemma getitem_ok_contains (df : table) (key : string) (x : series) :
  getitem df key = Ok x -> contains df key = true.
Proof.
  unfold getitem, contains.
  destruct (assoc key (columns df)); [reflexivity | discriminate].
Qed.

Lemma add_total_debt_ok_inv (s s' : State) (bs : table) :
  _balancesheet (self s) = Some bs ->
  add_total_debt s = (Ok tt, s') ->
  contains bs "short-term-debt" = true
  /\ contains bs "long-term-debt" = true.
Proof.
  intros Hbs H. unfold add_total_debt in H.
  bind_inv H as st s1 Hst.
  rewrite (balancesheet_col_held _ bs s Hbs) in Hst.
  injection Hst as Hst <-.
  bind_inv H as lt s2 Hlt.
  rewrite (balancesheet_col_held _ bs s Hbs) in Hlt.
  injection Hlt as Hlt <-.
  split; eapply getitem_ok_contains; eassumption.
Qed.

Lemma derivation_ok_debt_columns (s s' : State) (bs : table) :
  _balancesheet (self s) = Some bs ->
  derivation s = (Ok tt, s') ->
  contains bs "short-term-debt" = true
  /\ contains bs "long-term-debt" = true.
Proof.
  intros Hbs H. unfold derivation in H.
  bind_inv H as u1 s1 H1.
  bind_inv H as u2 s2 H2.
  bind_inv H as u3 s3 H3.
  bind_inv H as u4 s4 H4.
  bind_inv H as u5 s5 H5.
  bind_inv H as u6 s6 H6.
  bind_inv H as u7 s7 H7.
  assert (K1 : balancesheet_held bs s1).
  { refine (preserves_run _ _ _ _ _ _ Hbs H1). preserves_tac. }
  assert (K2 : balancesheet_held bs s2).
  { refine (preserves_run _ _ _ _ _ _ K1 H2). preserves_tac. }
  assert (K3 : balancesheet_held bs s3).
  { refine (preserves_run _ _ _ _ _ _ K2 H3). preserves_tac. }
  assert (K4 : balancesheet_held bs s4).
  { refine (preserves_run _ _ _ _ _ _ K3 H4). preserves_tac. }
  assert (K5 : balancesheet_held bs s5).
  { refine (preserves_run _ _ _ _ _ _ K4 H5). preserves_tac. }
  assert (K6 : balancesheet_held bs s6).
  { refine (preserves_run _ _ _ _ _ _ K5 H6). preserves_tac. }
  destruct u7. exact (add_total_debt_ok_inv s6 s7 bs K6 H7).
Qed.

Lemma add_long_term_debt_is_guarded (s : State) (bs : table) :
  _balancesheet (self s) = Some bs ->
  contains bs "long-term-debt" = false ->
  add_long_term_debt_ps_growth s = (Ok tt, s).
Proof.
  intros Hbs Hc. unfold add_long_term_debt_ps_growth, balancesheet.
  unfold bind at 1. unfold bind at 1, gets at 1. rewrite Hbs.
  unfold ret at 1. rewrite Hc. reflexivity.
Qed.

(** X8: on a balance sheet without the column [long-term-debt] the step
    for the long-term debt does nothing and does not raise, for it tests
    for the column; the step for the total debt reads the column without
    such a test and raises [KeyError], and so the derivation of the
    ratios as a whole raises for such a company. *)
Theorem derivation_raises_without_long_term_debt (s : State) (bs : table) :
  _balancesheet (self s) = Some bs ->
  contains bs "long-term-debt" = false ->
  add_long_term_debt_ps_growth s = (Ok tt, s)
  /\ (add_total_debt s = (Raise (KeyError "short-term-debt"), s)
      \/ add_total_debt s = (Raise (KeyError "long-term-debt"), s))
  /\ exists e, fst (derivation s) = Raise e.
Proof.
  intros Hbs Hc. split; [exact (add_long_term_debt_is_guarded s bs Hbs Hc) |].
  split.
  - assert (Hlt : getitem bs "long-term-debt"
                  = Raise (KeyError "long-term-debt")).
    { unfold getitem. unfold contains in Hc.
      destruct (assoc "long-term-debt" (columns bs));
        [discriminate | reflexivity]. }
    assert (Hst : getitem bs "short-term-debt"
                  = Raise (KeyError "short-term-debt")
                  \/ exists st, getitem bs "short-term-debt" = Ok st).
    { unfold getitem.
      destruct (assoc "short-term-debt" (columns bs)) as [vs |];
        [right; eexists; reflexivity | left; reflexivity]. }
    unfold add_total_debt. destruct Hst as [Hst | [st Hst]].
    + left. apply bind_raise.
      rewrite (balancesheet_col_held _ bs s Hbs), Hst. reflexivity.
    + right. rewrite (@bind_ok _ _ _ _ s s st)
        by (rewrite (balancesheet_col_held _ bs s Hbs), Hst; reflexivity).
      apply bind_raise.
      rewrite (balancesheet_col_held _ bs s Hbs), Hlt. reflexivity.
  - destruct (derivation s) as [[[] | e] s'] eqn:Hd.
    + destruct (derivation_ok_debt_columns s s' bs Hbs Hd) as [_ H].
      rewrite H in Hc. discriminate.
    + exists e. reflexivity.
Qed.

Lemma derivation_raises_without_long_term_debt_witness :
  add_long_term_debt_ps_growth (held_state short_term_only_balancesheet)
  = (Ok tt, held_state short_term_only_balancesheet)
  /\ fst (derivation (held_state short_term_only_balancesheet))
     = Raise (KeyError "long-term-debt").
Proof.
  split.
  - exact (proj1 (derivation_raises_without_long_term_debt
                    (held_state short_term_only_balancesheet)
                    short_term_only_balancesheet eq_refl eq_refl)).
  - reflexivity.
Defined.

(* ================================================================= *)
(** ** A ratios export that cannot be read *)

(** X9: a cached ratios export that is empty or cannot be processed does
    not make [ratios] raise: the property returns and keeps the empty
    table, without running the derivation, and the error log gets one
    entry.  On that object the currency is [None], the target P/E is the
    sentinel [-1], which is not kept, the growth estimate raises
    [KeyError] for the first column it reads, and the summary raises
    [KeyError] too. *)
Theorem unreadable_ratios_export_degrades (s : State) (f : file) :
  _ratios (self s) = None ->
  assoc (cache_path s "ratios") (files (world s)) = Some f ->
  content f = EmptyExport \/ content f = Malformed ->
  let s' := on_self (set_ratios (Some empty_frame))
              (on_self (append_error (unreadable_message (content f))) s) in
  ratios s = (Ok empty_frame, s')
  /\ currency s' = (Ok None, s')
  /\ (_target_pe (self s) = None -> target_pe s' = (Ok (Fin (-1)), s'))
  /\ (_estimated_growth (self s) = None ->
      estimated_growth s' = (Raise (KeyError "earnings-ps-growth"), s'))
  /\ exists key, get_summary_df s' = (Raise (KeyError key), s').
Proof.
  intros Hslot Hf Hc s'.
  assert (Hload : _load_report_csv_to_df "ratios" s
                  = (Ok empty_frame,
                     on_self (append_error (unreadable_message (content f)))
                       s)).
  { destruct Hc as [Hc | Hc]; rewrite Hc.
    - exact (load_report_empty_export "ratios" s f Hf Hc).
    - exact (load_report_malformed_export "ratios" s f Hf Hc). }
  assert (Hs' : _ratios (self s') = Some empty_frame) by reflexivity.
  pose proof (ratios_assigned s' empty_frame Hs') as Hr.
  split; [| split; [| split; [| split]]].
  - rewrite (ratios_fresh s _ empty_frame Hslot Hload). reflexivity.
  - unfold currency. rewrite (bind_ok _ Hr). reflexivity.
  - intros Ht. apply (target_pe_without_pe s' s' empty_frame);
      [exact Ht | exact Hr | reflexivity].
  - intros Hg. apply estimated_growth_raises; [exact Hg |].
    unfold estimated_eps_growth, _get_average_growth_rate.
    rewrite (bind_ok _ Hr). reflexivity.
  - exists "return-on-equity"%string.
    rewrite (get_summary_df_assigned s' empty_frame Hs'). reflexivity.
Qed.

Lemma unreadable_ratios_export_degrades_witness :
  ratios empty_ratios_export_state
  = (Ok empty_frame,
     on_self (set_ratios (Some empty_frame))
       (on_self (append_error "No ratios report found")
          empty_ratios_export_state))
  /\ fst (target_pe (snd (ratios empty_ratios_export_state)))
     = Ok (Fin (-1)).
Proof.
  pose proof (unreadable_ratios_export_degrades empty_ratios_export_state
                (mkFile 999000 EmptyExport) eq_refl eq_refl
                (or_introl eq_refl)) as H.
  cbv zeta in H. destruct H as [Hr [_ [Ht _]]].
  split; [exact Hr |]. rewrite Hr. cbn [snd].
  rewrite (Ht eq_refl). reflexivity.
Defined.

Local Open Scope R_scope.

(* ================================================================= *)
(** ** What the object holds is not loaded or computed again *)

Lemma run_calls_preserves (P : State -> Prop) (cs : list call) :
  Forall (fun c => preserves P (run_call c)) cs ->
  forall s, P s -> P (snd (run_calls cs s)).
Proof.
  intros H. induction H as [| c cs Hc _ IH]; intros s Hs.
  - exact Hs.
  - cbn [run_calls]. specialize (Hc s Hs).
    destruct (run_call c s) as [r s1]. cbn [snd] in Hc.
    specialize (IH s1 Hc).
    destruct (run_calls cs s1) as [rs s2]. exact IH.
Qed.

Lemma income_keeps_its_table (df : table) :
  preserves (table_held Income df) income.
Proof.
  intros s H. unfold income, bind, gets.
  unfold table_held, slot_of in H. rewrite H. exact H.
Qed.

Lemma cashflow_keeps_its_table (df : table) :
  preserves (table_held Cashflow df) cashflow.
Proof.
  intros s H. unfold cashflow, bind, gets.
  unfold table_held, slot_of in H. rewrite H. exact H.
Qed.

Lemma balancesheet_keeps_the_table (df : table) :
  preserves (table_held Balancesheet df) balancesheet.
Proof. exact (balancesheet_keeps_its_table df). Qed.

Lemma ratios_keeps_its_table (df : table) :
  preserves (table_held Ratios df) ratios.
Proof.
  intros s H. unfold ratios, bind, gets.
  unfold table_held, slot_of in H. rewrite H. exact H.
Qed.

Lemma estimated_growth_keeps_its_value (g : float) :
  preserves (growth_held g) estimated_growth.
Proof.
  intros s H. unfold estimated_growth, bind, gets.
  unfold growth_held in H. rewrite H. exact H.
Qed.

#[local] Hint Resolve income_keeps_its_table cashflow_keeps_its_table
  balancesheet_keeps_the_table ratios_keeps_its_table
  estimated_growth_keeps_its_value : preserves.

Lemma getter_ok_held (p : statement) (s s1 : State) (df : table) :
  getter p s = (Ok df, s1) -> table_held p df s1.
Proof.
  destruct p; unfold getter, table_held, slot_of; intros H.
  - unfold income in H. unfold bind at 1, gets at 1 in H.
    destruct (_income (self s)) as [d |] eqn:E.
    + injection H as <- <-. exact E.
    + bind_inv H as d t Hl. injection H as <- <-. reflexivity.
  - unfold cashflow in H. unfold bind at 1, gets at 1 in H.
    destruct (_cashflow (self s)) as [d |] eqn:E.
    + injection H as <- <-. exact E.
    + bind_inv H as d t Hl. injection H as <- <-. reflexivity.
  - unfold balancesheet in H. unfold bind at 1, gets at 1 in H.
    destruct (_balancesheet (self s)) as [d |] eqn:E.
    + injection H as <- <-. exact E.
    + bind_inv H as d t Hl. injection H as <- <-. reflexivity.
  - unfold ratios in H. unfold bind at 1, gets at 1 in H.
    destruct (_ratios (self s)) as [d |] eqn:E.
    + injection H as <- <-. exact E.
    + bind_inv H as d t Hl. bind_inv H as u1 t1 H1.
      bind_inv H as u2 t2 H2.
      apply the_ratios_ok_inv in H. destruct H as [-> H]. exact H.
Qed.

Lemma getter_held (p : statement) (s : State) (df : table) :
  table_held p df s -> getter p s = (Ok df, s).
Proof.
  destruct p; unfold getter, table_held, slot_of; intros H.
  - unfold income, bind, gets. rewrite H. reflexivity.
  - unfold cashflow, bind, gets. rewrite H. reflexivity.
  - unfold balancesheet, bind, gets. rewrite H. reflexivity.
  - apply ratios_assigned. exact H.
Qed.

Lemma run_call_keeps_the_table (p : statement) (df : table) (c : call) :
  (forall v, c <> setter_call p v) ->
  preserves (table_held p df) (run_call c).
Proof.
  intros Hc.
  destruct p; destruct c;
    try (exfalso; eapply Hc; reflexivity);
    unfold run_call; preserves_tac.
Qed.

(** X13: a table that one of the properties [income], [cashflow],
    [balancesheet] and [ratios] has returned is what the property returns
    from then on, without any effect, through any sequence of the calls
    of [call] other than an assignment of the property: reading
    [income], [cashflow], [balancesheet], [ratios], [historic_prices],
    [currency], the four growth estimates, [estimated_growth] and
    [target_pe], assigning the other properties, clearing the cached
    files, letting the cache lifetime pass.  (After [clear_cached_files]
    the object goes on with the tables it holds.  The steps of the
    derivation called on their own, and [projected_dividends_growth],
    which calls one of them, are not among these calls: they add columns
    to the ratios table that the object holds.) *)
Theorem loaded_tables_are_never_reloaded (p : statement) (cs : list call)
  (s s1 : State) (df : table) :
  getter p s = (Ok df, s1) ->
  Forall (fun c => forall v, c <> setter_call p v) cs ->
  getter p (snd (run_calls cs s1)) = (Ok df, snd (run_calls cs s1)).
Proof.
  intros Hrun Hcs. apply getter_held.
  apply run_calls_preserves.
  - eapply Forall_impl; [| exact Hcs].
    intros c Hc. apply run_call_keeps_the_table. exact Hc.
  - exact (getter_ok_held p s s1 df Hrun).
Qed.

Lemma loaded_tables_are_never_reloaded_witness :
  getter Ratios
    (snd (run_calls [ClearCachedFiles; Wait 100000; GetIncome; GetTargetPE]
            (snd (ratios cached_state))))
  = (Ok (ratios_of cached_state),
     snd (run_calls [ClearCachedFiles; Wait 100000; GetIncome; GetTargetPE]
            (snd (ratios cached_state)))).
Proof.
  refine (loaded_tables_are_never_reloaded Ratios
            [ClearCachedFiles; Wait 100000; GetIncome; GetTargetPE]
            cached_state (snd (ratios cached_state))
            (ratios_of cached_state) cached_ratios_run _).
  repeat constructor; intros v; discriminate.
Defined.

Lemma estimated_growth_ok_held (s s1 : State) (g : float) :
  estimated_growth s = (Ok g, s1) -> growth_held g s1.
Proof.
  intros H. unfold estimated_growth in H.
  unfold bind at 1, gets at 1 in H. unfold growth_held.
  destruct (_estimated_growth (self s)) as [g0 |] eqn:E.
  - injection H as <- <-. exact E.
  - bind_inv H as e t1 He. bind_inv H as r t2 Hr.
    bind_inv H as b t3 Hb. bind_inv H as o t4 Ho.
    injection H as <- <-. reflexivity.
Qed.

Lemma run_call_keeps_the_growth (g : float) (c : call) :
  (forall v, c <> SetEstimatedGrowth v) ->
  preserves (growth_held g) (run_call c).
Proof.
  intros Hc.
  destruct c;
    try (exfalso; eapply Hc; reflexivity);
    unfold run_call; preserves_tac.
Qed.

(** X14: the growth estimate that [estimated_growth] has returned is
    what it returns from then on, without any effect, whatever the
    caller does in between other than assigning the estimate: in
    particular the estimate is not computed again after other ratios
    have been assigned to the object. *)
Theorem estimated_growth_is_never_recomputed (cs : list call)
  (s s1 : State) (g : float) :
  estimated_growth s = (Ok g, s1) ->
  Forall (fun c => forall v, c <> SetEstimatedGrowth v) cs ->
  estimated_growth (snd (run_calls cs s1))
  = (Ok g, snd (run_calls cs s1)).
Proof.
  intros Hrun Hcs.
  assert (H : growth_held g (snd (run_calls cs s1))).
  { apply run_calls_preserves.
    - eapply Forall_impl; [| exact Hcs].
      intros c Hc. apply run_call_keeps_the_growth. exact Hc.
    - exact (estimated_growth_ok_held s s1 g Hrun). }
  unfold estimated_growth, bind, gets. unfold growth_held in H.
  rewrite H. reflexivity.
Qed.

Lemma estimated_growth_is_never_recomputed_witness :
  estimated_growth
    (snd (run_calls [SetRatios (Some loss_making_table);
                     SetRatios None; ClearCachedFiles]
            (on_self (set_estimated_growth (Some (b64 (1 / 10))))
               steady_growth_state)))
  = (Ok (b64 (1 / 10)),
     snd (run_calls [SetRatios (Some loss_making_table);
                     SetRatios None; ClearCachedFiles]
            (on_self (set_estimated_growth (Some (b64 (1 / 10))))
               steady_growth_state))).
Proof.
  refine (estimated_growth_is_never_recomputed
            [SetRatios (Some loss_making_table); SetRatios None;
             ClearCachedFiles]
            steady_growth_state
            (on_self (set_estimated_growth (Some (b64 (1 / 10))))
               steady_growth_state)
            (b64 (1 / 10))
            (steady_estimated_growth steady_growth_state
               steady_growth_table (date 2019 12 1) (date 2020 12 1)
               eq_refl eq_refl eq_refl
               (steady_growth_columns [Fin 15; Fin 30])) _).
  repeat constructor; intros v; discriminate.
Defined.

(* ================================================================= *)
(** ** A ratios table without a currency *)

Lemma currency_of_keys_none (keys : list string) (key : string) :
  currency_of_keys keys = None ->
  In key keys ->
  starts_with "earnings-per-share-" key = false.
Proof.
  induction keys as [| k keys IH]; intros H Hin; [destruct Hin |].
  cbn [currency_of_keys] in H.
  destruct (starts_with "earnings-per-share-" k) eqn:E; [discriminate |].
  destruct Hin as [<- | Hin]; [exact E | exact (IH H Hin)].
Qed.

Lemma assoc_in_keys {A} (key : string) (l : list (string * A)) (v : A) :
  assoc key l = Some v -> In key (map fst l).
Proof.
  induction l as [| [k x] l IH]; simpl; [discriminate |].
  destruct (String.eqb key k) eqn:E.
  - apply String.eqb_eq in E. intros _. left. symmetry. exact E.
  - intros H. right. exact (IH H).
Qed.

Lemma no_currency_no_earnings_column (d : table) (key : string) :
  currency_of d = None ->
  starts_with "earnings-per-share-" key = true ->
  getitem d key = Raise (KeyError key).
Proof.
  intros Hc Hk. unfold getitem.
  destruct (assoc key (columns d)) as [vs |] eqn:E; [| reflexivity].
  apply assoc_in_keys in E.
  rewrite (currency_of_keys_none _ key Hc E) in Hk. discriminate.
Qed.

(** X15: the currency of a ratios table without a column whose name
    starts with [earnings-per-share-] is [None], which the steps of the
    derivation format as the text [None]: the derivation raises
    [KeyError] in its first step, for the column
    [book-value-per-share-None], or, should the table have a column of
    that name, in its second step, for [earnings-per-share-None].
    Nothing is retrieved and nothing is written to the error log. *)
Theorem derivation_without_currency_raises (s : State) (d : table) :
  _ratios (self s) = Some d ->
  currency_of d = None ->
  exists key t,
    derivation s = (Raise (KeyError key), t)
    /\ (key = "book-value-per-share-None"%string
        \/ key = "earnings-per-share-None"%string)
    /\ world t = world s
    /\ error_log (self t) = error_log (self s).
Proof.
  intros Hs Hc. unfold derivation.
  destruct (getitem d "book-value-per-share-None") as [b | e] eqn:Hb.
  - set (d1 := setitem d "book-value-ps-growth" (pct_change b)).
    set (s1 := on_self (set_ratios (Some d1)) s).
    assert (H1 : add_book_value_ps_growth s = (Ok tt, s1)).
    { apply add_book_value_ps_growth_eq; [exact Hs |].
      rewrite Hc. exact Hb. }
    assert (Hs1 : _ratios (self s1) = Some d1) by reflexivity.
    assert (Hc1 : currency_of d1 = None).
    { unfold d1. rewrite currency_of_setitem by reflexivity. exact Hc. }
    exists "earnings-per-share-None"%string, s1.
    split; [| split; [right; reflexivity | split; reflexivity]].
    rewrite (bind_ok _ H1). apply bind_raise.
    unfold add_earnings_ps_growth.
    rewrite (bind_ok _ (currency_assigned_eq s1 d1 Hs1)), Hc1.
    apply bind_raise. rewrite (ratios_col_eq _ s1 d1 Hs1).
    change (getitem d1 ("earnings-per-share-" ++ str_of None))
      with (getitem d1 "earnings-per-share-None").
    rewrite (no_currency_no_earnings_column d1
               "earnings-per-share-None" Hc1 eq_refl).
    reflexivity.
  - exists "book-value-per-share-None"%string, s.
    split; [| split; [left; reflexivity | split; reflexivity]].
    apply bind_raise. unfold add_book_value_ps_growth.
    rewrite (bind_ok _ (currency_assigned_eq s d Hs)), Hc.
    apply bind_raise. rewrite (ratios_col_eq _ s d Hs).
    change (getitem d ("book-value-per-share-" ++ str_of None))
      with (getitem d "book-value-per-share-None").
    rewrite Hb. unfold getitem in Hb.
    destruct (assoc "book-value-per-share-None" (columns d));
      [discriminate |].
    injection Hb as <-. reflexivity.
Qed.

Lemma derivation_without_currency_raises_witness :
  exists key t,
    derivation no_currency_state = (Raise (KeyError key), t)
    /\ world t = world no_currency_state.
Proof.
  destruct (derivation_without_currency_raises no_currency_state
              no_currency_table eq_refl eq_refl)
    as [key [t [Hrun [_ [Hw _]]]]].
  exists key, t. split; [exact Hrun | exact Hw].
Defined.

(* ================================================================= *)
(** ** The paths of the cached exports *)

Lemma append_inj_l (a b c : string) : (a ++ b = a ++ c -> b = c)%string.
Proof.
  induction a as [| x a IH]; simpl; intros H.
  - exact H.
  - injection H as H. exact (IH H).
Qed.

Lemma append_inj_r_length (a : string) :
  forall b c : string,
    String.length b = String.length c ->
    (b ++ a = c ++ a)%string -> b = c.
Proof.
  induction b as [| x b IH]; intros [| y c] Hlen H; simpl in *;
    try reflexivity; try discriminate.
  injection H as -> H. f_equal. apply IH; [lia | exact H].
Qed.

Lemma append_inj_r (a b c : string) : (b ++ a = c ++ a -> b = c)%string.
Proof.
  intros H. apply (append_inj_r_length a); [| exact H].
  apply (f_equal String.length) in H.
  rewrite !string_length_append in H. lia.
Qed.

Lemma os_path_join_inj (a b c : string) :
  starts_with "/" b = false ->
  starts_with "/" c = false ->
  os_path_join a b = os_path_join a c -> b = c.
Proof.
  intros Hb Hc. unfold os_path_join. rewrite Hb, Hc.
  destruct (String.eqb a "" || ends_with "/" a)%bool; intros H.
  - exact (append_inj_l a b c H).
  - apply append_inj_l in H. exact (append_inj_l "/" b c H).
Qed.

(** X16: in one data directory, the paths of two cached exports are the
    same only for the same kind of report and the same symbol: the five
    exports of an object have five different files, and objects for
    different symbols share none. *)
Theorem cached_exports_have_their_own_files (s1 s2 : State)
  (rt1 rt2 : string) :
  morningstar_data_path (world s1) = morningstar_data_path (world s2) ->
  In rt1 report_types ->
  In rt2 report_types ->
  fst (report_path rt1 s1) = fst (report_path rt2 s2) ->
  rt1 = rt2 /\ symbol (self s1) = symbol (self s2).
Proof.
  intros Hdir H1 H2 H. unfold report_path in H. munfold. cbn [fst] in H.
  rewrite Hdir in H. injection H as H.
  unfold report_types in H1, H2. cbn [In] in H1, H2.
  assert (Hb : (rt1 ++ "_" ++ symbol (self s1) ++ ".csv"
                = rt2 ++ "_" ++ symbol (self s2) ++ ".csv")%string).
  { apply (os_path_join_inj _ _ _) in H; [exact H | |].
    - destruct H1 as [<- | [<- | [<- | [<- | [<- | []]]]]]; reflexivity.
    - destruct H2 as [<- | [<- | [<- | [<- | [<- | []]]]]]; reflexivity. }
  clear H.
  destruct H1 as [<- | [<- | [<- | [<- | [<- | []]]]]];
    destruct H2 as [<- | [<- | [<- | [<- | [<- | []]]]]];
    try discriminate Hb;
    (split; [reflexivity |]);
    apply append_inj_l in Hb; apply append_inj_l in Hb;
    exact (append_inj_r _ _ _ Hb).
Qed.

Lemma cached_exports_have_their_own_files_witness :
  "price"%string = "price"%string
  /\ symbol (self acme_state) = symbol (self cached_state).
Proof.
  apply (cached_exports_have_their_own_files acme_state cached_state
           "price" "price" eq_refl).
  - simpl. tauto.
  - simpl. tauto.
  - reflexivity.
Defined.

(* ================================================================= *)
(** ** The filters *)

Lemma passes_filters_app (fs1 fs2 : list filter) :
  forall (out out1 : list string) (s s1 : State),
    passes_filters fs1 out s = (Ok true, out1, s1) ->
    passes_filters (fs1 ++ fs2)%list out s = passes_filters fs2 out1 s1
    /\ out1 = (out ++ map checking fs1)%list.
Proof.
  induction fs1 as [| f fs1 IH]; intros out out1 s s1 H.
  - cbn [passes_filters] in H. injection H as <- <-.
    split; [reflexivity |]. cbn [map]. rewrite app_nil_r. reflexivity.
  - cbn [passes_filters app] in *.
    destruct (check f s) as [[[|] | e] s'].
    + destruct (IH _ _ _ _ H) as [Happ Hout].
      split; [exact Happ |].
      rewrite Hout, <- app_assoc. reflexivity.
    + discriminate.
    + discriminate.
Qed.

(** X17: [passes_filters] runs the checks in the order of the filters,
    each on the object as the checks before it left it, and stops at the
    first filter that rejects: it answers [False], it has printed one
    line for each filter up to and including that one, and the filters
    after it are neither announced nor run, so that one of them that
    would raise goes unnoticed. *)
Theorem passes_filters_stops_at_the_first_rejection
  (fs1 fs2 : list filter) (f : filter) (out out1 : list string)
  (s s1 s2 : State) :
  passes_filters fs1 out s = (Ok true, out1, s1) ->
  check f s1 = (Ok false, s2) ->
  passes_filters (fs1 ++ f :: fs2)%list out s
  = (Ok false, (out ++ map checking fs1 ++ [checking f])%list, s2).
Proof.
  intros H1 Hf.
  destruct (passes_filters_app fs1 (f :: fs2) out out1 s s1 H1)
    as [Happ Hout].
  rewrite Happ. cbn [passes_filters]. rewrite Hf, Hout.
  rewrite <- app_assoc. reflexivity.
Qed.

Lemma passes_filters_stops_at_the_first_rejection_witness :
  passes_filters [accept_all; reject_all; broken_filter] [] offline_state
  = (Ok false, ["checking accept"; "checking reject"]%string,
     offline_state).
Proof.
  exact (passes_filters_stops_at_the_first_rejection [accept_all]
           [broken_filter] reject_all [] ["checking accept"%string]
           offline_state offline_state offline_state eq_refl eq_refl).
Defined.

(* ================================================================= *)
(** ** The cache of the statement exports *)

Lemma load_report_cached (rt : string) (t : State) (f : file) :
  assoc (cache_path t rt) (files (world t)) = Some f ->
  _load_report_csv_to_df rt t
  = match content f with
    | Parsed df => (Ok df, t)
    | EmptyExport =>
        (Ok empty_frame,
         on_self (append_error ("No " ++ rt ++ " report found")) t)
    | Malformed =>
        (Ok empty_frame,
         on_self (append_error ("Unable to process report: " ++ rt)) t)
    end.
Proof.
  intros Hf. destruct (content f) as [| | df] eqn:Hc.
  - exact (load_report_empty_export rt t f Hf Hc).
  - exact (load_report_malformed_export rt t f Hf Hc).
  - exact (load_report_present rt t f df Hf Hc).
Qed.

(** X18: an export that is not cached is retrieved once: what the server
    answers is written to the file of the export, whatever it is, with
    the time of the retrieval.  From then on, as long as the file is
    there, every load of that export by an object for the symbol (the
    same object or a new one, at any later time) reads the file and
    retrieves nothing: it sends no request, writes no file and does not
    raise, and an answer that was empty or could not be processed keeps
    being read as the empty table. *)
Theorem retrieved_export_is_read_from_the_cache (rt : string)
  (s : State) (c : export) :
  assoc (cache_path s rt) (files (world s)) = None ->
  remote (world s) (report_url s rt) = Some c ->
  let f := mkFile (clock (world s)) c in
  let s1 := snd (_load_report_csv_to_df rt s) in
  assoc (cache_path s rt) (files (world s1)) = Some f
  /\ requests (world s1) = report_url s rt :: requests (world s)
  /\ forall t,
       cache_path t rt = cache_path s rt ->
       assoc (cache_path s rt) (files (world t)) = Some f ->
       world (snd (_load_report_csv_to_df rt t)) = world t
       /\ (exists df, fst (_load_report_csv_to_df rt t) = Ok df)
       /\ ((forall df, c <> Parsed df) ->
           fst (_load_report_csv_to_df rt t) = Ok empty_frame).
Proof.
  intros Hf Hr f s1.
  set (s0 := on_world (fun w => set_files
                         (set_assoc (cache_path s rt) f (files w))
                         (add_request (report_url s rt) w)) s).
  assert (Hf0 : assoc (cache_path s0 rt) (files (world s0)) = Some f).
  { change (cache_path s0 rt) with (cache_path s rt).
    apply assoc_set_assoc_same. }
  assert (Hrun : _load_report_csv_to_df rt s
                 = _load_report_csv_to_df rt s0).
  { rewrite (load_report_cached rt s0 f Hf0).
    unfold _load_report_csv_to_df, _download_morningstar_data, urlretrieve,
      report_path, read_csv.
    munfold. fold (cache_path s rt). rewrite csv_cache_valid_present.
    cbv beta iota. rewrite Hf. cbn [negb]. fold (report_url s rt).
    cbn [world on_world add_request remote]. rewrite Hr.
    cbn [world on_world self set_files files morningstar_data_path
         add_request].
    rewrite assoc_set_assoc_same. cbn [content f].
    destruct c; reflexivity. }
  assert (Hw : forall t g,
            assoc (cache_path t rt) (files (world t)) = Some g ->
            world (snd (_load_report_csv_to_df rt t)) = world t).
  { intros t g Hg. rewrite (load_report_cached rt t g Hg).
    destruct (content g); reflexivity. }
  split; [| split].
  - unfold s1. rewrite Hrun, (Hw s0 f Hf0). exact Hf0.
  - unfold s1. rewrite Hrun, (Hw s0 f Hf0). reflexivity.
  - intros t Hp Ht. rewrite <- Hp in Ht.
    split; [exact (Hw t f Ht) |].
    rewrite (load_report_cached rt t f Ht). cbn [content f].
    split.
    + destruct c; eexists; reflexivity.
    + intros Hc. destruct c as [| | df]; try reflexivity.
      exfalso. exact (Hc df eq_refl).
Qed.

Lemma retrieved_export_is_read_from_the_cache_witness :
  fst (_load_report_csv_to_df "income" empty_answer_state)
  = Ok empty_frame
  /\ requests
       (world (snd (_load_report_csv_to_df "income" empty_answer_state)))
     = [report_url empty_answer_state "income"].
Proof.
  split; [reflexivity |].
  exact (proj1 (proj2 (retrieved_export_is_read_from_the_cache "income"
                         empty_answer_state EmptyExport eq_refl eq_refl))).
Defined.

(* ================================================================= *)
(** ** The current price and the current price over earnings *)

(** X19: when no price export is cached and the price download raises,
    [current_price] raises [IndexError], the price history being the
    empty table that the loader returned; the object keeps that table,
    so that every later access raises again without another download
    being tried. *)
Theorem current_price_after_a_failed_download (s s1 : State) (e : exn) :
  _historic_prices (self s) = None ->
  assoc (price_path s) (files (world s)) = None ->
  _download_morningstar_pricedata s = (Raise e, s1) ->
  let s2 := on_self (set_historic_prices (Some empty_frame))
              (on_self (append_error "Unable to load price data") s1) in
  current_price s = (Raise IndexError, s2)
  /\ current_price s2 = (Raise IndexError, s2).
Proof.
  intros Hslot Hf Hd s2. split.
  - unfold current_price, historic_prices.
    rewrite (bind_ok _ (historic_prices_after_failed_download currency
                          s s1 e Hslot Hf Hd)).
    reflexivity.
  - unfold current_price, historic_prices, historic_prices_with.
    unfold bind, gets. reflexivity.
Qed.

Lemma current_price_after_a_failed_download_witness :
  fst (current_price offline_state) = Raise IndexError
  /\ error_log (self (snd (current_price offline_state)))
     = ["Unable to load price data"%string].
Proof.
  pose proof (current_price_after_a_failed_download offline_state
                (on_world (add_request (report_url offline_state "ratios"))
                   offline_state)
                MorningStarPriceError eq_refl eq_refl eq_refl) as H.
  cbv zeta in H. destruct H as [H _]. rewrite H. split; reflexivity.
Defined.

Lemma current_pe_unfold (s s1 : State) (df : table) (col : series)
  (p e : float) :
  current_price s = (Ok p, s1) ->
  _ratios (self s1) = Some df ->
  getitem df ("earnings-per-share-" ++ str_of (currency_of df)) = Ok col ->
  series_last col = Ok e ->
  current_pe s = (py_truediv p e, s1).
Proof.
  intros Hp Hdf Hcol He. unfold current_pe.
  rewrite (bind_ok _ Hp).
  rewrite (bind_ok _ (ratios_assigned s1 df Hdf)).
  assert (Hc : currency s1 = (Ok (currency_of df), s1)).
  { rewrite (currency_is_currency_assigned s1 df Hdf).
    apply currency_assigned_eq. exact Hdf. }
  rewrite (bind_ok _ Hc), Hcol. unfold lift at 1. unfold bind at 1.
  rewrite He. reflexivity.
Qed.

(** X20: [current_pe] divides two Python floats: when the latest
    earnings per share are zero it raises [ZeroDivisionError] (where the
    column [pe], a division of numpy, holds an infinity or [NaN]);
    otherwise, for a finite price and finite earnings, it is their
    quotient. *)
Theorem current_pe_of_zero_earnings_raises (s s1 : State) (df : table)
  (col : series) (p e : R) :
  current_price s = (Ok (Fin p), s1) ->
  _ratios (self s1) = Some df ->
  getitem df ("earnings-per-share-" ++ str_of (currency_of df)) = Ok col ->
  series_last col = Ok (Fin e) ->
  (e = 0 -> current_pe s = (Raise ZeroDivisionError, s1))
  /\ (e <> 0 -> current_pe s = (Ok (Fin (p / e)), s1)).
Proof.
  intros Hp Hdf Hcol He.
  rewrite (current_pe_unfold s s1 df col _ _ Hp Hdf Hcol He).
  unfold py_truediv. split; intros H.
  - subst e. rewrite feqb_Fin_refl. reflexivity.
  - rewrite (feqb_Fin_false _ _ H), (fdiv_Fin _ _ H). reflexivity.
Qed.

Lemma current_pe_of_zero_earnings_raises_witness :
  current_pe (latest_earnings_state 0)
  = (Raise ZeroDivisionError, latest_earnings_state 0)
  /\ current_pe (latest_earnings_state 4)
     = (Ok (Fin (12 / 4)), latest_earnings_state 4).
Proof.
  split.
  - apply (current_pe_of_zero_earnings_raises (latest_earnings_state 0)
             (latest_earnings_state 0) (latest_earnings_table 0)
             [(date 2019 12 1, Fin 1); (date 2020 12 1, Fin 0)] 12 0
             eq_refl eq_refl eq_refl eq_refl).
    reflexivity.
  - apply (current_pe_of_zero_earnings_raises (latest_earnings_state 4)
             (latest_earnings_state 4) (latest_earnings_table 4)
             [(date 2019 12 1, Fin 1); (date 2020 12 1, Fin 4)] 12 4
             eq_refl eq_refl eq_refl eq_refl).
    lra.
Defined.

(* ================================================================= *)
(** ** The price projection *)

Lemma get_estimated_eps_run (n : nat) (s s1 : State) (df : table)
  (col : series) (e g : float) :
  _ratios (self s) = Some df ->
  getitem df ("earnings-per-share-" ++ str_of (currency_of df)) = Ok col ->
  series_last col = Ok e ->
  estimated_growth s = (Ok g, s1) ->
  get_estimated_eps n s = (Ok (fmul e (fpow (fadd (Fin 1) g) n)), s1).
Proof.
  intros Hdf Hcol He Hg. unfold get_estimated_eps.
  rewrite (bind_ok _ (ratios_assigned s df Hdf)).
  assert (Hc : currency s = (Ok (currency_of df), s)).
  { rewrite (currency_is_currency_assigned s df Hdf).
    apply currency_assigned_eq. exact Hdf. }
  rewrite (bind_ok _ Hc), Hcol. unfold lift at 1. unfold bind at 1.
  rewrite He. unfold lift at 1. unfold bind at 1.
  rewrite (bind_ok _ Hg). reflexivity.
Qed.

Lemma get_estimated_eps_keeps_the_ratios (n : nat) (df : table) :
  preserves (table_held Ratios df) (get_estimated_eps n).
Proof. unfold get_estimated_eps. preserves_tac. Qed.

Lemma get_estimated_eps_keeps_no_target_pe (n : nat) :
  preserves no_target_pe (get_estimated_eps n).
Proof. unfold get_estimated_eps. preserves_tac. Qed.

(** X21: the price projection is the estimated earnings per share times
    the target P/E.  On an object whose ratios table has no column [pe]
    (a table that was assigned, or one that a derivation that raised
    left without it) the target P/E is the sentinel [-1], so that the
    price projection is the estimated earnings per share with the
    opposite sign: a negative price for a company with positive
    earnings. *)
Theorem price_projection_with_the_sentinel (n : nat) (s s1 : State)
  (df : table) (x : R) :
  _ratios (self s) = Some df ->
  contains df "pe" = false ->
  _target_pe (self s) = None ->
  get_estimated_eps n s = (Ok (Fin x), s1) ->
  target_pe s1 = (Ok (Fin (-1)), s1)
  /\ get_price_projection n s = (Ok (Fin (- x)), s1).
Proof.
  intros Hdf Hpe Ht Hx.
  assert (Hdf1 : _ratios (self s1) = Some df).
  { exact (preserves_run _ _ _ _ _
             (get_estimated_eps_keeps_the_ratios n df) Hdf Hx). }
  assert (Ht1 : _target_pe (self s1) = None).
  { exact (preserves_run _ _ _ _ _
             (get_estimated_eps_keeps_no_target_pe n) Ht Hx). }
  assert (Htp : target_pe s1 = (Ok (Fin (-1)), s1)).
  { apply (target_pe_without_pe s1 s1 df Ht1);
      [apply ratios_assigned; exact Hdf1 | exact Hpe]. }
  split; [exact Htp |].
  unfold get_price_projection.
  rewrite (bind_ok _ Hx), (bind_ok _ Htp).
  unfold ret. cbn [fmul]. do 3 f_equal. lra.
Qed.

Lemma price_projection_with_the_sentinel_witness :
  get_price_projection 1 no_pe_state
  = (Ok (Fin (- (2 * ((1 + b64r (1 / 10)) * 1)))),
     on_self (set_estimated_growth (Some (b64 (1 / 10)))) no_pe_state).
Proof.
  refine (proj2 (price_projection_with_the_sentinel 1 no_pe_state
                   (on_self (set_estimated_growth (Some (b64 (1 / 10))))
                      no_pe_state)
                   no_pe_table (2 * ((1 + b64r (1 / 10)) * 1))
                   eq_refl eq_refl eq_refl _)).
  rewrite (get_estimated_eps_run 1 no_pe_state
             (on_self (set_estimated_growth (Some (b64 (1 / 10))))
                no_pe_state)
             no_pe_table
             [(date 2019 12 1, Fin 1); (date 2020 12 1, Fin 2)]
             (Fin 2) (b64 (1 / 10)) eq_refl eq_refl eq_refl).
  - do 2 f_equal. rewrite (b64_in_range _ tenth_in_range). reflexivity.
  - apply (steady_estimated_growth no_pe_state no_pe_table
             (date 2019 12 1) (date 2020 12 1) eq_refl eq_refl eq_refl).
    intros key [<- | [<- | [<- | [<- | []]]]]; reflexivity.
Defined.

(* ================================================================= *)
(** ** The growth columns of the derived table *)

Lemma preserves_column_of_keeps {A} (idx : list label) (c0 : option string)
  (key : string) (x : result series) (m : M A) :
  keeps_ratios m -> preserves (column_is idx c0 key x) m.
Proof.
  intros Hm s [d [Hs H]]. exists d. rewrite Hm. split; assumption.
Qed.

Lemma preserves_column_ratios_assign (idx : list label)
  (c0 : option string) (key : string) (x : result series) (key' : string)
  (v : series) :
  String.eqb key key' = false ->
  starts_with "earnings-per-share-" key' = false ->
  preserves (column_is idx c0 key x) (ratios_assign key' v).
Proof.
  intros Hk Hc s [d [Hs [Hi [Hcur Hg]]]].
  rewrite (ratios_assign_eq key' v s d Hs). cbn [snd].
  exists (setitem d key' v). split; [reflexivity |].
  split; [exact Hi |]. split.
  - rewrite (currency_of_setitem _ _ _ Hc). exact Hcur.
  - rewrite (getitem_setitem_other _ _ _ _ Hk). exact Hg.
Qed.

(** [self.ratios.loc[i, key'] = v] *)
Lemma preserves_column_loc_set (idx : list label) (c0 : option string)
  (key : string) (x : result series) (i : label) (key' : string)
  (v : float) :
  String.eqb key key' = false ->
  starts_with "earnings-per-share-" key' = false ->
  preserves (column_is idx c0 key x)
    (df <- the_ratios ;;
     df' <- lift (loc_set df i key' v) ;;
     modify (on_self (set_ratios (Some df')))).
Proof.
  intros Hk Hc s [d [Hs [Hi [Hcur Hg]]]].
  rewrite (bind_ok _ (the_ratios_assigned _ _ Hs)).
  unfold loc_set, bind, lift, modify.
  destruct (getitem d key') as [y | e]; cbn [rbind snd].
  - eexists. split; [reflexivity |]. split; [exact Hi |]. split.
    + rewrite (currency_of_setitem _ _ _ Hc). exact Hcur.
    + rewrite (getitem_setitem_other _ _ _ _ Hk). exact Hg.
  - exists d. repeat split; assumption.
Qed.

(** One step of a proof that a method leaves a column of the ratios
    table, its index and its currency as they are. *)
Ltac column_step :=
  match goal with
  | |- preserves (column_is _ _ _ _) (ratios_assign _ _) =>
      apply preserves_column_ratios_assign; reflexivity
  | |- preserves (column_is _ _ _ _) (bind the_ratios _) =>
      first [ apply preserves_column_loc_set; reflexivity
            | apply preserves_bind; [| intros] ]
  | |- preserves (column_is _ _ _ _) (bind _ _) =>
      apply preserves_bind; [| intros]
  | |- preserves (column_is _ _ _ _) (for_each _ _) =>
      apply preserves_for_each; intros
  | |- preserves (column_is _ _ _ _) (if ?c then _ else _) => destruct c
  | |- preserves (column_is _ _ _ _) (match ?x with _ => _ end) =>
      destruct x
  | |- preserves (column_is _ _ _ _) ?m =>
      first [ solve [apply preserves_column_of_keeps; keeps_tac]
            | let h := head_of m in unfold h ]
  end.

Ltac column_tac := repeat column_step.

Lemma column_is_slot (idx : list label) (c0 : option string)
  (key : string) (x : result series) (s : State) (d : table) :
  column_is idx c0 key x s -> _ratios (self s) = Some d ->
  index d = idx /\ currency_of d = c0 /\ getitem d key = x.
Proof.
  intros [d' [Hs H]] Hd. rewrite Hd in Hs. injection Hs as <-. exact H.
Qed.

Lemma column_is_assigned (idx : list label) (c0 : option string)
  (d : table) (key key' : string) (v : series) (x : result series)
  (s : State) :
  index d = idx ->
  currency_of d = c0 ->
  starts_with "earnings-per-share-" key' = false ->
  getitem (setitem d key' v) key = x ->
  column_is idx c0 key x (on_self (set_ratios (Some (setitem d key' v))) s).
Proof.
  intros Hi Hc Hk Hg. exists (setitem d key' v).
  split; [reflexivity |]. split; [exact Hi |]. split; [| exact Hg].
  rewrite (currency_of_setitem _ _ _ Hk). exact Hc.
Qed.

(** The steps that compute a growth from columns of the ratios table. *)
Lemma book_value_growth_step (idx : list label) (c0 : option string)
  (b : series) (s s' : State) :
  column_is idx c0 ("book-value-per-share-" ++ str_of c0) (Ok b) s ->
  add_book_value_ps_growth s = (Ok tt, s') ->
  column_is idx c0 "book-value-ps-growth"
    (Ok (aligned idx (pct_change b))) s'.
Proof.
  intros [d [Hs [Hi [Hc Hb]]]] Hrun. rewrite <- Hc in Hb.
  rewrite (add_book_value_ps_growth_eq s d b Hs Hb) in Hrun.
  injection Hrun as <-.
  apply (column_is_assigned idx c0 d); try assumption; try reflexivity.
  rewrite getitem_setitem_same, Hi. reflexivity.
Qed.

Lemma earnings_growth_step (idx : list label) (c0 : option string)
  (e : series) (s s' : State) :
  column_is idx c0 ("earnings-per-share-" ++ str_of c0) (Ok e) s ->
  add_earnings_ps_growth s = (Ok tt, s') ->
  column_is idx c0 "earnings-ps-growth"
    (Ok (aligned idx (pct_change e))) s'.
Proof.
  intros [d [Hs [Hi [Hc He]]]] Hrun. rewrite <- Hc in He.
  rewrite (add_earnings_ps_growth_eq s d e Hs He) in Hrun.
  injection Hrun as <-.
  apply (column_is_assigned idx c0 d); try assumption; try reflexivity.
  rewrite getitem_setitem_same, Hi. reflexivity.
Qed.

Lemma revenue_growth_step (idx : list label) (c0 : option string)
  (r sh : series) (s s' : State) :
  column_is idx c0 ("revenue-" ++ str_of c0) (Ok r) s ->
  column_is idx c0 "shares" (Ok sh) s ->
  add_revenue_ps_growth s = (Ok tt, s') ->
  column_is idx c0 "revenue-ps-growth"
    (Ok (aligned idx (pct_change (series_op fdiv r sh)))) s'.
Proof.
  intros [d [Hs [Hi [Hc Hr]]]] Hsh Hrun.
  destruct (column_is_slot _ _ _ _ _ _ Hsh Hs) as [_ [_ Hsh']].
  rewrite <- Hc in Hr.
  rewrite (add_revenue_ps_growth_eq s d r sh Hs Hr Hsh') in Hrun.
  injection Hrun as <-.
  apply (column_is_assigned idx c0); try reflexivity; try assumption.
  - rewrite currency_of_setitem by reflexivity. exact Hc.
  - rewrite getitem_setitem_same. cbn [setitem index]. rewrite Hi.
    reflexivity.
Qed.

Lemma add_operating_cashflow_ps_growth_eq (s : State) (df : table)
  (o sh : series) :
  _ratios (self s) = Some df ->
  getitem df ("operating-cash-flow-" ++ str_of (currency_of df)) = Ok o ->
  getitem df "shares" = Ok sh ->
  add_operating_cashflow_ps_growth s
  = (Ok tt,
     on_self
       (set_ratios
          (Some (setitem
                   (setitem df
                      ("operating-cashflow-per-share-"
                       ++ str_of (currency_of df))
                      (series_op fdiv o sh))
                   "operating-cashflow-ps-growth"
                   (pct_change (series_op fdiv o sh))))) s).
Proof.
  intros H Ho Hsh. unfold add_operating_cashflow_ps_growth.
  set (cur := str_of (currency_of df)) in *.
  set (d1 := setitem df ("operating-cashflow-per-share-" ++ cur)
               (series_op fdiv o sh)).
  set (s1 := on_self (set_ratios (Some d1)) s).
  assert (H1 : _ratios (self s1) = Some d1) by reflexivity.
  assert (Hcur1 : currency_of d1 = currency_of df).
  { unfold d1. apply currency_of_setitem. reflexivity. }
  assert (Ho1 : getitem d1 ("operating-cash-flow-" ++ cur) = Ok o).
  { unfold d1. rewrite getitem_setitem_other by reflexivity. exact Ho. }
  assert (Hsh1 : getitem d1 "shares" = Ok sh).
  { unfold d1. rewrite getitem_setitem_other by reflexivity. exact Hsh. }
  rewrite (bind_ok _ (currency_assigned_eq _ _ H)). fold cur.
  rewrite (@bind_ok _ _ _ _ s s o)
    by (rewrite (ratios_col_eq _ _ _ H), Ho; reflexivity).
  rewrite (@bind_ok _ _ _ _ s s sh)
    by (rewrite (ratios_col_eq _ _ _ H), Hsh; reflexivity).
  rewrite (bind_ok _ (currency_assigned_eq _ _ H)). fold cur.
  rewrite (bind_ok _ (ratios_assign_eq _ _ s df H)). fold d1. fold s1.
  rewrite (bind_ok _ (currency_assigned_eq _ _ H1)). rewrite Hcur1. fold cur.
  rewrite (@bind_ok _ _ _ _ s1 s1 o)
    by (rewrite (ratios_col_eq _ _ _ H1), Ho1; reflexivity).
  rewrite (@bind_ok _ _ _ _ s1 s1 sh)
    by (rewrite (ratios_col_eq _ _ _ H1), Hsh1; reflexivity).
  rewrite (ratios_assign_eq _ _ s1 d1 H1). reflexivity.
Qed.

Lemma operating_cashflow_growth_step (idx : list label)
  (c0 : option string) (o sh : series) (s s' : State) :
  column_is idx c0 ("operating-cash-flow-" ++ str_of c0) (Ok o) s ->
  column_is idx c0 "shares" (Ok sh) s ->
  add_operating_cashflow_ps_growth s = (Ok tt, s') ->
  column_is idx c0 "operating-cashflow-ps-growth"
    (Ok (aligned idx (pct_change (series_op fdiv o sh)))) s'.
Proof.
  intros [d [Hs [Hi [Hc Ho]]]] Hsh Hrun.
  destruct (column_is_slot _ _ _ _ _ _ Hsh Hs) as [_ [_ Hsh']].
  rewrite <- Hc in Ho.
  rewrite (add_operating_cashflow_ps_growth_eq s d o sh Hs Ho Hsh') in Hrun.
  injection Hrun as <-.
  apply (column_is_assigned idx c0); try reflexivity; try assumption.
  - rewrite currency_of_setitem by reflexivity. exact Hc.
  - rewrite getitem_setitem_same. cbn [setitem index]. rewrite Hi.
    reflexivity.
Qed.

(** The steps that read the balance sheet. *)
Lemma balancesheet_col_run (key : string) (bs : table) (x : series)
  (s : State) :
  _balancesheet (self s) = Some bs -> getitem bs key = Ok x ->
  balancesheet_col key s = (Ok x, s).
Proof. intros H Hx. rewrite (balancesheet_col_held key bs s H), Hx. reflexivity. Qed.

Lemma add_long_term_debt_ps_growth_run (s s1 : State) (d bs : table)
  (l sh : series) :
  balancesheet s = (Ok bs, s1) ->
  _ratios (self s1) = Some d ->
  getitem bs "long-term-debt" = Ok l ->
  getitem d "shares" = Ok sh ->
  add_long_term_debt_ps_growth s
  = (Ok tt,
     on_self
       (set_ratios
          (Some (setitem
                   (setitem (setitem d "long-term-debt" l)
                      "long-term-debt-ps-growth"
                      (pct_change (series_op fdiv l sh)))
                   "long-term-debt-ps" (series_op fdiv l sh)))) s1).
Proof.
  intros Hb Hd Hl Hsh. unfold add_long_term_debt_ps_growth.
  pose proof (getter_ok_held Balancesheet s s1 bs Hb) as Hbs.
  change (_balancesheet (self s1) = Some bs) in Hbs.
  rewrite (bind_ok _ Hb), (getitem_ok_contains bs _ l Hl).
  set (d1 := setitem d "long-term-debt" l).
  set (d2 := setitem d1 "long-term-debt-ps-growth"
               (pct_change (series_op fdiv l sh))).
  set (s2 := on_self (set_ratios (Some d1)) s1).
  set (s3 := on_self (set_ratios (Some d2)) s2).
  assert (Hbs2 : _balancesheet (self s2) = Some bs) by exact Hbs.
  assert (Hbs3 : _balancesheet (self s3) = Some bs) by exact Hbs.
  assert (Hd2 : _ratios (self s2) = Some d1) by reflexivity.
  assert (Hd3 : _ratios (self s3) = Some d2) by reflexivity.
  assert (Hsh1 : getitem d1 "shares" = Ok sh).
  { unfold d1. rewrite getitem_setitem_other by reflexivity. exact Hsh. }
  assert (Hsh2 : getitem d2 "shares" = Ok sh).
  { unfold d2. rewrite getitem_setitem_other by reflexivity. exact Hsh1. }
  rewrite (bind_ok _ (balancesheet_col_run _ bs l s1 Hbs Hl)).
  rewrite (bind_ok _ (ratios_assign_eq _ _ s1 d Hd)). fold d1. fold s2.
  rewrite (bind_ok _ (balancesheet_col_run _ bs l s2 Hbs2 Hl)).
  rewrite (@bind_ok _ _ _ _ s2 s2 sh)
    by (rewrite (ratios_col_eq _ _ _ Hd2), Hsh1; reflexivity).
  rewrite (bind_ok _ (ratios_assign_eq _ _ s2 d1 Hd2)). fold d2. fold s3.
  rewrite (bind_ok _ (balancesheet_col_run _ bs l s3 Hbs3 Hl)).
  rewrite (@bind_ok _ _ _ _ s3 s3 sh)
    by (rewrite (ratios_col_eq _ _ _ Hd3), Hsh2; reflexivity).
  rewrite (ratios_assign_eq _ _ s3 d2 Hd3). reflexivity.
Qed.

Lemma add_short_term_debt_ps_growth_eq (s : State) (d bs : table)
  (st sh : series) :
  _balancesheet (self s) = Some bs ->
  _ratios (self s) = Some d ->
  getitem bs "short-term-debt" = Ok st ->
  getitem d "shares" = Ok sh ->
  add_short_term_debt_ps_growth s
  = (Ok tt,
     on_self
       (set_ratios
          (Some (setitem
                   (setitem (setitem d "short-term-debt" st)
                      "short-term-debt-ps-growth"
                      (pct_change (series_op fdiv st sh)))
                   "short-term-debt-ps" (series_op fdiv st sh)))) s).
Proof.
  intros Hbs Hd Hst Hsh. unfold add_short_term_debt_ps_growth.
  set (d1 := setitem d "short-term-debt" st).
  set (d2 := setitem d1 "short-term-debt-ps-growth"
               (pct_change (series_op fdiv st sh))).
  set (s2 := on_self (set_ratios (Some d1)) s).
  set (s3 := on_self (set_ratios (Some d2)) s2).
  assert (Hbs2 : _balancesheet (self s2) = Some bs) by exact Hbs.
  assert (Hbs3 : _balancesheet (self s3) = Some bs) by exact Hbs.
  assert (Hd2 : _ratios (self s2) = Some d1) by reflexivity.
  assert (Hd3 : _ratios (self s3) = Some d2) by reflexivity.
  assert (Hsh1 : getitem d1 "shares" = Ok sh).
  { unfold d1. rewrite getitem_setitem_other by reflexivity. exact Hsh. }
  assert (Hsh2 : getitem d2 "shares" = Ok sh).
  { unfold d2. rewrite getitem_setitem_other by reflexivity. exact Hsh1. }
  rewrite (bind_ok _ (balancesheet_col_run _ bs st s Hbs Hst)).
  rewrite (bind_ok _ (ratios_assign_eq _ _ s d Hd)). fold d1. fold s2.
  rewrite (bind_ok _ (balancesheet_col_run _ bs st s2 Hbs2 Hst)).
  rewrite (@bind_ok _ _ _ _ s2 s2 sh)
    by (rewrite (ratios_col_eq _ _ _ Hd2), Hsh1; reflexivity).
  rewrite (bind_ok _ (ratios_assign_eq _ _ s2 d1 Hd2)). fold d2. fold s3.
  rewrite (bind_ok _ (balancesheet_col_run _ bs st s3 Hbs3 Hst)).
  rewrite (@bind_ok _ _ _ _ s3 s3 sh)
    by (rewrite (ratios_col_eq _ _ _ Hd3), Hsh2; reflexivity).
  rewrite (ratios_assign_eq _ _ s3 d2 Hd3). reflexivity.
Qed.

Lemma add_total_debt_eq (s : State) (d bs : table) (st lt sh : series) :
  _balancesheet (self s) = Some bs ->
  _ratios (self s) = Some d ->
  getitem bs "short-term-debt" = Ok st ->
  getitem bs "long-term-debt" = Ok lt ->
  getitem d "shares" = Ok sh ->
  add_total_debt s
  = (Ok tt,
     on_self
       (set_ratios
          (Some (setitem
                   (setitem
                      (setitem d ("total-debt-" ++ str_of (currency_of d))
                         (series_op fadd st lt))
                      ("total-debt-per-share-" ++ str_of (currency_of d))
                      (series_op fdiv
                         (aligned (index d) (series_op fadd st lt)) sh))
                   "total-debt-growth"
                   (pct_change
                      (aligned (index d) (series_op fadd st lt)))))) s).
Proof.
  intros Hbs Hd Hst Hlt Hsh. unfold add_total_debt.
  set (cur := str_of (currency_of d)) in *.
  set (td := aligned (index d) (series_op fadd st lt)).
  set (d1 := setitem d ("total-debt-" ++ cur) (series_op fadd st lt)).
  set (d2 := setitem d1 ("total-debt-per-share-" ++ cur)
               (series_op fdiv td sh)).
  set (s2 := on_self (set_ratios (Some d1)) s).
  set (s3 := on_self (set_ratios (Some d2)) s2).
  assert (Hd2 : _ratios (self s2) = Some d1) by reflexivity.
  assert (Hd3 : _ratios (self s3) = Some d2) by reflexivity.
  assert (Hc1 : currency_of d1 = currency_of d).
  { unfold d1. apply currency_of_setitem. reflexivity. }
  assert (Hc2 : currency_of d2 = currency_of d).
  { unfold d2. rewrite currency_of_setitem by reflexivity. exact Hc1. }
  assert (Htd1 : getitem d1 ("total-debt-" ++ cur) = Ok td).
  { unfold d1. apply getitem_setitem_same. }
  assert (Hsh1 : getitem d1 "shares" = Ok sh).
  { unfold d1. rewrite getitem_setitem_other by reflexivity. exact Hsh. }
  assert (Htd2 : getitem d2 ("total-debt-" ++ cur) = Ok td).
  { unfold d2. rewrite getitem_setitem_other; [exact Htd1 |].
    cbn [append String.eqb Ascii.eqb Bool.eqb andb].
    apply (string_neq_longer "per-share-" cur). discriminate. }
  rewrite (bind_ok _ (balancesheet_col_run _ bs st s Hbs Hst)).
  rewrite (bind_ok _ (balancesheet_col_run _ bs lt s Hbs Hlt)).
  rewrite (bind_ok _ (currency_assigned_eq _ _ Hd)). fold cur.
  rewrite (bind_ok _ (ratios_assign_eq _ _ s d Hd)). fold d1. fold s2.
  rewrite (bind_ok _ (currency_assigned_eq _ _ Hd2)). rewrite Hc1. fold cur.
  rewrite (@bind_ok _ _ _ _ s2 s2 td)
    by (rewrite (ratios_col_eq _ _ _ Hd2), Htd1; reflexivity).
  rewrite (@bind_ok _ _ _ _ s2 s2 sh)
    by (rewrite (ratios_col_eq _ _ _ Hd2), Hsh1; reflexivity).
  rewrite (bind_ok _ (currency_assigned_eq _ _ Hd2)). rewrite Hc1. fold cur.
  rewrite (bind_ok _ (ratios_assign_eq _ _ s2 d1 Hd2)). fold d2. fold s3.
  rewrite (bind_ok _ (currency_assigned_eq _ _ Hd3)). rewrite Hc2. fold cur.
  rewrite (@bind_ok _ _ _ _ s3 s3 td)
    by (rewrite (ratios_col_eq _ _ _ Hd3), Htd2; reflexivity).
  rewrite (ratios_assign_eq _ _ s3 d2 Hd3). reflexivity.
Qed.

Lemma long_term_debt_growth_step (idx : list label) (c0 : option string)
  (bs : table) (l sh : series) (s s' : State) :
  column_is idx c0 "shares" (Ok sh) s ->
  add_long_term_debt_ps_growth s = (Ok tt, s') ->
  _balancesheet (self s') = Some bs ->
  getitem bs "long-term-debt" = Ok l ->
  column_is idx c0 "long-term-debt-ps-growth"
    (Ok (aligned idx (pct_change (series_op fdiv l sh)))) s'.
Proof.
  intros [d [Hs [Hi [Hc Hsh]]]] Hrun Hbs' Hl.
  pose proof Hrun as Hrun0. unfold add_long_term_debt_ps_growth in Hrun.
  bind_inv Hrun as bs1 s1 Hb.
  pose proof (getter_ok_held Balancesheet s s1 bs1 Hb) as Hheld.
  change (balancesheet_held bs1 s1) in Hheld.
  assert (Hend : balancesheet_held bs1 s').
  { refine (preserves_run _ _ _ _ _ _ Hheld Hrun). preserves_tac. }
  unfold balancesheet_held in Hend. rewrite Hbs' in Hend.
  injection Hend as <-.
  assert (Hs1 : _ratios (self s1) = Some d).
  { rewrite (keeps_run _ _ _ _ keeps_balancesheet Hb). exact Hs. }
  rewrite (add_long_term_debt_ps_growth_run s s1 d bs l sh Hb Hs1 Hl Hsh)
    in Hrun0.
  injection Hrun0 as <-.
  apply (column_is_assigned idx c0); try reflexivity; try assumption.
  - rewrite !currency_of_setitem by reflexivity. exact Hc.
  - rewrite getitem_setitem_other by reflexivity.
    rewrite getitem_setitem_same. cbn [setitem index]. rewrite Hi.
    reflexivity.
Qed.

Lemma long_term_step_holds_the_balancesheet (s s' : State) :
  add_long_term_debt_ps_growth s = (Ok tt, s') ->
  exists bs, balancesheet_held bs s'.
Proof.
  intros Hrun. unfold add_long_term_debt_ps_growth in Hrun.
  bind_inv Hrun as bs s1 Hb.
  pose proof (getter_ok_held Balancesheet s s1 bs Hb) as Hheld.
  change (balancesheet_held bs s1) in Hheld.
  exists bs. refine (preserves_run _ _ _ _ _ _ Hheld Hrun). preserves_tac.
Qed.

Lemma short_term_debt_growth_step (idx : list label) (c0 : option string)
  (bs : table) (st sh : series) (s s' : State) :
  column_is idx c0 "shares" (Ok sh) s ->
  _balancesheet (self s) = Some bs ->
  getitem bs "short-term-debt" = Ok st ->
  add_short_term_debt_ps_growth s = (Ok tt, s') ->
  column_is idx c0 "short-term-debt-ps-growth"
    (Ok (aligned idx (pct_change (series_op fdiv st sh)))) s'.
Proof.
  intros [d [Hs [Hi [Hc Hsh]]]] Hbs Hst Hrun.
  rewrite (add_short_term_debt_ps_growth_eq s d bs st sh Hbs Hs Hst Hsh)
    in Hrun.
  injection Hrun as <-.
  apply (column_is_assigned idx c0); try reflexivity; try assumption.
  - rewrite !currency_of_setitem by reflexivity. exact Hc.
  - rewrite getitem_setitem_other by reflexivity.
    rewrite getitem_setitem_same. cbn [setitem index]. rewrite Hi.
    reflexivity.
Qed.

Lemma total_debt_growth_step (idx : list label) (c0 : option string)
  (bs : table) (st lt sh : series) (s s' : State) :
  column_is idx c0 "shares" (Ok sh) s ->
  _balancesheet (self s) = Some bs ->
  getitem bs "short-term-debt" = Ok st ->
  getitem bs "long-term-debt" = Ok lt ->
  add_total_debt s = (Ok tt, s') ->
  column_is idx c0 "total-debt-growth"
    (Ok (aligned idx (pct_change (aligned idx (series_op fadd st lt))))) s'.
Proof.
  intros [d [Hs [Hi [Hc Hsh]]]] Hbs Hst Hlt Hrun.
  rewrite (add_total_debt_eq s d bs st lt sh Hbs Hs Hst Hlt Hsh) in Hrun.
  injection Hrun as <-.
  apply (column_is_assigned idx c0); try reflexivity; try assumption.
  - rewrite !currency_of_setitem by reflexivity. exact Hc.
  - rewrite getitem_setitem_same. cbn [setitem index]. rewrite Hi.
    reflexivity.
Qed.

(** [push H through Hrun as H']: what the state after the run [Hrun]
    inherits from the fact [H] about a column of the state before. *)
Tactic Notation "push" hyp(H) "through" hyp(Hrun) "as" ident(H') :=
  lazymatch type of H with
  | column_is ?idx ?c0 ?k ?x _ =>
      lazymatch type of Hrun with
      | _ = (_, ?t) =>
          assert (H' : column_is idx c0 k x t)
            by (refine (preserves_run _ _ _ _ _ _ H Hrun); column_tac)
      end
  end.

Lemma aligned_same (idx : list label) (x : series) :
  map fst x = idx -> aligned idx x = x.
Proof.
  intros H. unfold aligned. rewrite (reindex_same _ _ H), <- H.
  apply combine_fst_snd.
Qed.

(** C7 (as amended): in the ratios table that a derivation that returns
    has left, every derived growth column but the dividend growth is the
    fractional change of its source, as pandas' [pct_change] computes it
    with its default padding, aligned on the periods of the table: the
    book value and the earnings per share of the export, its revenue and
    operating cash flow over the shares, the long-term and the short-term
    debt of the balance sheet over the shares, and the total debt.  The
    change of a series has a value per period; the first is undefined;
    each later one is [c / p - 1] computed in binary64, where [c] and [p]
    are the source values of the period and of the period before once a
    missing value is replaced by the latest value before it (and are
    missing while there is none).  So wherever the source has a binary64
    value [c] preceded by a non-zero one [p], whose quotient does not
    overflow, the growth is [(c - p) / p] within [2^-51 * (|c / p| + 1)];
    the source [100, 110, 121] gives [undefined, 0.10000000000000009,
    0.10000000000000009], both within [1e-16] of 0.10.  (Nothing is
    stated for a zero [p]: the quotient is then infinite, or [NaN] for
    0/0.) *)
Theorem growth_is_padded_fractional_change (s s0 s' : State)
  (df0 df : table) :
  _ratios (self s) = None ->
  _load_report_csv_to_df "ratios" s = (Ok df0, s0) ->
  empty df0 = false ->
  ratios s = (Ok df, s') ->
  (index df = index df0 /\
   (forall x, map fst x = index df -> aligned (index df) x = x) /\
   (forall b,
      getitem df0 ("book-value-per-share-" ++ str_of (currency_of df0))
      = Ok b ->
      growth_column df "book-value-ps-growth" b) /\
   (forall e,
      getitem df0 ("earnings-per-share-" ++ str_of (currency_of df0))
      = Ok e ->
      growth_column df "earnings-ps-growth" e) /\
   (forall r sh,
      getitem df0 ("revenue-" ++ str_of (currency_of df0)) = Ok r ->
      getitem df0 "shares" = Ok sh ->
      growth_column df "revenue-ps-growth" (series_op fdiv r sh)) /\
   (forall o sh,
      getitem df0 ("operating-cash-flow-" ++ str_of (currency_of df0))
      = Ok o ->
      getitem df0 "shares" = Ok sh ->
      growth_column df "operating-cashflow-ps-growth"
        (series_op fdiv o sh)) /\
   (forall bs st lt sh,
      _balancesheet (self s') = Some bs ->
      getitem bs "short-term-debt" = Ok st ->
      getitem bs "long-term-debt" = Ok lt ->
      getitem df0 "shares" = Ok sh ->
      growth_column df "long-term-debt-ps-growth" (series_op fdiv lt sh) /\
      growth_column df "short-term-debt-ps-growth" (series_op fdiv st sh) /\
      growth_column df "total-debt-growth"
        (aligned (index df) (series_op fadd st lt)))) /\
  (forall src : series,
     pct_change src
     = combine (map fst src) (pct_change_values (map snd src))) /\
  (forall vs : list float,
     List.length (pct_change_values vs) = List.length vs /\
     nth 0 (pct_change_values vs) NaN = NaN /\
     (forall i, (S i < List.length vs)%nat ->
        exists c p, padded vs (S i) c /\ padded vs i p /\
          nth (S i) (pct_change_values vs) NaN
          = fsub64 (fdiv64 c p) (Fin 1)) /\
     (forall i c p,
        nth (S i) vs NaN = Fin c -> nth i vs NaN = Fin p ->
        binary64 c -> binary64 p -> p <> 0 ->
        Rabs (c / p) <= bpow 1022 ->
        exists g,
          nth (S i) (pct_change_values vs) NaN = Fin g /\
          Rabs (g - (c - p) / p) <= bpow (-51) * (Rabs (c / p) + 1))) /\
  pct_change_values [Fin 100; Fin 110; Fin 121]
  = [NaN; Fin (225179981368525 / 2251799813685248);
     Fin (225179981368525 / 2251799813685248)] /\
  Rabs (225179981368525 / 2251799813685248 - 1 / 10) <= / 10 ^ 16.
Proof.
  intros Hslot Hload Hne Hrun.
  destruct (derived_table_inv s s0 s' df0 df Hslot Hload Hne Hrun)
    as [Hdf [[Hidx _] Hd]].
  split; [| split; [reflexivity | split; [| split]]].
  - (* the columns of the derived table *)
    set (t0 := on_self (set_ratios (Some df0)) s0) in *.
    set (idx := index df0) in *. set (c0 := currency_of df0).
    assert (Base : forall key, column_is idx c0 key (getitem df0 key) t0).
    { intros key. exists df0. repeat split; reflexivity. }
    assert (Final : forall key x,
               column_is idx c0 key (Ok (aligned idx (pct_change x))) s' ->
               growth_column df key x).
    { intros key x Hc.
      destruct (column_is_slot _ _ _ _ _ _ Hc Hdf) as [_ [_ Hg]].
      unfold growth_column. rewrite Hidx. exact Hg. }
    unfold derivation in Hd.
    bind_inv Hd as u1 s1 H1. pose proof Hd as R1.
    bind_inv Hd as u2 s2 H2. pose proof Hd as R2.
    bind_inv Hd as u3 s3 H3. pose proof Hd as R3.
    bind_inv Hd as u4 s4 H4. pose proof Hd as R4.
    bind_inv Hd as u5 s5 H5. pose proof Hd as R5.
    bind_inv Hd as u6 s6 H6. pose proof Hd as R6.
    bind_inv Hd as u7 s7 H7. pose proof Hd as R7. clear Hd.
    destruct u1, u2, u3, u4, u5, u6, u7.
    assert (Shares : forall sh,
               getitem df0 "shares" = Ok sh ->
               column_is idx c0 "shares" (Ok sh) s2 /\
               column_is idx c0 "shares" (Ok sh) s3 /\
               column_is idx c0 "shares" (Ok sh) s4 /\
               column_is idx c0 "shares" (Ok sh) s5 /\
               column_is idx c0 "shares" (Ok sh) s6).
    { intros sh Hsh. pose proof (Base "shares") as B0. rewrite Hsh in B0.
      push B0 through H1 as B1. push B1 through H2 as B2.
      push B2 through H3 as B3. push B3 through H4 as B4.
      push B4 through H5 as B5. push B5 through H6 as B6.
      repeat split; assumption. }
    split; [exact Hidx |].
    split; [intros x Hx; apply aligned_same; exact Hx |].
    split; [| split; [| split; [| split]]].
    + intros b Hb.
      pose proof (Base ("book-value-per-share-" ++ str_of c0)) as B0.
      fold c0 in Hb. rewrite Hb in B0.
      pose proof (book_value_growth_step idx c0 b t0 s1 B0 H1) as C1.
      push C1 through R1 as C. exact (Final _ _ C).
    + intros e He.
      pose proof (Base ("earnings-per-share-" ++ str_of c0)) as B0.
      fold c0 in He. rewrite He in B0.
      push B0 through H1 as B1.
      pose proof (earnings_growth_step idx c0 e s1 s2 B1 H2) as C2.
      push C2 through R2 as C. exact (Final _ _ C).
    + intros r sh Hr Hsh.
      pose proof (Base ("revenue-" ++ str_of c0)) as B0.
      fold c0 in Hr. rewrite Hr in B0.
      push B0 through H1 as B1. push B1 through H2 as B2.
      destruct (Shares sh Hsh) as [S2 _].
      pose proof (revenue_growth_step idx c0 r sh s2 s3 B2 S2 H3) as C3.
      push C3 through R3 as C. exact (Final _ _ C).
    + intros o sh Ho Hsh.
      pose proof (Base ("operating-cash-flow-" ++ str_of c0)) as B0.
      fold c0 in Ho. rewrite Ho in B0.
      push B0 through H1 as B1. push B1 through H2 as B2.
      push B2 through H3 as B3.
      destruct (Shares sh Hsh) as [_ [S3 _]].
      pose proof (operating_cashflow_growth_step idx c0 o sh s3 s4 B3 S3 H4)
        as C4.
      push C4 through R4 as C. exact (Final _ _ C).
    + intros bs st lt sh Hbs Hst Hlt Hsh.
      destruct (Shares sh Hsh) as [_ [_ [S4 [S5 S6]]]].
      destruct (long_term_step_holds_the_balancesheet s4 s5 H5)
        as [bs5 K5].
      assert (K6 : balancesheet_held bs5 s6).
      { refine (preserves_run _ _ _ _ _ _ K5 H6). preserves_tac. }
      assert (K7 : balancesheet_held bs5 s7).
      { refine (preserves_run _ _ _ _ _ _ K6 H7). preserves_tac. }
      assert (K : balancesheet_held bs5 s').
      { refine (preserves_run _ _ _ _ _ _ K7 R7). preserves_tac. }
      unfold balancesheet_held in K, K5, K6. rewrite Hbs in K.
      injection K as <-.
      split; [| split].
      * pose proof (long_term_debt_growth_step idx c0 bs lt sh s4 s5
                      S4 H5 K5 Hlt) as C5.
        push C5 through R5 as C. exact (Final _ _ C).
      * pose proof (short_term_debt_growth_step idx c0 bs st sh s5 s6
                      S5 K5 Hst H6) as C6.
        push C6 through R6 as C. exact (Final _ _ C).
      * pose proof (total_debt_growth_step idx c0 bs st lt sh s6 s7
                      S6 K6 Hst Hlt H7) as C7.
        push C7 through R7 as C. rewrite Hidx. exact (Final _ _ C).
  - (* the fractional change of a series *)
    intros vs.
    split; [apply pct_change_values_length |].
    split; [apply pct_change_values_first |]. split.
    + intros i Hi.
      exists (nth (S i) (ffill vs) NaN), (nth i (ffill vs) NaN).
      split; [apply ffill_padded; lia |].
      split; [apply ffill_padded; lia |].
      apply pct_change_values_next. exact Hi.
    + intros i c p Hc Hp Bc Bp Hnz Hq.
      assert (Hi : (S i < List.length vs)%nat).
      { destruct (Nat.lt_ge_cases (S i) (List.length vs)) as [H | H];
          [exact H |].
        rewrite (nth_overflow _ _ H) in Hc. discriminate. }
      rewrite (pct_change_values_next vs i Hi).
      rewrite (ffill_present vs (S i) c Hc), (ffill_present vs i p Hp).
      exact (fractional_change_close c p Bc Bp Hnz Hq).
  - apply pct_change_100_110_121.
  - apply Rabs_le. split.
    + apply Rle_trans with 0; [| lra].
      assert (0 < / 10 ^ 16) by (apply Rinv_0_lt_compat, pow_lt; lra). lra.
    + apply Rmult_le_reg_r with (10 ^ 16); [apply pow_lt; lra |].
      rewrite Rinv_l by (apply pow_nonzero; lra). simpl. lra.
Qed.

(** The theorem on the ACME scenario: the growth columns of its derived
    table. *)
Lemma growth_is_padded_fractional_change_witness :
  growth_column (ratios_of acme_state) "earnings-ps-growth"
    [(date 2018 12 1, Fin 1); (date 2019 12 1, Fin (11 / 10));
     (date 2020 12 1, Fin (121 / 100))] /\
  growth_column (ratios_of acme_state) "revenue-ps-growth"
    (series_op fdiv
       [(date 2018 12 1, Fin 1000); (date 2019 12 1, Fin 1100);
        (date 2020 12 1, Fin 1210)]
       [(date 2018 12 1, Fin 100); (date 2019 12 1, Fin 100);
        (date 2020 12 1, Fin 100)]) /\
  growth_column (ratios_of acme_state) "short-term-debt-ps-growth"
    (series_op fdiv
       [(date 2018 12 1, Fin 10); (date 2019 12 1, Fin 20);
        (date 2020 12 1, Fin 30)]
       [(date 2018 12 1, Fin 100); (date 2019 12 1, Fin 100);
        (date 2020 12 1, Fin 100)]).
Proof.
  destruct (growth_is_padded_fractional_change acme_state
              (snd (_load_report_csv_to_df "ratios" acme_state))
              (snd (ratios acme_state)) acme_ratios_export
              (ratios_of acme_state) eq_refl
              (run_shape (_load_report_csv_to_df "ratios" acme_state)
                 acme_ratios_export eq_refl)
              eq_refl acme_ratios_run)
    as [[_ [_ [_ [He [Hr [_ Hd]]]]]] _].
  split; [apply He; reflexivity |].
  split; [apply Hr; reflexivity |].
  destruct (Hd acme_balancesheet_export
              [(date 2018 12 1, Fin 10); (date 2019 12 1, Fin 20);
               (date 2020 12 1, Fin 30)]
              [(date 2018 12 1, Fin 100); (date 2019 12 1, Fin 100);
               (date 2020 12 1, Fin 100)]
              [(date 2018 12 1, Fin 100); (date 2019 12 1, Fin 100);
               (date 2020 12 1, Fin 100)]
              eq_refl eq_refl eq_refl eq_refl) as [_ [Hst _]].
  exact Hst.
Defined.
